(* ===== verification/_CoqProject ===== *)
-Q . S2P
Prelude.v
MemStruct.v
MemStructSpec.v
Buffer.v
Protocol.v
ValueOps.v
Common.v
Propagator.v
PropagatorSpec.v
PropagatorTrace.v
PropagatorRun.v
PropagatorProps.v
PropagatorTerm.v
PropagatorLocal.v
InternalTable.v
Receiver.v
ReceiverSpec.v
ReceiverProps.v
ReceiverTerm.v
ReceiverRun.v
System.v
RingProp.v
RingRecv.v
Ring.v
Timer.v
ZmqUtil.v
Wire.v
WireFits.v
WireProps.v
CommUtil.v
Stream.v
ConfigParser.v
QuiltDB.v
QuiltDBProps.v
Node.v
RingNode.v
Shutdown.v
ShutdownTurn.v
ShutdownInv.v
ShutdownRecv.v
ShutdownProps.v
Startup.v
StartupSafety.v
StartupLive.v
StartupProgress.v
HelloWorld.v
HelloWorldProps.v
Double.v
SparseMatrix.v
SparseMatrixProps.v
Pagerank.v
PagerankProps.v
PagarankData.v
Pagarank.v
PagarankProps.v
