(* ===== verification/Prelude.v ===== *)
(** * QuiltDB: a model of the database and its correctness

    QuiltDB (src/quiltdb under the repository's src/) keeps tables of values on a
    grid of nodes. A table belongs to one of two directions, horizontal or vertical;
    in each direction a node has a propagator, which ships what its threads added to
    the tables to its downstream neighbour in batches, and a receiver, which takes
    the batches of the upstream neighbours, adds them to the local tables and hands
    them on. In a ring the receiver also removes the node's own updates when they
    come back. The applications are under src/apps.

    ** Files and the code they model

    - [MemStruct]: utils/memstruct - the update buffer, the block of bytes that
      travels between nodes, with every offset, width and conversion written out.
      [MemStructSpec] has the abstract buffer and the refinement of each operation,
      [Buffer] the refinement of programs and the two iteration idioms.
    - [Protocol]: comm/protocol.hpp - the enumerations and message structs, their
      objects' bytes and sizes, and members read out of received blocks.
    - [ValueOps]: include/common.hpp - the value functions of a table, the class
      [ValueGroup] of laws the code relies on, and the integer instance of the
      helloworld application. [Common] has the node record, the addresses and
      [boost::unordered_map], whose traversal order is the class [UnorderedIter].
    - [Propagator]: comm/propagator - the object and its thread, a definition per
      method and message handler. [PropagatorSpec], [PropagatorTrace],
      [PropagatorRun], [PropagatorLocal]: the flush of a table, the account of a run,
      its invariant. [PropagatorProps], [PropagatorTerm]: the results.
    - [InternalTable]: internal_table/internal_table - the concurrent table, its
      operations cut into the atomic steps the concurrent map gives them.
    - [Receiver]: comm/receiver, in the same way; [ReceiverSpec], [ReceiverRun],
      [ReceiverProps], [ReceiverTerm].
    - [Timer]: utils/timer_thr with the handler of comm/propagator.cpp.
    - [ZmqUtil], [CommUtil]: utils/zmq_util and comm/comm_util, over an interface of
      the 0MQ socket.
    - [Wire]: every send and every receiving switch of the two threads' loops, of the
      application's calls and of the timer handler, on the bytes of 0MQ parts, with
      buffers passed between the threads by address; and a node - the threads of
      [Propagator] and [Receiver] with the sockets between and around them - over any
      transport of messages, whether sockets or queues of typed messages. [WireFits]:
      what the threads send can be put on the wire. [WireProps]: the two transports
      agree.
    - [Stream], [ConfigParser]: the standard library's integer
      extraction and utils/config_parser, over an interface of the YAML library.
    - [QuiltDB]: include/quiltdb and include/table.hpp - the database object with
      both pairs of threads. [QuiltDBProps] has its results; [System] joins a
      propagator to a receiver, [Node] takes that up to the calls of two
      applications.
    - [RingProp], [RingRecv]: one table in a propagator and in a receiver of a ring,
      down to the keys of a block and the order of its ranges. [Ring]: nodes - the two
      threads and the memory of the tables - and a block that travels along them, with
      the acknowledgements between the threads checked; [RingNode]: the same for
      databases that were started, with the results.
    - [Startup]: how a cluster starts - the semaphores, sockets and handshakes of
      [QuiltDB::Start] and of the threads it creates, as programs of instructions that
      every node's threads run interleaved. [StartupSafety]: what holds in every
      interleaving of one process; [StartupLive]: the invariant of the handshakes
      across the network; [StartupProgress]: start-up completes, or does not.
    - [Shutdown]: how a cluster shuts down - the threads and the calls of
      [QuiltDB::ShutDown] of all nodes with the sockets between them, and the order of
      events that is the specification. [ShutdownTurn]: the turns of the threads;
      [ShutdownInv], [ShutdownRecv]: the invariant - states and messages are given by
      the events that have happened - and that every act keeps it; [ShutdownProps]: the
      results.
    - [HelloWorld], [HelloWorldProps]: apps/helloworld. [SparseMatrix],
      [SparseMatrixProps]: the ranges, binary files and matrices of apps/pagerank.
      [Double]: binary64 by the Standard Library's [SpecFloat], with error bounds.
      [Pagerank], [PagerankProps]: the pagerank program. [PagarankData],
      [Pagarank], [PagarankProps]: its unfinished earlier copy under apps/pagarank,
      with its own copies of the ranges and files.

    ** How the code is rendered

    State is passed explicitly: a record per C++ object or per thread (its locals
    included), with the source's member names. A call returns [res]: a value, the
    fault that ends the process or leaves the language ([fault]: a failed CHECK, an
    access out of bounds, through a null pointer or of a member nobody assigned, a
    signed overflow or a conversion out of range), or
    [Block] for a receive that nothing answers. Integers are [Z] with the wrap of
    their width wherever the code computes; objects in messages, buffers and tables
    are bytes. A thread is a function from the messages it finds, in the order it
    finds them, to its state and what it has sent, in order ([out]); results
    quantify over the message sequences, hence over the interleavings. Application
    threads that share a table interleave by the atomic steps of the concurrent map.

    What is not the program's own code is a parameter with documented behaviour as
    its laws, each with an instance: [Allocator] (the padding of operator new),
    [UnorderedIter], [ValueGroup], [ZmqSocket] and [FifoSocket], [ZmqPoll] and
    [PollSocket] (zmq::poll reports a socket that has a message), [Addresses] (operator
    new gives an address in nobody's use), [Yaml], [Elem] and [ElemLaws].

    ** What is shown

    - End to end: [Node.increments_reach_neighbour] - from creating the databases on
      two nodes to the values in the downstream table - and [RingNode.lap_delivers]:
      once around a ring of any length, every table as it should be. A second lap is
      not: [RingNode.second_lap_doubles] and [RingNode.third_node_lost]. Nor can a line
      of nodes have an end: [RingNode.end_of_line_stops].
    - The propagator conserves updates, ships each table whole, and keeps the
      sequence ranges of this node and of its peers contiguous; its state follows the
      diagram of propagator.hpp, except that TERM waits for a timer tick too; it
      returns when it may, and sends nothing after its acknowledgement.
    - The receiver takes out exactly this node's updates and delivers the rest; its
      handshake and shutdown complete under stated conditions.
    - The buffer refines an abstract table of ranges and list of updates; concurrent
      increments are neither lost nor doubled; a node whose threads exchange bytes on
      sockets does what it does over queues of messages, and messages of a wrong size
      abort it where the code checks; routed messages and
      configurations round-trip; the database's directories refine a finite map and
      its thread registration a set; the helloworld program ends.
    - Start-up: in every interleaving no inproc socket is connected before it is
      bound, and in a cluster whose configurations fit together every node gets all
      four threads running; a receiver that expects too many propagators waits for
      ever, unreported.
    - Shut-down: a cluster of rings, started and used in any way until it is settled,
      implements the partial order of its events, so every interleaving ends, after 22
      events per node, with all calls and threads returned; no node's call returns
      before its neighbours have called too.
    - A matrix slice is a filter of every row; loading a block of rows. The pagerank
      program computes the iteration; the parts it cuts files and columns into, in
      floating point, cover them once. Arrays are read back from files as written.
    - Blocks of a table keep the size of its value type as long as the callers use
      that type.
    - Where the code does not do what it sets out to do, the theorem says what it
      does: in a ring updates are doubled or lost from the second lap on, merged or
      own-only batches abort the receiver, a batch time of 0 or less never ships, long
      timer intervals never sleep, an uninitialised callback, a shutdown race without
      upstream nodes, a socket that stays unconnected, a stored part that cannot be
      loaded, the offsets of apps/pagarank's slice.

    ** Bounds and fuel

    Loops over memory take their number of turns from what they walk: the update
    and range iterations of [MemStruct] from the capacities in the block, the
    queue loop of [Receiver.dedup_loop] one turn more than the queue is long, the
    polling loop of [HelloWorld] ten. [Buffer.for_updates_visits_all] and
    [HelloWorldProps.helloworld_ends] show that this is enough. [Startup] and
    [Shutdown] need no fuel: their runs are sequences of steps of a relation. Pagerank's
    loops run over the integers between their bounds; its one unbounded loop, a 32-bit
    counter below a larger bound, is [Block]. Results on runs assume that sizes fit
    their types, as [tick_fits], [Wire.fits], [range_ok] and the size hypotheses of
    [SparseMatrixProps] say.

    ** Not modelled

    Updates still under way while the nodes of a cluster shut down: for one thread the
    results of [PropagatorTerm] and [ReceiverTerm] allow them; in [Shutdown] the nodes
    may have been used in any way, but no message waits and no propagator has an update
    left when the calls begin.

    What a compiler makes of two loops of Propagator::PropagatorThrMain,
    propagator.cpp:485 and 832, that erase [update_iter] and then increment it. C++
    leaves that undefined, and every flush of a table with updates and every
    termination with updates pending runs into it. [Propagator.build_update_buff] and
    [Propagator.handle_internal_terminate] read the loops as what they mean to do: each
    entry is visited and erased once. All results on runs with updates depend on this
    reading, the absence of faults included.

    Of the messages, those of start-up (in [Startup], which tells them apart by size
    where the code does) and the acknowledgements that the receiver sends to the
    propagator's pair socket stay typed messages. A buffer passed by address is in
    [Wire] in the nodes' memory until its reader takes it over.

    Log output; the failure of sends, which the code turns into an abort; destructors
    other than the database's, which only free memory; time, apart from the timer's
    argument to nanosleep; the exhaustion of memory below sizes that cannot be
    represented; weak memory effects on the volatile state members. Outside [Wire] the
    threads are given typed messages, so what a sender that is no QuiltDB node may
    put into a message is considered there only. [Startup] has the 0MQ behaviour it
    needs built in: an inproc end point must be bound before it is connected to,
    messages on one connection keep their order, a PUB socket drops what no arrived
    subscription asks for. Of the applications, what they log is left out, Eigen is its element access and its
    operations with a number, Range::ToString is left out, and SMP::Write, which
    apps/pagarank calls and nobody defines, is a parameter; that program's text does
    not compile and is read with the slips listed in [Pagarank] put right. The
    repository's third-party directory, build files and scripts are not modelled. *)

(** This file: the outcome monad, fixed-width integers, little-endian bytes, and the
    generic lemmas on lists and folds that the component files use. *)
From coqutil Require Export Byte Word.LittleEndianList.
From Stdlib Require Export ZArith Lia.
From stdpp Require Export base gmap list numbers.
(** stdpp's list lemmas take precedence over the Standard Library's. *)
Export stdpp.list_basics.list stdpp.list_relations.list stdpp.list_monad.list stdpp.list_misc.list.
#[global] Open Scope Z_scope.

(** ** Outcomes *)

(** What stops a QuiltDB thread besides returning: a failed glog [CHECK] or a
    [LOG(FATAL)] aborts the process, [BadAlloc] is thrown, the other faults are
    undefined behaviour of the C++ abstract machine; [Overflow] is a signed overflow or
    a conversion of a value out of range. *)
Inductive fault :=
| CheckFailed
| OutOfBounds
| NullDeref
| Uninitialised
| BadAlloc
| Overflow.

#[export] Instance fault_eq_dec : EqDecision fault.
Proof. solve_decision. Defined.

(** [Block] is a blocking receive on a socket that has nothing to deliver. *)
Inductive res (A : Type) :=
| Ok (a : A)
| Fault (f : fault)
| Block.
Arguments Ok {A} a.
Arguments Fault {A} f.
Arguments Block {A}.

#[export] Instance res_eq_dec `{EqDecision A} : EqDecision (res A).
Proof. solve_decision. Defined.

#[export] Instance res_ret : MRet res := fun A a => Ok a.
#[export] Instance res_bind : MBind res := fun A B f m =>
  match m with
  | Ok a => f a
  | Fault e => Fault e
  | Block => Block
  end.
#[export] Instance res_fmap : FMap res := fun A B f m =>
  match m with
  | Ok a => Ok (f a)
  | Fault e => Fault e
  | Block => Block
  end.

(** [CHECK(b)] of glog. *)
Definition CHECK (b : bool) : res unit := if b then Ok tt else Fault CheckFailed.

Lemma bind_Ok {A B} (m : res A) (f : A -> res B) b :
  (m ≫= f) = Ok b <-> exists a, m = Ok a /\ f a = Ok b.
Proof. destruct m; split; [intros H; eauto|intros (?&[= ->]&H); done| | | |];
  intros H; try discriminate; by destruct H as (?&?&?). Qed.

Lemma CHECK_Ok b u : CHECK b = Ok u <-> b = true.
Proof. destruct b, u; simpl; naive_solver. Qed.

(** Inverts every [m ≫= f = Ok _] hypothesis of the context. *)
Ltac inv_bind :=
  repeat match goal with
  | H : (_ ≫= _) = Ok _ |- _ =>
      let a := fresh "v" in let Ha := fresh "Hv" in
      apply bind_Ok in H as (a & Ha & H)
  | H : CHECK _ = Ok _ |- _ => apply CHECK_Ok in H
  | H : Ok _ = Ok _ |- _ => injection H as H
  | H : Fault _ = Ok _ |- _ => discriminate H
  | H : Block = Ok _ |- _ => discriminate H
  end.

(** ** Monadic iteration *)

(** [for (x : l) s = f(x, s)] in the outcome monad. *)
Fixpoint foldM {A S} (f : A -> S -> res S) (l : list A) (s : S) : res S :=
  match l with
  | [] => Ok s
  | x :: l => s' ← f x s; foldM f l s'
  end.

Lemma foldM_app {A S} (f : A -> S -> res S) l1 l2 s :
  foldM f (l1 ++ l2) s = (foldM f l1 s ≫= foldM f l2).
Proof.
  revert s; induction l1 as [|x l1 IH]; intros s; simpl; [done|].
  by destruct (f x s); simpl.
Qed.

(** Invariant rule for [foldM]: the relation [R done s] says what holds after
    the elements [done] have been visited. *)
Lemma foldM_ind {A S} (R : list A -> S -> Prop) (f : A -> S -> res S) l s :
  R [] s ->
  (forall pre x suf s, l = pre ++ x :: suf -> R pre s ->
     exists s', f x s = Ok s' /\ R (pre ++ [x]) s') ->
  exists s', foldM f l s = Ok s' /\ R l s'.
Proof.
  intros H0 Hstep.
  enough (forall suf pre s, l = pre ++ suf -> R pre s ->
    exists s', foldM f suf s = Ok s' /\ R (pre ++ suf) s') as H.
  { apply (H l [] s); auto. }
  induction suf as [|x suf IH]; intros pre s1 -> HR; simpl.
  - exists s1. by rewrite app_nil_r.
  - destruct (Hstep pre x suf s1 eq_refl HR) as (s2 & Hf & HR2).
    destruct (IH (pre ++ [x]) s2) as (s3 & Hs3 & HR3); [by rewrite <- app_assoc|done|].
    exists s3. rewrite Hf; simpl. split; [done|]. by rewrite <- app_assoc in HR3.
Qed.

(** Partial-correctness rule for [foldM]. *)
Lemma foldM_Ok_ind {A S} (R : list A -> S -> Prop) (f : A -> S -> res S) l s s' :
  foldM f l s = Ok s' ->
  R [] s ->
  (forall pre x suf s s', l = pre ++ x :: suf -> R pre s -> f x s = Ok s' ->
     R (pre ++ [x]) s') ->
  R l s'.
Proof.
  intros Hf H0 Hstep.
  enough (forall suf pre s s', l = pre ++ suf -> R pre s -> foldM f suf s = Ok s' ->
    R (pre ++ suf) s') as H by (by apply (H l [] s s')).
  clear Hf H0 s s'. induction suf as [|x suf IH]; intros pre s s' Hl HR Hf; simpl in Hf.
  - injection Hf as <-. by rewrite app_nil_r.
  - inv_bind. replace (pre ++ x :: suf) with ((pre ++ [x]) ++ suf) by (by rewrite <- app_assoc).
    eapply IH; [|by eapply Hstep|done]. by rewrite <- app_assoc.
Qed.

(** ** Fixed-width integers *)

(** Conversion of a mathematical integer to [int32_t], [int64_t] and [size_t]
    on the two's complement LP64 platforms QuiltDB targets. *)
Definition wrap_i32 (z : Z) : Z := (z + 2147483648) mod 4294967296 - 2147483648.
Definition wrap_i64 (z : Z) : Z :=
  (z + 9223372036854775808) mod 18446744073709551616 - 9223372036854775808.
Definition wrap_u64 (z : Z) : Z := z mod 18446744073709551616.

Definition is_i32 (z : Z) : Prop := -2147483648 <= z < 2147483648.
Definition is_i64 (z : Z) : Prop := -9223372036854775808 <= z < 9223372036854775808.

Ltac int_lia :=
  unfold is_i32, is_i64, wrap_i32, wrap_i64, wrap_u64 in *; Z.to_euclidean_division_equations; lia.

Lemma wrap_i32_id z : is_i32 z -> wrap_i32 z = z.
Proof. int_lia. Qed.

Lemma wrap_i64_id z : is_i64 z -> wrap_i64 z = z.
Proof. int_lia. Qed.

Lemma wrap_u64_id z : 0 <= z < 18446744073709551616 -> wrap_u64 z = z.
Proof. int_lia. Qed.

Lemma wrap_i32_range z : is_i32 (wrap_i32 z).
Proof. int_lia. Qed.

Lemma wrap_i64_range z : is_i64 (wrap_i64 z).
Proof. int_lia. Qed.

Lemma wrap_i32_mod z : wrap_i32 (z mod 4294967296) = wrap_i32 z.
Proof. unfold wrap_i32. by rewrite Zplus_mod_idemp_l. Qed.

Lemma wrap_i64_mod z : wrap_i64 (z mod 18446744073709551616) = wrap_i64 z.
Proof. unfold wrap_i64. by rewrite Zplus_mod_idemp_l. Qed.

Lemma wrap_i32_u64 z : wrap_i32 (wrap_u64 z) = wrap_i32 z.
Proof. int_lia. Qed.

Lemma is_i32_i64 z : is_i32 z -> is_i64 z.
Proof. int_lia. Qed.

(** Wrapping addition is the group operation of the two's complement words:
    the inner wrap of a sum may be dropped. *)
Lemma wrap_i32_add_l a b : wrap_i32 (wrap_i32 a + b) = wrap_i32 (a + b).
Proof.
  unfold wrap_i32. f_equal.
  replace ((a + 2147483648) mod 4294967296 - 2147483648 + b + 2147483648)
    with ((a + 2147483648) mod 4294967296 + b) by lia.
  rewrite Zplus_mod_idemp_l. f_equal. lia.
Qed.

Lemma wrap_i32_add_r a b : wrap_i32 (a + wrap_i32 b) = wrap_i32 (a + b).
Proof. rewrite Z.add_comm, wrap_i32_add_l. f_equal. lia. Qed.

Lemma wrap_i32_sub_l a b : wrap_i32 (wrap_i32 a - b) = wrap_i32 (a - b).
Proof. rewrite <- !Z.add_opp_r. apply wrap_i32_add_l. Qed.

Lemma wrap_i32_congr a b : a mod 4294967296 = b mod 4294967296 -> wrap_i32 a = wrap_i32 b.
Proof. intros H. by rewrite <- (wrap_i32_mod a), <- (wrap_i32_mod b), H. Qed.

(** ** Little-endian bytes *)

(** The object representation of an [int32_t] or [int64_t]. *)
Definition i32_bytes (z : Z) : list byte := le_split 4 z.
Definition i64_bytes (z : Z) : list byte := le_split 8 z.
Definition bytes_i32 (bs : list byte) : Z := wrap_i32 (le_combine bs).
Definition bytes_i64 (bs : list byte) : Z := wrap_i64 (le_combine bs).

Lemma length_i32_bytes z : length (i32_bytes z) = 4%nat.
Proof. apply length_le_split. Qed.

Lemma length_i64_bytes z : length (i64_bytes z) = 8%nat.
Proof. apply length_le_split. Qed.

Lemma bytes_i32_i32_bytes z : bytes_i32 (i32_bytes z) = wrap_i32 z.
Proof.
  unfold bytes_i32, i32_bytes. rewrite le_combine_split.
  change (2 ^ (Z.of_nat 4 * 8)) with 4294967296. apply wrap_i32_mod.
Qed.

Lemma bytes_i64_i64_bytes z : bytes_i64 (i64_bytes z) = wrap_i64 z.
Proof.
  unfold bytes_i64, i64_bytes. rewrite le_combine_split.
  change (2 ^ (Z.of_nat 8 * 8)) with 18446744073709551616. apply wrap_i64_mod.
Qed.

Lemma bytes_i32_range bs : is_i32 (bytes_i32 bs).
Proof. apply wrap_i32_range. Qed.

Lemma i32_bytes_wrap z : i32_bytes (wrap_i32 z) = i32_bytes z.
Proof.
  unfold i32_bytes. rewrite le_split_mod, (le_split_mod z). f_equal.
  change (2 ^ (Z.of_nat 4 * 8)) with 4294967296. int_lia.
Qed.

Lemma i32_bytes_bytes_i32 bs : length bs = 4%nat -> i32_bytes (bytes_i32 bs) = bs.
Proof.
  intros H. unfold bytes_i32. rewrite i32_bytes_wrap. by apply split_le_combine'.
Qed.

(** ** Raw memory as byte lists *)

#[export] Instance byte_eq_decision : EqDecision byte := Byte.byte_eq_dec.

(** [n] bytes of [m] from index [i]. *)
Definition slice (m : list byte) (i n : nat) : list byte := take n (drop i m).

(** [m] with the bytes from index [i] replaced by [bs] (no effect past the end;
    the callers check the bounds first). *)
Definition splice (m : list byte) (i : nat) (bs : list byte) : list byte :=
  take i m ++ bs ++ drop (i + length bs) m.

Lemma length_splice m i bs :
  (i + length bs <= length m)%nat -> length (splice m i bs) = length m.
Proof. intros. unfold splice. rewrite !length_app, length_take, length_drop. lia. Qed.

Lemma slice_app_here a b c i n :
  i = length a -> n = length b -> slice (a ++ b ++ c) i n = b.
Proof. intros -> ->. unfold slice. by rewrite drop_app_length, take_app_length. Qed.

Lemma splice_app_here a b c i bs :
  i = length a -> length bs = length b -> splice (a ++ b ++ c) i bs = a ++ bs ++ c.
Proof.
  intros -> Hl. unfold splice. rewrite take_app_length. f_equal. f_equal.
  rewrite Hl, drop_app_ge by lia.
  replace (length a + length b - length a)%nat with (length b) by lia.
  by rewrite drop_app_length.
Qed.

Lemma take_app_here {A} (a b : list A) n : n = length a -> take n (a ++ b) = a.
Proof. intros ->. apply take_app_length. Qed.

Lemma drop_app_here {A} (a b : list A) n : n = length a -> drop n (a ++ b) = b.
Proof. intros ->. apply drop_app_length. Qed.

(** Records stored back to back: the bytes of a list of fixed-size records. *)
Lemma length_concat_fixed {A} (enc : A -> list byte) (n : nat) (l : list A) :
  Forall (fun x => length (enc x) = n) l ->
  length (concat (enc <$> l)) = (length l * n)%nat.
Proof.
  induction 1 as [|x l Hx _ IH]; [done|].
  rewrite fmap_cons; simpl. rewrite length_app, Hx, IH. lia.
Qed.

Lemma concat_split_at {A} (enc : A -> list byte) (l : list A) i x :
  l !! i = Some x ->
  concat (enc <$> l) = concat (enc <$> take i l) ++ enc x ++ concat (enc <$> drop (S i) l).
Proof.
  intros H. rewrite <- (take_drop_middle l i x H) at 1.
  by rewrite fmap_app, fmap_cons, concat_app.
Qed.

Lemma concat_insert_at {A} (enc : A -> list byte) (l : list A) i y :
  (i < length l)%nat ->
  concat (enc <$> <[i:=y]> l) = concat (enc <$> take i l) ++ enc y ++ concat (enc <$> drop (S i) l).
Proof.
  intros H. rewrite (concat_split_at enc _ i y) by (by apply list_lookup_insert_eq).
  rewrite take_insert_ge, drop_insert_lt by lia. done.
Qed.

Lemma length_concat_take {A} (enc : A -> list byte) (n : nat) (l : list A) i :
  Forall (fun x => length (enc x) = n) l -> (i <= length l)%nat ->
  length (concat (enc <$> take i l)) = (i * n)%nat.
Proof.
  intros H Hi. rewrite (length_concat_fixed enc n) by (by apply Forall_take).
  rewrite length_take. f_equal. lia.
Qed.

(** A filter that keeps nothing. *)
Lemma filter_none {A} (P : A -> Prop) `{forall x, Decision (P x)} (l : list A) :
  (forall x, x ∈ l -> ~ P x) -> filter P l = [].
Proof.
  induction l as [|x l IH]; intros Hn; [done|]. rewrite filter_cons, decide_False by (apply Hn; set_solver).
  apply IH. intros y Hy. apply Hn. set_solver.
Qed.

(** ** Automation *)

Create HintDb quilt.
Create Rewrite HintDb len.
#[export] Hint Resolve wrap_i32_range wrap_i64_range is_i32_i64 : quilt.
#[export] Hint Rewrite @length_app @length_cons length_i32_bytes length_i64_bytes : len.
#[export] Hint Rewrite @length_take @length_drop @length_replicate @length_fmap : len.

(** The encodings are used through their lemmas; concrete runs evaluate them
    with [vm_compute]. *)
#[global] Opaque i32_bytes i64_bytes bytes_i32 bytes_i64.

(** Length arithmetic on byte lists. *)
Ltac len_lia := autorewrite with len in *; cbn [length] in *; lia.
