(* ===== verification/MemStruct.v ===== *)
(** The update buffer of utils/memstruct.hpp and utils/memstruct.cpp: the flat
    memory block QuiltDB sends between nodes. The block is modelled at the byte
    level: the header fields of the C++ object and, behind it, the bytes of the
    node-range table and of the update area, addressed by offsets from [this]
    as the code addresses them. The second half gives the abstract view of a
    buffer and proves that every operation implements it. *)
From S2P Require Import Prelude.

(** ** The object *)

Definition sizeof_int32 : Z := 4.
Definition sizeof_int64 : Z := 8.
(** Eleven [int32_t] members. *)
Definition sizeof_UpdateBuffer : Z := 44.
(** One entry of the node-range table: node id, range start, range end. *)
Definition sizeof_node_range : Z := sizeof_int32 + sizeof_int64 + sizeof_int64.

Record UpdateRange := mkRange { st_ : Z; end_ : Z }.

Definition Contains (this _ur : UpdateRange) : bool :=
  if (st_ this <=? st_ _ur) && (end_ _ur <=? end_ this) then true else false.

Record UpdateBuffer := mkUpdateBuffer {
  buff_size_ : Z;
  update_size_ : Z;
  update_capacity_ : Z;
  node_range_capacity_ : Z;
  num_updates_occupied_ : Z;
  node_range_st_offset_ : Z;
  num_nodes_ : Z;
  update_st_offset_ : Z;
  update_end_offset_ : Z;
  update_iter_offset_ : Z;
  node_range_iter_offset_ : Z;
  (** the bytes at [this + sizeof(UpdateBuffer)] and above *)
  data_ : list byte
}.

#[export] Instance UpdateRange_eq_dec : EqDecision UpdateRange.
Proof. solve_decision. Defined.
#[export] Instance UpdateBuffer_eq_dec : EqDecision UpdateBuffer.
Proof. solve_decision. Defined.

Definition set_data (ub : UpdateBuffer) (d : list byte) : UpdateBuffer :=
  mkUpdateBuffer (buff_size_ ub) (update_size_ ub) (update_capacity_ ub)
    (node_range_capacity_ ub) (num_updates_occupied_ ub) (node_range_st_offset_ ub)
    (num_nodes_ ub) (update_st_offset_ ub) (update_end_offset_ ub)
    (update_iter_offset_ ub) (node_range_iter_offset_ ub) d.
Definition set_appended (ub : UpdateBuffer) (end_off num : Z) : UpdateBuffer :=
  mkUpdateBuffer (buff_size_ ub) (update_size_ ub) (update_capacity_ ub)
    (node_range_capacity_ ub) num (node_range_st_offset_ ub)
    (num_nodes_ ub) (update_st_offset_ ub) end_off
    (update_iter_offset_ ub) (node_range_iter_offset_ ub) (data_ ub).
Definition set_update_iter (ub : UpdateBuffer) (off : Z) : UpdateBuffer :=
  mkUpdateBuffer (buff_size_ ub) (update_size_ ub) (update_capacity_ ub)
    (node_range_capacity_ ub) (num_updates_occupied_ ub) (node_range_st_offset_ ub)
    (num_nodes_ ub) (update_st_offset_ ub) (update_end_offset_ ub)
    off (node_range_iter_offset_ ub) (data_ ub).
Definition set_node_range_iter (ub : UpdateBuffer) (off : Z) : UpdateBuffer :=
  mkUpdateBuffer (buff_size_ ub) (update_size_ ub) (update_capacity_ ub)
    (node_range_capacity_ ub) (num_updates_occupied_ ub) (node_range_st_offset_ ub)
    (num_nodes_ ub) (update_st_offset_ ub) (update_end_offset_ ub)
    (update_iter_offset_ ub) off (data_ ub).

(** Reads and writes through [reinterpret_cast]ed pointers [this + off]; an
    access that leaves the allocated block is undefined behaviour. *)
Definition in_block (ub : UpdateBuffer) (off : Z) (n : nat) : bool :=
  (sizeof_UpdateBuffer <=? off) &&
  (off + Z.of_nat n <=? sizeof_UpdateBuffer + Z.of_nat (length (data_ ub))).

Definition load (ub : UpdateBuffer) (off : Z) (n : nat) : res (list byte) :=
  if in_block ub off n
  then Ok (slice (data_ ub) (Z.to_nat (off - sizeof_UpdateBuffer)) n)
  else Fault OutOfBounds.

Definition store (ub : UpdateBuffer) (off : Z) (bs : list byte) : res UpdateBuffer :=
  if in_block ub off (length bs)
  then Ok (set_data ub (splice (data_ ub) (Z.to_nat (off - sizeof_UpdateBuffer)) bs))
  else Fault OutOfBounds.

Definition load_i32 ub off : res Z := bs ← load ub off 4; Ok (bytes_i32 bs).
Definition load_i64 ub off : res Z := bs ← load ub off 8; Ok (bytes_i64 bs).
Definition store_i32 ub off z : res UpdateBuffer := store ub off (i32_bytes z).
Definition store_i64 ub off z : res UpdateBuffer := store ub off (i64_bytes z).

(** The source operand of [memcpy(dst, src, n)]. *)
Definition memcpy_src (src : list byte) (n : Z) : res (list byte) :=
  if (0 <=? n) && (n <=? Z.of_nat (length src)) then Ok (take (Z.to_nat n) src)
  else Fault OutOfBounds.

(** ** Allocation and construction *)

(** What [new uint8_t[n]] leaves in the block is unspecified. *)
Class Allocator := {
  fresh_bytes : Z -> list byte;
  length_fresh_bytes : forall n, 0 <= n -> Z.of_nat (length (fresh_bytes n)) = n
}.

(** An allocator for concrete runs, which hands out blocks full of garbage. *)
#[export, refine] Instance junk_alloc : Allocator | 100 :=
  {| fresh_bytes n := replicate (Z.to_nat n) Byte.xab |}.
Proof. intros n Hn. rewrite length_replicate. lia. Defined.

Definition GetBuffSize (_update_size _update_capacity _node_range_capacity : Z) : Z :=
  let node_range_mem_size := wrap_i32 (wrap_u64 (_node_range_capacity * sizeof_node_range)) in
  let update_mem_size :=
    wrap_i32 (wrap_u64 (_update_capacity * wrap_u64 (sizeof_int64 + _update_size))) in
  wrap_i32 (wrap_u64 (wrap_i32 (node_range_mem_size + update_mem_size) + sizeof_UpdateBuffer)).

Definition AllocateBufferMemory `{Allocator} (_buff_size : Z) : res (list byte) :=
  if _buff_size <? 0 then Fault BadAlloc else Ok (fresh_bytes _buff_size).

(** The loop of the constructor that fills the node-range table with -1. *)
Fixpoint init_node_ranges (n : nat) (node_range_ptr : Z) (ub : UpdateBuffer) : res UpdateBuffer :=
  match n with
  | O => Ok ub
  | S n =>
      ub ← store_i32 ub node_range_ptr (-1);
      ub ← store_i64 ub (node_range_ptr + sizeof_int32) (-1);
      ub ← store_i64 ub (node_range_ptr + sizeof_int32 + sizeof_int64) (-1);
      init_node_ranges n (node_range_ptr + sizeof_node_range) ub
  end.

(** Placement new on [mem]. [node_range_iter_offset_] is not initialised by the
    constructor: it keeps the bytes of the block. *)
Definition UpdateBuffer_ctor (mem : list byte)
    (_buff_size _update_size _update_capacity _node_range_capacity : Z) : res UpdateBuffer :=
  if Z.of_nat (length mem) <? sizeof_UpdateBuffer then Fault OutOfBounds
  else
    let update_st := wrap_i32 (wrap_u64 (sizeof_UpdateBuffer +
                       wrap_u64 (_node_range_capacity * sizeof_node_range))) in
    let ub := mkUpdateBuffer _buff_size _update_size _update_capacity _node_range_capacity
                0 sizeof_UpdateBuffer 0 update_st update_st update_st
                (bytes_i32 (slice mem 40 4)) (drop 44 mem) in
    init_node_ranges (Z.to_nat _node_range_capacity) (node_range_st_offset_ ub) ub.

Definition CreateUpdateBuffer `{Allocator}
    (_update_size _update_capacity _node_range_capacity : Z) : res UpdateBuffer :=
  let buff_size := GetBuffSize _update_size _update_capacity _node_range_capacity in
  mem ← AllocateBufferMemory buff_size;
  UpdateBuffer_ctor mem buff_size _update_size _update_capacity _node_range_capacity.

(** ** Updates *)

(** Return code and the buffer after the call. *)
Definition AppendUpdate (ub : UpdateBuffer) (_key : Z) (_update : list byte)
    : res (Z * UpdateBuffer) :=
  if num_updates_occupied_ ub =? update_capacity_ ub then Ok (-1, ub)
  else
    let update_end := update_end_offset_ ub in
    ub ← store_i64 ub update_end _key;
    src ← memcpy_src _update (update_size_ ub);
    ub ← store ub (update_end + sizeof_int64) src;
    Ok (0, set_appended ub
             (wrap_i32 (wrap_u64 (update_end_offset_ ub + wrap_u64 (sizeof_int64 + update_size_ ub))))
             (wrap_i32 (num_updates_occupied_ ub + 1))).

Definition StartIteration (ub : UpdateBuffer) : Z * UpdateBuffer :=
  if num_updates_occupied_ ub =? 0 then (-1, ub)
  else (0, set_update_iter ub (update_st_offset_ ub)).

(** [None] is the NULL return; otherwise the key and the offset of the delta. *)
Definition NextUpdate (ub : UpdateBuffer) : res (option (Z * Z) * UpdateBuffer) :=
  if update_end_offset_ ub <=? update_iter_offset_ ub then Ok (None, ub)
  else
    let update_iter := update_iter_offset_ ub in
    key ← load_i64 ub update_iter;
    Ok (Some (key, update_iter + sizeof_int64),
        set_update_iter ub
          (wrap_i32 (wrap_u64 (update_iter + wrap_u64 (sizeof_int64 + update_size_ ub))))).

(** The loop of [GetUpdate]; the fuel is the loop bound [num_updates_occupied_]. *)
Fixpoint get_update_loop (ub : UpdateBuffer) (_key : Z) (n : nat) (update_ptr : Z)
    : res (option Z) :=
  match n with
  | O => Ok None
  | S n =>
      key ← load_i64 ub update_ptr;
      if key =? _key then Ok (Some (update_ptr + sizeof_int64))
      else get_update_loop ub _key n (update_ptr + wrap_u64 (sizeof_int64 + update_size_ ub))
  end.

Definition GetUpdate (ub : UpdateBuffer) (_key : Z) : res (option Z) :=
  get_update_loop ub _key (Z.to_nat (num_updates_occupied_ ub)) (update_st_offset_ ub).

(** ** Node ranges *)

(** The table walk the node-range operations share: the offset of the first
    entry whose node id passes [test]. *)
Fixpoint scan_node_ranges (ub : UpdateBuffer) (test : Z -> bool) (n : nat) (node_range_ptr : Z)
    : res (option Z) :=
  match n with
  | O => Ok None
  | S n =>
      node_id ← load_i32 ub node_range_ptr;
      if test node_id then Ok (Some node_range_ptr)
      else scan_node_ranges ub test n (node_range_ptr + sizeof_node_range)
  end.

Definition scan (ub : UpdateBuffer) (test : Z -> bool) : res (option Z) :=
  scan_node_ranges ub test (Z.to_nat (node_range_capacity_ ub)) (node_range_st_offset_ ub).

Definition UpdateNodeRange (ub : UpdateBuffer) (_node_id _key_st _key_end : Z)
    : res (Z * UpdateBuffer) :=
  found ← scan ub (fun id => id =? _node_id);
  match found with
  | Some ptr =>
      ub ← store_i64 ub (ptr + sizeof_int32) _key_st;
      ub ← store_i64 ub (ptr + sizeof_int32 + sizeof_int64) _key_end;
      Ok (0, ub)
  | None =>
      free ← scan ub (fun id => id =? -1);
      match free with
      | Some ptr =>
          ub ← store_i32 ub ptr _node_id;
          ub ← store_i64 ub (ptr + sizeof_int32) _key_st;
          ub ← store_i64 ub (ptr + sizeof_int32 + sizeof_int64) _key_end;
          Ok (0, ub)
      | None => Ok (-1, ub)
      end
  end.

(** The walk stops at the first unused entry or at the entry of the node. *)
Definition DeleteNodeRange (ub : UpdateBuffer) (_node_id : Z) : res (Z * UpdateBuffer) :=
  found ← scan ub (fun id => (id <? 0) || (id =? _node_id));
  match found with
  | Some ptr =>
      id ← load_i32 ub ptr;
      if id <? 0 then Ok (-1, ub)
      else ub ← store_i32 ub ptr (-1); Ok (0, ub)
  | None => Ok (-1, ub)
  end.

(** [Some] range is a [true] return with the out-parameters written. *)
Definition GetNodeRange (ub : UpdateBuffer) (_node_id : Z) : res (option UpdateRange) :=
  found ← scan ub (fun id => id =? _node_id);
  match found with
  | Some ptr =>
      st ← load_i64 ub (ptr + sizeof_int32);
      en ← load_i64 ub (ptr + sizeof_int32 + sizeof_int64);
      Ok (Some (mkRange st en))
  | None => Ok None
  end.

Definition StartNodeRangeIteration (ub : UpdateBuffer) : Z * UpdateBuffer :=
  (0, set_node_range_iter ub (node_range_st_offset_ ub)).

(** The [while] loop of [NextNodeRange], with the condition as it is written:
    [peer_id < 0 && node_range_iter_offset_ >= update_st_offset_].
    Each turn moves 20 bytes up, so a walk of more turns than the block has
    bytes has left the block. *)
Fixpoint next_node_range_loop (fuel : nat) (ub : UpdateBuffer) (peer_id : Z)
    : res (Z * UpdateBuffer) :=
  if (peer_id <? 0) && (update_st_offset_ ub <=? node_range_iter_offset_ ub) then
    match fuel with
    | O => Fault OutOfBounds
    | S fuel =>
        let ub := set_node_range_iter ub
          (wrap_i32 (wrap_u64 (node_range_iter_offset_ ub + sizeof_node_range))) in
        peer_id ← load_i32 ub (node_range_iter_offset_ ub);
        next_node_range_loop fuel ub peer_id
    end
  else Ok (peer_id, ub).

(** [None] is the return value -1 with the out-parameters untouched. *)
Definition NextNodeRange (ub : UpdateBuffer) : res (option (Z * UpdateRange) * UpdateBuffer) :=
  if update_st_offset_ ub <=? node_range_iter_offset_ ub then Ok (None, ub)
  else
    peer_id ← load_i32 ub (node_range_iter_offset_ ub);
    '(peer_id, ub) ← next_node_range_loop (length (data_ ub)) ub peer_id;
    if peer_id <? 0 then Ok (None, ub)
    else
      let ptr := node_range_iter_offset_ ub in
      st ← load_i64 ub (ptr + sizeof_int32);
      en ← load_i64 ub (ptr + sizeof_int32 + sizeof_int64);
      Ok (Some (peer_id, mkRange st en),
          set_node_range_iter ub (wrap_i32 (wrap_u64 (ptr + sizeof_node_range)))).

Definition get_update_size (ub : UpdateBuffer) : Z := update_size_ ub.
Definition get_update_capacity (ub : UpdateBuffer) : Z := update_capacity_ ub.
Definition get_buff_size (ub : UpdateBuffer) : Z := buff_size_ ub.

(** ** The buffer as it travels *)

(** The bytes of the object, header first, in declaration order. *)
Definition to_bytes (ub : UpdateBuffer) : list byte :=
  i32_bytes (buff_size_ ub) ++ i32_bytes (update_size_ ub) ++ i32_bytes (update_capacity_ ub) ++
  i32_bytes (node_range_capacity_ ub) ++ i32_bytes (num_updates_occupied_ ub) ++
  i32_bytes (node_range_st_offset_ ub) ++ i32_bytes (num_nodes_ ub) ++
  i32_bytes (update_st_offset_ ub) ++ i32_bytes (update_end_offset_ ub) ++
  i32_bytes (update_iter_offset_ ub) ++ i32_bytes (node_range_iter_offset_ ub) ++ data_ ub.

(** [reinterpret_cast<UpdateBuffer*>] of a received block. *)
Definition of_bytes (m : list byte) : res UpdateBuffer :=
  if Z.of_nat (length m) <? sizeof_UpdateBuffer then Fault OutOfBounds
  else
    let fld i := bytes_i32 (slice m (4 * i) 4) in
    Ok (mkUpdateBuffer (fld 0%nat) (fld 1%nat) (fld 2%nat) (fld 3%nat) (fld 4%nat) (fld 5%nat)
          (fld 6%nat) (fld 7%nat) (fld 8%nat) (fld 9%nat) (fld 10%nat) (drop 44 m)).

(** [DestroyUpdateBuffer] hands the block back to the allocator: the model
    keeps no heap, the value is simply not used afterwards. *)

(** ** The iteration idioms of the clients *)

(** [StartIteration(); d = NextUpdate(&k); while (d != NULL) { body; d = NextUpdate(&k); }]
    where the body reads [n] bytes behind [d]. The fuel is one more than the
    number of bytes of the block, and a loop that outlives it never returns. *)
Fixpoint updates_loop {S} (fuel : nat) (n : nat) (body : Z -> list byte -> S -> res S)
    (ub : UpdateBuffer) (s : S) : res (S * UpdateBuffer) :=
  match fuel with
  | O => Block
  | S fuel =>
      '(o, ub) ← NextUpdate ub;
      match o with
      | None => Ok (s, ub)
      | Some (key, ptr) =>
          delta ← load ub ptr n;
          s ← body key delta s;
          updates_loop fuel n body ub s
      end
  end.

Definition for_updates {S} (n : nat) (body : Z -> list byte -> S -> res S)
    (ub : UpdateBuffer) (s : S) : res (S * UpdateBuffer) :=
  let ub := (StartIteration ub).2 in
  updates_loop (Datatypes.S (length (data_ ub))) n body ub s.

(** [StartNodeRangeIteration(); id = NextNodeRange(..); while (id >= 0) {..}]. *)
Fixpoint ranges_loop {S} (fuel : nat) (body : Z -> UpdateRange -> S -> res S)
    (ub : UpdateBuffer) (s : S) : res (S * UpdateBuffer) :=
  match fuel with
  | O => Block
  | S fuel =>
      '(o, ub) ← NextNodeRange ub;
      match o with
      | None => Ok (s, ub)
      | Some (node_id, r) =>
          s ← body node_id r s;
          ranges_loop fuel body ub s
      end
  end.

Definition for_ranges {S} (body : Z -> UpdateRange -> S -> res S)
    (ub : UpdateBuffer) (s : S) : res (S * UpdateBuffer) :=
  let ub := (StartNodeRangeIteration ub).2 in
  ranges_loop (Datatypes.S (length (data_ ub))) body ub s.
