(* ===== verification/MemStructSpec.v ===== *)
(** The abstract view of an update buffer - a table of node ranges, a list of
    (key, delta) updates and two cursors - and the refinement of every
    operation of MemStruct to its abstract counterpart. *)
From S2P Require Import Prelude MemStruct.

(** ** Abstract buffers *)

Record abuf := mkAbuf {
  ab_usize : nat;                         (** bytes of one delta *)
  ab_cap : nat;                           (** updates the block has room for *)
  ab_slots : list (Z * UpdateRange);      (** node-range table; id -1 is a free entry *)
  ab_ups : list (Z * list byte);          (** updates in the order appended *)
  ab_iter : nat;                          (** next update of the iteration *)
  ab_niter : option nat                   (** next entry of the range iteration *)
}.

Definition a_with_slots (a : abuf) s : abuf :=
  mkAbuf (ab_usize a) (ab_cap a) s (ab_ups a) (ab_iter a) (ab_niter a).
Definition a_with_ups (a : abuf) u : abuf :=
  mkAbuf (ab_usize a) (ab_cap a) (ab_slots a) u (ab_iter a) (ab_niter a).
Definition a_with_iter (a : abuf) i : abuf :=
  mkAbuf (ab_usize a) (ab_cap a) (ab_slots a) (ab_ups a) i (ab_niter a).
Definition a_with_niter (a : abuf) j : abuf :=
  mkAbuf (ab_usize a) (ab_cap a) (ab_slots a) (ab_ups a) (ab_iter a) j.

Definition free_slot : Z * UpdateRange := (-1, mkRange (-1) (-1)).

Definition a_create (usize cap nslots : nat) : abuf :=
  mkAbuf usize cap (replicate nslots free_slot) [] 0 None.

Definition a_append (a : abuf) (k : Z) (d : list byte) : Z * abuf :=
  if decide (length (ab_ups a) = ab_cap a) then (-1, a)
  else (0, a_with_ups a (ab_ups a ++ [(k, take (ab_usize a) d)])).

Definition a_start (a : abuf) : Z * abuf :=
  match ab_ups a with [] => (-1, a) | _ => (0, a_with_iter a 0) end.

Definition a_next (a : abuf) : option (Z * list byte) * abuf :=
  match ab_ups a !! ab_iter a with
  | None => (None, a)
  | Some u => (Some u, a_with_iter a (S (ab_iter a)))
  end.

Definition a_get (a : abuf) (k : Z) : option nat :=
  fst <$> list_find (fun u => u.1 = k) (ab_ups a).

Definition find_slot (P : Z -> Prop) `{forall z, Decision (P z)} (s : list (Z * UpdateRange))
    : option (nat * (Z * UpdateRange)) := list_find (fun e => P e.1) s.

Definition a_update_range (a : abuf) (id st en : Z) : Z * abuf :=
  match find_slot (fun z => z = id) (ab_slots a) with
  | Some (i, _) => (0, a_with_slots a (<[i := (id, mkRange st en)]> (ab_slots a)))
  | None =>
      match find_slot (fun z => z = -1) (ab_slots a) with
      | Some (i, _) => (0, a_with_slots a (<[i := (id, mkRange st en)]> (ab_slots a)))
      | None => (-1, a)
      end
  end.

Definition a_delete_range (a : abuf) (id : Z) : Z * abuf :=
  match find_slot (fun z => z < 0 \/ z = id) (ab_slots a) with
  | Some (i, e) =>
      if decide (e.1 < 0) then (-1, a)
      else (0, a_with_slots a (<[i := (-1, e.2)]> (ab_slots a)))
  | None => (-1, a)
  end.

Definition a_get_range (a : abuf) (id : Z) : option UpdateRange :=
  (fun p => p.2.2) <$> find_slot (fun z => z = id) (ab_slots a).

Definition a_start_ranges (a : abuf) : Z * abuf := (0, a_with_niter a (Some 0%nat)).

Definition a_next_range (a : abuf) : option (Z * UpdateRange) * abuf :=
  match ab_niter a with
  | None => (None, a)
  | Some j =>
      match ab_slots a !! j with
      | None => (None, a)
      | Some e => if decide (e.1 < 0) then (None, a)
                  else (Some e, a_with_niter a (Some (S j)))
      end
  end.

(** ** Representation *)

Definition enc_slot (e : Z * UpdateRange) : list byte :=
  i32_bytes e.1 ++ i64_bytes (st_ e.2) ++ i64_bytes (end_ e.2).
Definition enc_update (u : Z * list byte) : list byte := i64_bytes u.1 ++ u.2.

Definition slot_ok (e : Z * UpdateRange) : Prop :=
  is_i32 e.1 /\ is_i64 (st_ e.2) /\ is_i64 (end_ e.2).
Definition update_ok (usize : nat) (u : Z * list byte) : Prop :=
  is_i64 u.1 /\ length u.2 = usize.

(** Byte offsets of the update area and of the whole block. *)
Definition step (a : abuf) : Z := 8 + Z.of_nat (ab_usize a).
Definition slot_off (i : nat) : Z := 44 + 20 * Z.of_nat i.
Definition update_off (a : abuf) (i : nat) : Z :=
  slot_off (length (ab_slots a)) + Z.of_nat i * step a.
Definition delta_off (a : abuf) (i : nat) : Z := update_off a i + 8.
Definition total (a : abuf) : Z := update_off a (ab_cap a).

Record repr (ub : UpdateBuffer) (a : abuf) : Prop := mkRepr {
  r_hdr : ub = mkUpdateBuffer (total a) (Z.of_nat (ab_usize a)) (Z.of_nat (ab_cap a))
            (Z.of_nat (length (ab_slots a))) (Z.of_nat (length (ab_ups a))) 44 0
            (update_off a 0) (update_off a (length (ab_ups a))) (update_off a (ab_iter a))
            (node_range_iter_offset_ ub) (data_ ub);
  r_data : exists rest,
    data_ ub = concat (enc_slot <$> ab_slots a) ++ concat (enc_update <$> ab_ups a) ++ rest /\
    length rest = ((ab_cap a - length (ab_ups a)) * (8 + ab_usize a))%nat;
  r_slots : Forall slot_ok (ab_slots a);
  r_ups : Forall (update_ok (ab_usize a)) (ab_ups a);
  r_len : (length (ab_ups a) <= ab_cap a)%nat;
  r_iter : (ab_iter a <= length (ab_ups a))%nat;
  r_niter : is_i32 (node_range_iter_offset_ ub) /\
    match ab_niter a with
    | Some j => node_range_iter_offset_ ub = slot_off j /\ (j <= length (ab_slots a))%nat
    | None => True
    end;
  r_bound : total a < 2147483648 /\ Z.of_nat (ab_usize a) < 2147483648
}.

(** ** Reading and writing the block *)

Lemma load_at ub pre mid post off n :
  data_ ub = pre ++ mid ++ post -> off = 44 + Z.of_nat (length pre) -> n = length mid ->
  load ub off n = Ok mid.
Proof.
  intros Hd -> ->. unfold load, in_block, sizeof_UpdateBuffer. rewrite Hd, !length_app.
  replace (44 <=? 44 + Z.of_nat (length pre)) with true by (symmetry; apply Z.leb_le; lia).
  replace (_ <=? _) with true by (symmetry; apply Z.leb_le; lia). simpl.
  f_equal. apply slice_app_here; lia.
Qed.

Lemma store_at ub pre mid post off bs :
  data_ ub = pre ++ mid ++ post -> off = 44 + Z.of_nat (length pre) -> length bs = length mid ->
  store ub off bs = Ok (set_data ub (pre ++ bs ++ post)).
Proof.
  intros Hd -> Hl. unfold store, in_block, sizeof_UpdateBuffer. rewrite Hd, !length_app, Hl.
  replace (44 <=? 44 + Z.of_nat (length pre)) with true by (symmetry; apply Z.leb_le; lia).
  replace (_ <=? _) with true by (symmetry; apply Z.leb_le; lia). simpl.
  do 2 f_equal. apply splice_app_here; lia.
Qed.

Lemma load_i32_at ub pre z post off :
  data_ ub = pre ++ i32_bytes z ++ post -> off = 44 + Z.of_nat (length pre) -> is_i32 z ->
  load_i32 ub off = Ok z.
Proof.
  intros Hd Ho Hz. unfold load_i32. rewrite (load_at ub pre (i32_bytes z) post) by done. simpl.
  by rewrite bytes_i32_i32_bytes, wrap_i32_id.
Qed.

Lemma load_i64_at ub pre z post off :
  data_ ub = pre ++ i64_bytes z ++ post -> off = 44 + Z.of_nat (length pre) -> is_i64 z ->
  load_i64 ub off = Ok z.
Proof.
  intros Hd Ho Hz. unfold load_i64. rewrite (load_at ub pre (i64_bytes z) post) by done. simpl.
  by rewrite bytes_i64_i64_bytes, wrap_i64_id.
Qed.

Lemma length_enc_slot e : length (enc_slot e) = 20%nat.
Proof. unfold enc_slot. len_lia. Qed.

Lemma length_enc_slots s : length (concat (enc_slot <$> s)) = (length s * 20)%nat.
Proof. apply length_concat_fixed, Forall_true, length_enc_slot. Qed.

Lemma length_enc_update usize u : update_ok usize u -> length (enc_update u) = (8 + usize)%nat.
Proof. intros [_ <-]. unfold enc_update. len_lia. Qed.

Lemma length_enc_updates usize l :
  Forall (update_ok usize) l -> length (concat (enc_update <$> l)) = (length l * (8 + usize))%nat.
Proof. intros H. apply length_concat_fixed. eapply List.Forall_impl; [apply length_enc_update|done]. Qed.

#[export] Hint Rewrite length_enc_slot length_enc_slots : len.

(** A well-formed block, seen from one entry of the range table: the bytes
    around it, and what overwriting it does to the abstract buffer. *)
Lemma slot_frame ub a i e :
  repr ub a -> ab_slots a !! i = Some e ->
  exists P S, data_ ub = P ++ enc_slot e ++ S /\ Z.of_nat (length P) = 20 * Z.of_nat i /\
    forall ub' e', slot_ok e' -> ub' = set_data ub (P ++ enc_slot e' ++ S) ->
      repr ub' (a_with_slots a (<[i:=e']> (ab_slots a))).
Proof.
  intros [Hh (rest & Hd & Hr) Hs Hu Hl Hi Hn Hb] He.
  pose proof (lookup_lt_Some _ _ _ He).
  exists (concat (enc_slot <$> take i (ab_slots a))),
    (concat (enc_slot <$> drop (S i) (ab_slots a)) ++ concat (enc_update <$> ab_ups a) ++ rest).
  split_and!.
  - by rewrite Hd, (concat_split_at _ _ _ _ He), <- !app_assoc.
  - rewrite (length_concat_take _ 20) by (try lia; apply Forall_true, length_enc_slot). lia.
  - intros ub' e' He' ->. rewrite Hh.
    split; simpl; unfold total, update_off, step in *; simpl in *; rewrite ?length_insert; try done.
    + exists rest. by rewrite concat_insert_at, <- !app_assoc by done.
    + by apply Forall_insert.
Qed.

(** The same from one update of the update area. *)
Lemma update_frame ub a i u :
  repr ub a -> ab_ups a !! i = Some u ->
  exists P S, data_ ub = P ++ enc_update u ++ S /\
    44 + Z.of_nat (length P) = update_off a i /\
    forall ub' u', update_ok (ab_usize a) u' -> ub' = set_data ub (P ++ enc_update u' ++ S) ->
      repr ub' (a_with_ups a (<[i:=u']> (ab_ups a))).
Proof.
  intros [Hh (rest & Hd & Hr) Hs Hu Hl Hi Hn Hb] He.
  pose proof (lookup_lt_Some _ _ _ He).
  exists (concat (enc_slot <$> ab_slots a) ++ concat (enc_update <$> take i (ab_ups a))),
    (concat (enc_update <$> drop (S i) (ab_ups a)) ++ rest).
  split_and!.
  - by rewrite Hd, (concat_split_at _ _ _ _ He), <- !app_assoc.
  - rewrite length_app, length_enc_slots, (length_concat_take _ (8 + ab_usize a)); [|eapply List.Forall_impl; [apply length_enc_update|done]|lia].
    unfold update_off, slot_off, step. lia.
  - intros ub' u' Hu' ->. rewrite Hh.
    split; simpl; unfold total, update_off, step in *; simpl in *; rewrite ?length_insert; try done.
    + exists rest. by rewrite concat_insert_at, <- !app_assoc by done.
    + by apply Forall_insert.
Qed.

Lemma repr_slot_ok ub a i e : repr ub a -> ab_slots a !! i = Some e -> slot_ok e.
Proof. intros H He. eapply Forall_lookup_1; [apply (r_slots _ _ H)|done]. Qed.

Lemma repr_update_ok ub a i u : repr ub a -> ab_ups a !! i = Some u -> update_ok (ab_usize a) u.
Proof. intros H He. eapply Forall_lookup_1; [apply (r_ups _ _ H)|done]. Qed.

Lemma load_slot_id ub a i e :
  repr ub a -> ab_slots a !! i = Some e -> load_i32 ub (slot_off i) = Ok e.1.
Proof.
  intros H He. destruct (slot_frame _ _ _ _ H He) as (P & S & Hd & Hl & _).
  unfold enc_slot in Hd. rewrite <- !app_assoc in Hd.
  eapply load_i32_at; [done| |apply (repr_slot_ok _ _ _ _ H He)]. unfold slot_off. lia.
Qed.

Lemma load_slot_st ub a i e :
  repr ub a -> ab_slots a !! i = Some e -> load_i64 ub (slot_off i + 4) = Ok (st_ e.2).
Proof.
  intros H He. destruct (slot_frame _ _ _ _ H He) as (P & S & Hd & Hl & _).
  unfold enc_slot in Hd. rewrite <- !app_assoc, (app_assoc P) in Hd.
  eapply load_i64_at; [done| |apply (repr_slot_ok _ _ _ _ H He)]. unfold slot_off. len_lia.
Qed.

Lemma load_slot_end ub a i e :
  repr ub a -> ab_slots a !! i = Some e -> load_i64 ub (slot_off i + 4 + 8) = Ok (end_ e.2).
Proof.
  intros H He. destruct (slot_frame _ _ _ _ H He) as (P & S & Hd & Hl & _).
  unfold enc_slot in Hd. rewrite <- !app_assoc, (app_assoc P), (app_assoc (P ++ _)) in Hd.
  eapply load_i64_at; [done| |apply (repr_slot_ok _ _ _ _ H He)]. unfold slot_off. len_lia.
Qed.

Lemma load_update_key ub a i u :
  repr ub a -> ab_ups a !! i = Some u -> load_i64 ub (update_off a i) = Ok u.1.
Proof.
  intros H He. destruct (update_frame _ _ _ _ H He) as (P & S & Hd & Hl & _).
  unfold enc_update in Hd. rewrite <- !app_assoc in Hd.
  eapply load_i64_at; [done|by rewrite Hl|apply (repr_update_ok _ _ _ _ H He)].
Qed.

Lemma load_delta ub a i u :
  repr ub a -> ab_ups a !! i = Some u -> load ub (delta_off a i) (ab_usize a) = Ok u.2.
Proof.
  intros H He. destruct (update_frame _ _ _ _ H He) as (P & S & Hd & Hl & _).
  destruct (repr_update_ok _ _ _ _ H He) as [_ Hu].
  unfold enc_update in Hd. rewrite <- !app_assoc, (app_assoc P) in Hd.
  eapply load_at; [done| |done]. unfold delta_off. len_lia.
Qed.

Lemma store_delta ub a i u d :
  repr ub a -> ab_ups a !! i = Some u -> length d = ab_usize a ->
  exists ub', store ub (delta_off a i) d = Ok ub' /\
    repr ub' (a_with_ups a (<[i:=(u.1, d)]> (ab_ups a))).
Proof.
  intros H He Hd'. destruct (update_frame _ _ _ _ H He) as (P & S & Hd & Hl & Hw).
  destruct (repr_update_ok _ _ _ _ H He) as [Hk Hu].
  unfold enc_update in Hd. rewrite <- !app_assoc, (app_assoc P) in Hd.
  erewrite store_at; [|exact Hd|unfold delta_off; len_lia|lia].
  eexists; split; [done|]. apply Hw; [done|]. unfold enc_update; simpl. by rewrite <- !app_assoc.
Qed.

(** ** Walks over the two tables *)

Lemma scan_spec ub a test (P : Z -> Prop) `{forall z, Decision (P z)} :
  (forall z, test z = bool_decide (P z)) -> repr ub a ->
  scan ub test = Ok ((fun p => slot_off p.1) <$> find_slot P (ab_slots a)).
Proof.
  intros Ht Hr. unfold scan, find_slot.
  assert (node_range_capacity_ ub = Z.of_nat (length (ab_slots a)) /\
          node_range_st_offset_ ub = slot_off 0) as [-> ->] by (rewrite (r_hdr _ _ Hr); done).
  rewrite Nat2Z.id.
  enough (forall suf pre, ab_slots a = pre ++ suf ->
    scan_node_ranges ub test (length suf) (slot_off (length pre)) =
    Ok ((fun p => slot_off (length pre + p.1)) <$> list_find (fun e => P e.1) suf)) as Hw.
  { by apply (Hw _ []). }
  induction suf as [|e suf IH]; intros pre Hs; [done|]. simpl.
  rewrite (load_slot_id ub a _ e) by (try done; by rewrite Hs, list_lookup_middle). simpl.
  rewrite Ht. case_decide; case_bool_decide; try done; simpl.
  - by rewrite Nat.add_0_r.
  - replace (slot_off (length pre) + sizeof_node_range) with (slot_off (length (pre ++ [e])))
      by (unfold slot_off, sizeof_node_range, sizeof_int32, sizeof_int64; len_lia).
    rewrite IH by (by rewrite <- app_assoc). f_equal.
    destruct (list_find _ suf) as [[i s]|]; simpl; [|done]. do 2 f_equal. len_lia.
Qed.

Lemma get_update_loop_spec ub a k :
  repr ub a -> GetUpdate ub k = Ok (delta_off a <$> a_get a k).
Proof.
  intros Hr. unfold GetUpdate, a_get.
  assert (num_updates_occupied_ ub = Z.of_nat (length (ab_ups a)) /\
          update_st_offset_ ub = update_off a 0 /\
          update_size_ ub = Z.of_nat (ab_usize a)) as (-> & -> & Hus)
    by (rewrite (r_hdr _ _ Hr); done).
  rewrite Nat2Z.id.
  enough (forall suf pre, ab_ups a = pre ++ suf ->
    get_update_loop ub k (length suf) (update_off a (length pre)) =
    Ok ((fun p => delta_off a (length pre + p.1)) <$> list_find (fun u => u.1 = k) suf)) as Hw.
  { rewrite (Hw _ []) by done. by destruct (list_find _ _) as [[]|]. }
  induction suf as [|u suf IH]; intros pre Hs; [done|]. simpl.
  rewrite (load_update_key ub a _ u) by (try done; by rewrite Hs, list_lookup_middle). simpl.
  pose proof (r_bound _ _ Hr) as Hb. pose proof (r_len _ _ Hr) as Hl. rewrite Hs in Hl.
  case_decide as Hk.
  - rewrite (proj2 (Z.eqb_eq _ _) Hk). simpl. by rewrite Nat.add_0_r.
  - rewrite (proj2 (Z.eqb_neq _ _) Hk), Hus.
    replace (update_off a (length pre) + wrap_u64 (sizeof_int64 + Z.of_nat (ab_usize a)))
      with (update_off a (length (pre ++ [u]))).
    2: { unfold total, update_off, slot_off, step in *. rewrite length_app in *; simpl in *.
         rewrite wrap_u64_id by (unfold sizeof_int64; nia). unfold sizeof_int64. lia. }
    rewrite IH by (by rewrite <- app_assoc). f_equal.
    destruct (list_find _ suf) as [[i s]|]; simpl; [|done]. do 2 f_equal. len_lia.
Qed.

(** Overwriting an entry of the range table, as the operations do it. *)
Lemma store_slot_range ub a i e st en :
  repr ub a -> ab_slots a !! i = Some e -> is_i64 st -> is_i64 en ->
  exists ub', (ub1 ← store_i64 ub (slot_off i + 4) st; store_i64 ub1 (slot_off i + 4 + 8) en)
    = Ok ub' /\
    repr ub' (a_with_slots a (<[i := (e.1, mkRange st en)]> (ab_slots a))).
Proof.
  intros H He Hst Hen. destruct (slot_frame _ _ _ _ H He) as (P & S & Hd & Hl & Hw).
  unfold enc_slot in Hd. rewrite <- !app_assoc, (app_assoc P) in Hd.
  unfold store_i64. erewrite store_at; [|exact Hd|unfold slot_off; len_lia|len_lia]. simpl.
  erewrite (store_at _ ((P ++ i32_bytes e.1) ++ i64_bytes st) (i64_bytes (end_ e.2)));
    [|simpl; by rewrite <- !app_assoc|unfold slot_off; len_lia|len_lia].
  eexists; split; [done|]. apply Hw.
  - destruct (repr_slot_ok _ _ _ _ H He) as [? _]. done.
  - unfold enc_slot; simpl. by rewrite <- !app_assoc.
Qed.

Lemma store_slot_id ub a i e id :
  repr ub a -> ab_slots a !! i = Some e -> is_i32 id ->
  exists ub', store_i32 ub (slot_off i) id = Ok ub' /\
    repr ub' (a_with_slots a (<[i := (id, e.2)]> (ab_slots a))).
Proof.
  intros H He Hid. destruct (slot_frame _ _ _ _ H He) as (P & S & Hd & Hl & Hw).
  unfold enc_slot in Hd. rewrite <- !app_assoc in Hd.
  unfold store_i32. erewrite store_at; [|exact Hd|unfold slot_off; lia|len_lia].
  eexists; split; [done|]. apply Hw.
  - destruct (repr_slot_ok _ _ _ _ H He) as [_ ?]. done.
  - unfold enc_slot; simpl. by rewrite <- !app_assoc.
Qed.

Lemma find_slot_Some (P : Z -> Prop) `{forall z, Decision (P z)} s i e :
  find_slot P s = Some (i, e) -> s !! i = Some e /\ P e.1.
Proof. intros [? [? _]]%list_find_Some. done. Qed.

(** ** Refinement of the operations *)

Lemma AppendUpdate_refines ub a k d :
  repr ub a -> is_i64 k -> (ab_usize a <= length d)%nat ->
  exists ub', AppendUpdate ub k d = Ok ((a_append a k d).1, ub') /\ repr ub' (a_append a k d).2.
Proof.
  intros Hr Hk Hd. pose proof Hr as [Hh (rest & Hdata & Hrest) Hs Hu Hl Hi Hn Hb].
  unfold AppendUpdate, a_append.
  assert (num_updates_occupied_ ub = Z.of_nat (length (ab_ups a)) /\
          update_capacity_ ub = Z.of_nat (ab_cap a)) as [-> ->] by (rewrite Hh; done).
  case_decide as Hfull.
  { rewrite (proj2 (Z.eqb_eq _ _)) by lia. eauto. }
  rewrite (proj2 (Z.eqb_neq _ _)) by lia.
  assert (length (take 8 rest) = 8%nat /\
          length (take (ab_usize a) (drop 8 rest)) = ab_usize a) as [Hr1 Hr2].
  { rewrite !length_take, length_drop. nia. }
  set (P := concat (enc_slot <$> ab_slots a) ++ concat (enc_update <$> ab_ups a)).
  assert (44 + Z.of_nat (length P) = update_off a (length (ab_ups a))) as HP.
  { unfold P. rewrite length_app, length_enc_slots, (length_enc_updates (ab_usize a)) by done.
    unfold update_off, slot_off, step. lia. }
  assert (data_ ub = P ++ take 8 rest ++ take (ab_usize a) (drop 8 rest) ++ drop (ab_usize a) (drop 8 rest)) as HD.
  { unfold P. by rewrite Hdata, !take_drop, <- app_assoc. }
  assert (update_end_offset_ ub = update_off a (length (ab_ups a)) /\ update_size_ ub = Z.of_nat (ab_usize a)) as [-> Hus] by (rewrite Hh; done).
  unfold store_i64. erewrite store_at; [|exact HD|by rewrite HP|len_lia]. simpl.
  unfold memcpy_src; simpl. rewrite Hus, !(proj2 (Z.leb_le _ _)) by lia. simpl. rewrite Nat2Z.id.
  erewrite (store_at _ (P ++ i64_bytes k) (take (ab_usize a) (drop 8 rest)));
    [|simpl; by rewrite <- !app_assoc|unfold sizeof_int64; len_lia|len_lia]. simpl.
  eexists; split; [done|].
  assert (update_off a (S (length (ab_ups a))) <= total a) by (unfold total, update_off, step; nia).
  assert (0 <= update_off a (length (ab_ups a))) by (unfold update_off, slot_off, step; nia).
  rewrite Hh; unfold set_appended, set_data; simpl.
  rewrite wrap_i32_u64, (wrap_u64_id (sizeof_int64 + _)) by
    (unfold total, update_off, slot_off, step, sizeof_int64 in *; nia).
  rewrite !wrap_i32_id by (unfold is_i32, total, update_off, slot_off, step, sizeof_int64 in *; nia).
  split; simpl; unfold total, update_off, step in *; simpl in *; rewrite ?length_app; simpl; try done.
  - f_equal; unfold sizeof_int64; lia.
  - exists (drop (ab_usize a) (drop 8 rest)). split.
    + unfold P. rewrite fmap_app, concat_app; simpl. unfold enc_update at 2; simpl.
      by rewrite app_nil_r, <- !app_assoc.
    + rewrite !length_drop, Hrest. nia.
  - apply Forall_app; split; [done|]. apply Forall_singleton. split; [done|]. simpl.
    rewrite length_take. lia.
  - lia.
  - lia.
Qed.

Lemma StartIteration_refines ub a :
  repr ub a ->
  (StartIteration ub).1 = (a_start a).1 /\ repr (StartIteration ub).2 (a_start a).2.
Proof.
  intros Hr. pose proof Hr as [Hh Hd Hs Hu Hl Hi Hn Hb].
  unfold StartIteration, a_start.
  assert (num_updates_occupied_ ub = Z.of_nat (length (ab_ups a)) /\
    update_st_offset_ ub = update_off a 0) as [-> ->] by (rewrite Hh; done).
  destruct (ab_ups a) as [|u l] eqn:E; simpl; [done|]. split; [done|].
  rewrite Hh. unfold set_update_iter; simpl.
  split; simpl; unfold total, update_off, step in *; simpl in *; rewrite ?E in *; try done. lia.
Qed.

Lemma NextUpdate_refines ub a :
  repr ub a ->
  exists ub', NextUpdate ub =
      Ok ((fun u => (u.1, delta_off a (ab_iter a))) <$> (a_next a).1, ub') /\
    repr ub' (a_next a).2.
Proof.
  intros Hr. pose proof Hr as [Hh Hd Hs Hu Hl Hi Hn Hb].
  unfold NextUpdate, a_next.
  assert (update_end_offset_ ub = update_off a (length (ab_ups a)) /\
    update_iter_offset_ ub = update_off a (ab_iter a) /\
    update_size_ ub = Z.of_nat (ab_usize a)) as (-> & Hit & ->) by (rewrite Hh; done).
  rewrite Hit. destruct (ab_ups a !! ab_iter a) as [u|] eqn:E; simpl.
  - pose proof (lookup_lt_Some _ _ _ E) as Hlt.
    rewrite (proj2 (Z.leb_gt _ _)) by (unfold update_off, step; nia).
    rewrite (load_update_key _ _ _ _ Hr E). simpl. eexists; split; [done|].
    rewrite wrap_i32_u64, (wrap_u64_id (sizeof_int64 + _)), wrap_i32_id by
      (unfold is_i32, total, update_off, slot_off, step, sizeof_int64 in *; nia).
    rewrite Hh. unfold set_update_iter; simpl.
    split; simpl; unfold total, update_off, step in *; simpl in *; try done.
    f_equal. unfold sizeof_int64. lia.
  - apply lookup_ge_None in E.
    rewrite (proj2 (Z.leb_le _ _)) by (unfold update_off, step; nia). eauto.
Qed.

Lemma UpdateNodeRange_refines ub a id st en :
  repr ub a -> is_i32 id -> is_i64 st -> is_i64 en ->
  exists ub', UpdateNodeRange ub id st en = Ok ((a_update_range a id st en).1, ub') /\
    repr ub' (a_update_range a id st en).2.
Proof.
  intros Hr Hid Hst Hen. unfold UpdateNodeRange, a_update_range.
  rewrite (scan_spec ub a (fun z => z =? id) (fun z => z = id)) by (try done; intros; case_bool_decide; lia).
  simpl. destruct (find_slot (fun z => z = id) (ab_slots a)) as [[i e]|] eqn:E; simpl.
  - apply find_slot_Some in E as [E Hide].
    destruct (store_slot_range ub a i e st en Hr E Hst Hen) as (ub' & Hw & Hr').
    unfold sizeof_int32, sizeof_int64. apply bind_Ok in Hw as (ub1 & Hw1 & Hw2).
    rewrite Hw1; simpl; rewrite Hw2; simpl. subst id. eauto.
  - rewrite (scan_spec ub a _ (fun z => z = -1)) by (try done; intros; case_bool_decide; lia).
    simpl. destruct (find_slot (fun z => z = -1) (ab_slots a)) as [[i e]|] eqn:E'; simpl; [|eauto].
    apply find_slot_Some in E' as [E' _].
    destruct (store_slot_id ub a i e id Hr E' Hid) as (ub0 & Hw0 & Hr0).
    rewrite Hw0; simpl.
    assert (ab_slots (a_with_slots a (<[i:=(id, e.2)]> (ab_slots a))) !! i = Some (id, e.2)) as Hi
      by (apply list_lookup_insert_eq; by eapply lookup_lt_Some).
    destruct (store_slot_range ub0 _ i (id, e.2) st en Hr0 Hi Hst Hen) as (ub' & Hw & Hr').
    unfold sizeof_int32, sizeof_int64. apply bind_Ok in Hw as (ub1 & Hw1 & Hw2).
    rewrite Hw1; simpl; rewrite Hw2; simpl.
    unfold a_with_slots in Hr'; simpl in Hr'. rewrite list_insert_insert_eq in Hr'. eauto.
Qed.

Lemma DeleteNodeRange_refines ub a id :
  repr ub a ->
  exists ub', DeleteNodeRange ub id = Ok ((a_delete_range a id).1, ub') /\
    repr ub' (a_delete_range a id).2.
Proof.
  intros Hr. unfold DeleteNodeRange, a_delete_range.
  rewrite (scan_spec ub a _ (fun z => z < 0 \/ z = id)) by (try done; intros; case_bool_decide; lia).
  simpl. destruct (find_slot _ _) as [[i e]|] eqn:E; simpl; [|eauto].
  apply find_slot_Some in E as [E Hide].
  rewrite (load_slot_id ub a i e) by done; simpl. case_decide as Hneg.
  - rewrite (proj2 (Z.ltb_lt _ _) Hneg). eauto.
  - rewrite (proj2 (Z.ltb_ge _ _)) by lia.
    destruct (store_slot_id ub a i e (-1) Hr E ltac:(done)) as (ub0 & Hw0 & Hr0).
    rewrite Hw0; simpl. eauto.
Qed.

Lemma GetNodeRange_refines ub a id :
  repr ub a -> GetNodeRange ub id = Ok (a_get_range a id).
Proof.
  intros Hr. unfold GetNodeRange, a_get_range.
  rewrite (scan_spec ub a _ (fun z => z = id)) by (try done; intros; case_bool_decide; lia).
  simpl. destruct (find_slot _ _) as [[i e]|] eqn:E; simpl; [|done].
  apply find_slot_Some in E as [E _]. unfold sizeof_int32, sizeof_int64.
  rewrite (load_slot_st ub a i e) by done; simpl.
  rewrite (load_slot_end ub a i e) by done; simpl. by destruct e as [? []].
Qed.

Lemma StartNodeRangeIteration_refines ub a :
  repr ub a ->
  (StartNodeRangeIteration ub).1 = (a_start_ranges a).1 /\
  repr (StartNodeRangeIteration ub).2 (a_start_ranges a).2.
Proof.
  intros Hr. pose proof Hr as [Hh Hd Hs Hu Hl Hi Hn Hb]. split; [done|].
  rewrite Hh. unfold StartNodeRangeIteration, set_node_range_iter; simpl.
  split; simpl; unfold total, update_off, step in *; simpl in *; try done.
  split; [done|]. split; [done|lia].
Qed.

Lemma NextNodeRange_refines ub a j :
  repr ub a -> ab_niter a = Some j ->
  exists ub', NextNodeRange ub = Ok ((a_next_range a).1, ub') /\ repr ub' (a_next_range a).2.
Proof.
  intros Hr Hj. pose proof Hr as [Hh Hd Hs Hu Hl Hi [Hn32 Hn] Hb].
  unfold NextNodeRange, a_next_range. rewrite Hj in *. destruct Hn as [Hn Hjn].
  assert (update_st_offset_ ub = update_off a 0) as -> by (rewrite Hh; done).
  rewrite Hn. destruct (ab_slots a !! j) as [e|] eqn:E; simpl.
  - pose proof (lookup_lt_Some _ _ _ E) as Hlt.
    assert ((update_off a 0 <=? slot_off j) = false) as Hle
      by (apply Z.leb_gt; unfold update_off, slot_off; lia).
    rewrite Hle, (load_slot_id _ _ _ _ Hr E); simpl.
    assert (forall fuel, next_node_range_loop fuel ub e.1 = Ok (e.1, ub)) as ->.
    { intros fuel. assert (update_st_offset_ ub = update_off a 0) as Hst by (rewrite Hh; done).
      destruct fuel; simpl; by rewrite Hst, Hn, Hle, andb_false_r. }
    simpl. case_decide as Hneg.
    + rewrite (proj2 (Z.ltb_lt _ _) Hneg). eauto.
    + rewrite (proj2 (Z.ltb_ge _ _)) by lia. rewrite Hn. unfold sizeof_int32, sizeof_int64.
      rewrite (load_slot_st ub a j e) by done; simpl.
      rewrite (load_slot_end ub a j e) by done; simpl.
      eexists; split; [by destruct e as [? []]|].
      change sizeof_node_range with 20.
      rewrite wrap_i32_u64, wrap_i32_id by
        (unfold is_i32, total, update_off, slot_off, step in *; nia).
      rewrite Hh. unfold set_node_range_iter; simpl.
      split; simpl; unfold total, update_off, step, slot_off in *; simpl in *; try done.
      split; [unfold is_i32; nia|lia].
  - apply lookup_ge_None in E.
    rewrite (proj2 (Z.leb_le _ _)) by (unfold update_off, slot_off; lia). eauto.
Qed.

(** ** Construction *)

Lemma GetBuffSize_exact us cap nr :
  0 <= us -> 0 <= cap -> 0 <= nr ->
  44 + nr * 20 + cap * (8 + us) < 2147483648 ->
  GetBuffSize us cap nr = 44 + nr * 20 + cap * (8 + us).
Proof.
  intros Hus Hcap Hnr Hb. unfold GetBuffSize.
  change sizeof_node_range with 20. change sizeof_int64 with 8.
  change sizeof_UpdateBuffer with 44. rewrite !wrap_i32_u64.
  assert (0 <= cap * (8 + us)) by nia.
  destruct (decide (cap = 0)) as [->|].
  - rewrite !Z.mul_0_l in *. rewrite (wrap_i32_id 0), (wrap_i32_id (nr * 20)) by int_lia.
    rewrite (wrap_i32_id (nr * 20 + 0)), wrap_i32_id by (unfold is_i32; lia). lia.
  - assert (us < 2147483648) by nia.
    rewrite (wrap_u64_id (8 + us)) by lia.
    rewrite (wrap_i32_id (cap * (8 + us))), (wrap_i32_id (nr * 20)) by (unfold is_i32; lia).
    rewrite (wrap_i32_id (nr * 20 + cap * (8 + us))), wrap_i32_id by (unfold is_i32; lia). lia.
Qed.

Lemma init_node_ranges_spec n : forall ub pre rest off,
  data_ ub = pre ++ rest -> off = 44 + Z.of_nat (length pre) -> (n * 20 <= length rest)%nat ->
  init_node_ranges n off ub =
    Ok (set_data ub (pre ++ concat (enc_slot <$> replicate n free_slot) ++ drop (n * 20) rest)).
Proof.
  induction n as [|n IH]; intros ub pre rest off Hd -> Hl; simpl.
  { unfold set_data. destruct ub; simpl in *. by rewrite Hd. }
  assert (exists p q r t, rest = p ++ q ++ r ++ t /\ length p = 4%nat /\ length q = 8%nat /\
    length r = 8%nat) as (p & q & r & t & -> & Hp & Hq & Hr).
  { exists (take 4 rest), (take 8 (drop 4 rest)), (take 8 (drop 8 (drop 4 rest))),
      (drop 8 (drop 8 (drop 4 rest))). rewrite !take_drop. split_and!; [done|len_lia..]. }
  unfold store_i32, store_i64.
  erewrite store_at; [|exact Hd|done|len_lia]. simpl.
  erewrite (store_at _ (pre ++ i32_bytes (-1)) q (r ++ t));
    [|simpl; by rewrite <- !app_assoc|unfold sizeof_int32; len_lia|len_lia]. simpl.
  erewrite (store_at _ (pre ++ i32_bytes (-1) ++ i64_bytes (-1)) r t);
    [|simpl; by rewrite <- !app_assoc|unfold sizeof_int32, sizeof_int64; len_lia|len_lia]. simpl.
  erewrite (IH _ (pre ++ enc_slot free_slot) t);
    [|simpl; unfold enc_slot; simpl; by rewrite <- !app_assoc
     |unfold sizeof_node_range, sizeof_int32, sizeof_int64; len_lia|len_lia].
  unfold set_data; simpl. do 2 f_equal. unfold enc_slot; simpl. rewrite <- !app_assoc.
  do 5 f_equal. rewrite !drop_app_ge by lia. f_equal. lia.
Qed.

Lemma CreateUpdateBuffer_refines `{Allocator} (usize cap nslots : nat) :
  total (a_create usize cap nslots) < 2147483648 -> Z.of_nat usize < 2147483648 ->
  exists ub, CreateUpdateBuffer (Z.of_nat usize) (Z.of_nat cap) (Z.of_nat nslots) = Ok ub /\
    repr ub (a_create usize cap nslots).
Proof.
  intros Hb Hus. unfold total, update_off, slot_off, step in Hb; simpl in Hb.
  rewrite length_replicate in Hb.
  unfold CreateUpdateBuffer. rewrite GetBuffSize_exact by lia.
  set (B := 44 + Z.of_nat nslots * 20 + Z.of_nat cap * (8 + Z.of_nat usize)) in *.
  assert (44 <= B) by (unfold B; nia).
  unfold AllocateBufferMemory. rewrite (proj2 (Z.ltb_ge _ _)) by lia. simpl.
  pose proof (length_fresh_bytes B ltac:(lia)) as Hlen.
  unfold UpdateBuffer_ctor. rewrite (proj2 (Z.ltb_ge _ _)) by (unfold sizeof_UpdateBuffer; lia).
  rewrite Nat2Z.id. change sizeof_node_range with 20. change sizeof_UpdateBuffer with 44.
  assert (0 <= Z.of_nat cap * (8 + Z.of_nat usize)) by nia.
  rewrite wrap_i32_u64, wrap_u64_id, wrap_i32_id by (unfold is_i32, B in *; lia).
  assert (length (drop 44 (fresh_bytes B)) = nslots * 20 + cap * (8 + usize))%nat as Hdrop.
  { rewrite length_drop. unfold B in *. lia. }
  erewrite (init_node_ranges_spec nslots _ [] (drop 44 (fresh_bytes B))); [|done|done|lia].
  eexists; split; [done|]. unfold a_create, set_data.
  split; simpl; unfold total, update_off, slot_off, step; simpl; rewrite ?length_replicate; try done.
  - f_equal; unfold B; lia.
  - eexists; split; [reflexivity|]. rewrite length_drop, Hdrop. lia.
  - apply Forall_replicate. repeat split; simpl; unfold is_i32, is_i64; lia.
  - lia.
  - split; [|done]. apply bytes_i32_range.
Qed.

(** ** Serialisation *)

Definition hdr_ok (ub : UpdateBuffer) : Prop :=
  Forall is_i32 [buff_size_ ub; update_size_ ub; update_capacity_ ub; node_range_capacity_ ub;
    num_updates_occupied_ ub; node_range_st_offset_ ub; num_nodes_ ub; update_st_offset_ ub;
    update_end_offset_ ub; update_iter_offset_ ub; node_range_iter_offset_ ub].

Lemma length_to_bytes ub : length (to_bytes ub) = (44 + length (data_ ub))%nat.
Proof. unfold to_bytes. len_lia. Qed.

(** The [i]-th of [l] four-byte words stored in front of [d]. *)
Lemma slice_word (l : list Z) d i z :
  l !! i = Some z -> slice (concat (i32_bytes <$> l) ++ d) (4 * i) 4 = i32_bytes z.
Proof.
  intros Hi. rewrite (concat_split_at _ _ _ _ Hi), <- !app_assoc.
  apply slice_app_here; [|by rewrite length_i32_bytes].
  rewrite (length_concat_take _ 4); [lia| |apply lookup_lt_Some in Hi; lia].
  apply Forall_true, length_i32_bytes.
Qed.

Lemma to_bytes_words ub :
  to_bytes ub = concat (i32_bytes <$> [buff_size_ ub; update_size_ ub; update_capacity_ ub;
    node_range_capacity_ ub; num_updates_occupied_ ub; node_range_st_offset_ ub; num_nodes_ ub;
    update_st_offset_ ub; update_end_offset_ ub; update_iter_offset_ ub;
    node_range_iter_offset_ ub]) ++ data_ ub.
Proof. unfold to_bytes. cbn [fmap list_fmap concat]. by rewrite !app_nil_r, <- !app_assoc. Qed.

Lemma of_bytes_to_bytes ub : hdr_ok ub -> of_bytes (to_bytes ub) = Ok ub.
Proof.
  intros Hok. unfold of_bytes. rewrite length_to_bytes, (proj2 (Z.ltb_ge _ _)) by (unfold sizeof_UpdateBuffer; lia).
  unfold hdr_ok in Hok. rewrite !Forall_cons in Hok. destruct_and!.
  rewrite to_bytes_words. erewrite !slice_word by reflexivity.
  rewrite !bytes_i32_i32_bytes, !wrap_i32_id by done.
  rewrite drop_app_here by (rewrite (length_concat_fixed _ 4); [done|]; apply Forall_true, length_i32_bytes).
  by destruct ub.
Qed.

Lemma repr_hdr_ok ub a : repr ub a -> hdr_ok ub.
Proof.
  intros [Hh Hd Hs Hu Hl Hi [Hn _] Hb]. rewrite Hh. unfold hdr_ok; simpl.
  unfold total, update_off, slot_off, step in *.
  repeat constructor; try done; unfold is_i32 in *; nia.
Qed.
