(* ===== verification/Buffer.v ===== *)
(** The contract of the update buffer: any program of buffer operations behaves
    as it does on the abstract buffer, the two iteration idioms visit what they
    should, and the wire form is lossless. *)
From S2P Require Import Prelude MemStruct MemStructSpec.

(** ** Programs of buffer operations *)

Inductive buf_op :=
| OpAppend (k : Z) (d : list byte)
| OpStart
| OpNext
| OpGet (k : Z)
| OpOverwrite (k : Z) (d : list byte)     (* GetUpdate, then write through the pointer *)
| OpUpdateRange (id st en : Z)
| OpDeleteRange (id : Z)
| OpGetRange (id : Z)
| OpStartRanges
| OpNextRange
| OpShip.                                 (* send the block and reinterpret it *)

Inductive buf_obs :=
| ObsCode (c : Z)
| ObsUpdate (u : option (Z * list byte))
| ObsDelta (d : option (list byte))
| ObsRange (r : option UpdateRange)
| ObsNode (e : option (Z * UpdateRange)).

Definition delta_at (ub : UpdateBuffer) (ptr : Z) : res (list byte) :=
  load ub ptr (Z.to_nat (get_update_size ub)).

Definition exec (op : buf_op) (ub : UpdateBuffer) : res (buf_obs * UpdateBuffer) :=
  match op with
  | OpAppend k d => '(c, ub) ← AppendUpdate ub k d; Ok (ObsCode c, ub)
  | OpStart => let '(c, ub) := StartIteration ub in Ok (ObsCode c, ub)
  | OpNext =>
      '(o, ub) ← NextUpdate ub;
      match o with
      | None => Ok (ObsUpdate None, ub)
      | Some (k, ptr) => d ← delta_at ub ptr; Ok (ObsUpdate (Some (k, d)), ub)
      end
  | OpGet k =>
      o ← GetUpdate ub k;
      match o with
      | None => Ok (ObsDelta None, ub)
      | Some ptr => d ← delta_at ub ptr; Ok (ObsDelta (Some d), ub)
      end
  | OpOverwrite k d =>
      o ← GetUpdate ub k;
      match o with
      | None => Ok (ObsCode (-1), ub)
      | Some ptr => ub ← store ub ptr d; Ok (ObsCode 0, ub)
      end
  | OpUpdateRange id st en => '(c, ub) ← UpdateNodeRange ub id st en; Ok (ObsCode c, ub)
  | OpDeleteRange id => '(c, ub) ← DeleteNodeRange ub id; Ok (ObsCode c, ub)
  | OpGetRange id => r ← GetNodeRange ub id; Ok (ObsRange r, ub)
  | OpStartRanges => let '(c, ub) := StartNodeRangeIteration ub in Ok (ObsCode c, ub)
  | OpNextRange => '(o, ub) ← NextNodeRange ub; Ok (ObsNode o, ub)
  | OpShip => ub ← of_bytes (to_bytes ub); Ok (ObsCode 0, ub)
  end.

Definition a_overwrite (a : abuf) (k : Z) (d : list byte) : Z * abuf :=
  match list_find (fun u => u.1 = k) (ab_ups a) with
  | Some (i, u) => (0, a_with_ups a (<[i := (u.1, d)]> (ab_ups a)))
  | None => (-1, a)
  end.

Definition a_exec (op : buf_op) (a : abuf) : buf_obs * abuf :=
  match op with
  | OpAppend k d => let '(c, a) := a_append a k d in (ObsCode c, a)
  | OpStart => let '(c, a) := a_start a in (ObsCode c, a)
  | OpNext => let '(u, a) := a_next a in (ObsUpdate u, a)
  | OpGet k => (ObsDelta (snd <$> (a_get a k ≫= fun i => ab_ups a !! i)), a)
  | OpOverwrite k d => let '(c, a) := a_overwrite a k d in (ObsCode c, a)
  | OpUpdateRange id st en => let '(c, a) := a_update_range a id st en in (ObsCode c, a)
  | OpDeleteRange id => let '(c, a) := a_delete_range a id in (ObsCode c, a)
  | OpGetRange id => (ObsRange (a_get_range a id), a)
  | OpStartRanges => let '(c, a) := a_start_ranges a in (ObsCode c, a)
  | OpNextRange => let '(e, a) := a_next_range a in (ObsNode e, a)
  | OpShip => (ObsCode 0, a)
  end.

(** What the callers owe: machine-width arguments, a delta of at least
    [update_size_] bytes, and no range iteration before its start (the cursor
    is uninitialised until then). *)
Definition op_pre (a : abuf) (op : buf_op) : Prop :=
  match op with
  | OpAppend k d => is_i64 k /\ (ab_usize a <= length d)%nat
  | OpOverwrite _ d => length d = ab_usize a
  | OpUpdateRange id st en => is_i32 id /\ is_i64 st /\ is_i64 en
  | OpNextRange => is_Some (ab_niter a)
  | _ => True
  end.

Fixpoint run (ops : list buf_op) (ub : UpdateBuffer) : res (list buf_obs * UpdateBuffer) :=
  match ops with
  | [] => Ok ([], ub)
  | op :: ops =>
      '(o, ub) ← exec op ub;
      '(os, ub) ← run ops ub;
      Ok (o :: os, ub)
  end.

Fixpoint a_run (ops : list buf_op) (a : abuf) : list buf_obs * abuf :=
  match ops with
  | [] => ([], a)
  | op :: ops =>
      let '(o, a) := a_exec op a in
      let '(os, a) := a_run ops a in (o :: os, a)
  end.

Fixpoint ops_pre (a : abuf) (ops : list buf_op) : Prop :=
  match ops with
  | [] => True
  | op :: ops => op_pre a op /\ ops_pre (a_exec op a).2 ops
  end.

Lemma repr_update_size ub a : repr ub a -> get_update_size ub = Z.of_nat (ab_usize a).
Proof. intros H. unfold get_update_size. by rewrite (r_hdr _ _ H). Qed.

Lemma delta_at_spec ub a i u :
  repr ub a -> ab_ups a !! i = Some u -> delta_at ub (delta_off a i) = Ok u.2.
Proof.
  intros H Hi. unfold delta_at. rewrite (repr_update_size _ _ H), Nat2Z.id. by apply load_delta.
Qed.

Lemma exec_refines op ub a :
  repr ub a -> op_pre a op ->
  exists ub', exec op ub = Ok ((a_exec op a).1, ub') /\ repr ub' (a_exec op a).2.
Proof.
  intros Hr Hpre. destruct op; simpl in *.
  - destruct Hpre as [Hk Hd]. destruct (AppendUpdate_refines ub a k d Hr Hk Hd) as (ub' & -> & Hr'). simpl.
    destruct (a_append a k d). eauto.
  - destruct (StartIteration_refines ub a Hr) as [H1 H2].
    destruct (StartIteration ub), (a_start a); simpl in *. subst. eauto.
  - destruct (NextUpdate_refines ub a Hr) as (ub' & -> & Hr'). simpl.
    destruct (a_next a) as [[u|] a'] eqn:E; simpl in *; [|eauto].
    unfold a_next in E. destruct (ab_ups a !! ab_iter a) as [u'|] eqn:E'; simplify_eq.
    change (delta_off a (ab_iter a)) with (delta_off (a_with_iter a (S (ab_iter a))) (ab_iter a)).
    rewrite (delta_at_spec _ _ _ u Hr') by done. simpl. destruct u. eauto.
  - rewrite (get_update_loop_spec ub a k Hr). simpl.
    unfold a_get. destruct (list_find _ (ab_ups a)) as [[i u]|] eqn:E; simpl; [|eauto].
    apply list_find_Some in E as (E & _ & _).
    rewrite (delta_at_spec _ _ _ _ Hr E), E. simpl. eauto.
  - rewrite (get_update_loop_spec ub a k Hr). unfold a_get, a_overwrite. simpl.
    destruct (list_find _ (ab_ups a)) as [[i u]|] eqn:E; simpl; [|eauto].
    apply list_find_Some in E as (E & _ & _).
    destruct (store_delta _ _ _ _ d Hr E Hpre) as (ub' & -> & Hr'). simpl. eauto.
  - destruct Hpre as (?&?&?).
    destruct (UpdateNodeRange_refines ub a id st en Hr) as (ub' & -> & Hr'); [done..|]. simpl.
    destruct (a_update_range a id st en). eauto.
  - destruct (DeleteNodeRange_refines ub a id Hr) as (ub' & -> & Hr'). simpl.
    destruct (a_delete_range a id). eauto.
  - rewrite (GetNodeRange_refines ub a id Hr). simpl. eauto.
  - destruct (StartNodeRangeIteration_refines ub a Hr) as [H1 H2]. eauto.
  - destruct Hpre as [j Hj].
    destruct (NextNodeRange_refines ub a j Hr Hj) as (ub' & -> & Hr'). simpl.
    destruct (a_next_range a). eauto.
  - rewrite of_bytes_to_bytes by (by eapply repr_hdr_ok). simpl. eauto.
Qed.

(** C13. Refinement: a program of any length over the buffer operations - append,
    both iterations, lookup, in-place overwrite, the range-table operations and
    sending the block through the network - runs without leaving the allocated
    block and returns exactly what the same program returns on the abstract
    buffer (a range table, a list of updates, two cursors). *)
Theorem buffer_program_refines ops ub a :
  repr ub a -> ops_pre a ops ->
  exists ub', run ops ub = Ok ((a_run ops a).1, ub') /\ repr ub' (a_run ops a).2.
Proof.
  revert ub a; induction ops as [|op ops IH]; intros ub a Hr Hpre; simpl in *; [eauto|].
  destruct Hpre as [Hpre Hpres].
  destruct (exec_refines op ub a Hr Hpre) as (ub1 & -> & Hr1). simpl.
  destruct (a_exec op a) as [o a1]; simpl in *.
  destruct (IH ub1 a1 Hr1 Hpres) as (ub2 & -> & Hr2). simpl.
  destruct (a_run ops a1). eauto.
Qed.

(** ** The iteration idioms *)

Lemma repr_room ub a :
  repr ub a -> (length (ab_slots a) * 20 + length (ab_ups a) * (8 + ab_usize a) <= length (data_ ub))%nat.
Proof.
  intros H. destruct (r_data _ _ H) as (rest & -> & _). rewrite !length_app, length_enc_slots.
  rewrite (length_enc_updates (ab_usize a)) by apply (r_ups _ _ H). lia.
Qed.

Lemma updates_loop_spec {S} (body : Z -> list byte -> S -> res S) n suf : forall fuel ub a pre s,
  repr ub a -> n = ab_usize a -> ab_ups a = pre ++ suf -> ab_iter a = length pre ->
  (length suf < fuel)%nat ->
  exists ub', updates_loop fuel n body ub s =
      (s' ← foldM (fun u s => body u.1 u.2 s) suf s; Ok (s', ub')) /\
    repr ub' (a_with_iter a (length (ab_ups a))).
Proof.
  induction suf as [|u suf IH]; intros [|fuel] ub a pre s Hr Hn Hups Hit Hf; simpl in *; try lia;
    destruct (NextUpdate_refines ub a Hr) as (ub1 & -> & Hr1); unfold a_next in *.
  - rewrite app_nil_r in Hups.
    rewrite lookup_ge_None_2 in * by (rewrite Hups, Hit; lia). simpl in *.
    exists ub1. split; [done|]. rewrite Hups, <- Hit. by destruct a.
  - assert (ab_ups a !! ab_iter a = Some u) as Hu
      by (by rewrite Hups, Hit, list_lookup_middle). rewrite Hu in *. simpl in *.
    assert (load ub1 (delta_off a (ab_iter a)) n = Ok u.2) as ->
      by (subst n; exact (load_delta _ _ _ u Hr1 Hu)). simpl.
    assert (forall s1, exists ub2, updates_loop fuel n body ub1 s1 =
      (s' ← foldM (fun u s => body u.1 u.2 s) suf s1; Ok (s', ub2)) /\
      repr ub2 (a_with_iter a (length (ab_ups a)))) as Hrest.
    { intros s1. apply (IH fuel ub1 _ (pre ++ [u]) s1 Hr1); simpl;
        [done|by rewrite Hups, <- app_assoc|rewrite length_app; simpl; lia|lia]. }
    destruct (body u.1 u.2 s) as [s1| |]; simpl; [apply Hrest|..];
      destruct (Hrest s) as (ub2 & _ & ?); by exists ub2.
Qed.

Lemma for_updates_visits_aux {S} (body : Z -> list byte -> S -> res S) ub a s :
  repr ub a ->
  exists ub', for_updates (ab_usize a) body ub s =
      (s' ← foldM (fun u s => body u.1 u.2 s) (ab_ups a) s; Ok (s', ub')) /\
    repr ub' (a_with_iter a (length (ab_ups a))).
Proof.
  intros Hr. unfold for_updates. destruct (StartIteration_refines ub a Hr) as [_ Hr1].
  pose proof (repr_room _ _ Hr1) as Hroom. remember ((StartIteration ub).2) as ub1.
  assert (ab_ups (a_start a).2 = ab_ups a /\ ab_usize (a_start a).2 = ab_usize a /\
    ab_iter (a_start a).2 = 0%nat /\
    a_with_iter (a_start a).2 (length (ab_ups a)) = a_with_iter a (length (ab_ups a)))
    as (Hu & Hs & Hi & Hw).
  { pose proof (r_iter _ _ Hr). unfold a_start. destruct (ab_ups a) eqn:E; simpl in *; [|done].
    repeat split; [done|lia]. }
  destruct (updates_loop_spec body (ab_usize a) (ab_ups a) (Datatypes.S (length (data_ ub1))) ub1
              (a_start a).2 [] s Hr1) as (ub' & Hl & Hr'); [done|done|done| |].
  { rewrite Hu in Hroom. nia. }
  exists ub'. split; [done|]. by rewrite Hu, Hw in Hr'.
Qed.

(** The update iteration terminates on every well-formed buffer and runs its
    body exactly once on each update, in the order they were appended, with the
    delta bytes that were appended. *)
Lemma for_updates_visits_all {S} (body : Z -> list byte -> S -> res S) ub a s :
  repr ub a ->
  exists ub', for_updates (ab_usize a) body ub s =
      (s' ← foldM (fun u s => body u.1 u.2 s) (ab_ups a) s; Ok (s', ub')) /\
    repr ub' (a_with_iter a (length (ab_ups a))).
Proof. apply for_updates_visits_aux. Qed.

(** What the range iteration visits: the table up to its first unused entry. *)
Fixpoint range_prefix (s : list (Z * UpdateRange)) : list (Z * UpdateRange) :=
  match s with
  | [] => []
  | e :: s => if decide (e.1 < 0) then [] else e :: range_prefix s
  end.

Lemma ranges_loop_spec {S} (body : Z -> UpdateRange -> S -> res S) suf : forall fuel ub a pre s,
  repr ub a -> ab_slots a = pre ++ suf -> ab_niter a = Some (length pre) ->
  (length suf < fuel)%nat ->
  exists ub' j, ranges_loop fuel body ub s =
      (s' ← foldM (fun e s => body e.1 e.2 s) (range_prefix suf) s; Ok (s', ub')) /\
    repr ub' (a_with_niter a (Some j)).
Proof.
  induction suf as [|e suf IH]; intros [|fuel] ub a pre s Hr Hsl Hit Hf; simpl in *; try lia.
  - destruct (NextNodeRange_refines ub a _ Hr Hit) as (ub' & -> & Hr').
    unfold a_next_range in *. rewrite Hit in *. rewrite app_nil_r in Hsl.
    rewrite lookup_ge_None_2 in * by (rewrite Hsl; lia). simpl in *.
    exists ub', (length pre). split; [done|]. rewrite <- Hit. by destruct a.
  - destruct (NextNodeRange_refines ub a _ Hr Hit) as (ub1 & -> & Hr1).
    unfold a_next_range in *. rewrite Hit in *.
    assert (ab_slots a !! length pre = Some e) as He by (by rewrite Hsl, list_lookup_middle).
    rewrite He in *. case_decide; simpl in *.
    { exists ub1, (length pre). split; [done|]. rewrite <- Hit. by destruct a. }
    destruct e as [id r]; simpl in *.
    assert (forall s1, exists ub2 j, ranges_loop fuel body ub1 s1 =
      (s' ← foldM (fun e s => body e.1 e.2 s) (range_prefix suf) s1; Ok (s', ub2)) /\
      repr ub2 (a_with_niter a (Some j))) as Hrest.
    { intros s1. apply (IH fuel ub1 _ (pre ++ [(id, r)]) s1 Hr1); simpl;
        [by rewrite Hsl, <- app_assoc|rewrite length_app; simpl; f_equal; lia|lia]. }
    destruct (body id r s) as [s1| |]; simpl; [apply Hrest|..];
      destruct (Hrest s) as (ub2 & j2 & _ & ?); by exists ub2, j2.
Qed.

Lemma for_ranges_visits_aux {S} (body : Z -> UpdateRange -> S -> res S) ub a s :
  repr ub a ->
  exists ub' j, for_ranges body ub s =
      (s' ← foldM (fun e s => body e.1 e.2 s) (range_prefix (ab_slots a)) s; Ok (s', ub')) /\
    repr ub' (a_with_niter a (Some j)).
Proof.
  intros Hr. unfold for_ranges. destruct (StartNodeRangeIteration_refines ub a Hr) as [_ Hr1].
  pose proof (repr_room _ _ Hr1) as Hroom. remember ((StartNodeRangeIteration ub).2) as ub1.
  destruct (ranges_loop_spec body (ab_slots a) (Datatypes.S (length (data_ ub1))) ub1
              (a_start_ranges a).2 [] s Hr1) as (ub' & j & Hl & Hr'); [done|done| |].
  { simpl in Hroom. nia. }
  exists ub', j. done.
Qed.

(** The range iteration terminates on every well-formed buffer and runs its
    body on the entries of the table that precede the first unused one, in
    table order - and on no entry behind an unused one. *)
Theorem for_ranges_visits_prefix {S} (body : Z -> UpdateRange -> S -> res S) ub a s :
  repr ub a ->
  exists ub' j, for_ranges body ub s =
      (s' ← foldM (fun e s => body e.1 e.2 s) (range_prefix (ab_slots a)) s; Ok (s', ub')) /\
    repr ub' (a_with_niter a (Some j)).
Proof. apply for_ranges_visits_aux. Qed.

Definition collect_updates (n : nat) (ub : UpdateBuffer) : res (list (Z * list byte)) :=
  fst <$> for_updates n (fun k d acc => Ok (acc ++ [(k, d)])) ub [].
Definition collect_ranges (ub : UpdateBuffer) : res (list (Z * UpdateRange)) :=
  fst <$> for_ranges (fun id r acc => Ok (acc ++ [(id, r)])) ub [].

Lemma foldM_collect {A B} (l : list (A * B)) acc :
  foldM (fun u acc => Ok (acc ++ [(u.1, u.2)])) l acc = Ok (acc ++ l).
Proof.
  revert acc; induction l as [|[k d] l IH]; intros acc; simpl; [by rewrite app_nil_r|].
  rewrite IH. by rewrite <- app_assoc.
Qed.

Lemma collect_updates_spec ub a :
  repr ub a -> collect_updates (ab_usize a) ub = Ok (ab_ups a).
Proof.
  intros H. unfold collect_updates.
  destruct (for_updates_visits_aux (fun k d acc => Ok (acc ++ [(k, d)])) ub a [] H) as (ub' & -> & _).
  rewrite (foldM_collect (ab_ups a) []). done.
Qed.

Lemma collect_ranges_spec ub a :
  repr ub a -> collect_ranges ub = Ok (range_prefix (ab_slots a)).
Proof.
  intros H. unfold collect_ranges.
  destruct (for_ranges_visits_aux (fun id r acc => Ok (acc ++ [(id, r)])) ub a [] H) as (ub' & j & -> & _).
  rewrite (foldM_collect (range_prefix (ab_slots a)) []). done.
Qed.

(** ** The range table as a bounded map *)

Lemma find_slot_insert_other s i e e' q :
  s !! i = Some e -> e.1 <> q -> e'.1 <> q ->
  find_slot (fun z => z = q) (<[i := e']> s) = find_slot (fun z => z = q) s.
Proof.
  intros Hi He He'. unfold find_slot. revert i Hi; induction s as [|x s IH]; intros [|i] Hi; simplify_eq/=.
  - by rewrite !decide_False by done.
  - by rewrite (IH i Hi).
Qed.

Lemma find_slot_insert_eq (s : list (Z * UpdateRange)) i e id r :
  s !! i = Some e -> (forall j e', s !! j = Some e' -> (j < i)%nat -> e'.1 <> id) ->
  find_slot (fun z => z = id) (<[i := (id, r)]> s) = Some (i, (id, r)).
Proof.
  intros Hi Hlt. apply list_find_Some. split; [|split; [done|]].
  - apply list_lookup_insert_eq. by eapply lookup_lt_Some.
  - intros j e' Hj Hji. rewrite list_lookup_insert_ne in Hj by lia. eauto.
Qed.

Lemma find_slot_None_lookup P `{forall z, Decision (P z)} s :
  find_slot P s = None -> forall j (e : Z * UpdateRange), s !! j = Some e -> ~ P e.1.
Proof.
  intros Hn j e Hj. apply list_find_None in Hn. by eapply Forall_lookup_1 in Hn.
Qed.

Lemma a_update_range_get a id st en :
  (a_update_range a id st en).1 = 0 ->
  a_get_range (a_update_range a id st en).2 id = Some (mkRange st en) /\
  forall q, 0 <= q -> q <> id -> a_get_range (a_update_range a id st en).2 q = a_get_range a q.
Proof.
  unfold a_update_range, a_get_range. intros Hret.
  destruct (find_slot (fun z => z = id) (ab_slots a)) as [[i e]|] eqn:E1; simpl in *.
  - apply list_find_Some in E1 as (Hi & He & Hlt). split.
    + by erewrite find_slot_insert_eq by done.
    + intros q Hq Hqid. erewrite find_slot_insert_other by (try done; simpl; lia). done.
  - destruct (find_slot (fun z => z = -1) (ab_slots a)) as [[i e]|] eqn:E2; simpl in *; [|done].
    apply list_find_Some in E2 as (Hi & He & Hlt). split.
    + erewrite find_slot_insert_eq; [done|done|].
      intros j e' Hj _. by eapply (find_slot_None_lookup _ _ E1).
    + intros q Hq Hqid. erewrite find_slot_insert_other by (try done; simpl; lia). done.
Qed.

(** The node-range table is a bounded map from node ids to ranges: a
    successful [UpdateNodeRange] makes [GetNodeRange] return the new range for
    that node and leaves every other node's range alone, and the call fails
    exactly when the node has no entry and no entry is free. *)
Lemma node_range_table_is_map ub a id st en :
  repr ub a -> 0 <= id -> is_i32 id -> is_i64 st -> is_i64 en ->
  exists ret ub', UpdateNodeRange ub id st en = Ok (ret, ub') /\
    (ret = 0 \/ ret = -1) /\
    (ret = 0 -> GetNodeRange ub' id = Ok (Some (mkRange st en)) /\
       forall q, 0 <= q -> q <> id -> GetNodeRange ub' q = GetNodeRange ub q) /\
    (ret = -1 <-> GetNodeRange ub id = Ok None /\ Forall (fun e => e.1 <> -1) (ab_slots a)).
Proof.
  intros Hr H0 Hid Hst Hen.
  destruct (UpdateNodeRange_refines ub a id st en Hr Hid Hst Hen) as (ub' & -> & Hr').
  exists (a_update_range a id st en).1, ub'. split; [done|]. split; [|split].
  - unfold a_update_range. repeat case_match; simpl; auto.
  - intros Hz. destruct (a_update_range_get a id st en Hz) as [H1 H2].
    rewrite (GetNodeRange_refines _ _ id Hr'), H1. split; [done|]. intros q Hq Hqid.
    by rewrite (GetNodeRange_refines _ _ q Hr'), (GetNodeRange_refines _ _ q Hr), H2.
  - rewrite (GetNodeRange_refines _ _ id Hr). unfold a_update_range, a_get_range.
    destruct (find_slot (fun z => z = id) (ab_slots a)) as [[i e]|] eqn:E1; simpl; [naive_solver|].
    destruct (find_slot (fun z => z = -1) (ab_slots a)) as [[i e]|] eqn:E2; simpl.
    + apply list_find_Some in E2 as (Hi & He & _). split; [done|].
      intros [_ Hall]. by eapply Forall_lookup_1 in Hall.
    + apply list_find_None in E2. split; [|done]. intros _. split; [done|].
      eapply List.Forall_impl; [|exact E2]. done.
Qed.

Lemma a_delete_range_at a pre id r suf :
  ab_slots a = pre ++ (id, r) :: suf -> 0 <= id ->
  Forall (fun e => 0 <= e.1 /\ e.1 <> id) pre ->
  a_delete_range a id = (0, a_with_slots a (pre ++ (-1, r) :: suf)).
Proof.
  intros Hs Hid Hpre. unfold a_delete_range.
  assert (find_slot (fun z => z < 0 \/ z = id) (ab_slots a) = Some (length pre, (id, r))) as ->.
  { apply list_find_Some. rewrite Hs. split_and!; [by apply list_lookup_middle|by right|].
    intros j e Hj Hlt. rewrite lookup_app_l in Hj by done.
    eapply Forall_lookup_1 in Hpre; [|done]. lia. }
  simpl. rewrite decide_False by lia. rewrite Hs.
  by rewrite insert_app_r_alt, Nat.sub_diag by lia.
Qed.

Lemma range_prefix_app pre s :
  Forall (fun e => 0 <= e.1) pre -> range_prefix (pre ++ s) = pre ++ range_prefix s.
Proof. induction 1; simpl; [done|]. rewrite decide_False by lia. by f_equal. Qed.

(** Deleting a node's range hides every range stored behind it: after a
    successful [DeleteNodeRange] the iteration yields only the entries that
    stood before the deleted one, although the later entries are still in the
    table and [GetNodeRange] still finds them. (The [while] condition of
    [NextNodeRange] is [>=] where skipping unused entries needs [<].) *)
Theorem delete_hides_later_ranges ub a pre id r suf :
  repr ub a -> ab_slots a = pre ++ (id, r) :: suf -> 0 <= id ->
  Forall (fun e => 0 <= e.1 /\ e.1 <> id) pre ->
  exists ub', DeleteNodeRange ub id = Ok (0, ub') /\
    collect_ranges ub' = Ok pre /\
    (forall q, 0 <= q -> q <> id -> GetNodeRange ub' q = GetNodeRange ub q).
Proof.
  intros Hr Hs Hid Hpre.
  destruct (DeleteNodeRange_refines ub a id Hr) as (ub' & -> & Hr').
  rewrite (a_delete_range_at a pre id r suf Hs Hid Hpre) in *. simpl in *.
  exists ub'. split; [done|]. split.
  - rewrite (collect_ranges_spec _ _ Hr'). simpl. rewrite range_prefix_app; simpl.
    + by rewrite app_nil_r.
    + eapply List.Forall_impl; [|exact Hpre]. simpl. intros; lia.
  - intros q Hq Hqid. rewrite (GetNodeRange_refines _ _ q Hr'), (GetNodeRange_refines _ _ q Hr).
    unfold a_get_range. simpl. do 2 f_equal.
    replace (pre ++ (-1, r) :: suf) with (<[length pre := (-1, r)]> (ab_slots a))
      by (rewrite Hs; by rewrite insert_app_r_alt, Nat.sub_diag by lia).
    eapply find_slot_insert_other; [rewrite Hs; by apply list_lookup_middle|simpl; lia..].
Qed.

(** ** Concrete runs *)

(** A buffer of 4-byte deltas with room for two updates and three ranges. *)
Definition demo_delta (b : byte) : list byte := [b; Byte.x00; Byte.x00; Byte.x00].
Definition demo_fill : list buf_op :=
  [OpAppend 7 (demo_delta Byte.x01); OpAppend (-2) (demo_delta Byte.x02);
   OpUpdateRange 3 0 4; OpUpdateRange 5 2 9].

Lemma demo_buffer : exists ub, CreateUpdateBuffer 4 2 3 = Ok ub /\ repr ub (a_create 4 2 3).
Proof. apply (CreateUpdateBuffer_refines 4 2 3); vm_compute; done. Qed.

Lemma demo_fill_pre : ops_pre (a_create 4 2 3) demo_fill.
Proof. simpl. unfold is_i32, is_i64. repeat split; (lia || done). Qed.

(** The buffer a program leaves, for the concrete runs of other files. *)
Lemma filled_by ops : forall ub a,
  repr ub a -> ops_pre a ops -> exists ub', repr ub' (a_run ops a).2.
Proof.
  induction ops as [|op ops IH]; intros ub a Hr Hpre; simpl in *; [eauto|].
  destruct Hpre as [Hpre Hpres], (exec_refines op ub a Hr Hpre) as (ub1 & _ & Hr1).
  destruct (a_exec op a) as [o a1]. destruct (IH ub1 a1 Hr1 Hpres) as [ub2 H2].
  destruct (a_run ops a1). eauto.
Qed.

Lemma demo_filled :
  exists ub, repr ub (a_run demo_fill (a_create 4 2 3)).2.
Proof. destruct demo_buffer as (ub & _ & Hr). exact (filled_by _ _ _ Hr demo_fill_pre). Qed.

Lemma buffer_program_refines_witness :
  exists ub ub', CreateUpdateBuffer 4 2 3 = Ok ub /\
    run (demo_fill ++ [OpAppend 9 (demo_delta Byte.x03); OpShip; OpStartRanges; OpNextRange;
                       OpGet (-2); OpGet 8]) ub =
      Ok ([ObsCode 0; ObsCode 0; ObsCode 0; ObsCode 0; ObsCode (-1); ObsCode 0; ObsCode 0;
           ObsNode (Some (3, mkRange 0 4)); ObsDelta (Some (demo_delta Byte.x02)); ObsDelta None], ub').
Proof.
  destruct demo_buffer as (ub & Hc & Hr). exists ub.
  destruct (buffer_program_refines (demo_fill ++ [OpAppend 9 (demo_delta Byte.x03); OpShip;
    OpStartRanges; OpNextRange; OpGet (-2); OpGet 8]) ub _ Hr) as (ub' & Hrun & _).
  { simpl. unfold is_i32, is_i64. repeat split; (lia || done || by eexists). }
  exists ub'. split; [done|]. rewrite Hrun. reflexivity.
Defined.

Lemma for_updates_visits_all_witness :
  exists ub ub', for_updates 4 (fun k d acc => Ok (acc ++ [(k, d)])) ub [] =
    Ok ([(7, demo_delta Byte.x01); (-2, demo_delta Byte.x02)], ub').
Proof.
  destruct demo_filled as [ub Hr]. exists ub.
  destruct (for_updates_visits_all (fun k d acc => Ok (acc ++ [(k, d)])) ub _ [] Hr) as (ub' & H & _).
  exists ub'. exact H.
Defined.

Lemma for_ranges_visits_prefix_witness :
  exists ub ub', for_ranges (fun id r acc => Ok (acc ++ [(id, r)])) ub [] =
    Ok ([(3, mkRange 0 4); (5, mkRange 2 9)], ub').
Proof.
  destruct demo_filled as [ub Hr]. exists ub.
  destruct (for_ranges_visits_prefix (fun id r acc => Ok (acc ++ [(id, r)])) ub _ [] Hr)
    as (ub' & j & H & _).
  exists ub'. exact H.
Defined.

Lemma node_range_table_is_map_witness :
  exists ub ub', UpdateNodeRange ub 3 5 6 = Ok (0, ub') /\
    GetNodeRange ub' 3 = Ok (Some (mkRange 5 6)).
Proof.
  destruct demo_filled as [ub Hr]. exists ub.
  destruct (node_range_table_is_map ub _ 3 5 6 Hr) as (ret & ub' & Hu & [-> | ->] & H0 & H1);
    [lia|unfold is_i32, is_i64; lia..| |].
  - exists ub'. split; [exact Hu|apply H0; reflexivity].
  - exfalso. destruct H1 as [H1 _]. destruct (H1 eq_refl) as [H1' _].
    rewrite (GetNodeRange_refines _ _ 3 Hr) in H1'. discriminate H1'.
Defined.

Lemma delete_hides_later_ranges_witness :
  exists ub ub', DeleteNodeRange ub 3 = Ok (0, ub') /\ collect_ranges ub' = Ok [] /\
    GetNodeRange ub' 5 = GetNodeRange ub 5.
Proof.
  destruct demo_filled as [ub Hr]. exists ub.
  destruct (delete_hides_later_ranges ub _ [] 3 (mkRange 0 4)
    [(5, mkRange 2 9); free_slot] Hr) as (ub' & Hd & Hc & Hg); [reflexivity|lia|constructor|].
  exists ub'. split; [exact Hd|]. split; [exact Hc|]. apply Hg; lia.
Defined.
