(* ===== verification/Protocol.v ===== *)
(** The messages of comm/protocol.hpp: the enumerations with their numeric
    values, the message structs, and their in-memory layout - which is their
    wire format, since the code sends the structs byte for byte. [Wire] has the sends
    and the receiving switches. *)
From S2P Require Import Prelude.

(** ** Enumerations *)

Inductive UpdateType := EInc.
Inductive PropagatorMsgType :=
| EPUpdateLog | EPUpdateBuffer | EPInternalTerminate | EPRecvInternalTerminateACK
| EPRInit | EMyUpdatesACK.
Inductive PropRecvMsgType :=
| PropInit | PropInitACK | PropInitACKACK | PropStart | EPRUpdateBuffer
| EPRTerminate | EPRTerminateACK.
Inductive ReceiverMsgType := ERInternalTerminate | EPRInternalTerminate | EMyUpdates.
Inductive TimerMsgType := ETimerTrigger | ETimerCmd.

#[export] Instance UpdateType_eq_dec : EqDecision UpdateType.
Proof. solve_decision. Defined.
#[export] Instance PropagatorMsgType_eq_dec : EqDecision PropagatorMsgType.
Proof. solve_decision. Defined.
#[export] Instance PropRecvMsgType_eq_dec : EqDecision PropRecvMsgType.
Proof. solve_decision. Defined.
#[export] Instance ReceiverMsgType_eq_dec : EqDecision ReceiverMsgType.
Proof. solve_decision. Defined.
#[export] Instance TimerMsgType_eq_dec : EqDecision TimerMsgType.
Proof. solve_decision. Defined.

(** An enumeration: its enumerators in declaration order, which C++ numbers
    from 0. *)
Class Enum (A : Type) `{EqDecision A} := {
  enumerators : list A;
  enumerators_NoDup : NoDup enumerators;
  enumerators_all : forall x, x ∈ enumerators
}.

#[export] Program Instance UpdateType_Enum : Enum UpdateType := {| enumerators := [EInc] |}.
Next Obligation. apply (bool_decide_unpack _). by vm_compute. Qed.
Next Obligation. intros []; by apply (bool_decide_unpack _); vm_compute. Qed.
#[export] Program Instance PropagatorMsgType_Enum : Enum PropagatorMsgType := {|
  enumerators := [EPUpdateLog; EPUpdateBuffer; EPInternalTerminate; EPRecvInternalTerminateACK;
                  EPRInit; EMyUpdatesACK] |}.
Next Obligation. apply (bool_decide_unpack _). by vm_compute. Qed.
Next Obligation. intros []; by apply (bool_decide_unpack _); vm_compute. Qed.
#[export] Program Instance PropRecvMsgType_Enum : Enum PropRecvMsgType := {|
  enumerators := [PropInit; PropInitACK; PropInitACKACK; PropStart; EPRUpdateBuffer;
                  EPRTerminate; EPRTerminateACK] |}.
Next Obligation. apply (bool_decide_unpack _). by vm_compute. Qed.
Next Obligation. intros []; by apply (bool_decide_unpack _); vm_compute. Qed.
#[export] Program Instance ReceiverMsgType_Enum : Enum ReceiverMsgType := {|
  enumerators := [ERInternalTerminate; EPRInternalTerminate; EMyUpdates] |}.
Next Obligation. apply (bool_decide_unpack _). by vm_compute. Qed.
Next Obligation. intros []; by apply (bool_decide_unpack _); vm_compute. Qed.
#[export] Program Instance TimerMsgType_Enum : Enum TimerMsgType := {|
  enumerators := [ETimerTrigger; ETimerCmd] |}.
Next Obligation. apply (bool_decide_unpack _). by vm_compute. Qed.
Next Obligation. intros []; by apply (bool_decide_unpack _); vm_compute. Qed.

(** The value of an enumerator, and the enumerator of a value; a value outside
    the enumeration takes the [default] branch of the code's switches. *)
Definition enum_value {A} `{Enum A} (x : A) : Z :=
  match list_find (fun y => y = x) enumerators with
  | Some (i, _) => Z.of_nat i
  | None => -1
  end.
Definition enum_of {A} `{Enum A} (z : Z) : option A :=
  if z <? 0 then None else enumerators !! Z.to_nat z.

Lemma enum_of_value {A} `{Enum A} (x : A) : enum_of (enum_value x) = Some x.
Proof.
  unfold enum_of, enum_value.
  destruct (list_find (fun y => y = x) enumerators) as [[i y]|] eqn:E.
  - apply list_find_Some in E as (Hi & -> & _).
    rewrite (proj2 (Z.ltb_ge _ _)) by lia. by rewrite Nat2Z.id.
  - apply list_find_None in E. rewrite Forall_forall in E.
    exfalso. by apply (E x (enumerators_all x)).
Qed.

Lemma enum_value_small {A} `{Enum A} (x : A) :
  0 <= enum_value x < Z.of_nat (length (enumerators (A := A))).
Proof.
  unfold enum_value. destruct (list_find (fun y => y = x) enumerators) as [[i y]|] eqn:E.
  - apply list_find_Some in E as (Hi & _ & _). apply lookup_lt_Some in Hi. lia.
  - apply list_find_None in E. rewrite Forall_forall in E.
    exfalso. by apply (E x (enumerators_all x)).
Qed.

(** An enumeration has an [int] as its underlying object here. *)
Definition enum_bytes {A} `{Enum A} (x : A) : list byte := i32_bytes (enum_value x).

Lemma length_enum_bytes {A} `{Enum A} (x : A) : length (enum_bytes x) = 4%nat.
Proof. apply length_i32_bytes. Qed.

(** ** Members of received blocks *)

(** A member read through a pointer that a cast made of the block's. *)
Definition member_i32 (m : list byte) (off : nat) : res Z :=
  if (length m <? off + 4)%nat then Fault OutOfBounds else Ok (bytes_i32 (slice m off 4)).
Definition member_i64 (m : list byte) (off : nat) : res Z :=
  if (length m <? off + 8)%nat then Fault OutOfBounds else Ok (bytes_i64 (slice m off 8)).
(** [None]: no enumerator, the [default] branch of a switch. *)
Definition member_enum {A} `{Enum A} (m : list byte) (off : nat) : res (option A) :=
  z ← member_i32 m off; Ok (enum_of z).

Lemma member_i32_here a z b off : off = length a -> is_i32 z -> member_i32 (a ++ i32_bytes z ++ b) off = Ok z.
Proof.
  intros -> Hz. unfold member_i32. rewrite (proj2 (Nat.ltb_ge _ _)) by len_lia.
  rewrite slice_app_here by len_lia. by rewrite bytes_i32_i32_bytes, wrap_i32_id.
Qed.
Lemma member_i64_here a z b off : off = length a -> is_i64 z -> member_i64 (a ++ i64_bytes z ++ b) off = Ok z.
Proof.
  intros -> Hz. unfold member_i64. rewrite (proj2 (Nat.ltb_ge _ _)) by len_lia.
  rewrite slice_app_here by len_lia. by rewrite bytes_i64_i64_bytes, wrap_i64_id.
Qed.
Lemma member_enum_here {A} `{Enum A} a (x : A) b off :
  off = length a -> Z.of_nat (length (enumerators (A := A))) < 2147483648 -> member_enum (a ++ enum_bytes x ++ b) off = Ok (Some x).
Proof.
  intros Ho Hn. unfold member_enum, enum_bytes. rewrite member_i32_here; [|done|].
  - simpl. by rewrite enum_of_value.
  - pose proof (enum_value_small x). unfold is_i32. lia.
Qed.
(** The message type is the first member of every message. *)
Lemma member_enum_first {A} `{Enum A} (x : A) b :
  Z.of_nat (length (enumerators (A := A))) < 2147483648 -> member_enum (enum_bytes x ++ b) 0 = Ok (Some x).
Proof. by apply (member_enum_here []). Qed.

(** ** Structs *)

Record PUpdateLogMsg := mkPUpdateLogMsg {
  pul_table_id : Z; pul_key : Z; pul_update_type : UpdateType }.
Record PUpdateBufferMsg := mkPUpdateBufferMsg { pub_table_id : Z; pub_ptr : Z }.
Record PropInitMsg := mkPropInitMsg { pi_node_id : Z }.
Record PropInitAckAckMsg := mkPropInitAckAckMsg { piaa_node_id : Z }.
Record EPRUpdateBufferMsg := mkEPRUpdateBufferMsg { epub_table_id : Z }.
Record PRTerminateAckMsg := mkPRTerminateAckMsg { prta_node_id : Z }.
Record MyUpdatesMsg := mkMyUpdatesMsg { mu_table_id : Z; mu_ptr : Z }.
Record TimerCmdMsg := mkTimerCmdMsg { tc_nanosec : Z }.

(** The size of a struct on LP64, and its members after [msgtype_], the first of each. *)
Class Struct (A : Type) := {
  sizeof : Z;
  members : A -> list byte
}.
Arguments sizeof A {_}.

#[export] Instance PropInitMsg_Struct : Struct PropInitMsg :=
  {| sizeof := 8; members m := i32_bytes (pi_node_id m) |}.
#[export] Instance PropInitAckAckMsg_Struct : Struct PropInitAckAckMsg :=
  {| sizeof := 8; members m := i32_bytes (piaa_node_id m) |}.
#[export] Instance EPRUpdateBufferMsg_Struct : Struct EPRUpdateBufferMsg :=
  {| sizeof := 8; members m := i32_bytes (epub_table_id m) |}.
#[export] Instance PRTerminateAckMsg_Struct : Struct PRTerminateAckMsg :=
  {| sizeof := 8; members m := i32_bytes (prta_node_id m) |}.
#[export] Instance TimerCmdMsg_Struct : Struct TimerCmdMsg :=
  {| sizeof := 8; members m := i32_bytes (tc_nanosec m) |}.
#[export] Instance MyUpdatesMsg_Struct : Struct MyUpdatesMsg :=
  {| sizeof := 16; members m := i32_bytes (mu_table_id m) ++ i64_bytes (mu_ptr m) |}.
#[export] Instance PUpdateBufferMsg_Struct : Struct PUpdateBufferMsg :=
  {| sizeof := 16; members m := i32_bytes (pub_table_id m) ++ i64_bytes (pub_ptr m) |}.
(** Four bytes of padding at the end, here zero. *)
#[export] Instance PUpdateLogMsg_Struct : Struct PUpdateLogMsg :=
  {| sizeof := 24; members m :=
       i32_bytes (pul_table_id m) ++ i64_bytes (pul_key m) ++ enum_bytes (pul_update_type m) ++ i32_bytes 0 |}.

(** The object representation of a struct with its [msgtype_]. *)
Definition object_bytes {T A} `{Enum T} `{Struct A} (msgtype_ : T) (x : A) : list byte :=
  enum_bytes msgtype_ ++ members x.
