(* ===== verification/ValueOps.v ===== *)
(** Values are byte arrays that the application adds and subtracts through two
    function pointers (include/common.hpp). This file has their type, the laws
    QuiltDB relies on as an interface, and the implementation the helloworld
    application passes, with the proof that it meets the interface. *)
From S2P Require Import Prelude.

(** [typedef int ( *ValueAddFunc)(uint8_t *, uint8_t *, int32_t)]: the bytes
    behind the value and the delta pointer and the size, to the return code and the
    bytes left behind the value pointer. *)
Definition ValueFunc := list byte -> list byte -> Z -> res (Z * list byte).

(** What the callers make of it: they ignore the return code. *)
Definition apply_value (f : ValueFunc) (v d : list byte) (vsize : Z) : res (list byte) :=
  '(_, v) ← f v d vsize; Ok v.

(** [memset(p, 0, n)] of a fresh [new uint8_t[n]]. *)
Definition zero_bytes (n : nat) : list byte := replicate n Byte.x00.

(** The contract of the pair of functions on values of [n] bytes: a commutative
    group whose zero is the all-zero block. "In order to support update
    aggregation, addition must be commutative and associative." *)
Class ValueGroup (n : nat) (vadd vsub : ValueFunc) := {
  vplus : list byte -> list byte -> list byte;
  vminus : list byte -> list byte -> list byte;
  vadd_runs : forall v d, length v = n -> length d = n ->
    apply_value vadd v d (Z.of_nat n) = Ok (vplus v d);
  vsub_runs : forall v d, length v = n -> length d = n ->
    apply_value vsub v d (Z.of_nat n) = Ok (vminus v d);
  length_vplus : forall v d, length v = n -> length d = n -> length (vplus v d) = n;
  length_vminus : forall v d, length v = n -> length d = n -> length (vminus v d) = n;
  vplus_comm : forall v d, length v = n -> length d = n -> vplus v d = vplus d v;
  vplus_assoc : forall u v d, length u = n -> length v = n -> length d = n ->
    vplus u (vplus v d) = vplus (vplus u v) d;
  vplus_zero : forall v, length v = n -> vplus (zero_bytes n) v = v;
  vminus_vplus : forall v d, length v = n -> length d = n -> vminus (vplus v d) d = v
}.

Lemma length_zero_bytes n : length (zero_bytes n) = n.
Proof. apply length_replicate. Qed.

(** ** Sums of deltas *)

Section sums.
Context {n : nat} {vadd vsub : ValueFunc} `{VG : !ValueGroup n vadd vsub}.

(** The value a list of deltas adds up to, added in that order. *)
Definition vsum_from (v : list byte) (ds : list (list byte)) : list byte :=
  fold_left vplus ds v.
Definition vsum (ds : list (list byte)) : list byte := vsum_from (zero_bytes n) ds.

Lemma length_vsum_from v ds :
  length v = n -> Forall (fun d => length d = n) ds -> length (vsum_from v ds) = n.
Proof.
  intros Hv Hds. revert v Hv. induction Hds as [|d ds Hd _ IH]; intros v Hv; simpl; [done|].
  apply IH. by apply length_vplus.
Qed.

Lemma length_vsum ds : Forall (fun d => length d = n) ds -> length (vsum ds) = n.
Proof. apply length_vsum_from, length_zero_bytes. Qed.

Lemma vsum_from_shift v d ds :
  length v = n -> length d = n -> Forall (fun d => length d = n) ds ->
  vsum_from (vplus v d) ds = vplus v (vsum_from d ds).
Proof.
  intros Hv Hd Hds. revert d Hd. induction Hds as [|e ds He _ IH]; intros d Hd; simpl; [done|].
  rewrite <- IH by (by apply length_vplus). by rewrite vplus_assoc.
Qed.

Lemma vsum_from_vsum v ds :
  length v = n -> Forall (fun d => length d = n) ds ->
  vsum_from v ds = vplus v (vsum ds).
Proof.
  intros Hv Hds. unfold vsum. rewrite <- vsum_from_shift by (try done; apply length_zero_bytes).
  by rewrite vplus_comm, vplus_zero by (try done; apply length_zero_bytes).
Qed.

Lemma vsum_app ds1 ds2 :
  Forall (fun d => length d = n) ds1 -> Forall (fun d => length d = n) ds2 ->
  vsum (ds1 ++ ds2) = vplus (vsum ds1) (vsum ds2).
Proof.
  intros H1 H2. unfold vsum at 1, vsum_from. rewrite fold_left_app.
  apply vsum_from_vsum; [by apply length_vsum|done].
Qed.

Lemma vsum_snoc ds d :
  length d = n -> Forall (fun d => length d = n) ds ->
  vsum (ds ++ [d]) = vplus (vsum ds) d.
Proof. intros. unfold vsum, vsum_from. by rewrite fold_left_app. Qed.

(** Aggregation does not depend on the order the deltas arrive in. *)
Lemma vsum_perm ds1 ds2 :
  Forall (fun d => length d = n) ds1 -> ds1 ≡ₚ ds2 -> vsum ds1 = vsum ds2.
Proof.
  intros Hall Hp. unfold vsum. pose proof (length_zero_bytes n) as Hz.
  revert Hz. generalize (zero_bytes n) as v. revert Hall.
  induction Hp as [|d l l' Hp IH|x y l|l l' l'' Hp1 IH1 Hp2 IH2]; intros Hall v Hv; simpl.
  - done.
  - apply Forall_cons in Hall as [Hd Hl]. apply IH; [done|by apply length_vplus].
  - apply Forall_cons in Hall as [Hy [Hx Hl]%Forall_cons]. f_equal.
    by rewrite <- vplus_assoc, (vplus_comm y), vplus_assoc.
  - rewrite IH1 by done. apply IH2; [by rewrite <- Hp1|done].
Qed.

(** Taking back a delta that was added. *)
Lemma vminus_vplus_l v d : length v = n -> length d = n -> vminus (vplus d v) d = v.
Proof. intros. rewrite vplus_comm by done. by apply vminus_vplus. Qed.
End sums.

Arguments vsum {n vadd vsub VG} ds.
Arguments vsum_from {n vadd vsub VG} v ds.

(** ** The integer values of the helloworld application *)

Definition sizeof_int : Z := 4.

(** [v += delta] on the [int]s behind the pointers; the sum wraps around as it
    does on the two's complement targets. *)
Definition int_op (op : Z -> Z -> Z) (_v _delta : list byte) (_vsize : Z) : res (Z * list byte) :=
  if negb (_vsize =? sizeof_int) then Ok (-1, _v)
  else if (length _v <? 4)%nat || (length _delta <? 4)%nat then Fault OutOfBounds
  else
    let v := bytes_i32 (take 4 _v) in
    let delta := bytes_i32 (take 4 _delta) in
    Ok (0, i32_bytes (wrap_i32 (op v delta)) ++ drop 4 _v).

Definition IntAdd : ValueFunc := int_op Z.add.
Definition IntSub : ValueFunc := int_op Z.sub.

Definition int_plus (v d : list byte) : list byte := i32_bytes (bytes_i32 v + bytes_i32 d).
Definition int_minus (v d : list byte) : list byte := i32_bytes (bytes_i32 v - bytes_i32 d).

Lemma int_op_runs op v d :
  length v = 4%nat -> length d = 4%nat ->
  apply_value (int_op op) v d (Z.of_nat 4) = Ok (i32_bytes (op (bytes_i32 v) (bytes_i32 d))).
Proof.
  intros Hv Hd. unfold apply_value, int_op. simpl. rewrite Hv, Hd. simpl.
  rewrite !take_ge by lia. rewrite drop_ge by lia. by rewrite app_nil_r, i32_bytes_wrap.
Qed.

Lemma i32_bytes_congr a b : wrap_i32 a = wrap_i32 b -> i32_bytes a = i32_bytes b.
Proof. intros H. by rewrite <- (i32_bytes_wrap a), H, i32_bytes_wrap. Qed.

#[export] Program Instance Int_ValueGroup : ValueGroup 4 IntAdd IntSub :=
  {| vplus := int_plus; vminus := int_minus |}.
Next Obligation. intros. by apply int_op_runs. Qed.
Next Obligation. intros. by apply int_op_runs. Qed.
Next Obligation. intros. apply length_i32_bytes. Qed.
Next Obligation. intros. apply length_i32_bytes. Qed.
Next Obligation. intros. unfold int_plus. f_equal. lia. Qed.
Next Obligation.
  intros. unfold int_plus. apply i32_bytes_congr. rewrite !bytes_i32_i32_bytes.
  rewrite wrap_i32_add_r, wrap_i32_add_l. f_equal. lia.
Qed.
Next Obligation.
  intros v Hv. unfold int_plus. change (bytes_i32 (zero_bytes 4)) with 0.
  rewrite Z.add_0_l. by apply i32_bytes_bytes_i32.
Qed.
Next Obligation.
  intros v d Hv Hd. unfold int_minus, int_plus. rewrite bytes_i32_i32_bytes.
  rewrite <- i32_bytes_wrap, wrap_i32_sub_l, i32_bytes_wrap.
  rewrite <- (i32_bytes_bytes_i32 v) at 2 by done. f_equal. lia.
Qed.
