(* ===== verification/Common.v ===== *)
(** Definitions shared by the threads: the node description of
    include/common.hpp with the socket addresses built from it, and the two
    containers of the C++ code whose behaviour is part of the model - the
    iteration order and the inserting lookup of [boost::unordered_map]. *)
From S2P Require Import Prelude.
From stdpp Require Export strings.
#[global] Open Scope Z_scope.

(** ** Nodes *)

Record NodeInfo := mkNodeInfo {
  node_id_ : Z;
  recv_pull_ip_ : string;
  recv_pull_port_ : string;
  recv_push_ip_ : string;
  recv_push_port_ : string
}.

#[export] Instance NodeInfo_eq_dec : EqDecision NodeInfo.
Proof. solve_decision. Defined.

(** ["tcp://" + ip + ":" + port], the address a receiver binds for updates and
    its upstream propagators connect to, and the one for control messages. *)
Definition tcp_update_endp (n : NodeInfo) : string :=
  "tcp://" +:+ recv_pull_ip_ n +:+ ":" +:+ recv_pull_port_ n.
Definition tcp_term_endp (n : NodeInfo) : string :=
  "tcp://" +:+ recv_push_ip_ n +:+ ":" +:+ recv_push_port_ n.

(** ** [boost::unordered_map] *)

(** The traversal order of an unordered map is unspecified: some enumeration of
    its entries. *)
Class UnorderedIter := {
  iter_order : forall {V : Type}, gmap Z V -> list (Z * V);
  iter_order_perm : forall {V : Type} (m : gmap Z V), iter_order m ≡ₚ map_to_list m
}.

(** [m[k]]: inserts a value-initialised element when the key is absent. *)
Definition index_ref {V} (d : V) (m : gmap Z V) (k : Z) : V * gmap Z V :=
  match m !! k with
  | Some v => (v, m)
  | None => (d, <[k := d]> m)
  end.

Lemma index_ref_present {V} (d v : V) m k : m !! k = Some v -> index_ref d m k = (v, m).
Proof. unfold index_ref. by intros ->. Qed.

Lemma index_ref_value {V} (d : V) m k : (index_ref d m k).1 = default d (m !! k).
Proof. unfold index_ref. by destruct (m !! k). Qed.

Lemma index_ref_lookup {V} (d : V) m k k' :
  (index_ref d m k).2 !! k' = if decide (k = k') then Some (default d (m !! k)) else m !! k'.
Proof.
  unfold index_ref. destruct (m !! k) eqn:E; simpl; case_decide; subst; simplify_map_eq; done.
Qed.

Lemma iter_order_elem `{UnorderedIter} {V} (m : gmap Z V) k v :
  (k, v) ∈ iter_order m <-> m !! k = Some v.
Proof. rewrite iter_order_perm. apply elem_of_map_to_list. Qed.

Lemma iter_order_NoDup `{UnorderedIter} {V} (m : gmap Z V) : NoDup (iter_order m).*1.
Proof. rewrite (iter_order_perm m). apply NoDup_fst_map_to_list. Qed.

Lemma length_iter_order `{UnorderedIter} {V} (m : gmap Z V) : length (iter_order m) = size m.
Proof. rewrite (iter_order_perm m). apply length_map_to_list. Qed.

(** One traversal order, for concrete runs: by [gmap]'s own enumeration. *)
Definition gmap_order : UnorderedIter := {|
  iter_order V m := map_to_list m;
  iter_order_perm V m := Permutation_refl _
|}.
