(* ===== verification/Propagator.v ===== *)
(** The propagator of comm/propagator.hpp and comm/propagator.cpp: the object the
    application threads call, and its thread, which aggregates the updates of
    the node, ships a buffer per table on every timer tick and takes part in the
    termination protocol. One definition per method and per message handler of
    the thread; the messages the thread sends are recorded in order in [out].

    Sends always succeed here: the code wraps every send in a [CHECK] on its
    size, so a run in which one fails has aborted. Log output is left out. *)
From S2P Require Import Prelude Common MemStruct ValueOps Protocol.

(** ** Data *)

Inductive PropagatorState := INIT | RUN | TERM_PREP | TERM.
#[export] Instance PropagatorState_eq_dec : EqDecision PropagatorState.
Proof. solve_decision. Defined.

Record TableInfo := mkTableInfo {
  ti_update_size_ : Z;
  ti_vadd_func_ : option ValueFunc;      (** [None]: the null pointer *)
  ti_loop_ : bool;
  ti_apply_updates_ : bool
}.

(** What [table_dir_[id]] inserts for an unregistered table. *)
Definition TableInfo_zero : TableInfo := mkTableInfo 0 None false false.

Record PropagatorThrInfo := mkPropagatorThrInfo {
  my_id_ : Z;
  nanosec_ : Z;
  downstream_recv_ : NodeInfo
}.

(** The object. Threads are numbered; [update_push_sock_] is the set of threads
    whose thread-specific pointer is set. *)
Record PropObj := mkPropObj {
  state_ : PropagatorState;
  have_signaled_term_ : bool;
  table_dir_ : gmap Z TableInfo;
  update_push_sock_ : gset Z;
  thrinfo_ : option PropagatorThrInfo
}.

Definition set_state (s : PropObj) (v : PropagatorState) : PropObj :=
  mkPropObj v (have_signaled_term_ s) (table_dir_ s) (update_push_sock_ s) (thrinfo_ s).
Definition set_have_signaled_term (s : PropObj) (v : bool) : PropObj :=
  mkPropObj (state_ s) v (table_dir_ s) (update_push_sock_ s) (thrinfo_ s).
Definition set_table_dir (s : PropObj) (v : gmap Z TableInfo) : PropObj :=
  mkPropObj (state_ s) (have_signaled_term_ s) v (update_push_sock_ s) (thrinfo_ s).
Definition set_update_push_sock (s : PropObj) (v : gset Z) : PropObj :=
  mkPropObj (state_ s) (have_signaled_term_ s) (table_dir_ s) v (thrinfo_ s).
Definition set_thrinfo (s : PropObj) (v : option PropagatorThrInfo) : PropObj :=
  mkPropObj (state_ s) (have_signaled_term_ s) (table_dir_ s) (update_push_sock_ s) v.

(** Messages the propagator thread sends, by socket. *)
Inductive PropOut :=
| ToTimer (m : TimerCmdMsg)                          (** timer_send_sock *)
| ToReceiver (table_id : Z) (b : UpdateBuffer)       (** MyUpdatesMsg to the paired receiver *)
| ToReceiverTerm                                     (** EPRInternalTerminate to it *)
| ToDownstreamInit (m : PropInitMsg)                 (** prop_push_sock *)
| ToDownstreamInitAckAck (m : PropInitAckAckMsg)
| ToDownstream (m : EPRUpdateBufferMsg) (block : list byte)
| ToDownstreamTermAck (m : PRTerminateAckMsg)
| JoinTimer.                                         (** timer.WaitStop() *)

(** The state of the propagator thread: the object it shares, the locals of
    [PropagatorThrMain], the messages waiting on the pull socket from the paired
    receiver, and what it has sent. *)
Record PropThr := mkPropThr {
  obj : PropObj;
  update_store : gmap Z (gmap Z (list byte));
  table_peers_update_range : gmap Z (gmap Z UpdateRange);
  my_update_range : gmap Z UpdateRange;
  my_update_store : gmap Z (gmap Z (list byte));
  have_received_ds_term : bool;
  have_replied_ds_term : bool;
  have_stopped_timer_thr : bool;
  have_stopped_recv_thr : bool;
  internal_push_connected : bool;
  received_update_buffer_cnt : Z;
  pair_pull : list PropagatorMsgType;
  out : list PropOut
}.

Definition set_obj (s : PropThr) (v : PropObj) : PropThr :=
  mkPropThr v (update_store s) (table_peers_update_range s) (my_update_range s)
    (my_update_store s) (have_received_ds_term s) (have_replied_ds_term s)
    (have_stopped_timer_thr s) (have_stopped_recv_thr s) (internal_push_connected s)
    (received_update_buffer_cnt s) (pair_pull s) (out s).
Definition set_update_store (s : PropThr) (v : gmap Z (gmap Z (list byte))) : PropThr :=
  mkPropThr (obj s) v (table_peers_update_range s) (my_update_range s) (my_update_store s)
    (have_received_ds_term s) (have_replied_ds_term s) (have_stopped_timer_thr s)
    (have_stopped_recv_thr s) (internal_push_connected s) (received_update_buffer_cnt s)
    (pair_pull s) (out s).
Definition set_table_peers_update_range (s : PropThr) (v : gmap Z (gmap Z UpdateRange)) : PropThr :=
  mkPropThr (obj s) (update_store s) v (my_update_range s) (my_update_store s)
    (have_received_ds_term s) (have_replied_ds_term s) (have_stopped_timer_thr s)
    (have_stopped_recv_thr s) (internal_push_connected s) (received_update_buffer_cnt s)
    (pair_pull s) (out s).
Definition set_my_update_range (s : PropThr) (v : gmap Z UpdateRange) : PropThr :=
  mkPropThr (obj s) (update_store s) (table_peers_update_range s) v (my_update_store s)
    (have_received_ds_term s) (have_replied_ds_term s) (have_stopped_timer_thr s)
    (have_stopped_recv_thr s) (internal_push_connected s) (received_update_buffer_cnt s)
    (pair_pull s) (out s).
Definition set_my_update_store (s : PropThr) (v : gmap Z (gmap Z (list byte))) : PropThr :=
  mkPropThr (obj s) (update_store s) (table_peers_update_range s) (my_update_range s) v
    (have_received_ds_term s) (have_replied_ds_term s) (have_stopped_timer_thr s)
    (have_stopped_recv_thr s) (internal_push_connected s) (received_update_buffer_cnt s)
    (pair_pull s) (out s).
Definition set_have_received_ds_term (s : PropThr) (v : bool) : PropThr :=
  mkPropThr (obj s) (update_store s) (table_peers_update_range s) (my_update_range s)
    (my_update_store s) v (have_replied_ds_term s) (have_stopped_timer_thr s)
    (have_stopped_recv_thr s) (internal_push_connected s) (received_update_buffer_cnt s)
    (pair_pull s) (out s).
Definition set_have_replied_ds_term (s : PropThr) (v : bool) : PropThr :=
  mkPropThr (obj s) (update_store s) (table_peers_update_range s) (my_update_range s)
    (my_update_store s) (have_received_ds_term s) v (have_stopped_timer_thr s)
    (have_stopped_recv_thr s) (internal_push_connected s) (received_update_buffer_cnt s)
    (pair_pull s) (out s).
Definition set_have_stopped_timer_thr (s : PropThr) (v : bool) : PropThr :=
  mkPropThr (obj s) (update_store s) (table_peers_update_range s) (my_update_range s)
    (my_update_store s) (have_received_ds_term s) (have_replied_ds_term s) v
    (have_stopped_recv_thr s) (internal_push_connected s) (received_update_buffer_cnt s)
    (pair_pull s) (out s).
Definition set_have_stopped_recv_thr (s : PropThr) (v : bool) : PropThr :=
  mkPropThr (obj s) (update_store s) (table_peers_update_range s) (my_update_range s)
    (my_update_store s) (have_received_ds_term s) (have_replied_ds_term s)
    (have_stopped_timer_thr s) v (internal_push_connected s) (received_update_buffer_cnt s)
    (pair_pull s) (out s).
Definition set_internal_push_connected (s : PropThr) (v : bool) : PropThr :=
  mkPropThr (obj s) (update_store s) (table_peers_update_range s) (my_update_range s)
    (my_update_store s) (have_received_ds_term s) (have_replied_ds_term s)
    (have_stopped_timer_thr s) (have_stopped_recv_thr s) v (received_update_buffer_cnt s)
    (pair_pull s) (out s).
Definition set_received_update_buffer_cnt (s : PropThr) (v : Z) : PropThr :=
  mkPropThr (obj s) (update_store s) (table_peers_update_range s) (my_update_range s)
    (my_update_store s) (have_received_ds_term s) (have_replied_ds_term s)
    (have_stopped_timer_thr s) (have_stopped_recv_thr s) (internal_push_connected s) v
    (pair_pull s) (out s).
Definition set_pair_pull (s : PropThr) (v : list PropagatorMsgType) : PropThr :=
  mkPropThr (obj s) (update_store s) (table_peers_update_range s) (my_update_range s)
    (my_update_store s) (have_received_ds_term s) (have_replied_ds_term s)
    (have_stopped_timer_thr s) (have_stopped_recv_thr s) (internal_push_connected s)
    (received_update_buffer_cnt s) v (out s).
Definition set_out (s : PropThr) (v : list PropOut) : PropThr :=
  mkPropThr (obj s) (update_store s) (table_peers_update_range s) (my_update_range s)
    (my_update_store s) (have_received_ds_term s) (have_replied_ds_term s)
    (have_stopped_timer_thr s) (have_stopped_recv_thr s) (internal_push_connected s)
    (received_update_buffer_cnt s) (pair_pull s) v.

Definition send (s : PropThr) (m : PropOut) : PropThr := set_out s (out s ++ [m]).
Definition set_thr_state (s : PropThr) (v : PropagatorState) : PropThr :=
  set_obj s (set_state (obj s) v).

(** ** Methods of the object *)

Definition Propagator_ctor : PropObj := mkPropObj INIT false ∅ ∅ None.

(** Stores the thread information and creates the thread; the state leaves
    [INIT] only when the thread says so. *)
Definition Start (p : PropObj) (_config : PropagatorThrInfo) : Z * PropObj :=
  if decide (state_ p <> INIT) then (-1, p)
  else (0, set_thrinfo p (Some _config)).

Definition RegisterTable (p : PropObj) (_table_id : Z) (vadd_func : option ValueFunc)
    (_update_size : Z) (_loop _apply_updates : bool) : PropObj :=
  if decide (state_ p <> INIT) then p
  else set_table_dir p
         (<[_table_id := mkTableInfo _update_size vadd_func _loop _apply_updates]> (table_dir_ p)).

Definition RegisterThr (p : PropObj) (thr : Z) : Z * PropObj :=
  if decide (state_ p <> RUN) then (-1, p)
  else if decide (thr ∈ update_push_sock_ p) then (-1, p)
  else (0, set_update_push_sock p ({[thr]} ∪ update_push_sock_ p)).

Definition DeregisterThr (p : PropObj) (thr : Z) : Z * PropObj :=
  if decide (state_ p = INIT) then (-1, p)
  else if decide (thr ∉ update_push_sock_ p) then (-1, p)
  else (0, set_update_push_sock p (update_push_sock_ p ∖ {[thr]})).

(** Messages on [update_pull_sock]; the second part of an update log is the
    delta. *)
Inductive PropIn :=
| InUpdateLog (m : PUpdateLogMsg) (delta : list byte)
| InUpdateBuffer (table_id : Z) (b : UpdateBuffer)
| InOther (t : PropagatorMsgType).

(** The key parameter of [Inc] is an [int32_t]: the caller's 64-bit key is
    converted on the way in, then widened again into the message. Returns the
    code and what is pushed to the thread. *)
Definition Inc (p : PropObj) (thr : Z) (_table_id _key : Z) (_delta : list byte) (_num_bytes : Z)
    : res (Z * list PropIn) :=
  if decide (state_ p <> RUN) then Ok (-1, [])
  else if decide (thr ∉ update_push_sock_ p) then Ok (-1, [])
  else
    delta ← memcpy_src _delta _num_bytes;
    Ok (0, [InUpdateLog (mkPUpdateLogMsg _table_id (wrap_i32 _key) EInc) delta]).

(** The socket is dereferenced without a test. *)
Definition SignalTerm (p : PropObj) (thr : Z) : res (Z * PropObj * list PropIn) :=
  if decide (state_ p <> RUN) then Ok (-1, p, [])
  else if decide (thr ∉ update_push_sock_ p) then Fault NullDeref
  else Ok (0, set_have_signaled_term p true, [InOther EPInternalTerminate]).

(** [pthread_join]: blocks until the thread has returned. *)
Definition WaitTerm (p : PropObj) (thread_returned : bool) : res Z :=
  if decide (state_ p = INIT) then Ok (-1)
  else if negb (have_signaled_term_ p) then Ok (-1)
  else if thread_returned then Ok 0 else Block.

Definition CommitUpdates (_table_id : Z) (_updates : UpdateBuffer) : Z := 0.
Definition StopLocalReceiver : Z := 0.

Definition AddUpdate (_key : Z) (_update_delta : list byte) (_vsize : Z) (_table_vadd : option ValueFunc)
    (_table_updates : gmap Z (list byte)) : res (gmap Z (list byte)) :=
  ups ← match _table_updates !! _key with
        | Some _ => Ok _table_updates
        | None => if _vsize <? 0 then Fault BadAlloc
                  else Ok (<[_key := zero_bytes (Z.to_nat _vsize)]> _table_updates)
        end;
  match _table_vadd with
  | None => Fault NullDeref
  | Some vadd =>
      v ← apply_value vadd (default [] (ups !! _key)) _update_delta _vsize;
      Ok (<[_key := v]> ups)
  end.

(** ** The thread: start-up *)

(** Locals of [PropagatorThrMain] before the sockets are set up. *)
Definition thread_init (cfg : PropagatorThrInfo) (p : PropObj) (pair_in : list PropagatorMsgType)
    : PropThr :=
  mkPropThr p ∅ ((fun _ => ∅) <$> table_dir_ p) ((fun _ => mkRange 0 (-1)) <$> table_dir_ p) ∅
    false (node_id_ (downstream_recv_ cfg) <? 0) false false false 0 pair_in [].

(** Blocking receive on the pull socket from the paired receiver. *)
Definition recv_pair (s : PropThr) : res (PropagatorMsgType * PropThr) :=
  match pair_pull s with
  | [] => Block
  | m :: ms => Ok (m, set_pair_pull s ms)
  end.

(** Step 4 of the handshake: receive until [PropStart] arrives. *)
Fixpoint wait_prop_start (sub_in : list PropRecvMsgType) : res (list PropRecvMsgType) :=
  match sub_in with
  | [] => Block
  | m :: ms => if decide (m = PropStart) then Ok ms else wait_prop_start ms
  end.

(** The handshakes with the paired receiver and with the downstream receiver,
    whose control messages are [sub_in]; then the state becomes [RUN]. Returns
    the control messages not yet read. *)
Definition thread_handshake (cfg : PropagatorThrInfo) (sub_in : list PropRecvMsgType) (s : PropThr)
    : res (PropThr * list PropRecvMsgType) :=
  '(msg, s) ← recv_pair s;
  CHECK (bool_decide (msg = EPRInit));;
  '(s, sub_in) ←
    (if 0 <=? node_id_ (downstream_recv_ cfg) then
       let s := send s (ToDownstreamInit (mkPropInitMsg (my_id_ cfg))) in
       match sub_in with
       | [] => Block
       | ackmsg :: sub_in =>
           CHECK (bool_decide (ackmsg = PropInitACK));;
           let s := send s (ToDownstreamInitAckAck (mkPropInitAckAckMsg (my_id_ cfg))) in
           sub_in ← wait_prop_start sub_in;
           Ok (s, sub_in)
       end
     else Ok (s, sub_in));
  Ok (set_thr_state s RUN, sub_in).

(** ** The thread: shipping the updates of one table *)

(** Moves the aggregated updates of a table into a buffer. *)
Definition append_all (ups : list (Z * list byte)) (b : UpdateBuffer) : res UpdateBuffer :=
  foldM (fun u b =>
    '(ret, b) ← AppendUpdate b u.1 u.2;
    CHECK (ret =? 0);;
    Ok b) ups b.

(** Adds the range of every peer that has unsent updates, and marks it sent. *)
Definition add_peer_ranges (peers : list (Z * UpdateRange))
    (acc : UpdateBuffer * gmap Z UpdateRange) : res (UpdateBuffer * gmap Z UpdateRange) :=
  foldM (fun p acc =>
    let st := st_ p.2 in
    let en := end_ p.2 in
    if st <=? en then
      '(ret, b) ← UpdateNodeRange acc.1 p.1 st en;
      let peers := <[p.1 := mkRange (wrap_i64 (en + 1)) en]> acc.2 in
      CHECK (ret =? 0);;
      Ok (b, peers)
    else Ok acc) peers acc.

Definition range0 : UpdateRange := mkRange 0 0.

Section thread.
Context `{Allocator} `{UnorderedIter} (cfg : PropagatorThrInfo).

Definition has_downstream : bool := 0 <=? node_id_ (downstream_recv_ cfg).

(** A send on [*prop_push_sock]; the pointer is null without a downstream. *)
Definition send_downstream (s : PropThr) (m : PropOut) : res PropThr :=
  if has_downstream then Ok (send s m) else Fault NullDeref.

(** Connects the socket to the paired receiver on first use. *)
Definition connect_internal (s : PropThr) : PropThr :=
  if internal_push_connected s then s else set_internal_push_connected s true.

(** The outgoing buffer of a table: all its aggregated updates, the peers'
    unsent ranges and this node's own. The loop over the updates erases [update_iter]
    and then increments it, which C++ leaves undefined; it is read as the loop it means
    to be, that appends and erases every entry once. *)
Definition build_update_buff (table_id update_size : Z) (s : PropThr)
    : res (UpdateBuffer * PropThr) :=
  let updates := default ∅ (update_store s !! table_id) in
  let num_updates := wrap_i32 (Z.of_nat (size updates)) in
  let '(peers, table_peers) := index_ref ∅ (table_peers_update_range s) table_id in
  let num_peers := wrap_i32 (Z.of_nat (size peers)) in
  b ← CreateUpdateBuffer update_size num_updates (wrap_i32 (num_peers + 1));
  b ← append_all (iter_order updates) b;
  let s := set_update_store s (<[table_id := ∅]> (update_store s)) in
  '(b, peers) ← add_peer_ranges (iter_order peers) (b, peers);
  let s := set_table_peers_update_range s (<[table_id := peers]> table_peers) in
  let '(mine, my_ranges) := index_ref range0 (my_update_range s) table_id in
  let s := set_my_update_range s my_ranges in
  b ← (if st_ mine <=? end_ mine then
         '(ret, b) ← UpdateNodeRange b (my_id_ cfg) (st_ mine) (end_ mine);
         CHECK (ret =? 0);;
         Ok b
       else Ok b);
  Ok (b, s).

(** On a loop table the node's own updates of the batch go to the paired
    receiver first, which must acknowledge them. *)
Definition notify_receiver (table_id update_size : Z) (s : PropThr) : res PropThr :=
  let '(mine, my_stores) := index_ref ∅ (my_update_store s) table_id in
  let s := set_my_update_store s my_stores in
  if 0 <? Z.of_nat (size mine) then
    let s := connect_internal s in
    let num_my_updates := wrap_i32 (Z.of_nat (size mine)) in
    b ← CreateUpdateBuffer update_size num_my_updates 1;
    b ← append_all (iter_order mine) b;
    let s := set_my_update_store s (<[table_id := ∅]> (my_update_store s)) in
    let '(my_range, my_ranges) := index_ref range0 (my_update_range s) table_id in
    let s := set_my_update_range s my_ranges in
    CHECK (st_ my_range <=? end_ my_range);;
    '(_, b) ← UpdateNodeRange b (my_id_ cfg) (st_ my_range) (end_ my_range);
    let s := send s (ToReceiver table_id b) in
    '(ack, s) ← recv_pair s;
    CHECK (bool_decide (ack = EMyUpdatesACK));;
    Ok s
  else Ok s.

(** The raw block is sent, [get_buff_size()] bytes of it. *)
Definition ship_buffer (table_id : Z) (b : UpdateBuffer) (s : PropThr) : res PropThr :=
  let '(mine, my_ranges) := index_ref range0 (my_update_range s) table_id in
  let s := set_my_update_range s
             (<[table_id := mkRange (wrap_i64 (end_ mine + 1)) (end_ mine)]> my_ranges) in
  block ← memcpy_src (to_bytes b) (get_buff_size b);
  send_downstream s (ToDownstream (mkEPRUpdateBufferMsg table_id) block).

(** The body of the loop over [update_store]. *)
Definition flush_table (table_id : Z) (s : PropThr) : res PropThr :=
  let num_updates := wrap_i32 (Z.of_nat (size (default ∅ (update_store s !! table_id)))) in
  if num_updates =? 0 then Ok s
  else
    let '(info, dir) := index_ref TableInfo_zero (table_dir_ (obj s)) table_id in
    let s := set_obj s (set_table_dir (obj s) dir) in
    '(b, s) ← build_update_buff table_id (ti_update_size_ info) s;
    s ← (if ti_loop_ info then notify_receiver table_id (ti_update_size_ info) s else Ok s);
    ship_buffer table_id b s.

(** Whether the thread returns after this message. *)
Definition Exit := true.
Definition Continue := false.

(** The three conditions for leaving the loop. *)
Definition may_exit (s : PropThr) : bool :=
  have_stopped_timer_thr s && have_stopped_recv_thr s && have_replied_ds_term s.

Definition exit_if_done (s : PropThr) : bool * PropThr :=
  if may_exit s then (Exit, set_thr_state s TERM) else (Continue, s).

(** ** The thread: one handler per message *)

(** ETimerTrigger. *)
Definition handle_timer (s : PropThr) : res (bool * PropThr) :=
  let s := send s (ToTimer (mkTimerCmdMsg
             (if decide (state_ (obj s) = RUN) then nanosec_ cfg else 0))) in
  s ← foldM flush_table (iter_order (update_store s)).*1 s;
  if decide (state_ (obj s) = TERM_PREP) then
    let s := send s JoinTimer in
    let s := set_have_stopped_timer_thr s true in
    Ok (exit_if_done s)
  else Ok (Continue, s).

(** EPUpdateLog. The [assert] on the update's type is made where the message is read,
    in [Wire.recv_log]. *)
Definition handle_update_log (m : PUpdateLogMsg) (delta : list byte) (s : PropThr)
    : res (bool * PropThr) :=
  let tid := pul_table_id m in
  let key := pul_key m in
  let len := wrap_i32 (Z.of_nat (length delta)) in
  CHECK (0 <? len);;
  if decide (state_ (obj s) <> RUN) then Ok (Continue, s)
  else
    let '(mine, my_ranges) := index_ref range0 (my_update_range s) tid in
    let s := set_my_update_range s
               (<[tid := mkRange (st_ mine) (wrap_i64 (end_ mine + 1))]> my_ranges) in
    if nanosec_ cfg <=? 0 then Ok (Continue, s)
    else
      match table_dir_ (obj s) !! tid with
      | None => Fault CheckFailed
      | Some info =>
          let '(ups, store) := index_ref ∅ (update_store s) tid in
          ups ← AddUpdate key delta len (ti_vadd_func_ info) ups;
          let s := set_update_store s (<[tid := ups]> store) in
          if ti_loop_ info then
            let '(mys, my_stores) := index_ref ∅ (my_update_store s) tid in
            mys ← AddUpdate key delta len (ti_vadd_func_ info) mys;
            Ok (Continue, set_my_update_store s (<[tid := mys]> my_stores))
          else Ok (Continue, s)
      end.

(** Merges the range of one peer. *)
Definition merge_peer_range (node_id : Z) (r : UpdateRange) (peers : gmap Z UpdateRange)
    : res (gmap Z UpdateRange) :=
  match peers !! node_id with
  | None => Ok (<[node_id := r]> peers)
  | Some old =>
      CHECK (wrap_i64 (end_ old + 1) =? st_ r);;
      Ok (<[node_id := mkRange (st_ old) (end_ r)]> peers)
  end.

(** [AddUpdate(key, delta, update_size, table_vadd, update_store[table_id])]. *)
Definition add_received_update (table_id : Z) (info : TableInfo) (key : Z) (delta : list byte)
    (store : gmap Z (gmap Z (list byte))) : res (gmap Z (gmap Z (list byte))) :=
  let '(ups, store) := index_ref ∅ store table_id in
  ups ← AddUpdate key delta (ti_update_size_ info) (ti_vadd_func_ info) ups;
  Ok (<[table_id := ups]> store).

(** EPUpdateBuffer: a buffer the paired receiver forwards. *)
Definition handle_update_buffer (table_id : Z) (b : UpdateBuffer) (s : PropThr)
    : res (bool * PropThr) :=
  let s := set_received_update_buffer_cnt s (wrap_i32 (received_update_buffer_cnt s + 1)) in
  match table_dir_ (obj s) !! table_id with
  | None => Fault CheckFailed
  | Some info =>
      if decide (state_ (obj s) = RUN) then
        '(store, b) ← for_updates (Z.to_nat (ti_update_size_ info))
                        (add_received_update table_id info) b (update_store s);
        let s := set_update_store s store in
        match table_peers_update_range s !! table_id with
        | None => Fault NullDeref
        | Some peers =>
            '(peers, b) ← for_ranges merge_peer_range b peers;
            Ok (Continue, set_table_peers_update_range s
                            (<[table_id := peers]> (table_peers_update_range s)))
        end
      else Ok (Continue, s)
  end.

(** EPInternalTerminate. The loop that empties the stores erases [update_iter] before it
    increments it as well, and is read in the same way. *)
Definition handle_internal_terminate (s : PropThr) : res (bool * PropThr) :=
  let s := set_thr_state s TERM_PREP in
  s ← (if have_received_ds_term s then
         s ← send_downstream s (ToDownstreamTermAck (mkPRTerminateAckMsg (my_id_ cfg)));
         Ok (set_have_replied_ds_term s true)
       else Ok s);
  let s := connect_internal s in
  let s := send s ToReceiverTerm in
  Ok (Continue, set_update_store s ((fun _ => ∅) <$> update_store s)).

(** EPRecvInternalTerminateACK. *)
Definition handle_recv_terminate_ack (s : PropThr) : res (bool * PropThr) :=
  Ok (exit_if_done (set_have_stopped_recv_thr s true)).

Definition handle_update_pull (m : PropIn) (s : PropThr) : res (bool * PropThr) :=
  match m with
  | InUpdateLog m delta => handle_update_log m delta s
  | InUpdateBuffer table_id b => handle_update_buffer table_id b s
  | InOther EPInternalTerminate => handle_internal_terminate s
  | InOther EPRecvInternalTerminateACK => handle_recv_terminate_ack s
  | InOther _ => Fault CheckFailed
  end.

(** EPRTerminate, and anything else, from the downstream receiver. *)
Definition handle_term_sub (m : PropRecvMsgType) (s : PropThr) : res (bool * PropThr) :=
  match m with
  | EPRTerminate =>
      if decide (state_ (obj s) = TERM_PREP) then
        s ← send_downstream s (ToDownstreamTermAck (mkPRTerminateAckMsg (my_id_ cfg)));
        let s := set_have_received_ds_term s true in
        let s := set_have_replied_ds_term s true in
        Ok (exit_if_done s)
      else Ok (Continue, set_have_received_ds_term s true)
  | _ => Fault CheckFailed
  end.

(** One turn of the loop, given what [zmq::poll] found at the head of each
    socket: the timer first, then the update socket, then the control socket,
    one message per turn. Returns which socket was read. *)
Inductive polled := ReadTimer | ReadUpdate | ReadTerm | ReadNothing.

Definition loop_turn (timer : option TimerMsgType) (upd : option PropIn)
    (term : option PropRecvMsgType) (s : PropThr) : res (polled * bool * PropThr) :=
  match (if 0 <? nanosec_ cfg then timer else None) with
  | Some msgtype =>
      CHECK (bool_decide (msgtype = ETimerTrigger));;
      '(fl, s) ← handle_timer s; Ok (ReadTimer, fl, s)
  | None =>
      match upd with
      | Some m => '(fl, s) ← handle_update_pull m s; Ok (ReadUpdate, fl, s)
      | None =>
          match (if has_downstream then term else None) with
          | Some m => '(fl, s) ← handle_term_sub m s; Ok (ReadTerm, fl, s)
          | None => Ok (ReadNothing, Continue, s)
          end
      end
  end.

(** One turn per message: the propagator is woken by a tick (during which its
    paired receiver answers [acks]), by a message on the update socket or by a
    control message. *)
Inductive prop_event :=
| EvTimer (acks : list PropagatorMsgType)
| EvPull (m : PropIn)
| EvSub (m : PropRecvMsgType).

Definition turn (e : prop_event) (s : PropThr) : res (bool * PropThr) :=
  '(_, fl, s) ←
    (match e with
     | EvTimer acks =>
         loop_turn (Some ETimerTrigger) None None (set_pair_pull s (pair_pull s ++ acks))
     | EvPull m => loop_turn None (Some m) None s
     | EvSub m => loop_turn None None (Some m) s
     end : res (polled * bool * PropThr));
  Ok (fl, s).

(** [while(true)]: the thread handles what arrives until a handler returns. *)
Fixpoint thread_loop (es : list prop_event) (s : PropThr) : res (bool * PropThr) :=
  match es with
  | [] => Ok (Continue, s)
  | e :: es =>
      '(fl, s) ← turn e s;
      if fl : bool then Ok (Exit, s) else thread_loop es s
  end.
End thread.
