(* ===== verification/PropagatorSpec.v ===== *)
(** What the propagator thread's operations compute: the buffer it builds for a
    table, the flush of a table, the aggregation of an update log and of a
    forwarded buffer, each as a total function of the abstract state. *)
From S2P Require Import Prelude Common MemStruct MemStructSpec Buffer ValueOps Protocol Propagator.

(** ** Building a buffer *)

Lemma repr_block ub a :
  repr ub a -> get_buff_size ub = total a /\ memcpy_src (to_bytes ub) (get_buff_size ub) = Ok (to_bytes ub).
Proof.
  intros Hr. pose proof Hr as [Hh (rest & Hd & Hrest) Hs Hu Hl Hi Hn Hb].
  assert (get_buff_size ub = total a) as Hsz by (unfold get_buff_size; by rewrite Hh).
  split; [done|]. unfold memcpy_src. rewrite Hsz, length_to_bytes, Hd, !length_app, length_enc_slots.
  rewrite (length_enc_updates (ab_usize a)), Hrest by done.
  assert (total a = Z.of_nat (44 + (length (ab_slots a) * 20 +
    (length (ab_ups a) * (8 + ab_usize a) + (ab_cap a - length (ab_ups a)) * (8 + ab_usize a))))) as ->.
  { unfold total, update_off, slot_off, step.
    rewrite !Nat2Z.inj_add, !Nat2Z.inj_mul, Nat2Z.inj_sub, !Nat2Z.inj_add by done. lia. }
  rewrite !(proj2 (Z.leb_le _ _)) by lia. cbn [andb]. rewrite Nat2Z.id, take_ge; [done|].
  rewrite length_to_bytes, Hd, !length_app, length_enc_slots.
  rewrite (length_enc_updates (ab_usize a)), Hrest by done. lia.
Qed.

Lemma append_all_spec l : forall ub a,
  repr ub a -> (length (ab_ups a) + length l <= ab_cap a)%nat ->
  Forall (update_ok (ab_usize a)) l ->
  exists ub', append_all l ub = Ok ub' /\ repr ub' (a_with_ups a (ab_ups a ++ l)).
Proof.
  unfold append_all. induction l as [|[k d] l IH]; intros ub a Hr Hroom Hok; simpl.
  { exists ub. split; [done|]. rewrite app_nil_r. by destruct a. }
  apply Forall_cons in Hok as [[Hk Hd] Hok]. simpl in *.
  destruct (AppendUpdate_refines ub a k d Hr Hk ltac:(lia)) as (ub1 & -> & Hr1). simpl.
  unfold a_append in *. rewrite decide_False in * by lia. simpl in *.
  rewrite take_ge in Hr1 by lia.
  destruct (IH ub1 _ Hr1) as (ub2 & Hl & Hr2); simpl; [rewrite length_app; simpl; lia|done|].
  exists ub2. split; [done|]. simpl in Hr2. by rewrite <- app_assoc in Hr2.
Qed.

(** A table whose first entries are in use and whose rest is free. *)
Definition filled (w : list (Z * UpdateRange)) (k : nat) : list (Z * UpdateRange) :=
  w ++ replicate k free_slot.

Lemma find_slot_app_None P `{forall z, Decision (P z)} (w s : list (Z * UpdateRange)) :
  Forall (fun e => ~ P e.1) w ->
  find_slot P (w ++ s) = (fun p => (length w + p.1, p.2)%nat) <$> find_slot P s.
Proof.
  induction 1 as [|e w He _ IH]; unfold find_slot in *; simpl.
  { by destruct (list_find _ s) as [[]|]. }
  rewrite decide_False by done. rewrite IH. by destruct (list_find _ s) as [[]|].
Qed.

Lemma find_slot_free k : find_slot (fun z => z = -1) (replicate (S k) free_slot) = Some (0%nat, free_slot).
Proof. done. Qed.

Lemma find_slot_free_ne id k :
  id <> -1 -> find_slot (fun z => z = id) (replicate k free_slot) = None.
Proof. intros. apply list_find_None, Forall_replicate. simpl. lia. Qed.

Lemma add_range_fresh ub a w k id r :
  repr ub a -> ab_slots a = filled w (S k) ->
  Forall (fun e => 0 <= e.1 /\ e.1 <> id) w -> 0 <= id -> slot_ok (id, r) ->
  exists ub', UpdateNodeRange ub id (st_ r) (end_ r) = Ok (0, ub') /\
    repr ub' (a_with_slots a (filled (w ++ [(id, r)]) k)).
Proof.
  intros Hr Hs Hw Hid (Hi & Hst & Hen). simpl in *.
  destruct (UpdateNodeRange_refines ub a id (st_ r) (end_ r) Hr Hi Hst Hen) as (ub' & Hret & Hr').
  exists ub'. unfold a_update_range in *. rewrite Hs in *. unfold filled in *.
  rewrite !find_slot_app_None in * by (eapply List.Forall_impl; [|exact Hw]; simpl; intros; lia).
  rewrite find_slot_free_ne in * by lia. rewrite find_slot_free in *. simpl in *.
  split; [done|]. rewrite insert_app_r_alt in Hr' by lia.
  replace (length w + 0 - length w)%nat with 0%nat in Hr' by lia. simpl in Hr'.
  rewrite <- app_assoc. by destruct r.
Qed.

(** The peers that have something to send, and the map with them marked sent. *)
Definition live (l : list (Z * UpdateRange)) : list (Z * UpdateRange) :=
  filter (fun p => st_ p.2 <= end_ p.2) l.
Definition mark_sent (r : UpdateRange) : UpdateRange :=
  if decide (st_ r <= end_ r) then mkRange (wrap_i64 (end_ r + 1)) (end_ r) else r.

Lemma live_app l1 l2 : live (l1 ++ l2) = live l1 ++ live l2.
Proof. apply filter_app. Qed.

Lemma length_live_le l : (length (live l) <= length l)%nat.
Proof. apply length_filter. Qed.

Lemma live_elem p l : p ∈ live l -> p ∈ l.
Proof. intros H. by apply list_elem_of_filter in H as []. Qed.

Definition peer_ok (my : Z) (p : Z * UpdateRange) : Prop := 0 <= p.1 /\ p.1 <> my /\ slot_ok p.

Lemma add_peer_ranges_spec my ub a k l (m : gmap Z UpdateRange) :
  repr ub a -> ab_slots a = filled [] k -> (length l <= k)%nat -> NoDup l.*1 ->
  (forall p, p ∈ l -> m !! p.1 = Some p.2) -> (forall p, p ∈ l -> peer_ok my p) ->
  exists ub' m', add_peer_ranges l (ub, m) = Ok (ub', m') /\
    repr ub' (a_with_slots a (filled (live l) (k - length (live l)))) /\
    (forall q, m' !! q = if decide (q ∈ l.*1) then mark_sent <$> m !! q else m !! q).
Proof.
  intros Hr Hs Hk Hnd Hm Hok. unfold add_peer_ranges.
  destruct (foldM_ind (fun pre acc => repr acc.1 (a_with_slots a (filled (live pre) (k - length (live pre)))) /\
      forall q, acc.2 !! q = if decide (q ∈ pre.*1) then mark_sent <$> m !! q else m !! q)
    (fun p acc => let st := st_ p.2 in let en := end_ p.2 in
       if st <=? en then
         '(ret, b) ← UpdateNodeRange acc.1 p.1 st en;
         let peers := <[p.1 := mkRange (wrap_i64 (en + 1)) en]> acc.2 in
         CHECK (ret =? 0);; Ok (b, peers)
       else Ok acc) l (ub, m)) as ([ub' m'] & Hf & Hr' & Hm'); [| |by exists ub', m'].
  { simpl. split; [|done]. replace (a_with_slots a _) with a; [done|].
    rewrite Nat.sub_0_r. destruct a; simpl in *; by rewrite Hs. }
  intros pre [q r] suf [ub1 m1] -> [Hr1 Hm1]. simpl in *.
  assert ((q, r) ∈ pre ++ (q, r) :: suf) as Hin by set_solver.
  destruct (Hok _ Hin) as (Hq0 & Hqm & Hqok). simpl in *.
  rewrite fmap_app, fmap_cons in Hnd. simpl in Hnd.
  assert (q ∉ pre.*1) as Hqpre.
  { apply NoDup_app in Hnd as (_ & Hd & _). intros Hc. apply (Hd q Hc). set_solver. }
  assert (forall q', (q' ∈ (pre ++ [(q, r)]).*1) <-> (q' ∈ pre.*1 \/ q' = q)) as Hmem.
  { intros q'. rewrite fmap_app. simpl. set_solver. }
  assert (live [(q, r)] = if decide (st_ r <= end_ r) then [(q, r)] else []) as Hlv by done.
  rewrite live_app, Hlv.
  destruct (Z.leb_spec (st_ r) (end_ r)) as [Hle|Hgt].
  - rewrite decide_True by done.
    assert (exists k', k - length (live pre) = S k')%nat as [k' Hk'].
    { pose proof (length_live_le pre). rewrite length_app in Hk. simpl in Hk.
      exists (k - length (live pre) - 1)%nat. lia. }
    rewrite Hk' in Hr1.
    destruct (add_range_fresh ub1 _ (live pre) k' q r Hr1 eq_refl) as (ub2 & -> & Hr2); [|done|done|].
    { apply Forall_forall. intros e He%live_elem. split.
      - destruct (Hok e) as (? & _); [set_solver|done].
      - intros <-. apply Hqpre. by apply list_elem_of_fmap_2. }
    simpl. eexists; split; [done|]. simpl. split.
    + rewrite length_app; simpl. replace (k - (length (live pre) + 1))%nat with k' by lia. exact Hr2.
    + intros q'. destruct (decide (q' = q)) as [->|Hne].
      * rewrite lookup_insert_eq, decide_True by (apply Hmem; auto).
        specialize (Hm (q, r) Hin). simpl in Hm. rewrite Hm. simpl. unfold mark_sent.
        by rewrite decide_True.
      * rewrite lookup_insert_ne by done. rewrite Hm1.
        by destruct (decide (q' ∈ pre.*1)) as [Hd|Hd];
          [rewrite decide_True by (apply Hmem; auto)|rewrite decide_False by (rewrite Hmem; tauto)].
  - rewrite decide_False by lia. rewrite app_nil_r.
    eexists; split; [done|]. simpl. split; [done|].
    intros q'. rewrite Hm1. specialize (Hm (q, r) Hin). simpl in Hm.
    destruct (decide (q' = q)) as [->|Hne].
    + rewrite decide_False by done. rewrite decide_True by (apply Hmem; auto).
      rewrite Hm. simpl. unfold mark_sent. by rewrite decide_False by lia.
    + by destruct (decide (q' ∈ pre.*1)) as [Hd|Hd];
        [rewrite decide_True by (apply Hmem; auto)|rewrite decide_False by (rewrite Hmem; tauto)].
Qed.

(** ** Shapes of the stores *)

(** A value type: the size of a delta and the pair of functions on it. *)
Record VType := mkVType {
  v_size : nat;
  v_add : ValueFunc;
  v_sub : ValueFunc;
  v_group : ValueGroup v_size v_add v_sub;
  v_size_pos : (0 < v_size)%nat;
  v_size_small : Z.of_nat v_size < 2147483648
}.
#[export] Existing Instance v_group.

Definition range_ok (r : UpdateRange) : Prop := is_i64 (st_ r) /\ is_i64 (end_ r) /\ is_i64 (end_ r + 1).
Definition ups_ok (n : nat) (ups : gmap Z (list byte)) : Prop :=
  map_Forall (fun k d => is_i64 k /\ length d = n) ups.
Definition peers_ok (my : Z) (peers : gmap Z UpdateRange) : Prop :=
  map_Forall (fun q r => (0 <= q /\ q <> my) /\ is_i32 q /\ range_ok r) peers.
(** The size of the block a flush allocates, as [GetBuffSize] computes it. *)
Definition fits (n nups nslots : nat) : Prop :=
  44 + 20 * Z.of_nat nslots + Z.of_nat nups * (8 + Z.of_nat n) < 2147483648.

Definition own_slot (my : Z) (r : UpdateRange) : list (Z * UpdateRange) :=
  if decide (st_ r <= end_ r) then [(my, r)] else [].

(** The abstract buffer a flush builds. *)
Definition outgoing (n : nat) (ups : list (Z * list byte)) (slots : list (Z * UpdateRange)) (cap : nat)
    : abuf := mkAbuf n (length ups) (filled slots (cap - length slots)) ups 0 None.

Lemma fits_sizes n nups nslots :
  fits n nups nslots ->
  Z.of_nat nups < 2147483648 - 44 /\ Z.of_nat nslots * 20 < 2147483648 - 44.
Proof. unfold fits. intros. split; nia. Qed.

Lemma ups_ok_iter `{UnorderedIter} n ups : ups_ok n ups -> Forall (update_ok n) (iter_order ups).
Proof. intros Hu. apply Forall_forall. intros [k d] He%iter_order_elem. exact (Hu k d He). Qed.

Lemma create_fits `{Allocator} n nups nslots :
  Z.of_nat n < 2147483648 -> fits n nups nslots ->
  exists b, CreateUpdateBuffer (Z.of_nat n) (Z.of_nat nups) (Z.of_nat nslots) = Ok b /\
    repr b (a_create n nups nslots).
Proof.
  intros Hn Hf. apply CreateUpdateBuffer_refines; [|done]. unfold fits in Hf.
  unfold total, update_off, slot_off, step; simpl. rewrite length_replicate. lia.
Qed.

(** A fresh buffer with all the updates of a store in it. *)
Lemma create_and_fill `{Allocator, UnorderedIter} n ups nslots :
  Z.of_nat n < 2147483648 -> ups_ok n ups -> fits n (size ups) nslots ->
  exists b0 b, CreateUpdateBuffer (Z.of_nat n) (Z.of_nat (size ups)) (Z.of_nat nslots) = Ok b0 /\
    append_all (iter_order ups) b0 = Ok b /\ repr b (outgoing n (iter_order ups) [] nslots).
Proof.
  intros Hn Hu Hf. destruct (create_fits n (size ups) nslots Hn Hf) as (b0 & Hc & Hr).
  destruct (append_all_spec (iter_order ups) b0 _ Hr) as (b & Ha & Hb);
    [simpl; by rewrite length_iter_order|by apply ups_ok_iter|].
  exists b0, b. split_and!; [done..|]. unfold outgoing, filled. simpl.
  rewrite length_iter_order, Nat.sub_0_r. exact Hb.
Qed.

Lemma mark_sent_ok r : range_ok r -> mark_sent r = if decide (st_ r <= end_ r) then mkRange (end_ r + 1) (end_ r) else r.
Proof. intros (_ & _ & ?). unfold mark_sent. by rewrite wrap_i64_id. Qed.

Lemma add_peer_ranges_all `{UnorderedIter} my ub a k peers :
  repr ub a -> ab_slots a = filled [] k -> (size peers <= k)%nat -> peers_ok my peers ->
  exists ub', add_peer_ranges (iter_order peers) (ub, peers) = Ok (ub', mark_sent <$> peers) /\
    repr ub' (a_with_slots a (filled (live (iter_order peers)) (k - length (live (iter_order peers))))).
Proof.
  intros Hr Hs Hk Hp.
  destruct (add_peer_ranges_spec my ub a k (iter_order peers) peers Hr Hs) as (ub' & m' & Hadd & Hr' & Hm');
    [by rewrite length_iter_order|apply iter_order_NoDup| | |].
  - intros [q r] Hin. by apply iter_order_elem in Hin.
  - intros [q r] Hin%iter_order_elem. destruct (Hp q r Hin) as ((? & ?) & ? & ? & ? & _).
    unfold peer_ok, slot_ok; simpl; auto.
  - exists ub'. split; [|done]. rewrite Hadd. do 2 f_equal. apply map_eq. intros q.
    rewrite Hm', lookup_fmap. case_decide as Hd; [done|].
    destruct (peers !! q) as [r|] eqn:E; [|done]. exfalso. apply Hd.
    apply iter_order_elem in E. by apply (list_elem_of_fmap_2 fst) in E.
Qed.

Section flush.
Context `{Allocator} `{UnorderedIter} (cfg : PropagatorThrInfo).
Hypothesis my_id_ok : 0 <= my_id_ cfg /\ is_i32 (my_id_ cfg).

(** The range table of the outgoing buffer: the peers with something unsent,
    then this node if it has something unsent. *)
Definition out_slots (peers : gmap Z UpdateRange) (mine : UpdateRange) : list (Z * UpdateRange) :=
  live (iter_order peers) ++ own_slot (my_id_ cfg) mine.

Lemma length_out_slots peers mine : (length (out_slots peers mine) <= size peers + 1)%nat.
Proof.
  unfold out_slots, own_slot. rewrite length_app. pose proof (length_live_le (iter_order peers)).
  rewrite length_iter_order in *. case_decide; simpl; lia.
Qed.

Lemma build_update_buff_spec t n ups peers mine s :
  update_store s !! t = Some ups -> table_peers_update_range s !! t = Some peers ->
  my_update_range s !! t = Some mine ->
  Z.of_nat n < 2147483648 -> ups_ok n ups -> peers_ok (my_id_ cfg) peers -> range_ok mine ->
  fits n (size ups) (size peers + 1) ->
  exists b, build_update_buff cfg t (Z.of_nat n) s =
      Ok (b, set_table_peers_update_range (set_update_store s (<[t := ∅]> (update_store s)))
               (<[t := mark_sent <$> peers]> (table_peers_update_range s))) /\
    repr b (outgoing n (iter_order ups) (out_slots peers mine) (size peers + 1)).
Proof.
  intros Hups Hpeers Hmine Hn Huok Hpok Hrok Hf. unfold build_update_buff.
  rewrite Hups, (index_ref_present _ peers) by done. cbn [default from_option id].
  pose proof (fits_sizes _ _ _ Hf) as [Hf1 Hf2].
  rewrite (wrap_i32_id (Z.of_nat (size ups))), (wrap_i32_id (Z.of_nat (size peers))) by int_lia.
  rewrite wrap_i32_id by int_lia.
  replace (Z.of_nat (size peers) + 1) with (Z.of_nat (size peers + 1)) by lia.
  destruct (create_and_fill n ups (size peers + 1) Hn Huok Hf) as (b0 & b1 & -> & Ha & Hr1).
  simpl. rewrite Ha. simpl.
  destruct (add_peer_ranges_all (my_id_ cfg) b1 _ (size peers + 1) peers Hr1) as (b2 & -> & Hr2);
    [simpl; by rewrite Nat.sub_0_r|lia|done|]. simpl.
  rewrite (index_ref_present _ mine) by done.
  unfold out_slots, own_slot. destruct (Z.leb_spec (st_ mine) (end_ mine)) as [Hle|Hgt].
  - rewrite decide_True by done.
    pose proof (length_live_le (iter_order peers)) as Hll. rewrite length_iter_order in Hll.
    destruct (add_range_fresh b2 _ (live (iter_order peers)) (size peers - length (live (iter_order peers)))
      (my_id_ cfg) mine Hr2) as (b3 & -> & Hr3).
    + simpl. f_equal. lia.
    + apply Forall_forall. intros [q r] He%live_elem%iter_order_elem.
      by destruct (Hpok q r He) as ((? & ?) & _).
    + apply my_id_ok.
    + destruct Hrok as (? & ? & _). split; [apply my_id_ok|done].
    + simpl. exists b3. split; [by destruct s|]. unfold outgoing. rewrite length_app. simpl.
      replace (size peers + 1 - (length (live (iter_order peers)) + 1))%nat
        with (size peers - length (live (iter_order peers)))%nat by lia. exact Hr3.
  - rewrite decide_False by lia. simpl. exists b2. split; [by destruct s|].
    rewrite app_nil_r. exact Hr2.
Qed.

(** A table without updates of its own in the batch: the receiver hears nothing. *)
Lemma notify_receiver_silent t n s :
  default ∅ (my_update_store s !! t) = ∅ ->
  notify_receiver cfg t n s = Ok (set_my_update_store s (<[t := ∅]> (my_update_store s))).
Proof.
  intros Hm. unfold notify_receiver, index_ref. destruct (my_update_store s !! t) as [m|] eqn:E; simpl in Hm.
  - subst m. rewrite map_size_empty. simpl. by rewrite insert_id.
  - by rewrite map_size_empty.
Qed.

(** Otherwise it gets those updates, with their range, and acknowledges. *)
Lemma notify_receiver_spec t n mys mine rest s :
  my_update_store s !! t = Some mys -> mys <> ∅ -> my_update_range s !! t = Some mine ->
  Z.of_nat n < 2147483648 -> ups_ok n mys -> fits n (size mys) 1 ->
  range_ok mine -> st_ mine <= end_ mine -> pair_pull s = EMyUpdatesACK :: rest ->
  exists b, notify_receiver cfg t (Z.of_nat n) s =
      Ok (set_pair_pull (send (set_my_update_store (connect_internal s)
            (<[t := ∅]> (my_update_store s))) (ToReceiver t b)) rest) /\
    repr b (outgoing n (iter_order mys) [(my_id_ cfg, mine)] 1).
Proof.
  intros Hm Hne Hmine Hn Hok Hf Hr Hle Hpp. unfold notify_receiver.
  rewrite (index_ref_present _ mys) by done. cbn [my_update_store set_my_update_store].
  assert (size mys <> 0%nat) as Hsz by (by rewrite map_size_empty_iff).
  rewrite (proj2 (Z.ltb_lt _ _)) by lia.
  pose proof (fits_sizes _ _ _ Hf) as [Hf1 _]. rewrite wrap_i32_id by int_lia.
  destruct (create_and_fill n mys 1 Hn Hok Hf) as (b0 & b1 & Hc & Ha & Hr1).
  change (Z.of_nat 1) with 1 in Hc. rewrite Hc. cbn [mbind res_bind].
  replace (my_update_store (connect_internal _)) with (my_update_store s)
    by (unfold connect_internal; by case_match).
  rewrite Ha. cbn [mbind res_bind].
  rewrite (index_ref_present _ mine) by (unfold connect_internal; by case_match).
  rewrite (proj2 (Z.leb_le _ _)) by done. simpl.
  destruct (add_range_fresh b1 _ [] 0 (my_id_ cfg) mine Hr1) as (b2 & -> & Hr2);
    [done|constructor|apply my_id_ok| |].
  { destruct Hr as (? & ? & _). split; [apply my_id_ok|done]. }
  exists b2. split; [|exact Hr2]. simpl. unfold recv_pair, connect_internal.
  destruct s as [? ? ? ? ? ? ? ? ? [] ? pp ?]; simpl in *; by subst pp.
Qed.

Lemma ship_buffer_spec t b a mine s :
  repr b a -> my_update_range s !! t = Some mine -> range_ok mine ->
  ship_buffer cfg t b s =
    send_downstream cfg (set_my_update_range s (<[t := mkRange (end_ mine + 1) (end_ mine)]> (my_update_range s)))
      (ToDownstream (mkEPRUpdateBufferMsg t) (to_bytes b)).
Proof.
  intros Hr Hm (_ & _ & Hok). unfold ship_buffer.
  rewrite (index_ref_present _ mine) by done.
  destruct (repr_block b a Hr) as [_ ->]. simpl. by rewrite wrap_i64_id.
Qed.

(** ** Flushing a table *)

Definition info_ok (v : VType) (info : TableInfo) : Prop :=
  ti_update_size_ info = Z.of_nat (v_size v) /\ ti_vadd_func_ info = Some (v_add v).

(** What a flush of table [t] finds: its description, its unsent updates, what
    it knows of the peers and of itself, and its own updates of the batch. *)
Record flush_view (s : PropThr) (t : Z) (v : VType) (info : TableInfo) (ups : gmap Z (list byte))
    (peers : gmap Z UpdateRange) (mine : UpdateRange) (mys : gmap Z (list byte)) : Prop := {
  fv_dir : table_dir_ (obj s) !! t = Some info;
  fv_info : info_ok v info;
  fv_ups : update_store s !! t = Some ups;
  fv_ups_ok : ups_ok (v_size v) ups;
  fv_peers : table_peers_update_range s !! t = Some peers;
  fv_peers_ok : peers_ok (my_id_ cfg) peers;
  fv_mine : my_update_range s !! t = Some mine;
  fv_mine_ok : range_ok mine;
  fv_mys : default ∅ (my_update_store s !! t) = mys;
  fv_mys_ok : ups_ok (v_size v) mys;
  fv_own : mys <> ∅ -> st_ mine <= end_ mine;
  fv_fits : fits (v_size v) (size ups) (size peers + 1);
  fv_my_fits : fits (v_size v) (size mys) 1
}.

Definition notifies (info : TableInfo) (mys : gmap Z (list byte)) : bool :=
  ti_loop_ info && bool_decide (mys <> ∅).

(** The state after the flush. *)
Definition flushed (s : PropThr) (t : Z) (info : TableInfo) (peers : gmap Z UpdateRange)
    (mine : UpdateRange) (mys : gmap Z (list byte)) (sent : list PropOut) : PropThr :=
  mkPropThr (obj s) (<[t := ∅]> (update_store s))
    (<[t := mark_sent <$> peers]> (table_peers_update_range s))
    (<[t := mkRange (end_ mine + 1) (end_ mine)]> (my_update_range s))
    (if ti_loop_ info then <[t := ∅]> (my_update_store s) else my_update_store s)
    (have_received_ds_term s) (have_replied_ds_term s) (have_stopped_timer_thr s)
    (have_stopped_recv_thr s)
    (internal_push_connected s || notifies info mys)
    (received_update_buffer_cnt s)
    (if notifies info mys then tail (pair_pull s) else pair_pull s)
    (out s ++ sent).

(** The messages of the flush: the receiver is told first. *)
Definition flush_sends (t : Z) (v : VType) (info : TableInfo) (ups : gmap Z (list byte))
    (peers : gmap Z UpdateRange) (mine : UpdateRange) (mys : gmap Z (list byte))
    (sent : list PropOut) : Prop :=
  exists b, repr b (outgoing (v_size v) (iter_order ups) (out_slots peers mine) (size peers + 1)) /\
    if notifies info mys then
      exists b2, repr b2 (outgoing (v_size v) (iter_order mys) [(my_id_ cfg, mine)] 1) /\
        sent = [ToReceiver t b2; ToDownstream (mkEPRUpdateBufferMsg t) (to_bytes b)]
    else sent = [ToDownstream (mkEPRUpdateBufferMsg t) (to_bytes b)].

(** Without a downstream neighbour the buffer is made and the receiver told, and then
    there is no socket to send it on. *)
Lemma flush_table_result s t v info ups peers mine mys :
  flush_view s t v info ups peers mine mys -> ups <> ∅ ->
  (notifies info mys = true -> exists rest, pair_pull s = EMyUpdatesACK :: rest) ->
  exists sent, flush_table cfg t s =
      (if has_downstream cfg then Ok (flushed s t info peers mine mys sent) else Fault NullDeref) /\
    flush_sends t v info ups peers mine mys sent.
Proof.
  intros [Hdir [Hsz Hadd] Hups Huok Hpeers Hpok Hmine Hmok Hmys Hmyok Hown Hfit Hmfit] Hne Hack.
  pose proof (v_size_small v) as Hsmall. unfold flush_table. rewrite Hups. cbn [default from_option id].
  assert (size ups <> 0%nat) by (by rewrite map_size_empty_iff).
  pose proof (fits_sizes _ _ _ Hfit) as [Hf1 _].
  rewrite wrap_i32_id, (proj2 (Z.eqb_neq _ _)) by int_lia.
  rewrite (index_ref_present _ info) by done.
  replace (set_obj s (set_table_dir (obj s) (table_dir_ (obj s)))) with s by (by destruct s as [[]]).
  rewrite Hsz.
  destruct (build_update_buff_spec t (v_size v) ups peers mine s) as (b & -> & Hb); [done..|].
  cbn [mbind res_bind]. unfold flush_sends, flushed, notifies, send_downstream in *.
  set (s1 := set_table_peers_update_range _ _).
  destruct (ti_loop_ info); [case_bool_decide as Hm|].
  - destruct (my_update_store s !! t) as [m|] eqn:Em; simpl in Hmys; [subst m|done].
    destruct (Hack eq_refl) as [rest Hrest].
    destruct (notify_receiver_spec t (v_size v) mys mine rest s1) as (b2 & -> & Hb2); eauto.
    cbn [mbind res_bind].
    erewrite (ship_buffer_spec t b); [|done|unfold connect_internal; destruct (internal_push_connected s1); done|done].
    eexists; split; [|exists b; split; [done|]; exists b2; eauto]. unfold send_downstream. destruct (has_downstream cfg); [|done].
    unfold s1, connect_internal. destruct s as [? ? ? ? ? ? ? ? ? [] ? pp ?]; simpl in *; subst pp;
      unfold send, set_out; simpl; by rewrite <- app_assoc.
  - rewrite notify_receiver_silent by (simpl; rewrite Hmys; by destruct (decide (mys = ∅))).
    cbn [mbind res_bind]. erewrite (ship_buffer_spec t b) by done.
    eexists; split; [|by exists b]. unfold send_downstream. destruct (has_downstream cfg); [|done].
    destruct s; simpl. by rewrite orb_false_r.
  - cbn [mbind res_bind]. erewrite (ship_buffer_spec t b) by done.
    eexists; split; [|by exists b]. unfold send_downstream. destruct (has_downstream cfg); [|done].
    destruct s; simpl. by rewrite orb_false_r.
Qed.

Lemma flush_table_runs s t v info ups peers mine mys :
  flush_view s t v info ups peers mine mys -> ups <> ∅ -> has_downstream cfg = true ->
  (notifies info mys = true -> exists rest, pair_pull s = EMyUpdatesACK :: rest) ->
  exists sent, flush_table cfg t s = Ok (flushed s t info peers mine mys sent) /\
    flush_sends t v info ups peers mine mys sent.
Proof.
  intros Hv Hne Hds Hack. destruct (flush_table_result s t v info ups peers mine mys Hv Hne Hack) as (sent & Hf & Hs).
  exists sent. by rewrite Hds in Hf.
Qed.
Lemma flush_table_empty t s : default ∅ (update_store s !! t) = ∅ -> flush_table cfg t s = Ok s.
Proof. intros He. unfold flush_table. rewrite He. by rewrite map_size_empty. Qed.

End flush.
