(* ===== verification/PropagatorTrace.v ===== *)
(** Runs of the propagator thread while it accepts updates: every sequence of
    timer ticks, update logs and forwarded buffers is processed without a fault,
    and what it has sent downstream - read back from the blocks the way the
    receiving node reads them - accounts for exactly what came in. *)
From S2P Require Import Prelude Common MemStruct MemStructSpec Buffer ValueOps Protocol Propagator PropagatorSpec.

(** ** Reading what was sent *)

Definition block_updates (block : list byte) : list (Z * list byte) :=
  match (ub ← of_bytes block; collect_updates (Z.to_nat (get_update_size ub)) ub) with
  | Ok l => l | _ => []
  end.
Definition block_range (id : Z) (block : list byte) : option UpdateRange :=
  match (ub ← of_bytes block; GetNodeRange ub id) with
  | Ok o => o | _ => None
  end.

Lemma block_updates_repr b a : repr b a -> block_updates (to_bytes b) = ab_ups a.
Proof.
  intros Hr. unfold block_updates. rewrite of_bytes_to_bytes by (by eapply repr_hdr_ok). simpl.
  rewrite (repr_update_size _ _ Hr), Nat2Z.id. by rewrite (collect_updates_spec _ _ Hr).
Qed.
Lemma block_range_repr b a id : repr b a -> block_range id (to_bytes b) = a_get_range a id.
Proof.
  intros Hr. unfold block_range. rewrite of_bytes_to_bytes by (by eapply repr_hdr_ok). simpl.
  by rewrite (GetNodeRange_refines _ _ id Hr).
Qed.

(** The updates of table [t] sent downstream, and the ranges of node [id]. *)
Definition shipped_updates (t : Z) (o : list PropOut) : list (Z * list byte) :=
  o ≫= fun m => match m with
    | ToDownstream h block => if decide (epub_table_id h = t) then block_updates block else []
    | _ => []
    end.
Definition shipped_ranges (t id : Z) (o : list PropOut) : list UpdateRange :=
  o ≫= fun m => match m with
    | ToDownstream h block =>
        if decide (epub_table_id h = t) then option_list (block_range id block) else []
    | _ => []
    end.
Definition deltas_for (k : Z) (l : list (Z * list byte)) : list (list byte) :=
  snd <$> filter (fun u => u.1 = k) l.

(** What was sent and what is still in the store, for one key. *)
Definition account (t k : Z) (s : PropThr) : list (list byte) :=
  deltas_for k (shipped_updates t (out s)) ++ option_list (update_store s !! t ≫= fun u => u !! k).

Lemma deltas_for_app k l1 l2 : deltas_for k (l1 ++ l2) = deltas_for k l1 ++ deltas_for k l2.
Proof. unfold deltas_for. by rewrite filter_app, fmap_app. Qed.

Lemma deltas_for_unique k (l : list (Z * list byte)) d :
  NoDup l.*1 -> (k, d) ∈ l -> deltas_for k l = [d].
Proof.
  induction l as [|[k' d'] l IH]; intros Hnd Hin; [by apply not_elem_of_nil in Hin|].
  rewrite fmap_cons in Hnd. simpl in Hnd. apply NoDup_cons in Hnd as [Hk Hnd].
  unfold deltas_for. rewrite filter_cons. simpl. apply elem_of_cons in Hin as [[= -> ->]|Hin].
  - rewrite decide_True by done. rewrite fmap_cons. simpl. f_equal.
    rewrite filter_none; [done|]. intros [k2 d2] H2 <-.
    apply Hk. by apply (list_elem_of_fmap_2 fst) in H2.
  - rewrite decide_False; [by apply IH|]. intros ->. apply Hk.
    by apply (list_elem_of_fmap_2 fst) in Hin.
Qed.

Lemma deltas_for_none k (l : list (Z * list byte)) : k ∉ l.*1 -> deltas_for k l = [].
Proof.
  intros Hk. unfold deltas_for. rewrite filter_none; [done|]. intros [k2 d2] H2 <-. apply Hk. by apply (list_elem_of_fmap_2 fst) in H2.
Qed.

Lemma deltas_for_iter `{UnorderedIter} k (m : gmap Z (list byte)) :
  deltas_for k (iter_order m) = option_list (m !! k).
Proof.
  destruct (m !! k) as [d|] eqn:E.
  - apply deltas_for_unique; [apply iter_order_NoDup|by apply iter_order_elem].
  - apply deltas_for_none. intros [[k' d] [-> He]]%list_elem_of_fmap. simpl in *.
    apply iter_order_elem in He. congruence.
Qed.

(** ** Contiguous chains of ranges *)

(** [l] covers the sequence numbers from [a] up to, and excluding, [b] without
    gap or overlap, by non-empty ranges. *)
Fixpoint chain (a : Z) (l : list UpdateRange) (b : Z) : Prop :=
  match l with
  | [] => a = b
  | r :: l => st_ r = a /\ st_ r <= end_ r /\ chain (end_ r + 1) l b
  end.

Lemma chain_app a l1 l2 c : chain a (l1 ++ l2) c <-> exists b, chain a l1 b /\ chain b l2 c.
Proof.
  revert a; induction l1 as [|r l1 IH]; intros a; simpl.
  - split; [eauto|]. by intros (b & -> & ?).
  - rewrite IH. naive_solver.
Qed.

Lemma chain_snoc a l b r : chain a l b -> st_ r = b -> st_ r <= end_ r -> chain a (l ++ [r]) (end_ r + 1).
Proof. intros Hc <- Hle. apply chain_app. exists (st_ r). simpl. auto. Qed.

Lemma chain_le a l b : chain a l b -> a <= b.
Proof. revert a; induction l as [|r l IH]; simpl; intros a; [lia|]. intros (<- & ? & H%IH). lia. Qed.

(** ** The range table of an outgoing buffer *)

Lemma find_slot_unique (l : list (Z * UpdateRange)) q r :
  NoDup l.*1 -> (q, r) ∈ l -> (fun p => p.2.2) <$> find_slot (fun z => z = q) l = Some r.
Proof.
  intros Hnd Hin. unfold find_slot.
  destruct (list_find_elem_of (fun e : Z * UpdateRange => e.1 = q) l (q, r) Hin eq_refl) as [[i [q' r']] Hf].
  rewrite Hf. simpl. f_equal. apply list_find_Some in Hf as (Hi & Hq & _). simpl in Hq. subst q'.
  apply list_elem_of_lookup_2 in Hi.
  apply list_elem_of_lookup in Hin as [i1 H1]. apply list_elem_of_lookup in Hi as [i2 H2].
  assert (i1 = i2) as ->; [|congruence].
  eapply NoDup_lookup; [exact Hnd|rewrite list_lookup_fmap, H1; done|by rewrite list_lookup_fmap, H2].
Qed.

Section ranges.
Context `{UnorderedIter} (cfg : PropagatorThrInfo).

(** The range of a node in an outgoing buffer. *)
Definition range_sent (peers : gmap Z UpdateRange) (mine : UpdateRange) (q : Z) : option UpdateRange :=
  r ← (if decide (q = my_id_ cfg) then Some mine else peers !! q);
  if decide (st_ r <= end_ r) then Some r else None.

Lemma NoDup_out_slots peers mine :
  peers_ok (my_id_ cfg) peers -> NoDup (out_slots cfg peers mine).*1.
Proof.
  intros Hp. unfold out_slots. rewrite fmap_app. apply NoDup_app. split_and!.
  - eapply sublist_NoDup; [apply (iter_order_NoDup peers)|]. apply fmap_sublist, sublist_filter.
  - intros q [[q' r] [-> Hin%live_elem%iter_order_elem]]%list_elem_of_fmap. simpl.
    destruct (Hp q' r Hin) as ((_ & Hne) & _). unfold own_slot. case_decide; simpl; set_solver.
  - unfold own_slot. case_decide; simpl; [apply NoDup_singleton|apply NoDup_nil_2].
Qed.

Lemma elem_of_out_slots peers mine q r :
  peers_ok (my_id_ cfg) peers ->
  (q, r) ∈ out_slots cfg peers mine <-> range_sent peers mine q = Some r.
Proof.
  intros Hp. unfold out_slots, range_sent, own_slot, live.
  rewrite elem_of_app, list_elem_of_filter, iter_order_elem. simpl.
  destruct (decide (q = my_id_ cfg)) as [->|Hne].
  - assert (peers !! my_id_ cfg = None) as ->.
    { apply eq_None_not_Some. intros [r' Hr']. by destruct (Hp _ _ Hr') as ((_ & ?) & _). }
    simpl. case_decide; [rewrite list_elem_of_singleton|rewrite elem_of_nil]; naive_solver.
  - case_decide; [rewrite list_elem_of_singleton|rewrite elem_of_nil];
      destruct (peers !! q); simpl; repeat case_decide; naive_solver.
Qed.

Lemma outgoing_range n ups peers mine cap q :
  peers_ok (my_id_ cfg) peers -> 0 <= q ->
  a_get_range (outgoing n ups (out_slots cfg peers mine) cap) q = range_sent peers mine q.
Proof.
  intros Hp Hq. unfold a_get_range, outgoing, filled. simpl.
  pose proof (NoDup_out_slots peers mine Hp) as Hnd.
  destruct (range_sent peers mine q) as [r|] eqn:E.
  - apply elem_of_out_slots in E; [|done]. unfold find_slot in *.
    pose proof (find_slot_unique _ q r Hnd E) as Hu. unfold find_slot in Hu.
    destruct (list_find (fun e => e.1 = q) (out_slots cfg peers mine)) as [[i e]|] eqn:Ef; [|done].
    by erewrite list_find_app_l by exact Ef.
  - rewrite find_slot_app_None.
    + by rewrite find_slot_free_ne by lia.
    + apply Forall_forall. intros [q' r'] Hin. simpl. intros ->.
      apply elem_of_out_slots in Hin; [|done]. congruence.
Qed.
End ranges.

(** ** Aggregation into a store *)

Section aggregate.
Context (v : VType).
Notation zero := (zero_bytes (v_size v)).
Notation vs := (vsum (VG := v_group v)).
Notation vp := (vplus (ValueGroup := v_group v)).

(** The sum a store holds for a key: zero when it holds nothing. *)
Definition psum (store : gmap Z (gmap Z (list byte))) (t k : Z) : list byte :=
  vs (option_list (store !! t ≫= fun u => u !! k)).

Lemma vs_one d : length d = v_size v -> vs [d] = d.
Proof. intros Hd. unfold vsum, vsum_from. simpl. by apply vplus_zero. Qed.

Lemma vp_zero_r d : length d = v_size v -> vp d zero = d.
Proof. intros Hd. rewrite vplus_comm by (done || apply length_zero_bytes). by apply vplus_zero. Qed.

Lemma vs_option o : (forall d, o = Some d -> length d = v_size v) -> vs (option_list o) = default zero o.
Proof. intros Ho. destruct o as [d|]; simpl; [by apply vs_one, Ho|done]. Qed.

Definition add_at (k : Z) (d : list byte) (ups : gmap Z (list byte)) : gmap Z (list byte) :=
  <[k := vp (default zero (ups !! k)) d]> ups.

Lemma ups_ok_value ups k : ups_ok (v_size v) ups -> length (default zero (ups !! k)) = v_size v.
Proof.
  intros Hok. destruct (ups !! k) as [d|] eqn:E; simpl; [by destruct (Hok _ _ E)|apply length_zero_bytes].
Qed.

Lemma add_at_ok k d ups :
  ups_ok (v_size v) ups -> is_i64 k -> length d = v_size v -> ups_ok (v_size v) (add_at k d ups).
Proof.
  intros Hok Hk Hd. unfold add_at. apply map_Forall_insert_2; [|done].
  split; [done|]. apply length_vplus; [by apply ups_ok_value|done].
Qed.

Lemma AddUpdate_adds k d ups :
  ups_ok (v_size v) ups -> length d = v_size v ->
  AddUpdate k d (Z.of_nat (v_size v)) (Some (v_add v)) ups = Ok (add_at k d ups).
Proof.
  intros Hok Hd. unfold AddUpdate, add_at. pose proof (ups_ok_value ups k Hok) as Hl.
  destruct (ups !! k) as [x|] eqn:E; simpl in *.
  - rewrite E. simpl. by rewrite (vadd_runs (ValueGroup := v_group v)).
  - rewrite (proj2 (Z.ltb_ge _ _)), Nat2Z.id by lia. simpl. rewrite lookup_insert_eq. simpl.
    rewrite (vadd_runs (ValueGroup := v_group v)) by done. simpl. by rewrite insert_insert_eq.
Qed.

Lemma psum_length store t k :
  ups_ok (v_size v) (default ∅ (store !! t)) -> length (psum store t k) = v_size v.
Proof.
  intros Hok. unfold psum. apply length_vsum. destruct (store !! t) as [u|]; simpl in *; [|constructor].
  destruct (u !! k) as [d|] eqn:E; simpl; [|constructor]. constructor; [|constructor].
  by destruct (Hok _ _ E).
Qed.

Lemma psum_add store t k d t' k' :
  ups_ok (v_size v) (default ∅ (store !! t)) -> length d = v_size v ->
  psum (<[t := add_at k d (default ∅ (store !! t))]> store) t' k' =
    if decide (t' = t /\ k' = k) then vp (psum store t k) d else psum store t' k'.
Proof.
  intros Hok Hd. unfold psum. case_decide as Hc.
  - destruct Hc as [-> ->]. rewrite lookup_insert_eq. simpl. unfold add_at. rewrite lookup_insert_eq. simpl.
    rewrite vs_one by (apply length_vplus; [by apply ups_ok_value|done]). f_equal. symmetry.
    destruct (store !! t) as [u|] eqn:E; simpl in *; [|by rewrite lookup_empty].
    apply vs_option. intros x Hx. by destruct (Hok _ _ Hx).
  - destruct (decide (t' = t)) as [->|Hne]; [|by rewrite lookup_insert_ne by done].
    rewrite lookup_insert_eq. simpl. unfold add_at. rewrite lookup_insert_ne by naive_solver.
    by destruct (store !! t).
Qed.

Lemma add_received_update_runs t info k d store :
  info_ok v info -> ups_ok (v_size v) (default ∅ (store !! t)) -> length d = v_size v ->
  add_received_update t info k d store = Ok (<[t := add_at k d (default ∅ (store !! t))]> store).
Proof.
  intros [Hsz Hadd] Hok Hd. unfold add_received_update, index_ref. rewrite Hsz, Hadd.
  destruct (store !! t) as [u|]; simpl in *; rewrite AddUpdate_adds by done; simpl; [done|].
  by rewrite insert_insert_eq.
Qed.

(** All the updates of a buffer, into the store of one table. *)
Lemma add_received_all t info l : info_ok v info -> Forall (update_ok (v_size v)) l -> forall store,
  ups_ok (v_size v) (default ∅ (store !! t)) ->
  exists store', foldM (fun u s => add_received_update t info u.1 u.2 s) l store = Ok store' /\
    (forall t', t' <> t -> store' !! t' = store !! t') /\
    (default ∅ (store !! t) <> ∅ -> default ∅ (store' !! t) <> ∅) /\
    ups_ok (v_size v) (default ∅ (store' !! t)) /\
    (forall k, psum store' t k = vp (psum store t k) (vs (deltas_for k l))).
Proof.
  intros Hinfo. induction 1 as [|[k d] l [Hk Hd] Hl IH]; intros store Hok; simpl.
  { exists store. split_and!; try done. intros k.
    change (vs (deltas_for k [])) with zero. by rewrite vp_zero_r by by apply psum_length. }
  simpl in Hk, Hd. rewrite (add_received_update_runs t info) by done. simpl.
  destruct (IH (<[t := add_at k d (default ∅ (store !! t))]> store)) as (store' & -> & Hne & Hkeep & Hok' & Hps).
  { rewrite lookup_insert_eq. simpl. by apply add_at_ok. }
  exists store'. split; [done|]. split_and!.
  - intros t' Ht. by rewrite Hne, lookup_insert_ne by done.
  - intros _. apply Hkeep. rewrite lookup_insert_eq. apply insert_non_empty.
  - done.
  - intros k'. rewrite Hps, psum_add by done.
    assert (forall x, Forall (fun d => length d = v_size v) (deltas_for x l)) as Hdl.
    { intros x. apply Forall_forall. intros e [[k2 d2] [-> Hin]]%list_elem_of_fmap.
      apply list_elem_of_filter in Hin as [_ Hin]. rewrite Forall_forall in Hl. by destruct (Hl _ Hin). }
    unfold deltas_for at 2. rewrite filter_cons. simpl.
    destruct (decide (k = k')) as [->|Hkk].
    + rewrite decide_True by done. rewrite fmap_cons. simpl.
      rewrite <- (vplus_assoc (ValueGroup := v_group v)); [|by apply psum_length|done|by apply length_vsum].
      f_equal. change (d :: (snd <$> filter (fun u => u.1 = k') l)) with ([d] ++ deltas_for k' l).
      rewrite vsum_app, vs_one by (done || by repeat constructor). done.
    + rewrite decide_False by naive_solver. done.
Qed.
End aggregate.
