(* ===== verification/PropagatorRun.v ===== *)
(** The propagator thread in its [RUN] state, from its start: a run of any
    length over well-formed messages never faults, keeps its tables in shape and
    conserves what it was given - per key, the deltas received add up to what was
    shipped plus what is still in the store; per node, the ranges shipped are a
    contiguous chain. *)
From S2P Require Import Prelude Common MemStruct MemStructSpec Buffer ValueOps Protocol Propagator PropagatorSpec PropagatorTrace.

(** ** What arrives *)

Definition buffer_updates (b : UpdateBuffer) : list (Z * list byte) :=
  match collect_updates (Z.to_nat (get_update_size b)) b with Ok l => l | _ => [] end.
Definition buffer_ranges (b : UpdateBuffer) : list (Z * UpdateRange) :=
  match collect_ranges b with Ok l => l | _ => [] end.

Lemma buffer_updates_repr b a : repr b a -> buffer_updates b = ab_ups a.
Proof.
  intros Hr. unfold buffer_updates.
  by rewrite (repr_update_size _ _ Hr), Nat2Z.id, (collect_updates_spec _ _ Hr).
Qed.
Lemma buffer_ranges_repr b a : repr b a -> buffer_ranges b = range_prefix (ab_slots a).
Proof. intros Hr. unfold buffer_ranges. by rewrite (collect_ranges_spec _ _ Hr). Qed.

(** The updates an event brings for table [t], the ranges it announces for node
    [q], and the updates this node's own threads make. *)
Definition received_updates (t : Z) (e : prop_event) : list (Z * list byte) :=
  match e with
  | EvPull (InUpdateLog m d) => if decide (pul_table_id m = t) then [(pul_key m, d)] else []
  | EvPull (InUpdateBuffer t' b) => if decide (t' = t) then buffer_updates b else []
  | _ => []
  end.
Definition ranges_of (q : Z) (l : list (Z * UpdateRange)) : list UpdateRange :=
  snd <$> filter (fun e => e.1 = q) l.
Definition received_ranges (t q : Z) (e : prop_event) : list UpdateRange :=
  match e with
  | EvPull (InUpdateBuffer t' b) => if decide (t' = t) then ranges_of q (buffer_ranges b) else []
  | _ => []
  end.
Definition own_updates (t : Z) (e : prop_event) : list (Z * list byte) :=
  match e with EvPull (InUpdateLog _ _) => received_updates t e | _ => [] end.

(** ** Merging the ranges of a forwarded buffer *)

Section merge.
Context (my : Z).

(** [L] continues what is known of a node: it starts where that ended. *)
Definition continues (known : option UpdateRange) (L : list UpdateRange) : Prop :=
  Forall range_ok L /\
  match known, L with
  | Some r, _ => exists b, chain (end_ r + 1) L b
  | None, r :: _ => exists b, chain (st_ r) L b
  | None, [] => True
  end.
Definition continued (known : option UpdateRange) (L : list UpdateRange) (now : option UpdateRange) : Prop :=
  match known, L with
  | Some r, _ => exists en, now = Some (mkRange (st_ r) en) /\ chain (end_ r + 1) L (en + 1)
  | None, r :: _ => exists en, now = Some (mkRange (st_ r) en) /\ chain (st_ r) L (en + 1)
  | None, [] => now = None
  end.
Definition mergeable (peers : gmap Z UpdateRange) (l : list (Z * UpdateRange)) : Prop :=
  Forall (fun e => (0 <= e.1 /\ e.1 <> my) /\ is_i32 e.1) l /\
  forall q, continues (peers !! q) (ranges_of q l).

Lemma ranges_of_cons q e l :
  ranges_of q (e :: l) = if decide (e.1 = q) then e.2 :: ranges_of q l else ranges_of q l.
Proof. unfold ranges_of. rewrite filter_cons. by case_decide. Qed.

(** The range of a node after one more range of it was merged. *)
Definition merged (known : option UpdateRange) (r : UpdateRange) : UpdateRange :=
  match known with None => r | Some old => mkRange (st_ old) (end_ r) end.

Lemma merge_peer_range_runs peers q r L :
  (forall old, peers !! q = Some old -> range_ok old) -> continues (peers !! q) (r :: L) ->
  merge_peer_range q r peers = Ok (<[q := merged (peers !! q) r]> peers) /\
  range_ok (merged (peers !! q) r) /\ continues (Some (merged (peers !! q) r)) L /\
  forall now, continued (Some (merged (peers !! q) r)) L now -> continued (peers !! q) (r :: L) now.
Proof.
  intros Hold [[Hr HL]%Forall_cons Hc]. unfold merge_peer_range, merged, continued.
  destruct (peers !! q) as [old|]; simpl in *.
  - destruct Hc as (b & Hst & Hle & Hc). destruct (Hold old eq_refl) as (? & ? & ?), Hr as (? & ? & ?).
    rewrite wrap_i64_id, (proj2 (Z.eqb_eq _ _)) by (done || lia). simpl.
    split; [done|]. split; [done|]. split; [split; eauto|]. intros now (en & -> & Hen). eauto.
  - destruct Hc as (b & Hst & Hle & Hc). split; [done|]. split; [done|]. split; [split; eauto|].
    intros now (en & -> & Hen). eauto.
Qed.

Lemma merge_all l : forall peers,
  peers_ok my peers -> mergeable peers l ->
  exists peers', foldM (fun e s => merge_peer_range e.1 e.2 s) l peers = Ok peers' /\
    peers_ok my peers' /\ forall q, continued (peers !! q) (ranges_of q l) (peers' !! q).
Proof.
  induction l as [|[q0 r0] l IH]; intros peers Hp [Hid Hc]; simpl.
  { exists peers. split_and!; [done..|]. intros q. unfold ranges_of, continued. simpl.
    destruct (peers !! q) as [r|]; [|done]. exists (end_ r). split; [by destruct r|done]. }
  apply Forall_cons in Hid as [[[H0 Hne] Hi32] Hid]. simpl in *.
  pose proof (Hc q0) as Hc0. rewrite ranges_of_cons in Hc0. simpl in Hc0. rewrite decide_True in Hc0 by done.
  destruct (merge_peer_range_runs peers q0 r0 _ (fun old Ho => proj2 (proj2 (Hp _ _ Ho))) Hc0)
    as (-> & Hmok & Hmc & Hback). simpl.
  destruct (IH (<[q0 := merged (peers !! q0) r0]> peers)) as (peers' & -> & Hp' & Hcont).
  - apply map_Forall_insert_2; [|done]. done.
  - split; [done|]. intros q. destruct (decide (q = q0)) as [->|Hq]; [by rewrite lookup_insert_eq|].
    rewrite lookup_insert_ne by done. specialize (Hc q). rewrite ranges_of_cons in Hc. simpl in Hc.
    by rewrite decide_False in Hc by done.
  - exists peers'. split_and!; [done..|]. intros q. specialize (Hcont q). rewrite ranges_of_cons. simpl.
    destruct (decide (q0 = q)) as [->|Hq].
    + rewrite lookup_insert_eq in Hcont. by apply Hback.
    + by rewrite lookup_insert_ne in Hcont by done.
Qed.
End merge.

(** ** The invariant of a run *)

Section run.
Context `{Allocator} `{UnorderedIter} (cfg : PropagatorThrInfo) (tables : gmap Z VType).
Hypothesis my_id_ok : 0 <= my_id_ cfg /\ is_i32 (my_id_ cfg).
Hypothesis nanosec_ok : 0 < nanosec_ cfg.
Hypothesis downstream_ok : has_downstream cfg = true.
Notation my := (my_id_ cfg).

(** What the thread knows of node [q], against what it was told and what it sent. *)
Definition peer_account (es : list prop_event) (t q : Z) (o : list PropOut) (known : option UpdateRange)
    : Prop :=
  match known with
  | None => es ≫= received_ranges t q = [] /\ shipped_ranges t q o = []
  | Some r => exists a, chain a (es ≫= received_ranges t q) (end_ r + 1) /\
                        chain a (shipped_ranges t q o) (st_ r) /\ st_ r <= end_ r + 1
  end.

Definition own_account (es : list prop_event) (t : Z) (o : list PropOut) (mine : UpdateRange) : Prop :=
  chain 0 (shipped_ranges t my o) (st_ mine) /\
  end_ mine + 1 = Z.of_nat (length (es ≫= own_updates t)).

Definition sum_account (v : VType) (es : list prop_event) (t : Z) (s : PropThr) : Prop :=
  forall k, vsum (VG := v_group v) (deltas_for k (es ≫= received_updates t)) =
    vplus (ValueGroup := v_group v)
      (vsum (VG := v_group v) (deltas_for k (shipped_updates t (out s)))) (psum v (update_store s) t k).

Record table_inv (es : list prop_event) (s : PropThr) (t : Z) (v : VType) : Prop := {
  tv_info : exists info, table_dir_ (obj s) !! t = Some info /\ info_ok v info /\
    (default ∅ (my_update_store s !! t) <> ∅ -> ti_loop_ info = true);
  tv_ups : ups_ok (v_size v) (default ∅ (update_store s !! t));
  tv_mys : ups_ok (v_size v) (default ∅ (my_update_store s !! t));
  tv_mine : exists mine, my_update_range s !! t = Some mine /\ range_ok mine /\
    st_ mine <= end_ mine + 1 /\
    (default ∅ (my_update_store s !! t) <> ∅ -> st_ mine <= end_ mine) /\
    (st_ mine <= end_ mine -> default ∅ (update_store s !! t) <> ∅) /\
    own_account es t (out s) mine;
  tv_peers : exists peers, table_peers_update_range s !! t = Some peers /\ peers_ok my peers /\
    forall q, 0 <= q -> q <> my -> peer_account es t q (out s) (peers !! q);
  tv_shipped : Forall (update_ok (v_size v)) (shipped_updates t (out s));
  tv_received : Forall (update_ok (v_size v)) (es ≫= received_updates t);
  tv_sum : sum_account v es t s
}.

Record run_inv (es : list prop_event) (s : PropThr) : Prop := {
  ri_state : state_ (obj s) = RUN;
  ri_dir : dom (table_dir_ (obj s)) = dom tables;
  ri_store : dom (update_store s) ⊆ dom tables;
  ri_tables : forall t v, tables !! t = Some v -> table_inv es s t v
}.

(** The invariant of one table looks at nothing else. *)
Lemma table_inv_ext es es' s s' t v :
  obj s' = obj s -> update_store s' !! t = update_store s !! t ->
  my_update_store s' !! t = my_update_store s !! t ->
  my_update_range s' !! t = my_update_range s !! t ->
  table_peers_update_range s' !! t = table_peers_update_range s !! t ->
  shipped_updates t (out s') = shipped_updates t (out s) ->
  (forall q, 0 <= q -> shipped_ranges t q (out s') = shipped_ranges t q (out s)) ->
  es' ≫= received_updates t = es ≫= received_updates t ->
  es' ≫= own_updates t = es ≫= own_updates t ->
  (forall q, es' ≫= received_ranges t q = es ≫= received_ranges t q) ->
  table_inv es s t v -> table_inv es' s' t v.
Proof.
  intros Ho Hu Hm Hr Hp Hsu Hsr Her Heo Heq [H1 H2 H3 H4 H5 H6 H7 H8].
  split; rewrite ?Ho, ?Hu, ?Hm, ?Hr, ?Hp, ?Hsu, ?Her; try done.
  - destruct H4 as (mine & ? & ? & ? & ? & ? & ?). exists mine. split_and!; try done.
    unfold own_account in *. by rewrite Heo, Hsr by apply my_id_ok.
  - destruct H5 as (peers & ? & ? & Hq). exists peers. split_and!; [done..|].
    intros q ? ?. specialize (Hq q). unfold peer_account in *. rewrite Heq, Hsr by done. by apply Hq.
  - intros k. unfold psum. rewrite Her, Hsu, Hu. apply H8.
Qed.

(** *** Flush *)

Lemma shipped_updates_app t o1 o2 :
  shipped_updates t (o1 ++ o2) = shipped_updates t o1 ++ shipped_updates t o2.
Proof. apply bind_app. Qed.
Lemma shipped_ranges_app t q o1 o2 :
  shipped_ranges t q (o1 ++ o2) = shipped_ranges t q o1 ++ shipped_ranges t q o2.
Proof. apply bind_app. Qed.

Lemma flush_sends_shipped t v info ups peers mine mys sent t' :
  peers_ok my peers -> flush_sends cfg t v info ups peers mine mys sent ->
  shipped_updates t' sent = (if decide (t = t') then iter_order ups else []) /\
  forall q, 0 <= q -> shipped_ranges t' q sent =
    (if decide (t = t') then option_list (range_sent cfg peers mine q) else []).
Proof.
  intros Hp (b & Hr & Hs).
  assert (block_updates (to_bytes b) = iter_order ups) as Hb by (by rewrite (block_updates_repr _ _ Hr)).
  assert (forall q, 0 <= q -> block_range q (to_bytes b) = range_sent cfg peers mine q) as Hq.
  { intros q Hq. rewrite (block_range_repr _ _ _ Hr). by apply outgoing_range. }
  assert (exists pre, sent = pre ++ [ToDownstream (mkEPRUpdateBufferMsg t) (to_bytes b)] /\
    shipped_updates t' pre = [] /\ forall q, shipped_ranges t' q pre = []) as (pre & -> & Hp1 & Hp2).
  { destruct (notifies info mys); [destruct Hs as (b2 & _ & ->)|subst sent];
      [exists [ToReceiver t b2]|exists []]; done. }
  rewrite shipped_updates_app, Hp1. split.
  - unfold shipped_updates. simpl. rewrite app_nil_r, Hb. done.
  - intros q Hge. rewrite shipped_ranges_app, Hp2. unfold shipped_ranges. simpl.
    by rewrite app_nil_r, Hq.
Qed.

Lemma peer_account_flush es t q o sent r :
  range_ok r -> shipped_ranges t q sent = (if decide (st_ r <= end_ r) then [r] else []) ->
  peer_account es t q o (Some r) -> peer_account es t q (o ++ sent) (Some (mark_sent r)).
Proof.
  intros Hok Hs (a & Hin & Hout & Hle). exists a. rewrite shipped_ranges_app, Hs, mark_sent_ok by done.
  case_decide; simpl; [|by rewrite app_nil_r]. split_and!; [done|by apply (chain_snoc a _ (st_ r))|lia].
Qed.

Lemma deltas_for_ok n k l :
  Forall (update_ok n) l -> Forall (fun d => length d = n) (deltas_for k l).
Proof.
  intros Hl. apply Forall_forall. intros d [[k2 d2] [-> Hin]]%list_elem_of_fmap.
  apply list_elem_of_filter in Hin as [_ Hin]. rewrite Forall_forall in Hl. by destruct (Hl _ Hin).
Qed.

(** A flush moves the store of the table into the shipped updates. *)
Lemma sum_account_flush es s t v ups s' :
  update_store s !! t = Some ups -> ups_ok (v_size v) ups ->
  Forall (update_ok (v_size v)) (shipped_updates t (out s)) ->
  update_store s' !! t = Some ∅ ->
  shipped_updates t (out s') = shipped_updates t (out s) ++ iter_order ups ->
  sum_account v es t s -> sum_account v es t s'.
Proof.
  intros Hups Huok Hlen Hups' Hsu Hsum k. rewrite Hsum. unfold psum.
  rewrite Hups, Hups', Hsu, deltas_for_app, deltas_for_iter. cbn [mbind option_bind].
  rewrite lookup_empty. cbn [option_list].
  change (vsum (VG := v_group v) []) with (zero_bytes (v_size v)).
  assert (Forall (fun d => length d = v_size v) (option_list (ups !! k))) as Hl1.
  { destruct (ups !! k) eqn:E; simpl; repeat constructor. by destruct (Huok _ _ E). }
  pose proof (deltas_for_ok _ k _ Hlen) as Hl2.
  by rewrite <- (vsum_app (VG := v_group v)), vp_zero_r
    by (done || apply length_vsum, Forall_app; done).
Qed.

Lemma flush_inv_same es s t v info ups peers mine mys sent :
  flush_view cfg s t v info ups peers mine mys -> flush_sends cfg t v info ups peers mine mys sent ->
  table_inv es s t v -> table_inv es (flushed s t info peers mine mys sent) t v.
Proof.
  intros [Hdir Hinfo Hups Huok Hpeers Hpok Hmine Hmok Hmys _ _ _ _] Hsend [H1 H2 H3 H4 H5 H6 H7 H8].
  destruct (flush_sends_shipped _ _ _ _ _ _ _ _ t Hpok Hsend) as [Hsu Hsr].
  rewrite decide_True in Hsu by done.
  setoid_rewrite decide_True in Hsr; [|done].
  destruct H1 as (info' & Hdir' & _ & Hl). assert (info' = info) as -> by congruence.
  destruct H4 as (mine' & Hm' & _ & Hle & _ & _ & Hch & Hcnt). assert (mine' = mine) as -> by congruence.
  destruct H5 as (peers' & Hp' & _ & Hpa). assert (peers' = peers) as -> by congruence.
  assert (default ∅ ((if ti_loop_ info then <[t := ∅]> (my_update_store s) else my_update_store s) !! t)
          = (∅ : gmap Z (list byte))) as Hmys'.
  { destruct (ti_loop_ info) eqn:E; [by rewrite lookup_insert_eq|].
    destruct (decide (default ∅ (my_update_store s !! t) = ∅)) as [->|Hne]; [done|].
    by specialize (Hl Hne). }
  destruct Hmok as (? & ? & ?).
  split; cbn [flushed obj update_store my_update_store my_update_range table_peers_update_range out];
    rewrite ?Hmys', ?lookup_insert_eq.
  - exists info. split_and!; done.
  - unfold ups_ok; simpl; apply map_Forall_empty.
  - unfold ups_ok; simpl; apply map_Forall_empty.
  - eexists. split; [done|]. simpl. split_and!; [done..|lia|done|lia|]. split; simpl; [|done].
    rewrite shipped_ranges_app, Hsr by apply my_id_ok.
    unfold range_sent. rewrite (decide_True (P := my = my)) by done. simpl.
    destruct (decide (st_ mine <= end_ mine)); simpl.
    + by apply (chain_snoc _ _ (st_ mine)).
    + rewrite app_nil_r. by replace (end_ mine + 1) with (st_ mine) by lia.
  - eexists. split; [done|]. split.
    + intros q r. rewrite lookup_fmap. destruct (peers !! q) as [r0|] eqn:E; simpl; intros [= <-].
      destruct (Hpok q r0 E) as (? & ? & Hr0). split_and!; try done; try naive_solver.
      rewrite mark_sent_ok by done. destruct Hr0 as (? & ? & ?). by case_decide.
    + intros q Hq0 Hqm. rewrite lookup_fmap. specialize (Hpa q Hq0 Hqm).
      specialize (Hsr q Hq0). unfold range_sent in Hsr.
      rewrite (decide_False (P := q = my)) in Hsr by done. destruct (peers !! q) as [r0|] eqn:E; simpl in *.
      * apply (peer_account_flush es t q (out s) sent r0); [by destruct (Hpok q r0 E) as (? & ? & ?)| |done].
        rewrite Hsr. by case_decide.
      * destruct Hpa as [Ha Hb]. split; [done|]. by rewrite shipped_ranges_app, Hsr, Hb.
  - rewrite shipped_updates_app, Hsu. apply Forall_app. split; [done|by apply ups_ok_iter].
  - done.
  - apply (sum_account_flush es s t v ups); try done; cbn [flushed update_store out].
    + by rewrite lookup_insert_eq.
    + by rewrite shipped_updates_app, Hsu.
Qed.

Lemma flush_inv es s t v info ups peers mine mys sent :
  run_inv es s -> tables !! t = Some v ->
  flush_view cfg s t v info ups peers mine mys -> flush_sends cfg t v info ups peers mine mys sent ->
  run_inv es (flushed s t info peers mine mys sent).
Proof.
  intros [Hst Hdir Hdom Htab] Htv Hview Hsend. split; [done|done| |].
  - simpl. rewrite dom_insert_L. apply union_subseteq. split; [|done].
    apply singleton_subseteq_l, elem_of_dom. eauto.
  - intros t' v' Ht'. destruct (decide (t' = t)) as [->|Hne].
    { assert (v' = v) as -> by congruence. eapply flush_inv_same; eauto. }
    destruct (flush_sends_shipped _ _ _ _ _ _ _ _ t' (fv_peers_ok _ _ _ _ _ _ _ _ _ Hview) Hsend) as [Hsu Hsr].
    rewrite decide_False in Hsu by done. setoid_rewrite decide_False in Hsr; [|done].
    eapply table_inv_ext, (Htab t' v' Ht'); simpl; rewrite ?lookup_insert_ne by done; try done.
    + case_match; by rewrite ?lookup_insert_ne by done.
    + by rewrite shipped_updates_app, Hsu, app_nil_r.
    + intros q Hq. by rewrite shipped_ranges_app, Hsr, app_nil_r.
Qed.

(** Sizes that fit the 32-bit offsets of a buffer, for the tables of [l]. *)
Definition tick_fits (s : PropThr) (l : list Z) : Prop :=
  forall t v ups peers, t ∈ l -> tables !! t = Some v -> update_store s !! t = Some ups ->
    table_peers_update_range s !! t = Some peers ->
    fits (v_size v) (size ups) (size peers + 1) /\
    fits (v_size v) (size (default ∅ (my_update_store s !! t))) 1.

(** Whether the flush of a table waits for an acknowledgement. *)
Definition flush_due (s : PropThr) (t : Z) : bool :=
  bool_decide (default ∅ (update_store s !! t) <> ∅) &&
  notifies (default TableInfo_zero (table_dir_ (obj s) !! t)) (default ∅ (my_update_store s !! t)).
Definition acks_due (s : PropThr) (l : list Z) : nat := length (filter (fun t => flush_due s t = true) l).

Lemma run_view es s t ups :
  run_inv es s -> update_store s !! t = Some ups -> tick_fits s [t] ->
  exists v info peers mine, tables !! t = Some v /\
    flush_view cfg s t v info ups peers mine (default ∅ (my_update_store s !! t)).
Proof.
  intros [Hst Hdir Hdom Htab] Hups Hfits.
  assert (is_Some (tables !! t)) as [v Hv].
  { apply elem_of_dom, Hdom, elem_of_dom. eauto. }
  destruct (Htab t v Hv) as [(info & ? & ? & ?) H2 ? (mine & ? & ? & ? & ? & ? & ?) (peers & ? & ? & ?) ? ? ?].
  rewrite Hups in H2. destruct (Hfits t v ups peers) as [? ?]; [set_solver|done..|].
  exists v, info, peers, mine. split; [done|]. by split.
Qed.

Lemma acks_due_cons s t l :
  acks_due s (t :: l) = ((if flush_due s t then 1 else 0) + acks_due s l)%nat.
Proof. unfold acks_due. rewrite filter_cons. by destruct (flush_due s t). Qed.

Lemma acks_due_ext s s' l : (forall t, t ∈ l -> flush_due s t = flush_due s' t) -> acks_due s l = acks_due s' l.
Proof.
  induction l as [|t l IH]; intros He; [done|]. rewrite !acks_due_cons, He, IH; [done|set_solver..].
Qed.

(** A property of the thread's state that no flush breaks. *)
Definition flush_preserves (P : PropThr -> Prop) : Prop :=
  forall es s t v info ups peers mine sent,
    let mys := default ∅ (my_update_store s !! t) in
    run_inv es s -> tables !! t = Some v -> flush_view cfg s t v info ups peers mine mys -> ups <> ∅ ->
    flush_sends cfg t v info ups peers mine mys sent -> P s -> P (flushed s t info peers mine mys sent).

Lemma flush_all es l : forall s,
  NoDup l -> (forall t, t ∈ l -> is_Some (update_store s !! t)) -> run_inv es s -> tick_fits s l ->
  pair_pull s = replicate (acks_due s l) EMyUpdatesACK ->
  exists s', foldM (flush_table cfg) l s = Ok s' /\ run_inv es s' /\ pair_pull s' = [] /\
    (forall t, t ∈ l -> update_store s' !! t = Some ∅) /\
    (forall t, t ∉ l -> update_store s' !! t = update_store s !! t) /\
    (forall P, flush_preserves P -> P s -> P s').
Proof.
  induction l as [|t l IH]; intros s Hnd Hkeys Hinv Hfits Hpp; simpl.
  { exists s. split_and!; try done. set_solver. }
  apply NoDup_cons in Hnd as [Hnt Hnd]. rewrite acks_due_cons in Hpp.
  destruct (Hkeys t ltac:(set_solver)) as [ups Hups].
  destruct (run_view es s t ups Hinv Hups) as (v & info & peers & mine & Hv & Hview).
  { intros t' v' ups' peers' ->%list_elem_of_singleton. apply Hfits. set_solver. }
  pose proof (fv_dir _ _ _ _ _ _ _ _ _ Hview) as Hdir.
  unfold flush_due in Hpp at 1. rewrite Hups, Hdir in Hpp. cbn [default from_option id] in Hpp.
  destruct (decide (ups = ∅)) as [->|Hne].
  - rewrite (flush_table_empty cfg) by (by rewrite Hups). simpl in *.
    destruct (IH s) as (s' & -> & ? & ? & He & Hk & HP); try done.
    + intros t' ?. apply Hkeys. set_solver.
    + intros t' v' ups' peers' ?. apply Hfits. set_solver.
    + exists s'. split_and!; try done.
      * intros t' [->|?]%elem_of_cons; [by rewrite Hk|by apply He].
      * intros t' ?. apply Hk. set_solver.
  - rewrite bool_decide_eq_true_2 in Hpp by done. simpl in Hpp.
    destruct (flush_table_runs cfg my_id_ok s t v info ups peers mine _ Hview Hne downstream_ok)
      as (sent & -> & Hsend).
    { intros Hn. rewrite Hn in Hpp. simpl in Hpp. eauto. }
    simpl. set (s1 := flushed _ _ _ _ _ _ _).
    assert (forall t', t' <> t -> update_store s1 !! t' = update_store s !! t' /\
      table_peers_update_range s1 !! t' = table_peers_update_range s !! t' /\
      my_update_store s1 !! t' = my_update_store s !! t') as Hother.
    { intros t' Ht'. unfold s1, flushed. simpl. rewrite !lookup_insert_ne by done.
      split_and!; [done..|]. destruct (ti_loop_ info); [by rewrite lookup_insert_ne by done|done]. }
    destruct (IH s1) as (s' & -> & ? & ? & He & Hk & HP); try done.
    + intros t' ?. destruct (Hother t') as (-> & _); [set_solver|]. apply Hkeys. set_solver.
    + by eapply flush_inv.
    + intros t' v' ups' peers' Hin. destruct (Hother t') as (-> & -> & ->); [set_solver|].
      apply Hfits. set_solver.
    + unfold s1 at 1, flushed. cbn [pair_pull]. rewrite Hpp.
      rewrite (acks_due_ext s s1).
      { by destruct (notifies info (default ∅ (my_update_store s !! t))). }
      intros t' Hin. unfold flush_due. destruct (Hother t') as (-> & _ & ->); [set_solver|]. done.
    + exists s'. split_and!; try done.
      * intros t' [->|?]%elem_of_cons; [|by apply He].
        rewrite Hk by done. unfold s1, flushed. simpl. by rewrite lookup_insert_eq.
      * intros t' Hni. rewrite Hk by set_solver. apply Hother. set_solver.
      * intros P HPf HPs. apply HP; [done|]. by eapply HPf.
Qed.

(** *** One event *)

(** What the environment owes with an event: a tick comes when the buffers fit
    and the paired receiver answers; a delta has the size of its table; a
    forwarded buffer is well formed, of a known table, and continues the ranges
    known of the peers. *)
Definition ev_ok (e : prop_event) (s : PropThr) : Prop :=
  match e with
  | EvTimer acks =>
      tick_fits s (iter_order (update_store s)).*1 /\
      acks = replicate (acks_due s (iter_order (update_store s)).*1) EMyUpdatesACK
  | EvPull (InUpdateLog m d) =>
      exists v mine, tables !! pul_table_id m = Some v /\ length d = v_size v /\ is_i64 (pul_key m) /\
        my_update_range s !! pul_table_id m = Some mine /\ is_i64 (end_ mine + 2)
  | EvPull (InUpdateBuffer t b) =>
      exists v a peers, tables !! t = Some v /\ repr b a /\ ab_usize a = v_size v /\
        table_peers_update_range s !! t = Some peers /\ mergeable my peers (range_prefix (ab_slots a))
  | EvPull (InOther _) => False
  | EvSub m => m = EPRTerminate
  end.

Lemma bind_snoc {A B} (f : A -> list B) es e : (es ++ [e]) ≫= f = (es ≫= f) ++ f e.
Proof. rewrite bind_app. simpl. by rewrite app_nil_r. Qed.

(** Events and sends that no table's account mentions. *)
Lemma run_inv_silent es e s s' :
  (forall t, received_updates t e = []) -> (forall t, own_updates t e = []) ->
  (forall t q, received_ranges t q e = []) ->
  obj s' = obj s -> update_store s' = update_store s -> my_update_store s' = my_update_store s ->
  my_update_range s' = my_update_range s ->
  table_peers_update_range s' = table_peers_update_range s ->
  (forall t, shipped_updates t (out s') = shipped_updates t (out s)) ->
  (forall t q, shipped_ranges t q (out s') = shipped_ranges t q (out s)) ->
  run_inv es s -> run_inv (es ++ [e]) s'.
Proof.
  intros He1 He2 He3 Ho Hu Hm Hr Hp Hs1 Hs2 [H1 H2 H3 H4]. split; rewrite ?Ho, ?Hu; try done.
  intros t v Ht. eapply table_inv_ext, (H4 t v Ht); rewrite ?Ho, ?Hu, ?Hm, ?Hr, ?Hp; try done.
  - by rewrite bind_snoc, He1, app_nil_r.
  - by rewrite bind_snoc, He2, app_nil_r.
  - intros q. by rewrite bind_snoc, He3, app_nil_r.
Qed.

Lemma tick_step es acks s :
  run_inv es s -> pair_pull s = [] -> ev_ok (EvTimer acks) s ->
  exists s', turn cfg (EvTimer acks) s = Ok (Continue, s') /\ run_inv (es ++ [EvTimer acks]) s' /\
    pair_pull s' = [] /\ (forall t, default ∅ (update_store s' !! t) = ∅) /\
    (forall P, flush_preserves P -> P (send (set_pair_pull s (pair_pull s ++ acks)) (ToTimer (mkTimerCmdMsg (nanosec_ cfg)))) -> P s').
Proof.
  intros Hinv Hpp [Hfits Hacks]. unfold turn, loop_turn. rewrite (proj2 (Z.ltb_lt _ _)) by done. simpl.
  unfold handle_timer. simpl. rewrite (ri_state _ _ Hinv). simpl.
  set (s0 := send _ _).
  assert (run_inv (es ++ [EvTimer acks]) s0) as Hinv0.
  { eapply run_inv_silent, Hinv; try done; unfold s0; simpl; intros.
    - by rewrite shipped_updates_app, app_nil_r.
    - by rewrite shipped_ranges_app, app_nil_r. }
  destruct (flush_all (es ++ [EvTimer acks]) (iter_order (update_store s)).*1 s0) as (s' & Hf & Hinv' & Hpp' & He & Hk & HP).
  - apply iter_order_NoDup.
  - intros t [[t' u] [-> Hin%iter_order_elem]]%list_elem_of_fmap. eauto.
  - done.
  - done.
  - unfold s0. simpl. by rewrite Hpp, Hacks.
  - change (update_store s0) with (update_store s). rewrite Hf. simpl.
    rewrite (ri_state _ _ Hinv'). simpl. exists s'. split_and!; try done.
    intros t. destruct (decide (t ∈ (iter_order (update_store s)).*1)) as [Hin|Hni]; [by rewrite He|].
    rewrite Hk by done. change (update_store s0) with (update_store s).
    destruct (update_store s !! t) as [u|] eqn:E; [|done]. exfalso. apply Hni.
    apply iter_order_elem in E. by apply (list_elem_of_fmap_2 fst) in E.
Qed.

(** Without a tick only one socket has something to read. *)
Lemma turn_pull m s :
  turn cfg (EvPull m) s = ('(fl, s) ← handle_update_pull cfg m s; Ok (fl, s)).
Proof.
  unfold turn, loop_turn.
  replace (if 0 <? nanosec_ cfg then None else None) with (@None TimerMsgType) by (by case_match).
  by destruct (handle_update_pull cfg m s) as [[]| |].
Qed.
Lemma turn_sub m s :
  turn cfg (EvSub m) s = ('(fl, s) ← handle_term_sub cfg m s; Ok (fl, s)).
Proof.
  unfold turn, loop_turn. rewrite downstream_ok.
  replace (if 0 <? nanosec_ cfg then None else None) with (@None TimerMsgType) by (by case_match).
  by destruct (handle_term_sub cfg m s) as [[]| |].
Qed.

Lemma sub_step es s :
  run_inv es s -> pair_pull s = [] ->
  exists s', turn cfg (EvSub EPRTerminate) s = Ok (Continue, s') /\
    run_inv (es ++ [EvSub EPRTerminate]) s' /\ pair_pull s' = [].
Proof.
  intros Hinv Hpp. rewrite turn_sub. simpl. rewrite (ri_state _ _ Hinv). simpl.
  eexists. split; [done|]. split; [|done]. by eapply run_inv_silent, Hinv.
Qed.

(** The state after an update log. *)
Lemma handle_update_log_runs s m d v info mine :
  state_ (obj s) = RUN -> table_dir_ (obj s) !! pul_table_id m = Some info -> info_ok v info ->
  my_update_range s !! pul_table_id m = Some mine -> is_i64 (end_ mine + 1) ->
  ups_ok (v_size v) (default ∅ (update_store s !! pul_table_id m)) ->
  ups_ok (v_size v) (default ∅ (my_update_store s !! pul_table_id m)) ->
  length d = v_size v ->
  let t := pul_table_id m in
  let add o := add_at v (pul_key m) d (default ∅ o) in
  handle_update_log cfg m d s = Ok (Continue,
    mkPropThr (obj s) (<[t := add (update_store s !! t)]> (update_store s))
      (table_peers_update_range s) (<[t := mkRange (st_ mine) (end_ mine + 1)]> (my_update_range s))
      (if ti_loop_ info then <[t := add (my_update_store s !! t)]> (my_update_store s) else my_update_store s)
      (have_received_ds_term s) (have_replied_ds_term s) (have_stopped_timer_thr s)
      (have_stopped_recv_thr s) (internal_push_connected s) (received_update_buffer_cnt s)
      (pair_pull s) (out s)).
Proof.
  intros Hst Hdir [Hsz Hadd] Hmine Hi64 Hups Hmys Hd t add. subst t add. unfold handle_update_log.
  rewrite Hd. pose proof (v_size_small v). pose proof (v_size_pos v).
  rewrite wrap_i32_id, (proj2 (Z.ltb_lt _ _)) by int_lia. simpl. rewrite Hst. simpl.
  rewrite (index_ref_present _ mine) by done. simpl.
  rewrite (proj2 (Z.leb_gt _ _)), Hdir, wrap_i64_id by done.
  unfold index_ref. destruct (update_store s !! pul_table_id m) as [u|] eqn:Eu; simpl in *;
    rewrite Hadd, AddUpdate_adds by done; simpl;
    (destruct (ti_loop_ info); [destruct (my_update_store s !! pul_table_id m) as [u'|] eqn:Em;
      simpl in *; rewrite AddUpdate_adds by done; simpl|]);
    rewrite ?insert_insert_eq; by destruct s.
Qed.

(** What an event adds to the store, added to what was received. *)
Lemma sum_account_receive es e s s' t v l :
  received_updates t e = l -> Forall (update_ok (v_size v)) l ->
  Forall (update_ok (v_size v)) (es ≫= received_updates t) ->
  Forall (update_ok (v_size v)) (shipped_updates t (out s)) ->
  ups_ok (v_size v) (default ∅ (update_store s !! t)) ->
  shipped_updates t (out s') = shipped_updates t (out s) ->
  (forall k, psum v (update_store s') t k =
     vplus (ValueGroup := v_group v) (psum v (update_store s) t k) (vsum (VG := v_group v) (deltas_for k l))) ->
  sum_account v es t s -> sum_account v (es ++ [e]) t s'.
Proof.
  intros He Hl Hrec Hsh Hok Hout Hps Hsum k. rewrite bind_snoc, He, Hout, Hps, deltas_for_app.
  rewrite vsum_app by by apply (deltas_for_ok (v_size v)). rewrite (Hsum k).
  rewrite (vplus_assoc (ValueGroup := v_group v)); [done| | |].
  - by apply length_vsum, (deltas_for_ok (v_size v)).
  - by apply psum_length.
  - by apply length_vsum, (deltas_for_ok (v_size v)).
Qed.

Lemma log_step es m d s :
  run_inv es s -> pair_pull s = [] -> ev_ok (EvPull (InUpdateLog m d)) s ->
  exists s', turn cfg (EvPull (InUpdateLog m d)) s = Ok (Continue, s') /\
    run_inv (es ++ [EvPull (InUpdateLog m d)]) s' /\ pair_pull s' = [].
Proof.
  intros [Hst Hdir Hdom Htab] Hpp (v & mine & Hv & Hd & Hk & Hmine & Hi64).
  pose proof (Htab _ _ Hv) as [(info & Hinf & Hiok & Hl) Hups Hmys (mine' & Hm' & Hrok & Hle & Hne & _ & Hown) H5 H6 H7 H8].
  assert (mine' = mine) as -> by congruence. destruct Hrok as (Hr1 & Hr2 & Hr3).
  rewrite turn_pull. simpl.
  rewrite (handle_update_log_runs s m d v info mine) by done. simpl.
  eexists. split; [done|]. split; [|done]. split; simpl; try done.
  { rewrite dom_insert_L. apply union_subseteq. split; [|done]. apply singleton_subseteq_l, elem_of_dom. eauto. }
  intros t' v' Ht'. destruct (decide (pul_table_id m = t')) as [<-|Hnt].
  - assert (v' = v) as -> by congruence. set (t := pul_table_id m) in *.
    split; simpl; rewrite ?lookup_insert_eq.
    + exists info. split_and!; [done..|]. destruct (ti_loop_ info) eqn:El; [done|]. intros Hm2.
      by specialize (Hl Hm2).
    + simpl. by apply add_at_ok.
    + destruct (ti_loop_ info); [rewrite lookup_insert_eq; simpl; by apply add_at_ok|done].
    + eexists. split; [done|]. destruct Hown as [Hch Hcnt]. simpl.
      split_and!; [|lia|intros; lia|intros _; apply insert_non_empty|].
      * split; simpl; [done|]. split; [done|]. replace (end_ mine + 1 + 1) with (end_ mine + 2) by lia. done.
      * split; [done|]. simpl. rewrite bind_snoc, length_app. simpl. rewrite decide_True by done. simpl. lia.
    + destruct H5 as (peers & ? & ? & Hq). exists peers. split_and!; [done..|]. intros q ? ?.
      specialize (Hq q). unfold peer_account in *. rewrite bind_snoc. simpl. rewrite app_nil_r.
      by apply Hq.
    + done.
    + rewrite bind_snoc. simpl. rewrite (decide_True (P := t = t)) by done. apply Forall_app.
      split; [done|]. apply Forall_singleton. by split.
    + eapply (sum_account_receive es _ s _ t v [(pul_key m, d)]); try done; simpl.
      * by rewrite (decide_True (P := t = t)).
      * apply Forall_singleton. by split.
      * intros k. rewrite psum_add by done. unfold deltas_for. rewrite filter_cons. simpl.
        destruct (decide (pul_key m = k)) as [<-|Hkk].
        -- rewrite decide_True by done. simpl. by rewrite vs_one.
        -- rewrite decide_False by naive_solver. rewrite filter_nil. simpl.
           change (vsum (VG := v_group v) []) with (zero_bytes (v_size v)).
           by rewrite vp_zero_r by by apply psum_length.
  - eapply table_inv_ext, (Htab t' v' Ht'); simpl; rewrite ?lookup_insert_ne by done; try done.
    + destruct (ti_loop_ info); [by rewrite lookup_insert_ne by done|done].
    + rewrite bind_snoc. simpl. by rewrite decide_False, app_nil_r by done.
    + rewrite bind_snoc. simpl. by rewrite decide_False, app_nil_r by done.
    + intros q. rewrite bind_snoc. simpl. by rewrite app_nil_r.
Qed.

(** The state after a forwarded buffer. *)
Lemma handle_update_buffer_runs s t b v a info peers :
  state_ (obj s) = RUN -> table_dir_ (obj s) !! t = Some info -> info_ok v info ->
  repr b a -> ab_usize a = v_size v ->
  ups_ok (v_size v) (default ∅ (update_store s !! t)) ->
  table_peers_update_range s !! t = Some peers -> peers_ok my peers ->
  mergeable my peers (range_prefix (ab_slots a)) ->
  exists store' peers',
    handle_update_buffer t b s = Ok (Continue,
      set_table_peers_update_range
        (set_update_store
           (set_received_update_buffer_cnt s (wrap_i32 (received_update_buffer_cnt s + 1))) store')
        (<[t := peers']> (table_peers_update_range s))) /\
    (forall t', t' <> t -> store' !! t' = update_store s !! t') /\
    (default ∅ (update_store s !! t) <> ∅ -> default ∅ (store' !! t) <> ∅) /\
    ups_ok (v_size v) (default ∅ (store' !! t)) /\
    (forall k, psum v store' t k = vplus (ValueGroup := v_group v) (psum v (update_store s) t k)
       (vsum (VG := v_group v) (deltas_for k (ab_ups a)))) /\
    peers_ok my peers' /\
    (forall q, continued (peers !! q) (ranges_of q (range_prefix (ab_slots a))) (peers' !! q)).
Proof.
  intros Hst Hdir Hinfo Hr Hsz Hups Hpeers Hpok Hmerge. unfold handle_update_buffer.
  cbn [obj set_received_update_buffer_cnt]. rewrite Hdir, Hst. simpl.
  replace (Z.to_nat (ti_update_size_ info)) with (ab_usize a)
    by (rewrite Hsz, (proj1 Hinfo); by rewrite Nat2Z.id).
  destruct (for_updates_visits_aux (add_received_update t info) b a (update_store s) Hr) as (b1 & -> & Hr1).
  assert (Forall (update_ok (v_size v)) (ab_ups a)) as Hok by (rewrite <- Hsz; apply (r_ups _ _ Hr)).
  destruct (add_received_all v t info (ab_ups a) Hinfo Hok (update_store s) Hups)
    as (store' & -> & Hne & Hkeep & Hok' & Hps). simpl.
  rewrite Hpeers. destruct (for_ranges_visits_aux merge_peer_range b1 _ peers Hr1) as (b2 & j & -> & _).
  simpl. destruct (merge_all my (range_prefix (ab_slots a)) peers Hpok Hmerge) as (peers' & -> & Hp' & Hc).
  simpl. by exists store', peers'.
Qed.

Lemma peer_account_receive es e t q o known now :
  continued known (received_ranges t q e) now ->
  peer_account es t q o known -> peer_account (es ++ [e]) t q o now.
Proof.
  intros Hc Hacc. unfold peer_account, continued in *. rewrite bind_snoc.
  destruct known as [r|].
  - destruct Hc as (en & -> & Hc), Hacc as (a & Hin & Hout & Hle). exists a. simpl.
    pose proof (chain_le _ _ _ Hc). split_and!; [apply chain_app; eauto|done|lia].
  - destruct Hacc as [Hin Hout]. rewrite Hin. simpl. destruct (received_ranges t q e) as [|r L].
    + by subst now.
    + destruct Hc as (en & -> & Hc). exists (st_ r). rewrite Hout.
      pose proof (chain_le _ _ _ Hc). split; [exact Hc|]. simpl. split; [done|lia].
Qed.

Lemma buffer_step es t b s :
  run_inv es s -> pair_pull s = [] -> ev_ok (EvPull (InUpdateBuffer t b)) s ->
  exists s', turn cfg (EvPull (InUpdateBuffer t b)) s = Ok (Continue, s') /\
    run_inv (es ++ [EvPull (InUpdateBuffer t b)]) s' /\ pair_pull s' = [].
Proof.
  intros [Hst Hdir Hdom Htab] Hpp (v & a & peers & Hv & Hr & Hsz & Hpeers & Hmerge).
  pose proof (Htab _ _ Hv) as [(info & Hinf & Hiok & Hl) Hups Hmys Hmine (peers' & Hp' & Hpok & Hq) H6 H7 H8].
  assert (peers' = peers) as -> by congruence.
  destruct (handle_update_buffer_runs s t b v a info peers) as (store' & peers' & Hrun & Hne & Hkeep & Hok' & Hps & Hpok' & Hc);
    [done..|].
  rewrite turn_pull. simpl. rewrite Hrun. simpl. eexists. split; [done|]. split; [|done]. split; simpl; try done.
  { intros t' Ht'. destruct (decide (t' = t)) as [->|Hnt]; [apply elem_of_dom; eauto|].
    apply Hdom. apply elem_of_dom. apply elem_of_dom in Ht'. by rewrite Hne in Ht' by done. }
  intros t' v' Ht'. destruct (decide (t = t')) as [<-|Hnt].
  - assert (v' = v) as -> by congruence.
    split; simpl; rewrite ?lookup_insert_eq; try done.
    + eauto.
    + destruct Hmine as (mine & ? & ? & ? & ? & Hlive & Hch & Hcnt). exists mine. split_and!; [done..|auto|].
      split; simpl; [done|]. rewrite bind_snoc. simpl. by rewrite app_nil_r.
    + exists peers'. split_and!; [done..|]. intros q Hq0 Hqm.
      apply (peer_account_receive es _ t q _ (peers !! q)); [|by apply Hq].
      simpl. rewrite (decide_True (P := t = t)) by done. by rewrite (buffer_ranges_repr _ _ Hr).
    + rewrite bind_snoc. simpl. rewrite (decide_True (P := t = t)), (buffer_updates_repr _ _ Hr) by done.
      apply Forall_app. split; [done|]. rewrite <- Hsz. apply (r_ups _ _ Hr).
    + eapply (sum_account_receive es _ s _ t v (ab_ups a)); try done; simpl.
      * by rewrite (decide_True (P := t = t)), (buffer_updates_repr _ _ Hr).
      * rewrite <- Hsz. apply (r_ups _ _ Hr).
  - eapply table_inv_ext, (Htab t' v' Ht'); simpl; rewrite ?lookup_insert_ne by done; try done.
    + by rewrite Hne by done.
    + rewrite bind_snoc. simpl. by rewrite decide_False, app_nil_r by done.
    + rewrite bind_snoc. simpl. by rewrite app_nil_r.
    + intros q. rewrite bind_snoc. simpl. by rewrite decide_False, app_nil_r by done.
Qed.

(** *** Runs *)

Fixpoint evs_ok (es : list prop_event) (s : PropThr) : Prop :=
  match es with
  | [] => True
  | e :: es => ev_ok e s /\ forall s', turn cfg e s = Ok (Continue, s') -> evs_ok es s'
  end.

Lemma event_step es e s :
  run_inv es s -> pair_pull s = [] -> ev_ok e s ->
  exists s', turn cfg e s = Ok (Continue, s') /\ run_inv (es ++ [e]) s' /\ pair_pull s' = [].
Proof.
  intros Hinv Hpp Hok. destruct e as [acks|[m d|t b|m]|m].
  - destruct (tick_step es acks s Hinv Hpp Hok) as (s' & ? & ? & ? & _). eauto.
  - by apply log_step.
  - by apply buffer_step.
  - done.
  - simpl in Hok. subst m. by apply sub_step.
Qed.

(** A run that ends with a tick ends with nothing left to send. *)
Lemma evs_ok_app es1 : forall es2 done s,
  run_inv done s -> pair_pull s = [] -> evs_ok (es1 ++ es2) s ->
  exists s1, thread_loop cfg es1 s = Ok (Continue, s1) /\ run_inv (done ++ es1) s1 /\ pair_pull s1 = [] /\
    evs_ok es2 s1 /\ thread_loop cfg (es1 ++ es2) s = thread_loop cfg es2 s1.
Proof.
  induction es1 as [|e es1 IH]; intros es2 done s Hinv Hpp Hok; simpl.
  { exists s. by rewrite app_nil_r. }
  destruct Hok as [Hok Hoks], (event_step done e s Hinv Hpp Hok) as (s1 & Ht & Hinv1 & Hpp1).
  rewrite Ht. simpl. destruct (IH es2 _ s1 Hinv1 Hpp1 (Hoks s1 Ht)) as (s' & Hl & Hinv' & Hpp' & Hok' & Heq).
  exists s'. rewrite <- app_assoc in Hinv'. done.
Qed.

Lemma run_events es : forall done s,
  run_inv done s -> pair_pull s = [] -> evs_ok es s ->
  exists s', thread_loop cfg es s = Ok (Continue, s') /\ run_inv (done ++ es) s' /\ pair_pull s' = [].
Proof.
  intros done s Hinv Hpp Hok. rewrite <- (app_nil_r es) in Hok.
  destruct (evs_ok_app es [] done s Hinv Hpp Hok) as (s' & ? & ? & ? & _). eauto.
Qed.

(** The tables the application registered, with the value types they were
    registered for. *)
Definition tables_ok (p : PropObj) : Prop :=
  dom (table_dir_ p) = dom tables /\
  forall t v, tables !! t = Some v -> exists info, table_dir_ p !! t = Some info /\ info_ok v info.

Lemma handshake_result sub_in p pp s rest :
  thread_handshake cfg sub_in (thread_init cfg p (EPRInit :: pp)) = Ok (s, rest) ->
  s = set_pair_pull (set_thr_state (set_out (thread_init cfg p [])
    [ToDownstreamInit (mkPropInitMsg my); ToDownstreamInitAckAck (mkPropInitAckAckMsg my)]) RUN) pp.
Proof.
  unfold thread_handshake. simpl. change (0 <=? node_id_ (downstream_recv_ cfg)) with (has_downstream cfg).
  rewrite downstream_ok. destruct sub_in as [|ack sub_in]; simpl; [done|].
  case_bool_decide; simpl; [|done]. destruct (wait_prop_start sub_in); simpl; [|done..].
  by intros [= <- <-].
Qed.

Lemma started_inv sub_in p s rest :
  tables_ok p -> thread_handshake cfg sub_in (thread_init cfg p [EPRInit]) = Ok (s, rest) ->
  run_inv [] s /\ pair_pull s = [].
Proof.
  intros [Hdom Htab] ->%handshake_result. split; [|done]. split; simpl; try done.
  intros t v Hv. destruct (Htab t v Hv) as (info & Hinf & Hok).
  split; simpl; rewrite ?lookup_empty; try done.
  - exists info. split_and!; done.
  - exists (mkRange 0 (-1)). rewrite lookup_fmap, Hinf. unfold range_ok, own_account, is_i64. simpl.
    split_and!; try done; lia.
  - exists ∅. rewrite lookup_fmap, Hinf. split_and!; [done..|]. intros q _ _. by rewrite lookup_empty.
  - intros k. simpl. unfold psum. simpl.
    change (vsum (VG := v_group v) (deltas_for k [])) with (zero_bytes (v_size v)).
    change (vsum (VG := v_group v) []) with (zero_bytes (v_size v)).
    by rewrite vp_zero_r by apply length_zero_bytes.
Qed.
End run.
