(* ===== verification/PropagatorProps.v ===== *)
(** What the propagator promises while it runs: the handshake, the flush of a
    table, conservation of the updates and contiguity of the ranges it ships -
    with a concrete node on which the hypotheses hold. *)
From S2P Require Import Prelude Common MemStruct MemStructSpec Buffer ValueOps Protocol Propagator PropagatorSpec PropagatorTrace PropagatorRun.

(** ** Statements *)

(** The thread of a node with a downstream neighbour and a batch time, started
    on the registered tables and through its handshake: [s] is its state when it
    enters the loop. *)
Definition runs_from (cfg : PropagatorThrInfo) (tables : gmap Z VType) (p : PropObj) (s : PropThr) : Prop :=
  (0 <= my_id_ cfg /\ is_i32 (my_id_ cfg)) /\ 0 < nanosec_ cfg /\ has_downstream cfg = true /\
  tables_ok tables p /\
  exists sub_in rest, thread_handshake cfg sub_in (thread_init cfg p [EPRInit]) = Ok (s, rest).

Section props.
Context `{Allocator} `{UnorderedIter} (cfg : PropagatorThrInfo) (tables : gmap Z VType).

(** C2. Conservation: from its start the propagator thread processes every
    well-formed sequence of ticks, update logs and forwarded buffers without a
    fault and stays in its loop; and for every table and key the deltas that came
    in - from this node's threads and from upstream - add up, in the value group
    of the table, to the deltas found in the blocks sent downstream plus the one
    still waiting in the store. Nothing is lost, nothing is sent twice. *)
Theorem propagator_conserves_updates p s es :
  runs_from cfg tables p s -> evs_ok cfg tables es s ->
  exists s', thread_loop cfg es s = Ok (Continue, s') /\
    forall t v k, tables !! t = Some v ->
      vsum (VG := v_group v) (deltas_for k (es ≫= received_updates t)) =
      vsum (VG := v_group v) (account t k s').
Proof.
  intros (Hid & Hns & Hds & Htab & sub_in & rest & Hhs) Hok.
  destruct (started_inv cfg tables Hds sub_in p s rest Htab Hhs) as [Hinv Hpp].
  destruct (run_events cfg tables Hid Hns Hds es [] s Hinv Hpp Hok) as (s' & Hl & Hinv' & _).
  exists s'. split; [done|]. intros t v k Hv. destruct (ri_tables _ _ _ _ Hinv' t v Hv) as [_ Hups _ _ _ Hsh _ Hsum].
  etransitivity; [exact (Hsum k)|]. unfold account, psum. rewrite vsum_app; [done|by apply (deltas_for_ok (v_size v))|].
  destruct (update_store s' !! t) as [u|]; simpl in *; [|constructor].
  destruct (u !! k) as [d|] eqn:E; simpl; repeat constructor. by destruct (Hups _ _ E).
Qed.

(** C19. The node's own sequence numbers: after a run that ends with a tick, the
    ranges of this node in the blocks shipped for a table are non-empty, start at
    0 and follow one another without gap or overlap up to the number of updates
    its threads have made on the table. *)
Theorem own_ranges_contiguous p s es acks :
  runs_from cfg tables p s -> evs_ok cfg tables (es ++ [EvTimer acks]) s ->
  exists s', thread_loop cfg (es ++ [EvTimer acks]) s = Ok (Continue, s') /\
    forall t, is_Some (tables !! t) ->
      chain 0 (shipped_ranges t (my_id_ cfg) (out s')) (Z.of_nat (length (es ≫= own_updates t))).
Proof.
  intros (Hid & Hns & Hds & Htab & sub_in & rest & Hhs) Hok.
  destruct (started_inv cfg tables Hds sub_in p s rest Htab Hhs) as [Hinv Hpp].
  destruct (evs_ok_app cfg tables Hid Hns Hds es _ [] s Hinv Hpp Hok)
    as (s1 & _ & Hinv1 & Hpp1 & [Htick _] & ->).
  destruct (tick_step cfg tables Hid Hns Hds _ acks s1 Hinv1 Hpp1 Htick) as (s' & Ht & Hinv' & _ & Hempty & _).
  exists s'. simpl. rewrite Ht. split; [done|]. intros t [v Hv].
  destruct (ri_tables _ _ _ _ Hinv' t v Hv) as [_ _ _ (mine & _ & _ & Hle & _ & Hlive & Hch & Hcnt) _ _ _ _].
  rewrite bind_snoc, length_app, Nat.add_0_r in Hcnt. simpl in Hcnt. rewrite <- Hcnt.
  replace (end_ mine + 1) with (st_ mine); [done|].
  destruct (decide (st_ mine <= end_ mine)) as [Hl|]; [|lia]. by destruct (Hlive Hl).
Qed.

(** C20. Ranges of the other nodes: for every peer, the ranges shipped follow one
    another without gap or overlap, start where the ranges received from upstream
    start, and never run past them. *)
Theorem peer_ranges_contiguous p s es :
  runs_from cfg tables p s -> evs_ok cfg tables es s ->
  exists s', thread_loop cfg es s = Ok (Continue, s') /\
    forall t q, is_Some (tables !! t) -> 0 <= q -> q <> my_id_ cfg ->
      (es ≫= received_ranges t q = [] /\ shipped_ranges t q (out s') = []) \/
      exists a b c, chain a (es ≫= received_ranges t q) c /\
        chain a (shipped_ranges t q (out s')) b /\ b <= c.
Proof.
  intros (Hid & Hns & Hds & Htab & sub_in & rest & Hhs) Hok.
  destruct (started_inv cfg tables Hds sub_in p s rest Htab Hhs) as [Hinv Hpp].
  destruct (run_events cfg tables Hid Hns Hds es [] s Hinv Hpp Hok) as (s' & Hl & Hinv' & _).
  exists s'. split; [done|]. intros t q [v Hv] Hq Hne.
  destruct (ri_tables _ _ _ _ Hinv' t v Hv) as [_ _ _ _ (peers & _ & _ & Hacc) _ _ _].
  specialize (Hacc q Hq Hne). destruct (peers !! q) as [r|]; [right|by left].
  destruct Hacc as (a & Hin & Hout & Hle). by exists a, (st_ r), (end_ r + 1).
Qed.
(** C17. Flush of a table with pending updates: exactly one block goes
    downstream, and read as the receiving node reads it, it holds every pending
    update of the table once, the unsent range of every peer and of this node, and
    no other range; on a loop table with own updates the paired receiver is handed
    those updates and their range before the block is sent. Afterwards the table
    has no pending updates, all these ranges are marked sent, and no other table
    has changed. *)
Theorem flush_table_ships s t v info ups peers mine mys :
  0 <= my_id_ cfg /\ is_i32 (my_id_ cfg) -> has_downstream cfg = true ->
  flush_view cfg s t v info ups peers mine mys -> ups <> ∅ ->
  (notifies info mys = true -> exists rest, pair_pull s = EMyUpdatesACK :: rest) ->
  exists pre block s', flush_table cfg t s = Ok s' /\
    out s' = out s ++ pre ++ [ToDownstream (mkEPRUpdateBufferMsg t) block] /\
    block_updates block = iter_order ups /\
    (forall q, 0 <= q -> block_range q block = range_sent cfg peers mine q) /\
    (if notifies info mys
     then exists b, pre = [ToReceiver t b] /\ buffer_updates b = iter_order mys /\
            GetNodeRange b (my_id_ cfg) = Ok (Some mine)
     else pre = []) /\
    update_store s' = <[t := ∅]> (update_store s) /\
    my_update_range s' = <[t := mkRange (end_ mine + 1) (end_ mine)]> (my_update_range s) /\
    table_peers_update_range s' = <[t := mark_sent <$> peers]> (table_peers_update_range s).
Proof.
  intros Hid Hds Hview Hne Hack.
  destruct (flush_table_runs cfg Hid s t v info ups peers mine mys Hview Hne Hds Hack)
    as (sent & -> & b & Hr & Hs).
  assert (forall q, 0 <= q -> block_range q (to_bytes b) = range_sent cfg peers mine q) as Hq.
  { intros q Hq. rewrite (block_range_repr _ _ _ Hr). apply outgoing_range; [apply Hview|done]. }
  destruct (notifies info mys); [destruct Hs as (b2 & Hr2 & ->)|subst sent].
  - exists [ToReceiver t b2], (to_bytes b). eexists. split_and!; try done.
    + by rewrite (block_updates_repr _ _ Hr).
    + exists b2. split_and!; [done|by rewrite (buffer_updates_repr _ _ Hr2)|].
      rewrite (GetNodeRange_refines _ _ _ Hr2). unfold a_get_range, outgoing, find_slot. simpl.
      by rewrite decide_True.
  - exists [], (to_bytes b). eexists. split_and!; try done. by rewrite (block_updates_repr _ _ Hr).
Qed.

(** The handshake: the thread enters [RUN] exactly when its paired receiver
    has announced itself and, with a downstream neighbour, that neighbour has
    acknowledged its PropInit and later sent PropStart; it has then sent PropInit
    and, after the acknowledgement, PropInitACKACK, and nothing else. What follows
    PropStart on the control socket is left for the loop. *)
Lemma handshake_runs_iff p pair_in sub_in s rest :
  has_downstream cfg = true ->
  (thread_handshake cfg sub_in (thread_init cfg p pair_in) = Ok (s, rest)) <->
  (exists pp pre, pair_in = EPRInit :: pp /\ sub_in = PropInitACK :: pre ++ PropStart :: rest /\
    (PropStart ∉ pre) /\
    s = set_pair_pull (set_thr_state (set_out (thread_init cfg p [])
          [ToDownstreamInit (mkPropInitMsg (my_id_ cfg));
           ToDownstreamInitAckAck (mkPropInitAckAckMsg (my_id_ cfg))]) RUN) pp).
Proof.
  intros Hds. assert (forall l, wait_prop_start l = Ok rest <->
    (exists pre, l = pre ++ PropStart :: rest /\ PropStart ∉ pre)) as Hwait.
  { induction l as [|m l IH]; simpl.
    - split; [done|]. by intros ([|] & ? & _).
    - case_decide as Hm.
      + split; [intros [= ->]; exists []; subst; split; [done|set_solver]|].
        intros ([|x pre] & [= -> ->] & Hn); [done|set_solver].
      + rewrite IH. split; [intros (pre & -> & Hn); exists (m :: pre); set_solver|].
        intros ([|x pre] & [= -> ->] & Hn); [done|]. exists pre. set_solver. }
  unfold thread_handshake. simpl. change (0 <=? node_id_ (downstream_recv_ cfg)) with (has_downstream cfg).
  rewrite Hds. split.
  - destruct pair_in as [|m pp]; simpl; [done|]. case_bool_decide; simpl; [subst m|done].
    destruct sub_in as [|ack sub_in]; simpl; [done|]. case_bool_decide; simpl; [subst ack|done].
    destruct (wait_prop_start sub_in) eqn:E; simpl; [|done..]. intros [= <- ->].
    apply Hwait in E as (pre & -> & Hn). by exists pp, pre.
  - intros (pp & pre & -> & -> & Hn & ->). simpl.
    rewrite (proj2 (Hwait (pre ++ PropStart :: rest))) by eauto. done.
Qed.
End props.


(** ** A concrete node *)

Definition int_vtype : VType.
Proof. by refine (mkVType 4 IntAdd IntSub Int_ValueGroup _ _); lia. Defined.

(** Node 2 of a ring, upstream of node 6, with one loop table of integers. *)
Definition demo_cfg : PropagatorThrInfo :=
  mkPropagatorThrInfo 2 1000 (mkNodeInfo 6 "10.0.0.6" "9000" "10.0.0.6" "9001").
Definition demo_tables : gmap Z VType := {[ 0 := int_vtype ]}.
Definition demo_obj : PropObj := RegisterTable Propagator_ctor 0 (Some IntAdd) 4 true true.
Definition demo_started : PropThr :=
  match thread_handshake demo_cfg [PropInitACK; PropStart] (thread_init demo_cfg demo_obj [EPRInit]) with
  | Ok (s, _) => s
  | _ => thread_init demo_cfg demo_obj []
  end.

#[local] Existing Instance gmap_order.

Lemma demo_tables_ok : tables_ok demo_tables demo_obj.
Proof.
  split.
  - apply (bool_decide_unpack _). by vm_compute.
  - intros t v. unfold demo_tables. rewrite lookup_singleton_Some. intros [<- <-]. eexists. split; done.
Qed.

Lemma demo_runs : runs_from demo_cfg demo_tables demo_obj demo_started.
Proof.
  split_and!; try done; [apply demo_tables_ok|]. by exists [PropInitACK; PropStart], [].
Qed.

(** Two increments of one key, by 1 and by 2. *)
Definition demo_log (d : byte) : prop_event :=
  EvPull (InUpdateLog (mkPUpdateLogMsg 0 7 EInc) [d; Byte.x00; Byte.x00; Byte.x00]).
Definition demo_events : list prop_event := [demo_log Byte.x01; demo_log Byte.x02].

(** The state a turn leads to. *)
Definition next (e : prop_event) (s : PropThr) : PropThr :=
  match turn demo_cfg e s with Ok (_, s') => s' | _ => s end.

Lemma next_turn e s s' : turn demo_cfg e s = Ok (Continue, s') -> s' = next e s.
Proof. unfold next. by intros ->. Qed.

Lemma demo_events_ok :
  evs_ok demo_cfg demo_tables (demo_events ++ [EvTimer [EMyUpdatesACK]]) demo_started.
Proof.
  split; [|intros s1 ->%next_turn; split; [|intros s2 ->%next_turn; split; [|done]]].
  - exists int_vtype, (mkRange 0 (-1)). split_and!; try done; vm_compute; done.
  - exists int_vtype, (mkRange 0 0). split_and!; try done; vm_compute; done.
  - split; [|by vm_compute].
    intros t v ups peers Ht Hv Hu Hp. unfold demo_tables in Hv.
    apply lookup_singleton_Some in Hv as [<- <-]. vm_compute in Hu, Hp.
    injection Hu as <-. injection Hp as <-. split; vm_compute; done.
Qed.

Lemma propagator_conserves_updates_witness :
  exists s', thread_loop demo_cfg demo_events demo_started = Ok (Continue, s') /\
    vsum (VG := Int_ValueGroup) (account 0 7 s') = [Byte.x03; Byte.x00; Byte.x00; Byte.x00].
Proof.
  destruct (propagator_conserves_updates demo_cfg demo_tables demo_obj demo_started demo_events demo_runs)
    as (s' & Hl & Hsum).
  { destruct demo_events_ok as [H1 H2]. split; [exact H1|]. intros s1 Hs1.
    destruct (H2 s1 Hs1) as [H3 _]. split; [exact H3|done]. }
  exists s'. split; [exact Hl|].
  etransitivity; [symmetry; exact (Hsum 0 int_vtype 7 eq_refl)|]. vm_compute. reflexivity.
Defined.

Lemma own_ranges_contiguous_witness :
  exists s', thread_loop demo_cfg (demo_events ++ [EvTimer [EMyUpdatesACK]]) demo_started = Ok (Continue, s') /\
    chain 0 (shipped_ranges 0 2 (out s')) 2.
Proof.
  destruct (own_ranges_contiguous demo_cfg demo_tables demo_obj demo_started demo_events [EMyUpdatesACK]
    demo_runs demo_events_ok) as (s' & Hl & Hch).
  exists s'. split; [exact Hl|]. apply (Hch 0). by exists int_vtype.
Defined.

(** A buffer with ranges of the nodes 3 and 5, forwarded by the paired receiver. *)
Lemma demo_forward_ok b :
  repr b (a_run demo_fill (a_create 4 2 3)).2 ->
  evs_ok demo_cfg demo_tables [EvPull (InUpdateBuffer 0 b)] demo_started.
Proof.
  intros Hr. split; [|done]. exists int_vtype, (a_run demo_fill (a_create 4 2 3)).2, ∅.
  split_and!; try done. split; simpl.
  - repeat constructor; simpl; unfold is_i32; lia.
  - intros q. rewrite lookup_empty. unfold continues.
    destruct (decide (q = 3)) as [->|H3]; [|destruct (decide (q = 5)) as [->|H5]].
    + split; [repeat constructor; simpl; unfold is_i64; lia|]. simpl. exists 5. lia.
    + split; [repeat constructor; simpl; unfold is_i64; lia|]. simpl. exists 10. lia.
    + unfold ranges_of. rewrite !filter_cons. simpl. rewrite !decide_False by (simpl; lia).
      by rewrite filter_nil.
Qed.

Lemma peer_ranges_contiguous_witness :
  exists b s', thread_loop demo_cfg [EvPull (InUpdateBuffer 0 b)] demo_started = Ok (Continue, s') /\
    exists z c, chain z (shipped_ranges 0 3 (out s')) c /\ c <= 5.
Proof.
  destruct demo_filled as [b Hr].
  destruct (peer_ranges_contiguous demo_cfg demo_tables demo_obj demo_started
    [EvPull (InUpdateBuffer 0 b)] demo_runs (demo_forward_ok b Hr)) as (s' & Hl & Hp).
  exists b, s'. split; [exact Hl|].
  assert ([EvPull (InUpdateBuffer 0 b)] ≫= received_ranges 0 3 = [mkRange 0 4]) as Hin.
  { simpl. by rewrite (buffer_ranges_repr _ _ Hr). }
  destruct (Hp 0 3) as [[Hn _]|(z & c & d & H1 & H2 & H3)]; [by exists int_vtype|done|done|congruence|].
  exists z, c. split; [exact H2|]. rewrite Hin in H1. simpl in H1. lia.
Defined.

(** A table with one pending update, which is this node's own. *)
Definition demo_ups : gmap Z (list byte) := {[ 7 := [Byte.x03; Byte.x00; Byte.x00; Byte.x00] ]}.
Definition demo_peers : gmap Z UpdateRange := {[ 4 := mkRange 5 8 ]}.
Definition demo_pending : PropThr :=
  mkPropThr demo_obj {[ 0 := demo_ups ]} {[ 0 := demo_peers ]} {[ 0 := mkRange 0 1 ]} {[ 0 := demo_ups ]}
    false false false false false 0 [EMyUpdatesACK] [].

Lemma demo_view :
  flush_view demo_cfg demo_pending 0 int_vtype (mkTableInfo 4 (Some IntAdd) true true)
    demo_ups demo_peers (mkRange 0 1) demo_ups.
Proof.
  assert (ups_ok 4 demo_ups) as Hok by (apply map_Forall_singleton; split; vm_compute; done).
  assert (fits 4 1 2 /\ fits 4 1 1) as [Hf1 Hf2] by (unfold fits; lia).
  split; [reflexivity|by split|reflexivity|exact Hok|reflexivity| |reflexivity| |reflexivity|exact Hok|
          simpl; lia|exact Hf1|exact Hf2].
  - apply map_Forall_singleton. unfold range_ok, is_i32, is_i64; simpl; lia.
  - unfold range_ok, is_i64; simpl; lia.
Qed.

Lemma flush_table_ships_witness :
  exists b block s', flush_table demo_cfg 0 demo_pending = Ok s' /\
    out s' = [ToReceiver 0 b; ToDownstream (mkEPRUpdateBufferMsg 0) block] /\
    block_updates block = [(7, [Byte.x03; Byte.x00; Byte.x00; Byte.x00])] /\
    block_range 4 block = Some (mkRange 5 8) /\ block_range 2 block = Some (mkRange 0 1).
Proof.
  destruct (flush_table_ships demo_cfg demo_pending 0 int_vtype
    (mkTableInfo 4 (Some IntAdd) true true) demo_ups demo_peers (mkRange 0 1) demo_ups)
    as (pre & block & s' & Hf & Ho & Hu & Hr & (b & -> & _) & _); [done|done|apply demo_view|done| |].
  { intros _. by exists []. }
  exists b, block, s'. split; [exact Hf|]. split; [exact Ho|]. split; [exact Hu|].
  split; rewrite Hr by lia; vm_compute; reflexivity.
Defined.

Lemma handshake_runs_iff_witness :
  thread_handshake demo_cfg [PropInitACK; PropInitACK; PropStart; EPRTerminate]
    (thread_init demo_cfg demo_obj [EPRInit]) =
  Ok (set_pair_pull (set_thr_state (set_out (thread_init demo_cfg demo_obj [])
        [ToDownstreamInit (mkPropInitMsg 2); ToDownstreamInitAckAck (mkPropInitAckAckMsg 2)]) RUN) [],
      [EPRTerminate]).
Proof.
  apply (handshake_runs_iff demo_cfg demo_obj [EPRInit]
    [PropInitACK; PropInitACK; PropStart; EPRTerminate]); [reflexivity|].
  exists [], [PropInitACK]. split_and!; try reflexivity. by intros ?%list_elem_of_singleton.
Defined.
