(* ===== verification/PropagatorTerm.v ===== *)
(** Termination of the propagator thread. The handlers move five flags, whatever the
    data they carry; on this abstraction the questions about shutting down are
    answered: how the thread's state compares with the state transition diagram of
    comm/propagator.hpp, when the thread exits, that it does exit, and that it sends no
    buffer once it has said it is done. *)
From S2P Require Import Prelude Common MemStruct MemStructSpec Buffer ValueOps Protocol Propagator PropagatorSpec PropagatorRun PropagatorProps.

(** ** The control flags *)

Record ctl := mkCtl {
  c_state : PropagatorState;
  c_recv_ds : bool;       (** termination message of the downstream receiver seen *)
  c_replied : bool;       (** and acknowledged, or no downstream *)
  c_timer : bool;         (** timer thread stopped *)
  c_recv : bool           (** paired receiver has acknowledged *)
}.
#[export] Instance ctl_eq_dec : EqDecision ctl.
Proof. solve_decision. Defined.
#[export] Instance PropagatorState_eq_dec' : EqDecision PropagatorState := PropagatorState_eq_dec.

Definition ctl_of (s : PropThr) : ctl :=
  mkCtl (state_ (obj s)) (have_received_ds_term s) (have_replied_ds_term s)
    (have_stopped_timer_thr s) (have_stopped_recv_thr s).

Definition c_exit (c : ctl) : bool * ctl :=
  if c_timer c && c_recv c && c_replied c
  then (true, mkCtl TERM (c_recv_ds c) (c_replied c) (c_timer c) (c_recv c))
  else (false, c).

(** What a turn does to the flags: [timed] when the node has a batch time, [ds] when
    it has a downstream neighbour. *)
Definition ctl_step (timed ds : bool) (e : prop_event) (c : ctl) : bool * ctl :=
  match e with
  | EvTimer _ =>
      if timed && bool_decide (c_state c = TERM_PREP)
      then c_exit (mkCtl (c_state c) (c_recv_ds c) (c_replied c) true (c_recv c))
      else (false, c)
  | EvPull (InOther EPInternalTerminate) =>
      (false, mkCtl TERM_PREP (c_recv_ds c) (c_recv_ds c || c_replied c) (c_timer c) (c_recv c))
  | EvPull (InOther EPRecvInternalTerminateACK) =>
      c_exit (mkCtl (c_state c) (c_recv_ds c) (c_replied c) (c_timer c) true)
  | EvPull _ => (false, c)
  | EvSub _ =>
      if ds then
        if bool_decide (c_state c = TERM_PREP)
        then c_exit (mkCtl (c_state c) true true (c_timer c) (c_recv c))
        else (false, mkCtl (c_state c) true (c_replied c) (c_timer c) (c_recv c))
      else (false, c)
  end.

Fixpoint ctl_loop (timed ds : bool) (es : list prop_event) (c : ctl) : bool * ctl :=
  match es with
  | [] => (false, c)
  | e :: es => let '(fl, c) := ctl_step timed ds e c in if fl then (true, c) else ctl_loop timed ds es c
  end.

(** ** The handlers move them so *)

(** Neither a buffer nor an acknowledgement to the downstream receiver. *)
Definition is_ack (m : PropOut) : bool := if m is ToDownstreamTermAck _ then true else false.
Definition is_buffer (m : PropOut) : bool := if m is ToDownstream _ _ then true else false.

(** The flags, and the threads that are registered. *)
Definition kept (s : PropThr) : ctl * gset Z := (ctl_of s, update_push_sock_ (obj s)).

(** [s'] differs from [s] in its data and by the messages [l] sent. *)
Definition extends (s s' : PropThr) (l : list PropOut) : Prop :=
  kept s' = kept s /\ out s' = out s ++ l.

Lemma extends_trans s1 s2 s3 l1 l2 : extends s1 s2 l1 -> extends s2 s3 l2 -> extends s1 s3 (l1 ++ l2).
Proof. intros [H1 H2] [H3 H4]. split; [congruence|]. by rewrite H4, H2, app_assoc. Qed.

Section handlers.
Context `{Allocator} `{UnorderedIter} (cfg : PropagatorThrInfo).

Lemma build_update_buff_extends t n s b s' :
  build_update_buff cfg t n s = Ok (b, s') -> extends s s' [].
Proof.
  unfold build_update_buff. destruct (index_ref _ (table_peers_update_range s) t) as [peers tp].
  intros Hb. inv_bind. destruct v1 as [b1 p1]. simpl in *.
  destruct (index_ref range0 (my_update_range s) t) as [mine mr]. inv_bind. simplify_eq.
  split; [done|]. simpl. by rewrite app_nil_r.
Qed.

Lemma connect_internal_extends s : extends s (connect_internal s) [].
Proof. unfold connect_internal. case_match; (split; [done|]); simpl; by rewrite app_nil_r. Qed.

Lemma recv_pair_extends s m s' : recv_pair s = Ok (m, s') -> extends s s' [].
Proof.
  unfold recv_pair. destruct (pair_pull s); intros Hr; simplify_eq. split; [done|]. simpl.
  by rewrite app_nil_r.
Qed.

Lemma notify_receiver_extends t n s s' :
  notify_receiver cfg t n s = Ok s' ->
  exists l, extends s s' l /\ Forall (fun m => is_ack m = false /\ is_buffer m = false) l.
Proof.
  unfold notify_receiver. destruct (index_ref ∅ (my_update_store s) t) as [mine ms].
  case_match; [|intros [= <-]; exists []; split; [split; [done|]; simpl; by rewrite app_nil_r|done]].
  intros Hn. inv_bind. destruct (index_ref range0 _ t) as [r rs]. inv_bind.
  destruct v2 as [c b]. inv_bind. destruct v2 as [ack s1]. inv_bind. subst s1.
  apply recv_pair_extends in Hv3 as [Hc Ho]. exists [ToReceiver t b]. split; [|by repeat constructor].
  split; [rewrite Hc|rewrite Ho]; unfold connect_internal; case_match; simpl; by rewrite ?app_nil_r.
Qed.

Lemma ship_buffer_extends t b s s' :
  ship_buffer cfg t b s = Ok s' ->
  exists l, extends s s' l /\ Forall (fun m => is_ack m = false) l.
Proof.
  unfold ship_buffer, send_downstream. destruct (index_ref range0 (my_update_range s) t) as [r rs].
  intros Hs. inv_bind. case_match; [|done]. injection Hs as <-.
  eexists [_]. split; [split; done|by repeat constructor].
Qed.

Lemma flush_table_extends t s s' :
  flush_table cfg t s = Ok s' ->
  exists l, extends s s' l /\ Forall (fun m => is_ack m = false) l.
Proof.
  unfold flush_table. case_match.
  { intros [= <-]. exists []. split; [split; [done|]; by rewrite app_nil_r|done]. }
  destruct (index_ref TableInfo_zero _ t) as [info dir]. intros Hf. inv_bind.
  destruct v as [b s1]. inv_bind. apply build_update_buff_extends in Hv.
  assert (exists l, extends s1 v l /\ Forall (fun m => is_ack m = false) l) as (l1 & He1 & Hl1).
  { case_match.
    - apply notify_receiver_extends in Hv0 as (l & Hl & Hf'). exists l. split; [done|].
      eapply List.Forall_impl; [|exact Hf']. by intros m [].
    - simplify_eq. exists []. split; [split; [done|]; by rewrite app_nil_r|done]. }
  apply ship_buffer_extends in Hf as (l2 & He2 & Hl2).
  exists ([] ++ (l1 ++ l2)). split; [|simpl; by apply Forall_app].
  eapply extends_trans; [|by eapply extends_trans].
  destruct Hv as [Hc Ho]. by split.
Qed.

Lemma flush_tables_extends ts s s' :
  foldM (flush_table cfg) ts s = Ok s' ->
  exists l, extends s s' l /\ Forall (fun m => is_ack m = false) l.
Proof.
  intros Hf. apply (foldM_Ok_ind (fun _ s1 => exists l, extends s s1 l /\ Forall (fun m => is_ack m = false) l)
    _ _ _ _ Hf).
  - exists []. split; [split; [done|]; by rewrite app_nil_r|done].
  - intros pre t suf s1 s2 _ (l1 & He1 & Hl1) (l2 & He2 & Hl2)%flush_table_extends.
    exists (l1 ++ l2). split; [by eapply extends_trans|by apply Forall_app].
Qed.

(** One turn of the thread. *)
Lemma exit_if_done_ctl s : (fun p => (p.1, ctl_of p.2)) (exit_if_done s) = c_exit (ctl_of s).
Proof. unfold exit_if_done, may_exit, c_exit. simpl. by case_match. Qed.

Lemma handle_timer_ctl s fl s' :
  handle_timer cfg s = Ok (fl, s') ->
  (fl, ctl_of s') = (if bool_decide (state_ (obj s) = TERM_PREP)
     then c_exit (mkCtl (c_state (ctl_of s)) (c_recv_ds (ctl_of s)) (c_replied (ctl_of s)) true (c_recv (ctl_of s)))
     else (false, ctl_of s)).
Proof.
  unfold handle_timer. intros Ht. inv_bind. apply flush_tables_extends in Hv as (l & [Hc%(f_equal fst) Ho] & _).
  simpl in Hc.
  change (ctl_of (send s _)) with (ctl_of s) in Hc. pose proof Hc as Hc'. unfold ctl_of in Hc. simpl in Hc.
  injection Hc as Hc1 Hc2 Hc3 Hc4 Hc5. rewrite Hc1 in Ht. case_decide as Hst; inv_bind.
  - rewrite bool_decide_eq_true_2 by done.
    pose proof (exit_if_done_ctl (set_have_stopped_timer_thr (send v JoinTimer) true)) as He.
    rewrite Ht in He. simpl in He. rewrite He. unfold ctl_of. simpl. congruence.
  - rewrite bool_decide_eq_false_2 by done. subst. by rewrite Hc'.
Qed.

Lemma handle_update_log_ctl m d s fl s' :
  handle_update_log cfg m d s = Ok (fl, s') -> fl = false /\ extends s s' [].
Proof.
  unfold handle_update_log, extends. intros Hl. inv_bind. rewrite app_nil_r.
  case_decide; [by simplify_eq|].
  destruct (index_ref range0 _ _) as [mine mr]. case_match; [by simplify_eq|].
  case_match; [|done]. destruct (index_ref ∅ (update_store _) _) as [ups st]. inv_bind.
  case_match; [|by simplify_eq]. destruct (index_ref ∅ _ _) as [mys ms]. inv_bind. by simplify_eq.
Qed.

Lemma handle_update_buffer_ctl t b s fl s' :
  handle_update_buffer t b s = Ok (fl, s') -> fl = false /\ extends s s' [].
Proof.
  unfold handle_update_buffer, extends. intros Hb. rewrite app_nil_r. case_match; [|done].
  case_decide; [|by simplify_eq]. inv_bind. destruct v as [store b1]. case_match; [|done]. inv_bind.
  destruct v as [peers b2]. by simplify_eq.
Qed.

(** Without a tick the turn is the handler of the one message. *)
Lemma turn_pull_eq m s :
  turn cfg (EvPull m) s = ('(fl, s) ← handle_update_pull cfg m s; Ok (fl, s)).
Proof.
  unfold turn, loop_turn.
  replace (if 0 <? nanosec_ cfg then None else None) with (@None TimerMsgType)
    by (by destruct (0 <? nanosec_ cfg)).
  by destruct (handle_update_pull cfg m s) as [[]| |].
Qed.
Lemma turn_sub_eq m s :
  turn cfg (EvSub m) s =
    if has_downstream cfg then ('(fl, s) ← handle_term_sub cfg m s; Ok (fl, s)) else Ok (Continue, s).
Proof.
  unfold turn, loop_turn.
  replace (if 0 <? nanosec_ cfg then None else None) with (@None TimerMsgType)
    by (by destruct (0 <? nanosec_ cfg)).
  destruct (has_downstream cfg); [|done]. by destruct (handle_term_sub cfg m s) as [[]| |].
Qed.

Lemma turn_control e s fl s' :
  turn cfg e s = Ok (fl, s') ->
  (fl, ctl_of s') = ctl_step (0 <? nanosec_ cfg) (has_downstream cfg) e (ctl_of s).
Proof.
  unfold turn, loop_turn. intros Ht. destruct e as [acks|m|m].
  - destruct (0 <? nanosec_ cfg); simpl in *.
    2:{ destruct (has_downstream cfg); by simplify_eq/=. }
    inv_bind. destruct v0 as [fl1 s1]. simplify_eq/=. simplify_eq/=. by apply handle_timer_ctl in Hv0.
  - replace (if 0 <? nanosec_ cfg then None else None) with (@None TimerMsgType) in Ht
      by (by destruct (0 <? nanosec_ cfg)).
    inv_bind. destruct v0 as [fl1 s1]. simplify_eq/=. simplify_eq/=.
    destruct m as [m d|t b|[]]; simpl in *; try done.
    + apply handle_update_log_ctl in Hv0 as [-> [Hk%(f_equal fst) _]]. simpl in Hk. by rewrite Hk.
    + apply handle_update_buffer_ctl in Hv0 as [-> [Hk%(f_equal fst) _]]. simpl in Hk. by rewrite Hk.
    + unfold handle_internal_terminate, send_downstream, connect_internal in Hv0. simpl in Hv0.
      destruct (have_received_ds_term s) eqn:E, (has_downstream cfg), (internal_push_connected s) eqn:E2;
        simplify_eq/=; unfold ctl_of; rewrite ?E, ?E2; simpl; by rewrite ?E, ?E2.
    + unfold handle_recv_terminate_ack in Hv0. injection Hv0 as Hv.
      pose proof (exit_if_done_ctl (set_have_stopped_recv_thr s true)) as He. by rewrite Hv in He.
  - replace (if 0 <? nanosec_ cfg then None else None) with (@None TimerMsgType) in Ht
      by (by destruct (0 <? nanosec_ cfg)).
    simpl. destruct (has_downstream cfg) eqn:Hds; simplify_eq/=; [|done].
    inv_bind. destruct v0 as [fl1 s1]. simplify_eq/=. simplify_eq/=. unfold handle_term_sub, send_downstream in Hv0.
    rewrite Hds in Hv0. destruct m; try done. case_decide as Hst.
    + rewrite bool_decide_eq_true_2 by done. simpl in Hv0. injection Hv0 as Hv.
      match type of Hv with exit_if_done ?x = _ => pose proof (exit_if_done_ctl x) as He end.
      rewrite Hv in He. done.
    + rewrite bool_decide_eq_false_2 by done. by simplify_eq/=.
Qed.

(** The messages with data. *)
Definition data_event (e : prop_event) : Prop :=
  match e with EvTimer _ | EvPull (InUpdateLog _ _) | EvPull (InUpdateBuffer _ _) => True | _ => False end.

Lemma data_keeps_sockets e s fl s' :
  data_event e -> turn cfg e s = Ok (fl, s') -> update_push_sock_ (obj s') = update_push_sock_ (obj s).
Proof.
  intros He Ht. destruct e as [acks|[m d|t b|m]|m]; try done.
  - unfold turn, loop_turn in Ht. destruct (0 <? nanosec_ cfg); simpl in Ht; [|by destruct (has_downstream cfg); simplify_eq/=].
    inv_bind. destruct v0 as [fl1 s1]. simplify_eq/=. simplify_eq/=. unfold handle_timer in Hv0. inv_bind.
    apply flush_tables_extends in Hv as (l & [Hc%(f_equal snd) _] & _). simpl in Hc.
    unfold exit_if_done in Hv0. repeat case_match; by simplify_eq/=.
  - rewrite turn_pull_eq in Ht. inv_bind. destruct v as [fl1 s1]. simplify_eq.
    by apply handle_update_log_ctl in Hv as [_ [Hk%(f_equal snd) _]].
  - rewrite turn_pull_eq in Ht. inv_bind. destruct v as [fl1 s1]. simplify_eq.
    by apply handle_update_buffer_ctl in Hv as [_ [Hk%(f_equal snd) _]].
Qed.

Lemma loop_control_aux es : forall s fl s',
  thread_loop cfg es s = Ok (fl, s') ->
  (fl, ctl_of s') = ctl_loop (0 <? nanosec_ cfg) (has_downstream cfg) es (ctl_of s).
Proof.
  induction es as [|e es IH]; intros s fl s' Hl; simpl in *; [by simplify_eq|].
  inv_bind. destruct v as [fl1 s1]. apply turn_control in Hv. rewrite <- Hv.
  destruct fl1; [by simplify_eq|]. by apply IH.
Qed.
End handlers.

(** ** The events that matter *)

Definition is_terminate (e : prop_event) : bool :=
  if e is EvPull (InOther EPInternalTerminate) then true else false.
Definition is_recv_ack (e : prop_event) : bool :=
  if e is EvPull (InOther EPRecvInternalTerminateACK) then true else false.
Definition is_ds_term (e : prop_event) : bool := if e is EvSub _ then true else false.
Definition is_tick (e : prop_event) : bool := if e is EvTimer _ then true else false.

(** A tick after the application's termination message. *)
Fixpoint stopped_timer (es : list prop_event) : bool :=
  match es with
  | [] => false
  | e :: es => (is_terminate e && existsb is_tick es) || stopped_timer es
  end.

(** The application has signalled termination and the timer thread, the paired
    receiver and the downstream receiver are all done. *)
Definition complete (es : list prop_event) : bool :=
  stopped_timer es && existsb is_recv_ack es && existsb is_ds_term es.

Lemma stopped_timer_snoc es e :
  stopped_timer (es ++ [e]) = stopped_timer es || (existsb is_terminate es && is_tick e).
Proof.
  induction es as [|x es IH]; simpl.
  - by rewrite andb_false_r.
  - rewrite IH, existsb_app. simpl. destruct (is_terminate x), (existsb is_tick es), (is_tick e),
      (stopped_timer es), (existsb is_terminate es); done.
Qed.

Lemma stopped_timer_terminate es : stopped_timer es = true -> existsb is_terminate es = true.
Proof.
  induction es as [|x es IH]; simpl; [done|]. destruct (is_terminate x); simpl; [done|]. exact IH.
Qed.

Lemma stopped_timer_app es1 es2 : stopped_timer es1 = true -> stopped_timer (es1 ++ es2) = true.
Proof.
  induction es1 as [|x es IH]; simpl; [done|]. rewrite existsb_app.
  destruct (is_terminate x), (existsb is_tick es); simpl; auto.
  intros H. rewrite IH by done. apply orb_true_r.
Qed.

Lemma complete_app es1 es2 : complete es1 = true -> complete (es1 ++ es2) = true.
Proof.
  unfold complete. rewrite !existsb_app. intros [[H1 H2]%andb_prop H3]%andb_prop.
  by rewrite (stopped_timer_app es1 es2), H2, H3.
Qed.

(** The same for a node without a batch time or without a downstream neighbour. *)
Definition complete_in (timed ds : bool) (es : list prop_event) : bool :=
  timed && stopped_timer es && existsb is_recv_ack es && (negb ds || existsb is_ds_term es).

Lemma complete_in_app timed ds es1 es2 : complete_in timed ds es1 = true -> complete_in timed ds (es1 ++ es2) = true.
Proof.
  unfold complete_in. rewrite !existsb_app. intros [[[H1 H2]%andb_prop H3]%andb_prop H4]%andb_prop.
  rewrite (stopped_timer_app es1 es2), H1, H3 by done. by destruct ds; simpl in *; rewrite ?H4.
Qed.

(** The flags after the events [es]. *)
Definition ctl_after (timed ds : bool) (es : list prop_event) : ctl :=
  mkCtl (if existsb is_terminate es then TERM_PREP else RUN) (ds && existsb is_ds_term es)
    (negb ds || (existsb is_terminate es && existsb is_ds_term es)) (timed && stopped_timer es) (existsb is_recv_ack es).

Lemma ctl_step_after timed ds es e :
  complete_in timed ds es = false ->
  let c := ctl_after timed ds (es ++ [e]) in
  ctl_step timed ds e (ctl_after timed ds es) =
    if complete_in timed ds (es ++ [e])
    then (true, mkCtl TERM (c_recv_ds c) (c_replied c) (c_timer c) (c_recv c)) else (false, c).
Proof.
  unfold complete_in, ctl_after. intros Hc. rewrite stopped_timer_snoc, !existsb_app. simpl.
  pose proof (stopped_timer_terminate es) as Hst. revert Hc Hst.
  generalize (stopped_timer es) (existsb is_terminate es) (existsb is_ds_term es) (existsb is_recv_ack es).
  intros st te dt ra Hc Hst.
  destruct st; [specialize (Hst eq_refl); subst te|]; destruct e as [acks|[m d|t b|[]]|m]; unfold c_exit; simpl;
    try destruct te; destruct timed, ds, dt, ra; simpl in *; try done.
Qed.

Lemma ctl_loop_after timed ds suf : forall pre,
  complete_in timed ds pre = false ->
  (ctl_loop timed ds suf (ctl_after timed ds pre)).1 = complete_in timed ds (pre ++ suf) /\
  c_state (ctl_loop timed ds suf (ctl_after timed ds pre)).2 =
    (if complete_in timed ds (pre ++ suf) then TERM else if existsb is_terminate (pre ++ suf) then TERM_PREP else RUN).
Proof.
  induction suf as [|e suf IH]; intros pre Hc; simpl.
  { rewrite app_nil_r, Hc. done. }
  rewrite ctl_step_after by done. destruct (complete_in timed ds (pre ++ [e])) eqn:E; simpl.
  - replace (pre ++ e :: suf) with ((pre ++ [e]) ++ suf) by (by rewrite <- app_assoc).
    by rewrite (complete_in_app _ _ _ suf E).
  - replace (pre ++ e :: suf) with ((pre ++ [e]) ++ suf) by (by rewrite <- app_assoc). by apply IH.
Qed.

(** ** The state transition diagram *)

(** The triggers comm/propagator.hpp gives: Start(), SignalTerm(), and for the last
    transition that the thread has "received termination message from downstream receiver
    and receiver thread has ackonwledged termination". *)
Inductive trigger := ByStart | BySignalTerm | DownstreamTerm | ReceiverAck.

Record diagram := mkDiagram { d_state : PropagatorState; d_downstream : bool; d_receiver : bool }.

(** INIT --> RUN --> TERM_PREP --> TERM. *)
Definition diagram_step (d : diagram) (t : trigger) : diagram :=
  let d :=
    match t with
    | ByStart => if decide (d_state d = INIT) then mkDiagram RUN (d_downstream d) (d_receiver d) else d
    | BySignalTerm => if decide (d_state d = RUN) then mkDiagram TERM_PREP (d_downstream d) (d_receiver d) else d
    | DownstreamTerm => mkDiagram (d_state d) true (d_receiver d)
    | ReceiverAck => mkDiagram (d_state d) (d_downstream d) true
    end in
  if bool_decide (d_state d = TERM_PREP) && d_downstream d && d_receiver d
  then mkDiagram TERM (d_downstream d) (d_receiver d) else d.

(** The message by which the thread learns of a trigger. *)
Definition trigger_of (e : prop_event) : option trigger :=
  match e with
  | EvPull (InOther EPInternalTerminate) => Some BySignalTerm
  | EvPull (InOther EPRecvInternalTerminateACK) => Some ReceiverAck
  | EvSub EPRTerminate => Some DownstreamTerm
  | _ => None
  end.

(** A node without a downstream receiver has nobody to hear from: that part of the
    condition is taken to hold from the beginning. *)
Definition diagram_after (ds : bool) (es : list prop_event) : PropagatorState :=
  d_state (fold_left diagram_step (ByStart :: omap trigger_of es) (mkDiagram INIT (negb ds) false)).

(** No other message than EPRTerminate on the control socket. *)
Definition only_terminates (es : list prop_event) : Prop :=
  forall m, EvSub m ∈ es -> m = EPRTerminate.

Lemma diagram_shape ds es :
  (ds = true -> only_terminates es) ->
  let te := existsb is_terminate es in let ra := existsb is_recv_ack es in
  let dt := negb ds || existsb is_ds_term es in
  fold_left diagram_step (ByStart :: omap trigger_of es) (mkDiagram INIT (negb ds) false) =
    mkDiagram (if te && dt && ra then TERM else if te then TERM_PREP else RUN) dt ra.
Proof.
  cbn zeta. induction es as [|e es IH] using rev_ind; intros Hs; [by destruct ds|].
  assert (ds = true -> only_terminates es) as Hs1.
  { intros Hd m Hm. apply (Hs Hd). apply elem_of_app. by left. }
  rewrite omap_app, app_comm_cons, fold_left_app, (IH Hs1), !existsb_app.
  assert (ds = true -> forall m, e = EvSub m -> m = EPRTerminate) as He.
  { intros Hd m ->. apply (Hs Hd). apply elem_of_app. right. by left. }
  generalize (existsb is_terminate es) (existsb is_ds_term es) (existsb is_recv_ack es). intros te dt ra.
  destruct e as [acks|[m d|t b|[]]|m]; try (by destruct ds, te, dt, ra).
  destruct ds; [rewrite (He eq_refl m eq_refl)|]; destruct te, dt, ra; by try destruct m.
Qed.

Lemma diagram_term_stays ts : forall d, d_state d = TERM -> d_state (fold_left diagram_step ts d) = TERM.
Proof.
  induction ts as [|t ts IH]; intros [st dt ra] Hd; simpl in Hd; subst st; [done|]. cbn [fold_left]. apply IH.
  by destruct t.
Qed.

Lemma diagram_after_app ds es1 es2 : diagram_after ds es1 = TERM -> diagram_after ds (es1 ++ es2) = TERM.
Proof. unfold diagram_after. intros Hd. rewrite omap_app, app_comm_cons, fold_left_app. by apply diagram_term_stays. Qed.

(** ** After [RUN]: nothing to send *)

Definition store_empty (s : PropThr) : Prop := forall t, default ∅ (update_store s !! t) = ∅.

(** What the senders still owe while the node shuts down. *)
Definition shutdown_ok (dir : gmap Z TableInfo) (e : prop_event) : Prop :=
  match e with
  | EvTimer _ => True
  | EvPull (InUpdateLog _ d) => 0 < Z.of_nat (length d) < 2147483648
  | EvPull (InUpdateBuffer t _) => is_Some (dir !! t)
  | EvPull (InOther m) => m = EPInternalTerminate \/ m = EPRecvInternalTerminateACK
  | EvSub m => m = EPRTerminate
  end.

Section shutdown.
Context `{Allocator} `{UnorderedIter} (cfg : PropagatorThrInfo).

(** The outcome of a turn while the store is empty. *)
Definition quiet (s : PropThr) (e : prop_event) (r : res (bool * PropThr)) : Prop :=
  match r with
  | Ok (_, s') => store_empty s' /\ table_dir_ (obj s') = table_dir_ (obj s) /\
      exists l, out s' = out s ++ l /\ Forall (fun m => is_buffer m = false) l
  | _ => ~ (has_downstream cfg = true /\ shutdown_ok (table_dir_ (obj s)) e)
  end.

Arguments quiet : simpl never.

Lemma quiet_nothing s e fl s' :
  store_empty s' -> table_dir_ (obj s') = table_dir_ (obj s) -> out s' = out s -> quiet s e (Ok (fl, s')).
Proof. intros. split; [done|]. split; [done|]. exists []. by rewrite app_nil_r. Qed.

Lemma quiet_sent s e fl s' l :
  store_empty s' -> table_dir_ (obj s') = table_dir_ (obj s) -> out s' = out s ++ l ->
  Forall (fun m => is_buffer m = false) l -> quiet s e (Ok (fl, s')).
Proof. intros. split; [done|]. split; [done|]. by exists l. Qed.

Lemma quiet_exit s s1 e fl s' :
  exit_if_done s1 = (fl, s') -> quiet s e (Ok (fl, s1)) -> quiet s e (Ok (fl, s')).
Proof. unfold exit_if_done. case_match; intros [= <- <-]; done. Qed.

Lemma connect_internal_eq s : connect_internal s = set_internal_push_connected s true.
Proof. unfold connect_internal. case_match; [|done]. destruct s; simpl in *; by subst. Qed.

Lemma cleared_empty (st : gmap Z (gmap Z (list byte))) t :
  default ∅ (((fun _ => ∅) <$> st) !! t) = (∅ : gmap Z (list byte)).
Proof. rewrite lookup_fmap. by destruct (st !! t). Qed.

(** The application's termination message, in any state. *)
Lemma handle_internal_terminate_quiet s :
  match handle_internal_terminate cfg s with
  | Ok (fl, s') => store_empty s' /\ table_dir_ (obj s') = table_dir_ (obj s) /\
      state_ (obj s') = TERM_PREP /\
      exists l, out s' = out s ++ l /\ Forall (fun m => is_buffer m = false) l
  | _ => has_downstream cfg = false
  end.
Proof.
  unfold handle_internal_terminate, send_downstream. simpl.
  destruct (have_received_ds_term s); [destruct (has_downstream cfg) eqn:Hds; [|done]|]; simpl;
    rewrite ?connect_internal_eq; (split; [intros t; apply cleared_empty|]);
    (split; [done|]); (split; [done|]); simpl; rewrite <- ?app_assoc;
    eexists; (split; [reflexivity|]); by repeat constructor.
Qed.

Lemma flush_none ts s : store_empty s -> foldM (flush_table cfg) ts s = Ok s.
Proof.
  intros He. induction ts as [|t ts IH]; simpl; [done|]. by rewrite (flush_table_empty cfg) by apply He.
Qed.

Lemma turn_quiet e s :
  state_ (obj s) = TERM_PREP -> store_empty s -> quiet s e (turn cfg e s).
Proof.
  intros Hst He. unfold turn, loop_turn.
  assert (forall A, (if 0 <? nanosec_ cfg then @None A else None) = None) as Hno
    by (intros; by destruct (0 <? nanosec_ cfg)).
  destruct e as [acks|m|m]; rewrite ?Hno.
  - destruct (0 <? nanosec_ cfg); simpl.
    + unfold handle_timer. simpl. rewrite Hst. simpl.
      rewrite flush_none by (intros t; apply He). simpl. rewrite Hst. simpl.
      destruct (exit_if_done _) as [fl s'] eqn:E. simpl. eapply quiet_exit; [exact E|].
      eapply quiet_sent with (l := [_; JoinTimer]); simpl; try done; [by rewrite <- app_assoc|].
      by repeat constructor.
    + destruct (has_downstream cfg); by apply quiet_nothing.
  - destruct m as [m d|t b|[]]; simpl; try (intros [_ [|]]; done).
    + unfold handle_update_log. destruct (0 <? wrap_i32 (Z.of_nat (length d))) eqn:E; simpl.
      * rewrite decide_True by (by rewrite Hst). simpl. by apply quiet_nothing.
      * intros [_ Hd]. simpl in Hd. rewrite wrap_i32_id in E by int_lia. lia.
    + unfold handle_update_buffer. simpl. destruct (table_dir_ (obj s) !! t) eqn:E; simpl.
      * rewrite Hst. simpl. by apply quiet_nothing.
      * intros [_ Hd]. simpl in Hd. rewrite E in Hd. by destruct Hd.
    + pose proof (handle_internal_terminate_quiet s) as Hq.
      destruct (handle_internal_terminate cfg s) as [[fl s']|f|]; simpl.
      * destruct Hq as (? & ? & _ & l & ? & ?). by eapply quiet_sent.
      * intros [? _]; congruence.
      * intros [? _]; congruence.
    + unfold handle_recv_terminate_ack. destruct (exit_if_done _) as [fl s'] eqn:E. simpl.
      eapply quiet_exit; [exact E|]. by apply quiet_nothing.
  - destruct (has_downstream cfg) eqn:Hds; simpl; [|by apply quiet_nothing].
    unfold handle_term_sub, send_downstream. rewrite Hst, Hds.
    destruct m; simpl; try (by intros [_ ?]).
    destruct (exit_if_done _) as [fl s'] eqn:E. simpl. eapply quiet_exit; [exact E|].
    eapply quiet_sent with (l := [_]); simpl; try done. by repeat constructor.
Qed.

(** The messages of a turn that is neither a tick nor the termination message. *)
Lemma exit_if_done_out s fl s' : exit_if_done s = (fl, s') -> out s' = out s.
Proof. unfold exit_if_done. case_match; by intros [= <- <-]. Qed.

Lemma pull_sends m s fl s' :
  turn cfg (EvPull m) s = Ok (fl, s') -> m <> InOther EPInternalTerminate -> out s' = out s.
Proof.
  rewrite turn_pull_eq. intros Ht Hm. inv_bind. destruct v as [fl1 s1]. simplify_eq/=.
  destruct m as [m d|t b|[]]; simpl in *; try done.
  - apply handle_update_log_ctl in Hv as [_ [_ Ho]]. by rewrite app_nil_r in Ho.
  - apply handle_update_buffer_ctl in Hv as [_ [_ Ho]]. by rewrite app_nil_r in Ho.
  - unfold handle_recv_terminate_ack in Hv. injection Hv as Hv. by apply exit_if_done_out in Hv.
Qed.

Lemma sub_sends m s fl s' :
  turn cfg (EvSub m) s = Ok (fl, s') ->
  exists l, out s' = out s ++ l /\ Forall (fun m => is_buffer m = false) l /\
    (state_ (obj s) <> TERM_PREP -> l = []).
Proof.
  rewrite turn_sub_eq. destruct (has_downstream cfg) eqn:Hds.
  2:{ intros [= <- <-]. exists []. by rewrite app_nil_r. }
  intros Ht. inv_bind. destruct v as [fl1 s1]. simplify_eq/=.
  unfold handle_term_sub, send_downstream in Hv. rewrite Hds in Hv. destruct m; try done.
  case_decide as Hst; simpl in Hv; injection Hv as Hv.
  - apply exit_if_done_out in Hv. exists [ToDownstreamTermAck (mkPRTerminateAckMsg (my_id_ cfg))].
    split_and!; [done|by repeat constructor|done].
  - exists []. subst s'. by rewrite app_nil_r.
Qed.

Lemma turn_terminate s fl s' :
  turn cfg (EvPull (InOther EPInternalTerminate)) s = Ok (fl, s') ->
  store_empty s' /\ table_dir_ (obj s') = table_dir_ (obj s) /\ state_ (obj s') = TERM_PREP /\
  exists l, out s' = out s ++ l /\ Forall (fun m => is_buffer m = false) l.
Proof.
  rewrite turn_pull_eq. simpl. pose proof (handle_internal_terminate_quiet s) as Hq. intros Ht.
  destruct (handle_internal_terminate cfg s) as [[fl1 s1]| |]; simplify_eq/=. done.
Qed.

(** While the node runs it acknowledges nothing. *)
Lemma turn_run e s fl s' :
  state_ (obj s) = RUN -> is_terminate e = false -> turn cfg e s = Ok (fl, s') ->
  exists l, out s' = out s ++ l /\ Forall (fun m => is_ack m = false) l.
Proof.
  intros Hst He Ht. destruct e as [acks|m|m].
  - unfold turn, loop_turn in Ht. destruct (0 <? nanosec_ cfg); simpl in *.
    + inv_bind. destruct v0 as [fl1 s1]. simplify_eq/=. unfold handle_timer in Hv0. inv_bind.
      apply flush_tables_extends in Hv as (l & [Hc Ho] & Hl). simpl in Ho.
      assert (state_ (obj v) = RUN) as Hv'.
      { unfold ctl_of in Hc. simpl in Hc. injection Hc as Hc _. by rewrite Hc. }
      rewrite decide_False in Hv0 by (by rewrite Hv'). simplify_eq/=.
      rewrite <- app_assoc in Ho. eexists. split; [exact Ho|]. simpl. by constructor.
    + exists []. rewrite app_nil_r. by destruct (has_downstream cfg); simplify_eq/=.
  - exists []. rewrite app_nil_r. split; [|done]. eapply pull_sends; [done|]. by intros ->.
  - apply sub_sends in Ht as (l & Ho & _ & Hl). exists []. rewrite Hl in Ho by (by rewrite Hst). by split.
Qed.

Lemma ctl_step_stays timed ds e c fl c' :
  ctl_step timed ds e c = (fl, c') -> c_state c = TERM_PREP -> fl = false -> c_state c' = TERM_PREP.
Proof.
  unfold ctl_step, c_exit. intros He Hst ->.
  destruct e as [acks|[m d|t b|[]]|m]; rewrite ?Hst in *; repeat case_match; by simplify_eq/=.
Qed.

Lemma ctl_step_run timed ds e c c' :
  ctl_step timed ds e c = (false, c') -> c_state c = RUN -> c_timer c = false -> is_terminate e = false ->
  c_state c' = RUN /\ c_timer c' = false.
Proof.
  destruct c as [cs rd rp tm rc]. simpl. intros He -> -> Hte.
  destruct e as [acks|[m d|t b|[]]|m]; simpl in *; try done; unfold c_exit in He; simpl in He.
  - rewrite andb_false_r in He. by simplify_eq/=.
  - by simplify_eq/=.
  - by simplify_eq/=.
  - by simplify_eq/=.
  - by simplify_eq/=.
  - by simplify_eq/=.
  - by simplify_eq/=.
  - by simplify_eq/=.
  - destruct ds; by simplify_eq/=.
Qed.

Lemma shutdown_total es : forall s,
  has_downstream cfg = true -> state_ (obj s) = TERM_PREP -> store_empty s ->
  Forall (shutdown_ok (table_dir_ (obj s))) es ->
  exists fl s', thread_loop cfg es s = Ok (fl, s').
Proof.
  induction es as [|e es IH]; intros s Hds Hst He Hok; simpl; [eauto|].
  apply Forall_cons in Hok as [Hok Hoks]. pose proof (turn_quiet e s Hst He) as Hq.
  destruct (turn cfg e s) as [[[] s1]| |] eqn:Ht; simpl; [eauto| |by destruct Hq|by destruct Hq].
  destruct Hq as (He1 & Hdir & _). apply turn_control in Ht. apply IH; [done| |done|by rewrite Hdir].
  symmetry in Ht. by apply (ctl_step_stays _ _ _ _ _ _ Ht).
Qed.
End shutdown.

(** ** Properties *)

Section props.
Context `{Allocator} `{UnorderedIter} (cfg : PropagatorThrInfo).

(** The flags of a thread that has just entered its loop. *)
Definition fresh (s : PropThr) : Prop := ctl_of s = mkCtl RUN false false false false.

Lemma exits_aux es s fl s' :
  0 < nanosec_ cfg -> has_downstream cfg = true -> fresh s ->
  thread_loop cfg es s = Ok (fl, s') ->
  fl = complete es /\
  state_ (obj s') = (if complete es then TERM else if existsb is_terminate es then TERM_PREP else RUN).
Proof.
  intros Hns Hds Hf Hl. apply loop_control_aux in Hl.
  rewrite Hf, Hds, (proj2 (Z.ltb_lt _ _) Hns) in Hl.
  destruct (ctl_loop_after true true es [] eq_refl) as [H1 H2]. simpl in H1, H2.
  change (ctl_after true true []) with (mkCtl RUN false false false false) in H1, H2. rewrite <- Hl in H1, H2. done.
Qed.

(** Acknowledgements come after all buffers. *)
Definition ordered (o : list PropOut) : Prop :=
  forall i j mi mj, o !! i = Some mi -> is_ack mi = true -> o !! j = Some mj -> is_buffer mj = true ->
    (j < i)%nat.

Lemma ordered_app o l :
  ordered o -> Forall (fun m => is_buffer m = false) l -> ordered (o ++ l).
Proof.
  intros Ho Hl i j mi mj Hi Hai Hj Hbj. apply lookup_app_Some in Hj as [Hj|[_ Hj]].
  - apply lookup_app_Some in Hi as [Hi|[Hi _]]; [by eapply Ho|]. apply lookup_lt_Some in Hj. lia.
  - eapply Forall_lookup_1 in Hl; [|exact Hj]. simpl in Hl. congruence.
Qed.

Lemma ordered_no_ack o : Forall (fun m => is_ack m = false) o -> ordered o.
Proof.
  intros Ho i j mi mj Hi Hai _ _. eapply Forall_lookup_1 in Ho; [|exact Hi]. simpl in Ho. congruence.
Qed.

(** Either nothing was acknowledged yet, or nothing is left to send. *)
Definition promise (s : PropThr) : Prop :=
  (state_ (obj s) = RUN /\ have_stopped_timer_thr s = false /\ Forall (fun m => is_ack m = false) (out s)) \/
  (state_ (obj s) = TERM_PREP /\ store_empty s /\ ordered (out s)).

Lemma turn_promise e s fl s' :
  promise s -> turn cfg e s = Ok (fl, s') -> ordered (out s') /\ (fl = false -> promise s').
Proof.
  intros [(Hst & Htm & Ha)|(Hst & He & Ho)] Ht.
  - destruct (is_terminate e) eqn:Hte.
    + destruct e as [|[| |[]]|]; try done. apply turn_terminate in Ht as (He' & _ & Hst' & l & Ho & Hl).
      assert (ordered (out s')) as Hord by (rewrite Ho; apply ordered_app; [by apply ordered_no_ack|done]).
      split; [done|]. intros _. right. done.
    + destruct (turn_run cfg e s fl s' Hst Hte Ht) as (l & Ho & Hl).
      assert (Forall (fun m => is_ack m = false) (out s')) as Ha' by (rewrite Ho; by apply Forall_app).
      split; [by apply ordered_no_ack|]. intros ->. left. apply turn_control in Ht. symmetry in Ht.
      by destruct (ctl_step_run _ _ _ _ _ Ht Hst Htm Hte).
  - pose proof (turn_quiet cfg e s Hst He) as Hq. rewrite Ht in Hq. destruct Hq as (He' & _ & l & Ho' & Hl).
    assert (ordered (out s')) as Hord by (rewrite Ho'; by apply ordered_app).
    split; [done|]. intros ->. right. split; [|done]. apply turn_control in Ht. symmetry in Ht.
    by apply (ctl_step_stays _ _ _ _ _ _ Ht).
Qed.

Lemma loop_promise es : forall s fl s',
  promise s -> thread_loop cfg es s = Ok (fl, s') -> ordered (out s').
Proof.
  induction es as [|e es IH]; intros s fl s' Hp Hl; simpl in Hl.
  - simplify_eq. destruct Hp as [(_ & _ & Ha)|(_ & _ & Ho)]; [by apply ordered_no_ack|done].
  - inv_bind. destruct v as [fl1 s1]. apply turn_promise in Hv as [Ho Hp1]; [|done].
    destruct fl1; [by simplify_eq|]. eauto.
Qed.

(** Without a batch time nothing is ever stopped. *)
Lemma turn_untimed e s fl s' :
  nanosec_ cfg <= 0 -> have_stopped_timer_thr s = false -> state_ (obj s) <> TERM ->
  turn cfg e s = Ok (fl, s') ->
  fl = false /\ have_stopped_timer_thr s' = false /\ state_ (obj s') <> TERM /\
  exists l, out s' = out s ++ l /\ Forall (fun m => is_buffer m = false) l.
Proof.
  intros Hns Htm Hst Ht. pose proof (turn_control cfg e s fl s' Ht) as Hc.
  rewrite (proj2 (Z.ltb_ge _ _) Hns) in Hc.
  assert (fl = false /\ have_stopped_timer_thr s' = false /\ state_ (obj s') <> TERM) as (-> & ? & ?).
  { destruct e as [acks|[m d|t b|[]]|m]; simpl in Hc; unfold c_exit in Hc; simpl in Hc;
      rewrite ?Htm in Hc; simpl in Hc; repeat case_match; unfold ctl_of in Hc; simplify_eq/=;
      split_and!; congruence. }
  split_and!; [done..|]. destruct e as [acks|m|m].
  - unfold turn, loop_turn in Ht. rewrite (proj2 (Z.ltb_ge _ _) Hns) in Ht. exists [].
    rewrite app_nil_r. by destruct (has_downstream cfg); simplify_eq/=.
  - destruct (is_terminate (EvPull m)) eqn:Hte.
    + destruct m as [| |[]]; try done. by apply turn_terminate in Ht as (_ & _ & _ & Ho).
    + exists []. rewrite app_nil_r. split; [|done]. eapply pull_sends; [done|]. by intros ->.
  - apply sub_sends in Ht as (l & ? & ? & _). eauto.
Qed.

Lemma loop_untimed es : forall s fl s',
  nanosec_ cfg <= 0 -> have_stopped_timer_thr s = false -> state_ (obj s) <> TERM ->
  thread_loop cfg es s = Ok (fl, s') ->
  fl = false /\ state_ (obj s') <> TERM /\
  exists l, out s' = out s ++ l /\ Forall (fun m => is_buffer m = false) l.
Proof.
  induction es as [|e es IH]; intros s fl s' Hns Htm Hst Hl; simpl in Hl.
  - simplify_eq. split_and!; [done..|]. exists []. by rewrite app_nil_r.
  - inv_bind. destruct v as [fl1 s1].
    destruct (turn_untimed e s fl1 s1 Hns Htm Hst Hv) as (-> & Htm1 & Hst1 & l1 & Ho1 & Hl1).
    destruct (IH s1 fl s' Hns Htm1 Hst1 Hl) as (-> & Hst' & l2 & Ho2 & Hl2).
    split_and!; [done..|]. exists (l1 ++ l2). rewrite Ho2, Ho1, app_assoc. split; [done|].
    by apply Forall_app.
Qed.

(** What the thread has read when it returns or waits. *)
Lemma loop_read es : forall s fl s',
  thread_loop cfg es s = Ok (fl, s') ->
  exists es1 es2, es = es1 ++ es2 /\ thread_loop cfg es1 s = Ok (fl, s') /\
    (has_downstream cfg = true -> only_terminates es1) /\ (fl = false -> es2 = []).
Proof.
  induction es as [|e es IH]; intros s fl s' Hl; simpl in Hl.
  { exists [], []. simplify_eq. split_and!; [done..| |done]. intros _ m Hm. by apply not_elem_of_nil in Hm. }
  inv_bind. destruct v as [fl1 s1].
  assert (has_downstream cfg = true -> forall m, e = EvSub m -> m = EPRTerminate) as He.
  { intros Hds m ->. rewrite turn_sub_eq, Hds in Hv. by destruct m. }
  destruct fl1.
  - exists [e], es. simplify_eq. split_and!; [done|simpl; by rewrite Hv| |done].
    intros Hds m Hm%list_elem_of_singleton. eauto.
  - destruct (IH s1 fl s' Hl) as (es1 & es2 & -> & Hl1 & Hon & Hfl). exists (e :: es1), es2.
    split_and!; [done|simpl; by rewrite Hv| |done]. intros Hds m [Hm|Hm]%elem_of_cons; [by apply (He Hds)|by apply Hon].
Qed.

Lemma handshake_flags p pin sub_in s rem :
  thread_handshake cfg sub_in (thread_init cfg p pin) = Ok (s, rem) ->
  update_store s = ∅ /\ ctl_of s = ctl_after (0 <? nanosec_ cfg) (has_downstream cfg) [].
Proof.
  unfold thread_handshake, recv_pair. intros Hh. inv_bind. destruct v as [msg s0]. inv_bind. destruct v0 as [s2 sub2].
  injection Hh as <- _. destruct pin; simpl in Hv; [done|]. injection Hv as _ <-.
  assert ((node_id_ (downstream_recv_ cfg) <? 0) = negb (has_downstream cfg)) as Hn by (unfold has_downstream; lia).
  unfold ctl_after. simpl. rewrite !andb_false_r, orb_false_r, <- Hn. unfold has_downstream in *.
  destruct (0 <=? node_id_ (downstream_recv_ cfg)); [|by injection Hv1 as <- _]. destruct sub_in as [|ack sub]; [done|].
  inv_bind. by subst.
Qed.

(** C22. The thread against the state transition diagram of its header file. Start a
    propagator and let any messages arrive, with any data, in any order: its state is
    the one the diagram and its documented triggers give, with one exception. When the
    diagram is in TERM the thread still waits in TERM_PREP for a timer tick after the
    application's message - a condition the header does not name, and which never comes
    true on a node whose batch time is 0 or less. And the thread returns exactly when it
    reaches TERM. *)
Theorem follows_diagram p pin sub_in s0 rem es fl s :
  thread_handshake cfg sub_in (thread_init cfg p pin) = Ok (s0, rem) ->
  thread_loop cfg es s0 = Ok (fl, s) ->
  let documented := diagram_after (has_downstream cfg) es in
  state_ (obj s) =
    (if decide (documented = TERM) then if (0 <? nanosec_ cfg) && stopped_timer es then TERM else TERM_PREP
     else documented) /\
  (fl = Exit <-> state_ (obj s) = TERM).
Proof.
  intros Hh Hl. apply handshake_flags in Hh as [_ Hc].
  apply loop_read in Hl as (es1 & es2 & -> & Hl & Hon & Hfl). apply loop_control_aux in Hl. rewrite Hc in Hl.
  destruct (ctl_loop_after (0 <? nanosec_ cfg) (has_downstream cfg) es1 []) as [H1 H2].
  { unfold complete_in. simpl. by rewrite andb_false_r. }
  rewrite <- Hl in H1, H2. simpl in H1, H2. cbn zeta. rewrite H2, H1.
  pose proof (f_equal d_state (diagram_shape (has_downstream cfg) es1 Hon)) as Hd. cbn [d_state] in Hd.
  fold (diagram_after (has_downstream cfg) es1) in Hd. pose proof (stopped_timer_terminate es1) as Hte.
  unfold complete_in in *. revert Hd Hte H1 Hfl.
  destruct (stopped_timer es1) eqn:Hst, (existsb is_recv_ack es1), (negb _ || _), (0 <? nanosec_ cfg), (existsb is_terminate es1);
    simpl; intros Hd Hte H1 Hfl; try (by specialize (Hte eq_refl)); subst fl;
    try (rewrite Hfl, app_nil_r by done; rewrite Hd, ?Hst; simpl; split; naive_solver).
  rewrite (diagram_after_app _ _ _ Hd), (stopped_timer_app _ es2 Hst). simpl. split; naive_solver.
Qed.

(** When the thread exits: a thread with a batch time and a downstream
    neighbour returns from its loop exactly when it has seen the application's
    termination message and, after it, a timer tick (the timer thread is then
    stopped), the acknowledgement of its paired receiver, and the termination
    message of the downstream receiver - in any order of the last three - and its
    state is then [TERM]; until then it is [TERM_PREP] from the application's
    message on and [RUN] before. *)
Lemma exits_when_complete es s fl s' :
  0 < nanosec_ cfg -> has_downstream cfg = true -> fresh s ->
  thread_loop cfg es s = Ok (fl, s') ->
  fl = complete es /\
  state_ (obj s') = (if complete es then TERM else if existsb is_terminate es then TERM_PREP else RUN).
Proof. apply exits_aux. Qed.

(** C11. Shutdown terminates: once the application has signalled termination the
    thread handles everything its senders may still send - ticks, update logs,
    forwarded buffers, acknowledgements, in any number and order - without a fault
    and without blocking, and it has returned by the time the acknowledgements and
    a tick have arrived. *)
Theorem shutdown_runs es s :
  0 < nanosec_ cfg -> has_downstream cfg = true -> fresh s ->
  Forall (shutdown_ok (table_dir_ (obj s))) es ->
  let es := EvPull (InOther EPInternalTerminate) :: es in
  exists s', thread_loop cfg es s = Ok (complete es, s') /\
    (complete es = true -> state_ (obj s') = TERM).
Proof.
  intros Hns Hds Hf Hok es1.
  assert (exists fl s', thread_loop cfg es1 s = Ok (fl, s')) as (fl & s' & Hl).
  { unfold es1. simpl.
    assert (exists s1, turn cfg (EvPull (InOther EPInternalTerminate)) s = Ok (false, s1)) as [s1 Ht].
    { rewrite turn_pull_eq. simpl. unfold handle_internal_terminate, send_downstream.
      injection Hf as _ Hr _ _ _. simpl. rewrite Hr. simpl. eauto. }
    rewrite Ht. simpl. destruct (turn_terminate cfg _ _ _ Ht) as (He & Hdir & Hst & _).
    apply shutdown_total; try done. by rewrite Hdir. }
  destruct (exits_aux es1 s fl s' Hns Hds Hf Hl) as [-> Hst].
  exists s'. split; [done|]. intros Hc. by rewrite Hc in Hst.
Qed.

(** C18. The promise to the downstream receiver: once the acknowledgement of its
    termination message is sent, no update buffer is sent any more - over any run
    of the thread from its start. *)
Theorem no_buffer_after_ack es s fl s' i j mi mj :
  fresh s -> Forall (fun m => is_ack m = false) (out s) ->
  thread_loop cfg es s = Ok (fl, s') ->
  out s' !! i = Some mi -> is_ack mi = true -> out s' !! j = Some mj -> is_buffer mj = true ->
  (j < i)%nat.
Proof.
  intros Hf Ha Hl. apply (loop_promise es s fl s'); [|done]. left.
  injection Hf as Hst _ _ Htm _. done.
Qed.

(** A batch time of 0 or less - "no waiting" in the configuration - is not
    implemented: such a propagator ships no buffer, and, as its timer thread is
    never marked stopped, it never returns whatever it receives. *)
Theorem no_batch_time_never_ships es s fl s' :
  nanosec_ cfg <= 0 -> fresh s -> thread_loop cfg es s = Ok (fl, s') ->
  fl = Continue /\ state_ (obj s') <> TERM /\
  exists l, out s' = out s ++ l /\ Forall (fun m => is_buffer m = false) l.
Proof.
  intros Hns Hf. injection Hf as Hst _ _ Htm _. apply loop_untimed; [done..|]. by rewrite Hst.
Qed.
End props.

(** ** Concrete shutdowns *)

#[local] Existing Instance gmap_order.

(** An update, the application's message, the downstream receiver's, the paired
    receiver's acknowledgement and a tick. *)
Definition demo_shutdown : list prop_event :=
  [EvSub EPRTerminate; EvPull (InOther EPRecvInternalTerminateACK); demo_log Byte.x01; EvTimer []].
Definition demo_terminate : prop_event := EvPull (InOther EPInternalTerminate).

Definition demo_final (cfg : PropagatorThrInfo) (es : list prop_event) : PropThr :=
  match thread_loop cfg es demo_started with Ok (_, s) => s | _ => demo_started end.

Lemma demo_final_spec cfg es fl :
  match thread_loop cfg es demo_started with Ok (b, _) => Bool.eqb b fl | _ => false end = true ->
  thread_loop cfg es demo_started = Ok (fl, demo_final cfg es).
Proof.
  unfold demo_final. destruct (thread_loop cfg es demo_started) as [[b s]| |]; [|done..].
  by intros ->%Bool.eqb_prop.
Qed.

Lemma demo_fresh : fresh demo_started.
Proof. reflexivity. Qed.

Lemma demo_shutdown_ok : Forall (shutdown_ok (table_dir_ (obj demo_started))) demo_shutdown.
Proof. repeat constructor; simpl; lia || (by left) || (by right). Qed.

Lemma demo_final_exit :
  thread_loop demo_cfg (demo_terminate :: demo_shutdown) demo_started =
    Ok (true, demo_final demo_cfg (demo_terminate :: demo_shutdown)).
Proof. apply demo_final_spec. by vm_compute. Qed.

(** The same node without a batch time. *)
Definition demo_untimed : PropagatorThrInfo := mkPropagatorThrInfo 2 0 (downstream_recv_ demo_cfg).

(** The same messages end the one node and leave the other in TERM_PREP, where the diagram
    has them both in TERM. *)
Definition demo_messages : list prop_event := demo_log Byte.x01 :: demo_terminate :: demo_shutdown.

Lemma follows_diagram_witness :
  diagram_after true demo_messages = TERM /\
  state_ (obj (demo_final demo_cfg demo_messages)) = TERM /\
  state_ (obj (demo_final demo_untimed demo_messages)) = TERM_PREP.
Proof.
  assert (thread_handshake demo_cfg [PropInitACK; PropStart] (thread_init demo_cfg demo_obj [EPRInit]) = Ok (demo_started, []))
    as H1 by reflexivity.
  assert (thread_handshake demo_untimed [PropInitACK; PropStart] (thread_init demo_untimed demo_obj [EPRInit]) =
    Ok (demo_started, [])) as H2 by reflexivity.
  assert (thread_loop demo_cfg demo_messages demo_started = Ok (true, demo_final demo_cfg demo_messages)) as L1
    by (apply demo_final_spec; by vm_compute).
  assert (thread_loop demo_untimed demo_messages demo_started = Ok (false, demo_final demo_untimed demo_messages)) as L2
    by (apply demo_final_spec; by vm_compute).
  split; [by vm_compute|].
  destruct (follows_diagram demo_cfg demo_obj _ _ _ _ _ _ _ H1 L1) as [S1 _].
  destruct (follows_diagram demo_untimed demo_obj _ _ _ _ _ _ _ H2 L2) as [S2 _].
  rewrite S1, S2. by vm_compute.
Defined.

Lemma exits_when_complete_witness :
  state_ (obj (demo_final demo_cfg (demo_terminate :: demo_shutdown))) = TERM.
Proof.
  destruct (exits_when_complete demo_cfg (demo_terminate :: demo_shutdown) demo_started true _
    eq_refl eq_refl demo_fresh demo_final_exit) as [_ Hst]. rewrite Hst. by vm_compute.
Defined.

Lemma shutdown_runs_witness :
  exists s', thread_loop demo_cfg (demo_terminate :: demo_shutdown) demo_started = Ok (true, s') /\
    state_ (obj s') = TERM.
Proof.
  destruct (shutdown_runs demo_cfg demo_shutdown demo_started eq_refl eq_refl demo_fresh demo_shutdown_ok)
    as (s' & Hl & Hst).
  exists s'. split; [exact Hl|]. apply Hst. by vm_compute.
Defined.

(** One batch shipped before the shutdown: message 4 is its block, message 6 the
    acknowledgement. *)
Definition demo_batch : list prop_event :=
  [demo_log Byte.x01; EvTimer [EMyUpdatesACK]; demo_terminate; EvSub EPRTerminate].

Lemma no_buffer_after_ack_witness :
  (4 < 6)%nat /\ exists block ack, out (demo_final demo_cfg demo_batch) !! 4%nat =
     Some (ToDownstream (mkEPRUpdateBufferMsg 0) block) /\
   out (demo_final demo_cfg demo_batch) !! 6%nat = Some (ToDownstreamTermAck ack).
Proof.
  assert (exists block ack, out (demo_final demo_cfg demo_batch) !! 4%nat =
     Some (ToDownstream (mkEPRUpdateBufferMsg 0) block) /\
   out (demo_final demo_cfg demo_batch) !! 6%nat = Some (ToDownstreamTermAck ack)) as (block & ack & H4 & H6)
    by (vm_compute; eauto).
  split; [|exists block, ack; split; [exact H4|exact H6]].
  assert (thread_loop demo_cfg demo_batch demo_started = Ok (false, demo_final demo_cfg demo_batch)) as Hl
    by (apply demo_final_spec; by vm_compute).
  apply (no_buffer_after_ack demo_cfg demo_batch demo_started _ _ 6 4 _ _ demo_fresh
    ltac:(repeat constructor) Hl H6 eq_refl H4 eq_refl).
Defined.

Lemma no_batch_time_never_ships_witness :
  thread_loop demo_untimed demo_messages demo_started =
    Ok (Continue, demo_final demo_untimed demo_messages) /\
  state_ (obj (demo_final demo_untimed demo_messages)) <> TERM.
Proof.
  assert (thread_loop demo_untimed demo_messages demo_started =
    Ok (Continue, demo_final demo_untimed demo_messages)) as Hl
    by (apply demo_final_spec; by vm_compute).
  split; [exact Hl|].
  destruct (no_batch_time_never_ships demo_untimed _ demo_started _ _ ltac:(simpl; lia) demo_fresh Hl)
    as (_ & Hst & _). exact Hst.
Defined.
