(* ===== verification/PropagatorLocal.v ===== *)
(** A propagator that only hears from its own application: every block it ships
    carries exactly one range, this node's, and after a tick everything its threads
    added has been shipped. *)
From S2P Require Import Prelude Common MemStruct MemStructSpec Buffer ValueOps Protocol Propagator PropagatorSpec PropagatorTrace PropagatorRun PropagatorProps.

Section local.
Context `{Allocator} `{UnorderedIter} (cfg : PropagatorThrInfo) (tables : gmap Z VType).
Hypothesis my_id_ok : 0 <= my_id_ cfg /\ is_i32 (my_id_ cfg).
Hypothesis nanosec_ok : 0 < nanosec_ cfg.
Hypothesis downstream_ok : has_downstream cfg = true.
Notation my := (my_id_ cfg).

(** A block with updates and this node's range only. *)
Definition own_block (m : PropOut) : Prop :=
  match m with
  | ToDownstream h block =>
      exists v b ups mine, tables !! epub_table_id h = Some v /\ block = to_bytes b /\
        repr b (outgoing (v_size v) ups [(my, mine)] 1) /\ NoDup ups.*1 /\ st_ mine <= end_ mine
  | _ => True
  end.

Record local_inv (s : PropThr) : Prop := {
  li_peers : forall t, is_Some (tables !! t) -> table_peers_update_range s !! t = Some ∅;
  li_live : forall t, default ∅ (update_store s !! t) <> ∅ ->
    exists mine, my_update_range s !! t = Some mine /\ st_ mine <= end_ mine;
  li_out : Forall own_block (out s)
}.

Lemma out_slots_own mine : st_ mine <= end_ mine -> out_slots cfg ∅ mine = [(my, mine)].
Proof.
  intros Hle. unfold out_slots, own_slot. rewrite decide_True by done.
  assert (iter_order (∅ : gmap Z UpdateRange) = []) as ->; [|done].
  apply length_zero_iff_nil. by rewrite length_iter_order, map_size_empty.
Qed.

Lemma local_flush : flush_preserves cfg tables local_inv.
Proof.
  intros es s t v info ups peers mine sent mys Hinv Hv Hview Hne (b & Hb & Hs) [Hp Hl Ho].
  pose proof (fv_ups _ _ _ _ _ _ _ _ _ Hview) as Hups.
  assert (peers = ∅) as ->.
  { pose proof (fv_peers _ _ _ _ _ _ _ _ _ Hview) as Hpe. rewrite Hp in Hpe by eauto. congruence. }
  assert (st_ mine <= end_ mine) as Hle.
  { destruct (Hl t) as (mine' & Hm & Hle); [by rewrite Hups|].
    pose proof (fv_mine _ _ _ _ _ _ _ _ _ Hview). by assert (mine' = mine) as <- by congruence. }
  split; simpl.
  - intros t' Ht'. destruct (decide (t' = t)) as [->|Hn]; [by rewrite lookup_insert_eq, fmap_empty|].
    rewrite lookup_insert_ne by done. by apply Hp.
  - intros t' Hne'. destruct (decide (t' = t)) as [->|Hn]; [by rewrite lookup_insert_eq in Hne'|].
    rewrite !lookup_insert_ne in * by done. by apply Hl.
  - apply Forall_app. split; [done|]. rewrite out_slots_own in Hb by done.
    assert (own_block (ToDownstream (mkEPRUpdateBufferMsg t) (to_bytes b))) as Hblock.
    { exists v, b, (iter_order ups), mine. simpl. split_and!; [done..| |done]. apply iter_order_NoDup. }
    destruct (notifies info mys); [destruct Hs as (b2 & _ & ->)|subst sent]; by repeat constructor.
Qed.

(** Ticks and the update logs of this node's threads. *)
Definition local_event (e : prop_event) : Prop :=
  match e with EvTimer _ | EvPull (InUpdateLog _ _) => True | _ => False end.

Lemma local_log es m d s s' :
  run_inv cfg tables es s -> ev_ok cfg tables (EvPull (InUpdateLog m d)) s ->
  turn cfg (EvPull (InUpdateLog m d)) s = Ok (Continue, s') -> local_inv s -> local_inv s'.
Proof.
  intros [Hst Hdir Hdom Htab] (v & mine & Hv & Hd & Hk & Hmine & Hi64) Ht [Hp Hl Ho].
  destruct (Htab _ _ Hv) as [(info & Hinf & Hiok & _) Hups Hmys (mine' & Hm' & (_ & _ & Hi1) & Hle & _) _ _ _ _].
  assert (mine' = mine) as -> by congruence.
  rewrite turn_pull in Ht by done. simpl in Ht.
  rewrite (handle_update_log_runs cfg nanosec_ok s m d v info mine) in Ht by done.
  simpl in Ht. injection Ht as <-. split; simpl; [done| |done].
  intros t Hne. destruct (decide (t = pul_table_id m)) as [->|Hn].
  - rewrite lookup_insert_eq. eexists. split; [done|]. simpl. lia.
  - rewrite !lookup_insert_ne in * by done. by apply Hl.
Qed.
Lemma local_tick es acks s s' :
  run_inv cfg tables es s -> pair_pull s = [] -> ev_ok cfg tables (EvTimer acks) s ->
  turn cfg (EvTimer acks) s = Ok (Continue, s') -> local_inv s -> local_inv s'.
Proof.
  intros Hinv Hpp Hok Ht [Hp Hl Ho].
  destruct (tick_step cfg tables my_id_ok nanosec_ok downstream_ok es acks s Hinv Hpp Hok)
    as (s1 & Ht1 & _ & _ & _ & HP).
  rewrite Ht in Ht1. injection Ht1 as <-. apply HP; [exact local_flush|]. split; simpl; try done.
  apply Forall_app. split; [done|]. constructor; [exact I|constructor].
Qed.

Lemma local_run es : forall past s,
  run_inv cfg tables past s -> pair_pull s = [] -> local_inv s -> Forall local_event es ->
  evs_ok cfg tables es s ->
  exists s', thread_loop cfg es s = Ok (Continue, s') /\ run_inv cfg tables (past ++ es) s' /\
    pair_pull s' = [] /\ local_inv s'.
Proof.
  induction es as [|e es IH]; intros past s Hinv Hpp Hli Hev Hok; simpl.
  { exists s. by rewrite app_nil_r. }
  apply Forall_cons in Hev as [He Hev]. destruct Hok as [Hok Hoks].
  destruct (event_step cfg tables my_id_ok nanosec_ok downstream_ok past e s Hinv Hpp Hok)
    as (s1 & Ht & Hinv1 & Hpp1).
  rewrite Ht. simpl. destruct (IH (past ++ [e]) s1) as (s' & Hl & Hinv' & Hpp' & Hli'); try done; [|by apply Hoks|].
  - destruct e as [acks|[m d|t b|m]|m]; try done; [exact (local_tick past acks s s1 Hinv Hpp Hok Ht Hli)|exact (local_log past m d s s1 Hinv Hok Ht Hli)].
  - exists s'. rewrite <- app_assoc in Hinv'. done.
Qed.
End local.

(** From the start to a last tick: everything is shipped, in blocks that carry
    this node's range and no other. *)
Lemma local_ships `{Allocator} `{UnorderedIter} cfg tables p s es acks :
  runs_from cfg tables p s -> Forall local_event es -> evs_ok cfg tables (es ++ [EvTimer acks]) s ->
  exists s', thread_loop cfg (es ++ [EvTimer acks]) s = Ok (Continue, s') /\
    Forall (own_block cfg tables) (out s') /\
    forall t v k, tables !! t = Some v ->
      Forall (fun u => length u.2 = v_size v) (shipped_updates t (out s')) /\
      vsum (VG := v_group v) (deltas_for k (shipped_updates t (out s'))) =
      vsum (VG := v_group v) (deltas_for k (es ≫= received_updates t)).
Proof.
  intros (Hid & Hns & Hds & Htab & sub_in & rest & Hhs) Hev Hok.
  destruct (started_inv cfg tables Hds sub_in p s rest Htab Hhs) as [Hinv Hpp].
  assert (local_inv cfg tables s) as Hli.
  { apply (handshake_result cfg Hds) in Hhs as ->. split; simpl; [|done|repeat (constructor; [exact I|]); constructor].
    intros t [v Hv]. destruct (proj2 Htab t v Hv) as (info & Hinf & _). by rewrite lookup_fmap, Hinf. }
  destruct (evs_ok_app cfg tables Hid Hns Hds es [EvTimer acks] [] s Hinv Hpp Hok)
    as (s1 & Hl1 & Hinv1 & Hpp1 & [Htick _] & ->).
  destruct (local_run cfg tables Hid Hns Hds es [] s Hinv Hpp Hli Hev) as (s1' & Hl1' & _ & _ & Hli1).
  { clear -Hok. revert s Hok. induction es as [|e es IH]; intros s Hok; simpl in *; [done|].
    destruct Hok as [? Hoks]. split; [done|]. intros s1 Hs1. by apply IH, Hoks. }
  assert (s1' = s1) as -> by (rewrite Hl1 in Hl1'; congruence).
  destruct (tick_step cfg tables Hid Hns Hds _ acks s1 Hinv1 Hpp1 Htick) as (s' & Ht & Hinv' & _ & Hempty & _).
  exists s'. simpl. rewrite Ht. split; [done|]. split.
  { apply (local_tick cfg tables Hid Hns Hds _ acks s1 s' Hinv1 Hpp1 Htick Ht Hli1). }
  intros t v k Hv. destruct (ri_tables _ _ _ _ Hinv' t v Hv) as [_ _ _ _ _ Hsh _ Hsum]. split.
  { eapply List.Forall_impl; [|exact Hsh]. by intros u [_ ?]. }
  specialize (Hsum k). rewrite bind_snoc in Hsum. simpl in Hsum. rewrite app_nil_r in Hsum.
  rewrite Hsum. unfold psum. specialize (Hempty t).
  destruct (update_store s' !! t) as [u|]; simpl in *; [subst u; rewrite lookup_empty; simpl|].
  all: change (vsum (VG := v_group v) []) with (zero_bytes (v_size v)); symmetry; apply vp_zero_r;
    by apply length_vsum, (deltas_for_ok (v_size v)).
Qed.
