(* ===== verification/InternalTable.v ===== *)
(** The table of internal_table/internal_table.hpp and .cpp: a concurrent map
    from 64-bit keys to value blocks. The operations are written as the atomic
    steps the concurrent map gives them - [find], [insert] and the update under
    an accessor - so that the calls of several threads can be interleaved. *)
From S2P Require Import Prelude Common MemStruct ValueOps Protocol Propagator.

(** ** Data *)

(** A user callback, by its address. *)
Definition UpdateBufferCbk := Z.

Record TableConfig := mkTableConfig {
  cfg_vsize_ : Z;
  cfg_vadd_func_ : option ValueFunc;
  cfg_vsub_func_ : option ValueFunc;
  cfg_loop_ : bool;
  cfg_apply_updates_ : bool;
  cfg_forward_updates_ : bool;
  cfg_do_user_cbk_ : bool;
  cfg_update_buff_cbk_ : UpdateBufferCbk
}.

(** The propagator a table is bound to, by direction. *)
Inductive PropRef := HPropagator | VPropagator.

(** [None] in the last two fields is the indeterminate value of a member that
    was never assigned. *)
Record InternalTable := mkInternalTable {
  table_id_ : Z;
  vsize_ : Z;
  vadd_func_ : option ValueFunc;
  vsub_func_ : option ValueFunc;
  storage_ : gmap Z (list byte);
  loop_ : bool;
  apply_updates_ : bool;
  forward_updates_ : bool;
  do_user_cbk_ : bool;
  propagator : option PropRef;
  update_buff_cbk_ : option UpdateBufferCbk
}.

Definition set_storage (it : InternalTable) (m : gmap Z (list byte)) : InternalTable :=
  mkInternalTable (table_id_ it) (vsize_ it) (vadd_func_ it) (vsub_func_ it) m (loop_ it)
    (apply_updates_ it) (forward_updates_ it) (do_user_cbk_ it) (propagator it) (update_buff_cbk_ it).

(** The initialiser list leaves out the callback of the configuration. *)
Definition InternalTable_ctor (_table_id : Z) (_table_config : TableConfig) : InternalTable :=
  mkInternalTable _table_id (cfg_vsize_ _table_config) (cfg_vadd_func_ _table_config)
    (cfg_vsub_func_ _table_config) ∅ (cfg_loop_ _table_config) (cfg_apply_updates_ _table_config)
    (cfg_forward_updates_ _table_config) (cfg_do_user_cbk_ _table_config) None None.

Definition set_propagator (it : InternalTable) (_prop : PropRef) : InternalTable :=
  mkInternalTable (table_id_ it) (vsize_ it) (vadd_func_ it) (vsub_func_ it) (storage_ it) (loop_ it)
    (apply_updates_ it) (forward_updates_ it) (do_user_cbk_ it) (Some _prop) (update_buff_cbk_ it).

Definition GetID (it : InternalTable) : Z := table_id_ it.
Definition get_vadd_func (it : InternalTable) : option ValueFunc := vadd_func_ it.
Definition get_vsub_func (it : InternalTable) : option ValueFunc := vsub_func_ it.
Definition get_update_buff_cbk (it : InternalTable) : option UpdateBufferCbk := update_buff_cbk_ it.
Definition get_do_user_cbk (it : InternalTable) : bool := do_user_cbk_ it.
Definition get_forward_updates (it : InternalTable) : bool := forward_updates_ it.
Definition get_apply_updates (it : InternalTable) : bool := apply_updates_ it.
Definition get_vsize (it : InternalTable) : Z := vsize_ it.

(** Not implemented by the code. *)
Definition ApplyUpdates (it : InternalTable) (_updates : UpdateBuffer) (_num_bytes : Z) : Z * InternalTable :=
  (0, it).

(** ** Operations *)

(** [storage_.insert(acc, key)] and the initialisation of a new block, which
    happens before the accessor is released. *)
Definition insert_zero (it : InternalTable) (_key size : Z) : res InternalTable :=
  match storage_ it !! _key with
  | Some _ => Ok it
  | None =>
      if size <? 0 then Fault BadAlloc
      else Ok (set_storage it (<[_key := zero_bytes (Z.to_nat size)]> (storage_ it)))
  end.

(** One atomic step: the accessor is held from the insertion to the end. *)
Definition IncRaw (it : InternalTable) (_key : Z) (_delta : list byte) : res InternalTable :=
  it ← insert_zero it _key (vsize_ it);
  match vadd_func_ it with
  | None => Fault NullDeref
  | Some vadd =>
      v ← apply_value vadd (default [] (storage_ it !! _key)) _delta (vsize_ it);
      Ok (set_storage it (<[_key := v]> (storage_ it)))
  end.

(** The first [n] bytes behind a value pointer, read as an object. *)
Definition read_value (n : nat) (block : list byte) : res (list byte) :=
  if (n <=? length block)%nat then Ok (take n block) else Fault OutOfBounds.

(** [Get<ValueType>] with [n = sizeof(ValueType)] looks the key up under a read
    accessor first ... *)
Definition Get_find (n : nat) (it : InternalTable) (_key : Z) : res (option (list byte)) :=
  match storage_ it !! _key with
  | Some block => v ← read_value n block; Ok (Some v)
  | None => Ok None
  end.
(** ... and inserts it in a second step if it was not there. Another thread may
    have inserted the key in between. *)
Definition Get_insert (n : nat) (it : InternalTable) (_key : Z) : res (list byte * InternalTable) :=
  it ← insert_zero it _key (Z.of_nat n);
  v ← read_value n (default [] (storage_ it !! _key));
  Ok (v, it).

(** A call that no other thread interrupts. *)
Definition Get (n : nat) (it : InternalTable) (_key : Z) : res (list byte * InternalTable) :=
  found ← Get_find n it _key;
  match found with
  | Some v => Ok (v, it)
  | None => Get_insert n it _key
  end.

(** [Inc<ValueType>] by thread [thr]: the local table, then the propagator,
    whose return code is dropped. Returns the table and what was pushed to the
    propagator thread. *)
Definition Inc (it : InternalTable) (props : PropRef -> PropObj) (thr : Z) (_key : Z) (_delta : list byte)
    : res (InternalTable * list PropIn) :=
  it ← IncRaw it _key _delta;
  match propagator it with
  | None => Fault Uninitialised
  | Some p =>
      '(_, msgs) ← Propagator.Inc (props p) thr (table_id_ it) _key _delta (Z.of_nat (length _delta));
      Ok (it, msgs)
  end.

(** ** Threads *)

(** A thread has calls left to make and may be between the two steps of a
    [Get]. *)
Inductive call := CGet (_key : Z) | CInc (_key : Z) (_delta : list byte).
Record thread := mkThread { between : option Z; calls : list call }.

(** The next atomic step of a thread. *)
Definition thread_step (n : nat) (t : thread) (it : InternalTable) : res (thread * InternalTable) :=
  match between t with
  | Some k => '(_, it) ← Get_insert n it k; Ok (mkThread None (calls t), it)
  | None =>
      match calls t with
      | [] => Ok (t, it)
      | CGet k :: cs =>
          found ← Get_find n it k;
          match found with
          | Some _ => Ok (mkThread None cs, it)
          | None => Ok (mkThread (Some k) cs, it)
          end
      | CInc k d :: cs => it ← IncRaw it k d; Ok (mkThread None cs, it)
      end
  end.

(** The threads take steps in the order of a schedule; a number that names no
    thread does nothing. *)
Fixpoint run_schedule (n : nat) (sched : list nat) (ts : list thread) (it : InternalTable)
    : res (list thread * InternalTable) :=
  match sched with
  | [] => Ok (ts, it)
  | i :: sched =>
      match ts !! i with
      | None => run_schedule n sched ts it
      | Some t =>
          '(t, it) ← thread_step n t it;
          run_schedule n sched (<[i := t]> ts) it
      end
  end.

(** ** Specification *)

Section spec.
Context {n : nat} {vadd vsub : ValueFunc} `{VG : !ValueGroup n vadd vsub}.

(** A table of values of [n] bytes. *)
Record table_wf (it : InternalTable) : Prop := {
  tw_size : vsize_ it = Z.of_nat n;
  tw_add : vadd_func_ it = Some vadd;
  tw_values : map_Forall (fun _ v => length v = n) (storage_ it)
}.

(** The value of a key: zero when it was never touched. *)
Definition value_of (it : InternalTable) (k : Z) : list byte := default (zero_bytes n) (storage_ it !! k).

Lemma length_value_of it k : table_wf it -> length (value_of it k) = n.
Proof.
  intros [_ _ Hv]. unfold value_of. destruct (storage_ it !! k) eqn:E; simpl;
    [by apply (Hv k)|apply length_zero_bytes].
Qed.

Lemma insert_zero_spec it k :
  table_wf it ->
  exists it', insert_zero it k (Z.of_nat n) = Ok it' /\ table_wf it' /\
    storage_ it' !! k = Some (value_of it k) /\ (forall k', value_of it' k' = value_of it k').
Proof.
  intros Hw. pose proof Hw as [Hs Ha Hv]. unfold insert_zero, value_of.
  destruct (storage_ it !! k) as [v|] eqn:E; [by exists it|].
  rewrite (proj2 (Z.ltb_ge _ _)), Nat2Z.id by lia. eexists. split; [done|]. split; [|split].
  - split; simpl; try done. apply map_Forall_insert_2; [apply length_zero_bytes|done].
  - simpl. by rewrite lookup_insert_eq.
  - intros k'. simpl. destruct (decide (k' = k)) as [->|Hne];
      [by rewrite lookup_insert_eq, E|by rewrite lookup_insert_ne].
Qed.

Lemma IncRaw_spec it k d :
  table_wf it -> length d = n ->
  exists it', IncRaw it k d = Ok it' /\ table_wf it' /\
    value_of it' k = vplus (value_of it k) d /\
    (forall k', k' <> k -> value_of it' k' = value_of it k').
Proof.
  intros Hw Hd. unfold IncRaw. rewrite (tw_size _ Hw).
  destruct (insert_zero_spec it k Hw) as (it1 & -> & Hw1 & Hk & Hsame). simpl.
  pose proof Hw1 as [Hs1 Ha1 Hv1]. rewrite Ha1, Hk, Hs1. simpl.
  rewrite (vadd_runs (ValueGroup := VG)) by (done || by apply length_value_of). simpl.
  eexists. split; [done|]. split; [|split].
  - split; simpl; try done. apply map_Forall_insert_2; [|done].
    apply length_vplus; [by apply length_value_of|done].
  - unfold value_of at 1. simpl. by rewrite lookup_insert_eq.
  - intros k' Hne. rewrite <- (Hsame k'). unfold value_of. simpl. by rewrite lookup_insert_ne.
Qed.

Lemma read_value_full v : length v = n -> read_value n v = Ok v.
Proof. intros Hv. unfold read_value. rewrite (proj2 (Nat.leb_le _ _)) by lia. by rewrite take_ge by lia. Qed.

Lemma Get_find_spec it k :
  table_wf it -> Get_find n it k = Ok (storage_ it !! k).
Proof.
  intros Hw. unfold Get_find. destruct (storage_ it !! k) as [v|] eqn:E; [|done].
  rewrite read_value_full; [done|]. by apply (tw_values _ Hw k).
Qed.

Lemma Get_insert_spec it k :
  table_wf it ->
  exists it', Get_insert n it k = Ok (value_of it k, it') /\ table_wf it' /\
    (forall k', value_of it' k' = value_of it k').
Proof.
  intros Hw. unfold Get_insert. destruct (insert_zero_spec it k Hw) as (it1 & -> & Hw1 & Hk & Hsame).
  simpl. rewrite Hk. simpl. rewrite read_value_full by by apply length_value_of. eauto.
Qed.

(** *** Interleavings *)

(** The deltas a list of calls, or all the threads, still have to add to a key. *)
Definition call_delta (k : Z) (c : call) : list (list byte) :=
  match c with CInc k' d => if decide (k' = k) then [d] else [] | CGet _ => [] end.
Definition to_add (k : Z) (ts : list thread) : list (list byte) :=
  ts ≫= fun t => calls t ≫= call_delta k.
Definition call_ok (c : call) : Prop := match c with CInc _ d => length d = n | CGet _ => True end.
Definition thread_ok (t : thread) : Prop := Forall call_ok (calls t).

Lemma call_deltas_ok k cs : Forall call_ok cs -> Forall (fun d => length d = n) (cs ≫= call_delta k).
Proof.
  induction 1 as [|c cs Hc _ IH]; simpl; [constructor|]. apply Forall_app. split; [|done].
  destruct c; simpl; [constructor|]. case_decide; by repeat constructor.
Qed.

Lemma to_add_ok k ts : Forall thread_ok ts -> Forall (fun d => length d = n) (to_add k ts).
Proof.
  induction 1 as [|t ts Ht _ IH]; simpl; [constructor|]. apply Forall_app. split; [by apply call_deltas_ok|done].
Qed.

Lemma to_add_insert k ts i t t' :
  ts !! i = Some t ->
  to_add k ts ≡ₚ (calls t ≫= call_delta k) ++ to_add k (delete i ts) /\
  to_add k (<[i := t']> ts) ≡ₚ (calls t' ≫= call_delta k) ++ to_add k (delete i ts).
Proof.
  revert i. induction ts as [|x ts IH]; intros [|i] Hi; simplify_eq/=; [done|].
  destruct (IH i Hi) as [H1 H2]. split.
  - rewrite H1, !(assoc (++)). f_equiv. apply Permutation_app_comm.
  - rewrite H2, !(assoc (++)). f_equiv. apply Permutation_app_comm.
Qed.

(** One atomic step: what it adds to the table it takes from the calls left. *)
Lemma thread_step_spec t it :
  table_wf it -> thread_ok t ->
  exists t' it', thread_step n t it = Ok (t', it') /\ table_wf it' /\ thread_ok t' /\
    forall k, vplus (value_of it' k) (vsum (calls t' ≫= call_delta k)) =
              vplus (value_of it k) (vsum (calls t ≫= call_delta k)).
Proof.
  intros Hw Ht. unfold thread_step. destruct (between t) as [k0|].
  - destruct (Get_insert_spec it k0 Hw) as (it' & -> & Hw' & Hsame). simpl.
    do 2 eexists. split; [done|]. split_and!; [done..|]. intros k. simpl. by rewrite Hsame.
  - destruct t as [b cs]. unfold thread_ok in Ht. simpl in *. destruct cs as [|[k0|k0 d0] cs].
    + do 2 eexists. split; [done|]. by split_and!.
    + rewrite Get_find_spec by done. simpl. apply Forall_cons in Ht as [_ Ht].
      destruct (storage_ it !! k0); do 2 eexists; (split; [done|]); by split_and!.
    + apply Forall_cons in Ht as [Hd Ht]. simpl in Hd.
      destruct (IncRaw_spec it k0 d0 Hw Hd) as (it' & -> & Hw' & Hk & Hother). simpl.
      do 2 eexists. split; [done|]. split_and!; [done..|]. intros k. simpl.
      pose proof (length_vsum _ (call_deltas_ok k cs Ht)) as Hl.
      pose proof (length_value_of it k Hw) as Hlv. destruct (decide (k0 = k)) as [->|Hne].
      * rewrite Hk, vsum_app by (by apply call_deltas_ok || by repeat constructor).
        rewrite <- vplus_assoc by done. f_equal. unfold vsum at 2, vsum_from. simpl. by rewrite vplus_zero.
      * rewrite Hother by done. done.
Qed.

Lemma run_schedule_spec sched : forall ts it,
  table_wf it -> Forall thread_ok ts ->
  exists ts' it', run_schedule n sched ts it = Ok (ts', it') /\ table_wf it' /\ Forall thread_ok ts' /\
    forall k, vplus (value_of it' k) (vsum (to_add k ts')) = vplus (value_of it k) (vsum (to_add k ts)).
Proof.
  induction sched as [|i sched IH]; intros ts it Hw Hts; simpl; [by exists ts, it|].
  destruct (ts !! i) as [t|] eqn:E; [|by apply IH].
  assert (thread_ok t) as Ht by by eapply Forall_lookup_1.
  destruct (thread_step_spec t it Hw Ht) as (t' & it1 & -> & Hw1 & Ht' & Hsum1). simpl.
  destruct (IH (<[i := t']> ts) it1 Hw1) as (ts' & it' & -> & Hw' & Hts' & Hsum); [by apply Forall_insert|].
  exists ts', it'. split_and!; [done..|]. intros k. rewrite Hsum.
  destruct (to_add_insert k ts i t t' E) as [Hp1 Hp2].
  assert (Forall (fun d => length d = n) (to_add k (delete i ts))) as Hdel
    by (apply to_add_ok; by apply Forall_delete).
  rewrite (vsum_perm _ _ (to_add_ok k _ Hts) Hp1).
  rewrite (vsum_perm _ _ (to_add_ok k _ (Forall_insert _ _ i _ Hts Ht')) Hp2).
  rewrite !vsum_app by (done || by apply call_deltas_ok).
  pose proof (length_vsum _ Hdel). pose proof (length_vsum _ (call_deltas_ok k _ Ht)).
  pose proof (length_vsum _ (call_deltas_ok k _ Ht')).
  rewrite !vplus_assoc by (done || by apply length_value_of). f_equal. apply Hsum1.
Qed.
End spec.

(** The rest of the object stays as it is. *)
Lemma IncRaw_keeps it k d it' :
  IncRaw it k d = Ok it' -> propagator it' = propagator it /\ table_id_ it' = table_id_ it.
Proof.
  unfold IncRaw, insert_zero. destruct (storage_ it !! k); [|destruct (vsize_ it <? 0); [done|]]; simpl;
    (destruct (vadd_func_ it); [|done]); intros Hi; inv_bind; by subst it'.
Qed.

(** A read creates a block of its own size, and leaves a block that is shorter. *)
Lemma Get_new m it k :
  storage_ it !! k = None -> exists it', Get m it k = Ok (zero_bytes m, it') /\ storage_ it' !! k = Some (zero_bytes m).
Proof.
  intros Hk. unfold Get, Get_find, Get_insert, insert_zero. rewrite Hk. cbn [mbind res_bind].
  rewrite (proj2 (Z.ltb_ge _ _)), Nat2Z.id by lia. cbn [mbind res_bind storage_ set_storage]. rewrite lookup_insert_eq. cbn [default from_option id].
  unfold read_value. rewrite length_zero_bytes, Nat.leb_refl, take_ge by (rewrite length_zero_bytes; lia).
  eexists. split; [done|]. simpl. by rewrite lookup_insert_eq.
Qed.

Lemma Get_short m it k v : storage_ it !! k = Some v -> (length v < m)%nat -> Get m it k = Fault OutOfBounds.
Proof. intros Hk Hlt. unfold Get, Get_find, read_value. rewrite Hk. by rewrite (proj2 (Nat.leb_gt _ _)). Qed.

(** ** Properties *)

Section props.
Context {n : nat} {vadd vsub : ValueFunc} `{VG : !ValueGroup n vadd vsub}.

(** C14. Concurrent increments are neither lost nor doubled: however the atomic
    steps of any number of threads - increments and the two steps of reads - are
    interleaved, no step fails, and once every thread has made its calls the value
    of each key is its old value plus the sum of all the increments of that key,
    which is what a [Get] then returns. *)
Theorem increments_interleave sched ts it :
  table_wf (n := n) (vadd := vadd) it -> Forall (thread_ok (n := n)) ts ->
  exists ts' it', run_schedule n sched ts it = Ok (ts', it') /\
    (Forall (fun t => calls t = []) ts' -> forall k, exists it'',
       Get n it' k = Ok (vplus (value_of (n := n) it k) (vsum (to_add k ts)), it'')).
Proof.
  intros Hw Hts. destruct (run_schedule_spec sched ts it Hw Hts) as (ts' & it' & Hrun & Hw' & _ & Hsum).
  exists ts', it'. split; [done|]. intros Hdone k. specialize (Hsum k).
  assert (to_add k ts' = []) as Hnil.
  { clear Hrun Hsum. induction Hdone as [|t ts' Ht _ IH]; simpl; [done|]. by rewrite Ht, IH. }
  rewrite Hnil in Hsum. change (vsum []) with (zero_bytes n) in Hsum.
  rewrite vplus_comm, vplus_zero in Hsum
    by (apply length_zero_bytes || by apply (length_value_of (vadd := vadd))).
  rewrite <- Hsum. unfold Get. rewrite Get_find_spec by done. simpl.
  destruct (storage_ it' !! k) as [v|] eqn:E.
  - exists it'. unfold value_of. by rewrite E.
  - destruct (Get_insert_spec it' k Hw') as (it'' & -> & _). eauto.
Qed.

(** C25. An increment always changes the caller's own table; it is sent to the
    propagator thread exactly when that thread runs and the caller has registered -
    otherwise the call still succeeds and no other node ever learns of it - and the
    key it is sent under is the 64-bit key converted to 32 bits, the key itself
    only if that fits. *)
Theorem inc_local_and_propagated it props p thr k d :
  table_wf (n := n) (vadd := vadd) it -> propagator it = Some p -> length d = n ->
  exists it' sent, Inc it props thr k d = Ok (it', sent) /\
    value_of (n := n) it' k = vplus (value_of (n := n) it k) d /\
    (forall k', k' <> k -> value_of (n := n) it' k' = value_of (n := n) it k') /\
    (state_ (props p) = RUN /\ thr ∈ update_push_sock_ (props p) ->
       exists m, sent = [InUpdateLog m d] /\ pul_table_id m = table_id_ it /\
         pul_key m = wrap_i32 k /\ (pul_key m = k <-> is_i32 k)) /\
    (state_ (props p) <> RUN \/ thr ∉ update_push_sock_ (props p) -> sent = []).
Proof.
  intros Hw Hp Hd. unfold Inc. pose proof (IncRaw_spec it k d Hw Hd) as (it' & Hinc & Hw' & Hk & Hother).
  rewrite Hinc. simpl.
  assert (propagator it' = Some p /\ table_id_ it' = table_id_ it) as [-> ->]
    by (destruct (IncRaw_keeps _ _ _ _ Hinc) as [-> ->]; done).
  unfold Propagator.Inc. case_decide as Hst.
  { exists it', []. split_and!; try done. by intros [? _]. }
  case_decide as Hreg.
  { exists it', []. split_and!; try done. by intros [_ ?]. }
  unfold memcpy_src.
  rewrite (proj2 (Z.leb_le _ _)) by lia. rewrite Z.leb_refl. simpl. rewrite Nat2Z.id, take_ge by lia.
  eexists it', _. split_and!; try done.
  - intros _. eexists. split_and!; [done..|]. simpl. split.
    + intros <-. apply wrap_i32_range.
    + apply wrap_i32_id.
  - by intros [?|?].
Qed.

(** C26. Values are typed by their size. While every thread reads and adds values of the
    type the table was configured for, every interleaving keeps every block at that size,
    no step fails and every read gives a whole value. Nothing enforces the type: the
    first read of a key with a type of another size leaves a block of that other size -
    too short for the next read with the right type, if it is smaller - and a read with a
    larger type leaves the block of a value that is there. *)
Theorem values_are_typed it :
  table_wf (n := n) (vadd := vadd) it ->
  (forall sched ts, Forall (thread_ok (n := n)) ts -> exists ts' it',
    run_schedule n sched ts it = Ok (ts', it') /\ table_wf (n := n) (vadd := vadd) it' /\
    forall k, exists v it'', Get n it' k = Ok (v, it'') /\ length v = n /\ table_wf (n := n) (vadd := vadd) it'') /\
  (forall m k, storage_ it !! k = None -> m <> n -> exists it',
    Get m it k = Ok (zero_bytes m, it') /\ ~ table_wf (n := n) (vadd := vadd) it' /\
    ((m < n)%nat -> Get n it' k = Fault OutOfBounds)) /\
  (forall m k v, storage_ it !! k = Some v -> (n < m)%nat -> Get m it k = Fault OutOfBounds).
Proof.
  intros Hw. split_and!.
  - intros sched ts Hts. destruct (run_schedule_spec sched ts it Hw Hts) as (ts' & it' & Hrun & Hw' & _).
    exists ts', it'. split; [done|]. split; [done|]. intros k. unfold Get. rewrite (Get_find_spec it' k Hw'). cbn [mbind res_bind].
    destruct (storage_ it' !! k) as [v|] eqn:E.
    + exists v, it'. split; [done|]. split; [by apply (tw_values _ Hw' k)|done].
    + destruct (Get_insert_spec it' k Hw') as (it'' & -> & Hw'' & _). exists (value_of (n := n) it' k), it''.
      split; [done|]. split; [by apply (length_value_of (vadd := vadd))|done].
  - intros m k Hk Hm. destruct (Get_new m it k Hk) as (it' & Hg & Hk'). exists it'. split; [done|]. split.
    + intros [_ _ Hv]. specialize (Hv k _ Hk'). cbv beta in Hv. rewrite length_zero_bytes in Hv. done.
    + intros Hlt. by apply (Get_short n it' k _ Hk'); rewrite length_zero_bytes.
  - intros m k v Hk Hm. apply (Get_short m it k v Hk). rewrite (tw_values _ Hw k v Hk). done.
Qed.
End props.

(** ** A concrete table *)

Definition demo_config : TableConfig := mkTableConfig 4 (Some IntAdd) (Some IntSub) true true true false 0.
Definition demo_table : InternalTable := set_propagator (InternalTable_ctor 0 demo_config) HPropagator.
Definition demo_bytes (z : Z) : list byte := i32_bytes z.

Lemma demo_table_wf : table_wf (n := 4) (vadd := IntAdd) demo_table.
Proof. split; [done..|apply map_Forall_empty]. Qed.

(** Two threads: the read of the first one is overtaken by the second. *)
Definition demo_threads : list thread :=
  [mkThread None [CGet 5; CInc 5 (demo_bytes 10)]; mkThread None [CInc 5 (demo_bytes (-3))]].

Lemma increments_interleave_witness :
  exists ts' it', run_schedule 4 [0; 1; 0; 0]%nat demo_threads demo_table = Ok (ts', it') /\
    exists it'', Get 4 it' 5 = Ok (demo_bytes 7, it'').
Proof.
  destruct (increments_interleave (n := 4) (vadd := IntAdd) [0; 1; 0; 0]%nat demo_threads demo_table
    demo_table_wf) as (ts' & it' & Hrun & Hget).
  { repeat constructor; apply length_i32_bytes. }
  exists ts', it'. split; [exact Hrun|].
  assert (Forall (fun t => calls t = []) ts') as Hdone.
  { assert (match run_schedule 4 [0; 1; 0; 0]%nat demo_threads demo_table with
      Ok (ts, _) => Some (map calls ts) | _ => None end = Some [[]; []]) as Hx by (vm_compute; reflexivity).
    rewrite Hrun in Hx. simpl in Hx. injection Hx as Hx.
    destruct ts' as [|t1 [|t2 [|]]]; simpl in Hx; try discriminate Hx. injection Hx as H1 H2.
    repeat constructor; assumption. }
  destruct (Hget Hdone 5) as [it'' Hg]. exists it''. rewrite Hg. reflexivity.
Defined.

(** Key 5 read as two bytes: the next read as four leaves the block. *)
Lemma values_are_typed_witness :
  (exists ts' it', run_schedule 4 [0; 1; 0; 0]%nat demo_threads demo_table = Ok (ts', it') /\
    table_wf (n := 4) (vadd := IntAdd) it') /\
  exists it', Get 2 demo_table 5 = Ok (zero_bytes 2, it') /\ Get 4 it' 5 = Fault OutOfBounds.
Proof.
  destruct (values_are_typed (n := 4) (vadd := IntAdd) demo_table demo_table_wf) as (Hrun & Hnew & _). split.
  - destruct (Hrun [0; 1; 0; 0]%nat demo_threads) as (ts' & it' & Hs & Hw & _); [repeat constructor; apply length_i32_bytes|].
    exists ts', it'. split; [exact Hs|exact Hw].
  - destruct (Hnew 2%nat 5 eq_refl ltac:(discriminate)) as (it' & Hg & _ & Hshort). exists it'.
    split; [exact Hg|]. apply Hshort. lia.
Defined.

Definition demo_prop : PropObj := mkPropObj RUN false ∅ {[ 1 ]} None.

(** Key 2^32 + 7 goes out as key 7. *)
Lemma inc_local_and_propagated_witness :
  exists it', Inc demo_table (fun _ => demo_prop) 1 4294967303 (demo_bytes 2) =
    Ok (it', [InUpdateLog (mkPUpdateLogMsg 0 7 EInc) (demo_bytes 2)]) /\
    value_of (n := 4) it' 4294967303 = demo_bytes 2 /\ ~ is_i32 4294967303.
Proof.
  destruct (inc_local_and_propagated (n := 4) (vadd := IntAdd) demo_table (fun _ => demo_prop) HPropagator 1
    4294967303 (demo_bytes 2) demo_table_wf eq_refl (length_i32_bytes 2))
    as (it' & sent & Hinc & Hv & _ & Hsent & _).
  assert (1 ∈ update_push_sock_ demo_prop) as Hreg by (simpl; set_solver).
  destruct (Hsent (conj eq_refl Hreg)) as ([t k []] & -> & Ht & Hk & _).
  simpl in Ht, Hk. subst t k. exists it'. split; [exact Hinc|]. split.
  - rewrite Hv. by vm_compute.
  - unfold is_i32. lia.
Defined.
