(* ===== verification/Receiver.v ===== *)
(** The receiver of comm/receiver.hpp and comm/receiver.cpp: the object the main
    thread calls, and its thread, which keeps the node's own updates, removes them
    from what comes back around a loop, applies and forwards the rest, and drives
    the termination of its upstream propagators. One definition per method and per
    message handler; what the thread sends is recorded in order in [out].

    Tables are shared with the application and are reached through pointers:
    [heap] is the memory they live in. *)
From S2P Require Import Prelude Common MemStruct ValueOps Protocol InternalTable.

(** ** Data *)

Inductive ReceiverState := INIT | RUN | TERM_SELF | TERM.
#[export] Instance ReceiverState_eq_dec : EqDecision ReceiverState.
Proof. solve_decision. Defined.

Record ReceiverThrInfo := mkReceiverThrInfo {
  my_id_ : Z;
  my_info_ : NodeInfo;
  num_expected_propagators_ : Z
}.

Record PeerPropagatorInfo := mkPeerPropagatorInfo {
  has_started_ : bool;
  has_replied_termination_ : bool
}.
Definition PeerPropagatorInfo_ctor : PeerPropagatorInfo := mkPeerPropagatorInfo false false.

(** [have_signaled_term_] is not set by the constructor: [None]. *)
Record RecvObj := mkRecvObj {
  state_ : ReceiverState;
  thrinfo_ : option ReceiverThrInfo;
  have_signaled_term_ : option bool;
  table_dir_ : gmap Z Z                    (** table id to [InternalTable*] *)
}.

Definition set_state (s : RecvObj) (v : ReceiverState) : RecvObj :=
  mkRecvObj v (thrinfo_ s) (have_signaled_term_ s) (table_dir_ s).

(** Messages the receiver thread sends, and the user callbacks it makes. *)
Inductive RecvOut :=
| ToPairInit                                            (** internal_pair_recv_push_sock *)
| ToPairAck                                             (** EMyUpdatesACK on it *)
| ToPropTermAck                                         (** internal_update_push_sock *)
| ToPropBuffer (table_id : Z) (b : UpdateBuffer)        (** PUpdateBufferMsg on it *)
| Publish (m : PropRecvMsgType)                         (** term_pub_sock *)
| UserCbk (f : UpdateBufferCbk) (table_id : Z) (b : UpdateBuffer).

Record RecvThr := mkRecvThr {
  obj : RecvObj;
  heap : gmap Z InternalTable;
  my_updates : gmap Z (list UpdateBuffer);
  peer_prop_info : gmap Z PeerPropagatorInfo;
  have_received_prop_pair_term : bool;
  have_replied_prop_pair_term : bool;
  out : list RecvOut
}.

Definition set_obj (s : RecvThr) (v : RecvObj) : RecvThr :=
  mkRecvThr v (heap s) (my_updates s) (peer_prop_info s) (have_received_prop_pair_term s)
    (have_replied_prop_pair_term s) (out s).
Definition set_heap (s : RecvThr) (v : gmap Z InternalTable) : RecvThr :=
  mkRecvThr (obj s) v (my_updates s) (peer_prop_info s) (have_received_prop_pair_term s)
    (have_replied_prop_pair_term s) (out s).
Definition set_my_updates (s : RecvThr) (v : gmap Z (list UpdateBuffer)) : RecvThr :=
  mkRecvThr (obj s) (heap s) v (peer_prop_info s) (have_received_prop_pair_term s)
    (have_replied_prop_pair_term s) (out s).
Definition set_peer_prop_info (s : RecvThr) (v : gmap Z PeerPropagatorInfo) : RecvThr :=
  mkRecvThr (obj s) (heap s) (my_updates s) v (have_received_prop_pair_term s)
    (have_replied_prop_pair_term s) (out s).
Definition set_received_pair_term (s : RecvThr) (v : bool) : RecvThr :=
  mkRecvThr (obj s) (heap s) (my_updates s) (peer_prop_info s) v (have_replied_prop_pair_term s) (out s).
Definition set_replied_pair_term (s : RecvThr) (v : bool) : RecvThr :=
  mkRecvThr (obj s) (heap s) (my_updates s) (peer_prop_info s) (have_received_prop_pair_term s) v (out s).
Definition send (s : RecvThr) (m : RecvOut) : RecvThr :=
  mkRecvThr (obj s) (heap s) (my_updates s) (peer_prop_info s) (have_received_prop_pair_term s)
    (have_replied_prop_pair_term s) (out s ++ [m]).
Definition set_thr_state (s : RecvThr) (v : ReceiverState) : RecvThr := set_obj s (set_state (obj s) v).

(** ** Methods of the object *)

Definition Receiver_ctor : RecvObj := mkRecvObj INIT None None ∅.

Definition Start (r : RecvObj) (_config : ReceiverThrInfo) : Z * RecvObj :=
  if decide (state_ r <> INIT) then (-1, r)
  else (0, mkRecvObj (state_ r) (Some _config) (have_signaled_term_ r) (table_dir_ r)).

Definition RegisterTable (h : gmap Z InternalTable) (r : RecvObj) (_itable : Z) : res (Z * RecvObj) :=
  if decide (state_ r <> INIT) then Ok (-1, r)
  else
    match h !! _itable with
    | None => Fault NullDeref
    | Some it =>
        Ok (0, mkRecvObj (state_ r) (thrinfo_ r) (have_signaled_term_ r)
                 (<[GetID it := _itable]> (table_dir_ r)))
    end.

(** Messages on [internal_recv_pull_sock]. *)
Inductive RecvIn :=
| InMyUpdates (table_id : Z) (b : UpdateBuffer)
| InRecv (t : ReceiverMsgType).

Definition SignalTerm (r : RecvObj) : Z * RecvObj * list RecvIn :=
  if decide (state_ r <> RUN) then (-1, r, [])
  else (0, mkRecvObj (state_ r) (thrinfo_ r) (Some true) (table_dir_ r), [InRecv ERInternalTerminate]).

(** Reads a flag the constructor leaves unset; [pthread_join] blocks until the
    thread has returned. *)
Definition WaitTerm (r : RecvObj) (thread_returned : bool) : res Z :=
  if decide (state_ r = INIT) then Ok (-1)
  else
    match have_signaled_term_ r with
    | None => Fault Uninitialised
    | Some false => Ok (-1)
    | Some true => if thread_returned then Ok 0 else Block
    end.

(** ** The thread: start-up *)

Definition thread_init (r : RecvObj) (h : gmap Z InternalTable) : RecvThr :=
  mkRecvThr r h ∅ ∅ false false [].

(** Messages on [update_pull_sock]; the second part of a buffer message is the
    block. *)
Inductive NetIn :=
| NetInit (node : Z)
| NetInitAckAck (node : Z)
| NetBuffer (table_id : Z) (block : list byte)
| NetTermAck (node : Z)
| NetOther (t : PropRecvMsgType).

(** Step 1: one PropInit per expected propagator. A message of the same size is
    read as a PropInit whatever its type; of a buffer message the block, at least
    a buffer header long, fails the size check here or in step 3. *)
Fixpoint collect_inits (n : nat) (net : list NetIn) (s : RecvThr) : res (RecvThr * list NetIn) :=
  match n with
  | O => Ok (s, net)
  | S n =>
      match net with
      | [] => Block
      | NetInit node :: net | NetInitAckAck node :: net | NetTermAck node :: net =>
          collect_inits n net
            (set_peer_prop_info s (<[node := mkPeerPropagatorInfo true false]> (peer_prop_info s)))
      | _ :: _ => Fault CheckFailed
      end
  end.

(** Step 3, one round: reads what has arrived, until it has [want] of them. *)
Fixpoint drain_ackacks (want : nat) (round : list NetIn) : res (nat * list NetIn) :=
  match want, round with
  | O, _ => Ok (O, round)
  | _, [] => Ok (want, [])
  | S want, NetInitAckAck _ :: round => drain_ackacks want round
  | S _, _ :: _ => Fault CheckFailed
  end.

(** Steps 2 and 3: publishes PropInitACK, waits, reads the replies; repeats until
    every propagator has replied. [pending] has arrived and is not yet read,
    [rounds] is what arrives in each wait; with no further wait the loop is still
    going on. Returns what is left to read. *)
Fixpoint ack_rounds (want : nat) (pending : list NetIn) (rounds : list (list NetIn)) (s : RecvThr)
    : res (RecvThr * list NetIn) :=
  match want with
  | O => Ok (s, pending ++ concat rounds)
  | S _ =>
      match rounds with
      | [] => Block
      | round :: rounds =>
          let s := send s (Publish PropInitACK) in
          '(want, rem) ← drain_ackacks want (pending ++ round);
          ack_rounds want rem rounds s
      end
  end.

Definition thread_handshake (cfg : ReceiverThrInfo) (inits : list NetIn) (rounds : list (list NetIn))
    (s : RecvThr) : res (RecvThr * list NetIn) :=
  let s := send s ToPairInit in
  '(s, rem) ←
    (if 0 <? num_expected_propagators_ cfg then
       '(s, rem) ← collect_inits (Z.to_nat (num_expected_propagators_ cfg)) inits s;
       '(s, rem) ← ack_rounds (Z.to_nat (num_expected_propagators_ cfg)) rem rounds s;
       Ok (send s (Publish PropStart), rem)
     else Ok (s, []));
  Ok (set_thr_state s RUN, rem).

(** ** The thread: removing this node's own updates *)

(** For every update of one of this node's batches, subtracts its delta from the
    received one, in place. *)
Definition remove_own (n : nat) (vsub_func : option ValueFunc) (key : Z) (my_delta : list byte)
    (recv : UpdateBuffer) : res UpdateBuffer :=
  found ← GetUpdate recv key;
  match found with
  | None => Fault CheckFailed
  | Some ptr =>
      recv_delta ← load recv ptr n;
      match vsub_func with
      | None => Fault NullDeref
      | Some vsub => v ← apply_value vsub recv_delta my_delta (Z.of_nat n); store recv ptr v
      end
  end.

(** The [do ... while(seq_num < recv_my_update_range.end_)] loop over the queue
    of own batches. Each turn takes a batch, so [length queue + 1] turns suffice. *)
Fixpoint dedup_loop (fuel : nat) (my_id : Z) (n : nat) (vsub_func : option ValueFunc)
    (recv_range : UpdateRange) (seq_num : Z) (queue : list UpdateBuffer) (recv : UpdateBuffer)
    : res (list UpdateBuffer * UpdateBuffer) :=
  match fuel with
  | O => Block
  | S fuel =>
      match queue with
      | [] => Fault OutOfBounds
      | mine :: queue =>
          found ← GetNodeRange mine my_id;
          match found with
          | None => Fault CheckFailed
          | Some my_range =>
              CHECK (Contains recv_range my_range);;
              CHECK (st_ my_range =? seq_num);;
              let seq_num := end_ my_range in
              CHECK ((StartIteration mine).1 =? 0);;
              '(recv, _) ← for_updates n (remove_own n vsub_func) mine recv;
              if seq_num <? end_ recv_range
              then dedup_loop fuel my_id n vsub_func recv_range seq_num queue recv
              else Ok (queue, recv)
          end
      end
  end.

Section thread.
Context `{UnorderedIter} (cfg : ReceiverThrInfo).

Fixpoint all_replied (l : list (Z * PeerPropagatorInfo)) : bool :=
  match l with
  | [] => true
  | p :: l => if negb (has_replied_termination_ p.2) then false else all_replied l
  end.
Definition HasAllPeersAckedTerm (_peer_info : gmap Z PeerPropagatorInfo) : bool :=
  all_replied (iter_order _peer_info).

Definition Exit := true.
Definition Continue := false.

Definition exit_if_done (s : RecvThr) : bool * RecvThr :=
  if HasAllPeersAckedTerm (peer_prop_info s) && have_replied_prop_pair_term s
  then (Exit, set_thr_state s TERM) else (Continue, s).

(** ** The thread: messages of this node *)

(** EMyUpdates: keeps the batch for when it comes back. *)
Definition handle_my_updates (table_id : Z) (b : UpdateBuffer) (s : RecvThr) : RecvThr :=
  let s :=
    if decide (state_ (obj s) = RUN) then
      let '(queue, m) := index_ref [] (my_updates s) table_id in
      set_my_updates s (<[table_id := queue ++ [b]]> m)
    else s in
  send s ToPairAck.

(** ERInternalTerminate. *)
Definition handle_internal_terminate (s : RecvThr) : RecvThr :=
  let s := set_thr_state s TERM_SELF in
  let s := set_my_updates s ((fun _ => []) <$> my_updates s) in
  let s := if have_received_prop_pair_term s
           then set_replied_pair_term (send s ToPropTermAck) true else s in
  if 0 <? num_expected_propagators_ cfg then send s (Publish EPRTerminate) else s.

(** EPRInternalTerminate. *)
Definition handle_pair_terminate (s : RecvThr) : res (bool * RecvThr) :=
  match state_ (obj s) with
  | RUN => Ok (Continue, set_received_pair_term s true)
  | TERM_SELF => Ok (exit_if_done (set_replied_pair_term (send s ToPropTermAck) true))
  | _ => Fault CheckFailed
  end.

Definition handle_internal (m : RecvIn) (s : RecvThr) : res (bool * RecvThr) :=
  match m with
  | InMyUpdates table_id b => Ok (Continue, handle_my_updates table_id b s)
  | InRecv ERInternalTerminate => Ok (Continue, handle_internal_terminate s)
  | InRecv EPRInternalTerminate => handle_pair_terminate s
  | InRecv _ => Fault CheckFailed
  end.

(** ** The thread: messages of the upstream propagators *)

(** The first range of a buffer that is not this node's own. *)
Definition other_range (recv : UpdateBuffer) : res (option (Z * UpdateRange) * UpdateBuffer) :=
  let recv := (StartNodeRangeIteration recv).2 in
  '(test, recv) ← NextNodeRange recv;
  match test with
  | Some (id, _) => if id =? my_id_ cfg then NextNodeRange recv else Ok (test, recv)
  | None => Ok (None, recv)
  end.

(** Removes the node's own updates when the buffer carries any. *)
Definition dedup (table_id : Z) (it : InternalTable) (recv : UpdateBuffer) (s : RecvThr)
    : res (UpdateBuffer * RecvThr) :=
  found ← GetNodeRange recv (my_id_ cfg);
  match found with
  | None => Ok (recv, s)
  | Some r =>
      match my_updates s !! table_id with
      | None => Fault CheckFailed
      | Some queue =>
          '(queue, recv) ← dedup_loop (S (length queue)) (my_id_ cfg) (Z.to_nat (get_vsize it))
                            (get_vsub_func it) r (st_ r) queue recv;
          '(_, recv) ← DeleteNodeRange recv (my_id_ cfg);
          Ok (recv, set_my_updates s (<[table_id := queue]> (my_updates s)))
      end
  end.

(** Forwards a copy of the buffer to the propagator, adds its updates to the
    table and calls the application back, as the table is configured. *)
Definition deliver (table_id ptr : Z) (it : InternalTable) (recv : UpdateBuffer) (s : RecvThr) : res RecvThr :=
  let s := if get_forward_updates it then send s (ToPropBuffer table_id recv) else s in
  '(it', recv) ←
    (if get_apply_updates it
     then for_updates (Z.to_nat (get_vsize it)) (fun key delta it => IncRaw it key delta) recv it
     else Ok (it, recv));
  let s := set_heap s (<[ptr := it']> (heap s)) in
  if get_do_user_cbk it then
    match get_update_buff_cbk it with
    | None => Fault Uninitialised
    | Some ucbk => Ok (send s (UserCbk ucbk table_id recv))
    end
  else Ok s.

(** EPRUpdateBuffer. *)
Definition handle_update_buffer (table_id : Z) (block : list byte) (s : RecvThr) : res (bool * RecvThr) :=
  CHECK (0 <? wrap_i32 (Z.of_nat (length block)));;
  if decide (state_ (obj s) <> RUN) then Ok (Continue, s)
  else
    recv ← of_bytes block;
    '(other, recv) ← other_range recv;
    match other with
    | None => Ok (Continue, s)
    | Some _ =>
        match table_dir_ (obj s) !! table_id with
        | None => Fault CheckFailed
        | Some ptr =>
            match heap s !! ptr with
            | None => Fault NullDeref
            | Some it =>
                '(recv, s) ← dedup table_id it recv s;
                s ← deliver table_id ptr it recv s;
                Ok (Continue, s)
            end
        end
    end.

(** EPRTerminateACK. *)
Definition handle_terminate_ack (node_id : Z) (s : RecvThr) : res (bool * RecvThr) :=
  let started := default PeerPropagatorInfo_ctor (peer_prop_info s !! node_id) in
  Ok (exit_if_done (set_peer_prop_info s
       (<[node_id := mkPeerPropagatorInfo (has_started_ started) true]> (peer_prop_info s)))).

Definition handle_net (m : NetIn) (s : RecvThr) : res (bool * RecvThr) :=
  match m with
  | NetBuffer table_id block => handle_update_buffer table_id block s
  | NetTermAck node => handle_terminate_ack node s
  | _ => Fault CheckFailed
  end.

(** One turn of the loop: this node's socket first. *)
Inductive polled := ReadInternal | ReadNet | ReadNothing.

Definition loop_turn (internal : option RecvIn) (net : option NetIn) (s : RecvThr)
    : res (polled * bool * RecvThr) :=
  match internal with
  | Some m => '(fl, s) ← handle_internal m s; Ok (ReadInternal, fl, s)
  | None =>
      match (if 0 <? num_expected_propagators_ cfg then net else None) with
      | Some m => '(fl, s) ← handle_net m s; Ok (ReadNet, fl, s)
      | None => Ok (ReadNothing, Continue, s)
      end
  end.

Inductive recv_event := EvInternal (m : RecvIn) | EvNet (m : NetIn).

Definition turn (e : recv_event) (s : RecvThr) : res (bool * RecvThr) :=
  '(_, fl, s) ←
    (match e with
     | EvInternal m => loop_turn (Some m) None s
     | EvNet m => loop_turn None (Some m) s
     end : res (polled * bool * RecvThr));
  Ok (fl, s).

(** [while(true)], one message per turn. *)
Fixpoint thread_loop (es : list recv_event) (s : RecvThr) : res (bool * RecvThr) :=
  match es with
  | [] => Ok (Continue, s)
  | e :: es =>
      '(fl, s) ← turn e s;
      if fl : bool then Ok (Exit, s) else thread_loop es s
  end.
End thread.
