(* ===== verification/ReceiverSpec.v ===== *)
(** What the receiver's operations compute: the test for foreign updates, the
    removal of one own batch from a received buffer, and the delivery of a buffer
    to the propagator and the table, each against the abstract buffer. *)
From S2P Require Import Prelude Common MemStruct MemStructSpec Buffer ValueOps Protocol PropagatorSpec PropagatorTrace InternalTable Receiver.

(** ** Received blocks *)

Lemma repr_block_length ub a : repr ub a -> Z.of_nat (length (to_bytes ub)) = total a.
Proof.
  intros Hr. destruct (repr_block ub a Hr) as [Hs Hm]. unfold memcpy_src in Hm. rewrite Hs in Hm.
  destruct (Z.leb_spec 0 (total a)); simpl in Hm; [|done].
  destruct (Z.leb_spec (total a) (Z.of_nat (length (to_bytes ub)))); simpl in Hm; [|done].
  injection Hm as Hm. apply (f_equal length) in Hm. rewrite length_take in Hm. lia.
Qed.

Lemma repr_block_size ub a : repr ub a -> (0 <? wrap_i32 (Z.of_nat (length (to_bytes ub)))) = true.
Proof.
  intros Hr. rewrite (repr_block_length _ _ Hr). pose proof (r_bound _ _ Hr) as [Hb _].
  assert (0 < total a) by (unfold total, update_off, slot_off, step; nia).
  rewrite wrap_i32_id by (unfold is_i32; lia). by apply Z.ltb_lt.
Qed.

(** ** The first range of another node *)

Definition foreign (my : Z) (slots : list (Z * UpdateRange)) : option (Z * UpdateRange) :=
  match range_prefix slots with
  | [] => None
  | e :: l => if decide (e.1 = my) then head l else Some e
  end.

Lemma next_range_spec ub a j :
  repr ub a -> ab_niter a = Some j ->
  exists ub', NextNodeRange ub = Ok (head (range_prefix (drop j (ab_slots a))), ub') /\
    repr ub' (a_with_niter a (Some (if head (range_prefix (drop j (ab_slots a))) is Some _ then S j else j))).
Proof.
  intros Hr Hj. destruct (NextNodeRange_refines ub a j Hr Hj) as (ub' & -> & Hr').
  exists ub'. unfold a_next_range in *. rewrite Hj in *.
  assert (a = a_with_niter a (Some j)) as Ha by (rewrite <- Hj; by destruct a).
  destruct (ab_slots a !! j) as [e|] eqn:E.
  - rewrite (drop_S _ _ _ E). simpl. case_decide; simpl; split; try done. by rewrite <- Ha.
  - rewrite drop_ge by (by apply lookup_ge_None). simpl in *. split; [done|]. by rewrite <- Ha.
Qed.

Lemma range_prefix_second e l s :
  range_prefix s = e :: l -> range_prefix (drop 1 s) = l.
Proof. destruct s as [|x s]; simpl; [done|]. case_decide; [done|]. intros [= _ <-]. by rewrite drop_0. Qed.

Lemma other_range_spec cfg recv a :
  repr recv a ->
  exists recv' j, other_range cfg recv = Ok (foreign (my_id_ cfg) (ab_slots a), recv') /\
    repr recv' (a_with_niter a (Some j)).
Proof.
  intros Hr. unfold other_range, foreign.
  destruct (StartNodeRangeIteration_refines recv a Hr) as [_ Hr0].
  destruct (next_range_spec _ _ 0 Hr0 eq_refl) as (r1 & -> & Hr1). simpl in *. rewrite drop_0 in *.
  destruct (range_prefix (ab_slots a)) as [|[id rg] l] eqn:E; simpl in *; [by exists r1, 0%nat|].
  destruct (Z.eqb_spec id (my_id_ cfg)) as [->|Hne].
  - rewrite decide_True by done.
    destruct (next_range_spec _ _ 1 Hr1 eq_refl) as (r2 & -> & Hr2). simpl in *.
    rewrite (range_prefix_second _ _ _ E) in *. eauto.
  - rewrite decide_False by done. by exists r1, 1%nat.
Qed.

(** ** Removing a batch *)

Section values.
Context {n : nat} {vadd vsub : ValueFunc} `{VG : !ValueGroup n vadd vsub}.

(** [d] subtracted from the delta of key [k]; the deltas of a whole batch. *)
Definition sub_at (k : Z) (d : list byte) (ups : list (Z * list byte)) : list (Z * list byte) :=
  (fun u => if decide (u.1 = k) then (u.1, vminus u.2 d) else u) <$> ups.
Definition subtract (batch ups : list (Z * list byte)) : list (Z * list byte) :=
  fold_left (fun ups m => sub_at m.1 m.2 ups) batch ups.

Lemma sub_at_keys k d ups : (sub_at k d ups).*1 = ups.*1.
Proof.
  unfold sub_at. rewrite <- list_fmap_compose. apply list_fmap_ext. intros i u _. simpl.
  by case_decide.
Qed.

Lemma sub_at_ok k d ups :
  length d = n -> Forall (update_ok n) ups -> Forall (update_ok n) (sub_at k d ups).
Proof.
  intros Hd Hu. apply Forall_fmap. eapply List.Forall_impl; [|exact Hu]. intros [k' e] [Hk He]. simpl.
  case_decide; split; simpl; try done. by apply length_vminus.
Qed.

Lemma sub_at_insert k d ups i e :
  NoDup ups.*1 -> ups !! i = Some (k, e) -> <[i := (k, vminus e d)]> ups = sub_at k d ups.
Proof.
  intros Hnd Hi. apply list_eq. intros j. unfold sub_at. rewrite list_lookup_fmap.
  destruct (decide (i = j)) as [<-|Hne].
  - rewrite list_lookup_insert_eq by (by eapply lookup_lt_Some). rewrite Hi. simpl.
    by rewrite decide_True.
  - rewrite list_lookup_insert_ne by done. destruct (ups !! j) as [[k' e']|] eqn:Ej; simpl; [|done].
    rewrite decide_False; [done|]. intros ->. apply Hne.
    eapply (NoDup_lookup ups.*1 i j k Hnd); rewrite list_lookup_fmap; [by rewrite Hi|by rewrite Ej].
Qed.

Lemma remove_own_spec recv a k d :
  repr recv a -> ab_usize a = n -> length d = n -> NoDup (ab_ups a).*1 -> k ∈ (ab_ups a).*1 ->
  exists recv', remove_own n (Some vsub) k d recv = Ok recv' /\
    repr recv' (a_with_ups a (sub_at k d (ab_ups a))).
Proof.
  intros Hr Hus Hd Hnd Hk. unfold remove_own. rewrite (get_update_loop_spec recv a k Hr). unfold a_get. simpl.
  destruct (list_find (fun u => u.1 = k) (ab_ups a)) as [[i [k' e]]|] eqn:E; simpl.
  - apply list_find_Some in E as (Hi & Hk' & _). simpl in Hk'. subst k'.
    destruct (repr_update_ok _ _ _ _ Hr Hi) as [_ He]. simpl in He. rewrite Hus in He.
    assert (load recv (delta_off a i) n = Ok e) as -> by (rewrite <- Hus; exact (load_delta _ _ _ _ Hr Hi)). simpl.
    rewrite (vsub_runs (ValueGroup := VG)) by done. simpl.
    destruct (store_delta recv a i (k, e) (vminus e d) Hr Hi) as (recv' & -> & Hr');
      [rewrite Hus; by apply length_vminus|]. exists recv'. split; [done|]. simpl in Hr'.
    by rewrite sub_at_insert in Hr'.
  - exfalso. apply list_elem_of_fmap in Hk as ([k' e] & -> & Hin). simpl in *.
    apply list_find_None in E. rewrite Forall_forall in E. by apply (E _ Hin).
Qed.

Lemma subtract_snoc batch m ups : subtract (batch ++ [m]) ups = sub_at m.1 m.2 (subtract batch ups).
Proof. unfold subtract. by rewrite fold_left_app. Qed.

Lemma subtract_keys batch : forall ups, (subtract batch ups).*1 = ups.*1.
Proof.
  unfold subtract. induction batch as [|m batch IH]; intros ups; simpl; [done|].
  by rewrite IH, sub_at_keys.
Qed.

(** What the subtraction leaves of each delta. *)
Lemma subtract_deltas batch : forall ups,
  subtract batch ups = (fun u => (u.1, fold_left vminus (deltas_for u.1 batch) u.2)) <$> ups.
Proof.
  unfold subtract. induction batch as [|[k d] batch IH]; intros ups; simpl.
  { symmetry. rewrite <- (list_fmap_id ups) at 2. apply list_fmap_ext. by intros i [k e] _. }
  rewrite IH. unfold sub_at. rewrite <- list_fmap_compose. apply list_fmap_ext.
  intros i [k' e] _. simpl. unfold deltas_for. rewrite filter_cons. simpl.
  destruct (decide (k' = k)) as [->|Hne]; simpl.
  - by rewrite decide_True.
  - by rewrite decide_False by done.
Qed.

(** Subtracting what was added gives back what was there before. *)
Lemma vminus_vsum ds : forall v,
  length v = n -> Forall (fun d => length d = n) ds ->
  fold_left vminus ds (vplus v (vsum ds)) = v.
Proof.
  induction ds as [|d ds IH]; intros v Hv Hds; simpl.
  { change (vsum []) with (zero_bytes n).
    rewrite vplus_comm by (done || apply length_zero_bytes). by apply vplus_zero. }
  apply Forall_cons in Hds as [Hd Hds].
  assert (vsum (d :: ds) = vplus (vsum ds) d) as ->.
  { rewrite <- (vsum_snoc ds d) by done. apply vsum_perm; [by constructor|].
    apply Permutation_cons_append. }
  rewrite vplus_assoc, vminus_vplus by (done || by apply length_vsum || apply length_vplus; done || by apply length_vsum).
  by apply IH.
Qed.

(** One turn of the loop takes one batch. *)
Lemma dedup_batch fuel my_id recv a range mine am my_range rest :
  repr recv a -> ab_usize a = n -> NoDup (ab_ups a).*1 ->
  repr mine am -> ab_usize am = n -> ab_ups am <> [] -> (ab_ups am).*1 ⊆ (ab_ups a).*1 ->
  a_get_range am my_id = Some my_range -> Contains range my_range = true ->
  exists recv', repr recv' (a_with_ups a (subtract (ab_ups am) (ab_ups a))) /\
    dedup_loop (S fuel) my_id n (Some vsub) range (st_ my_range) (mine :: rest) recv =
      if end_ my_range <? end_ range
      then dedup_loop fuel my_id n (Some vsub) range (end_ my_range) rest recv'
      else Ok (rest, recv').
Proof.
  intros Hr Hus Hnd Hm Hums Hne Hsub Hrange Hc. simpl.
  rewrite (GetNodeRange_refines _ _ my_id Hm), Hrange. simpl. rewrite Hc, Z.eqb_refl. simpl.
  assert ((StartIteration mine).1 = 0) as ->.
  { destruct (StartIteration_refines mine am Hm) as [-> _]. unfold a_start. by destruct (ab_ups am). }
  simpl.
  destruct (for_updates_visits_aux (remove_own n (Some vsub)) mine am recv Hm) as (mine' & Hfor & _).
  destruct (foldM_ind (fun pre s => repr s (a_with_ups a (subtract pre (ab_ups a))))
    (fun u s => remove_own n (Some vsub) u.1 u.2 s) (ab_ups am) recv) as (recv' & Hfold & Hr').
  - by destruct a.
  - intros pre [k d] suf s Hups Hs. simpl.
    assert ((k, d) ∈ ab_ups am) as Hin by (rewrite Hups; set_solver).
    destruct (remove_own_spec s _ k d Hs) as (s' & -> & Hs'); simpl; try done.
    + pose proof (r_ups _ _ Hm) as Hok. rewrite Forall_forall in Hok.
      destruct (Hok _ Hin) as [_ Hl]. simpl in Hl. congruence.
    + by rewrite subtract_keys.
    + rewrite subtract_keys. apply Hsub. by apply (list_elem_of_fmap_2 fst) in Hin.
    + exists s'. split; [done|]. by rewrite subtract_snoc.
  - exists recv'. split; [done|]. rewrite Hums in Hfor. rewrite Hfor, Hfold. done.
Qed.

(** ** Delivery *)

Definition same_config (it it' : InternalTable) : Prop := set_storage it (storage_ it') = it'.

Lemma IncRaw_same_config it k d it' : IncRaw it k d = Ok it' -> same_config it it'.
Proof.
  unfold IncRaw, insert_zero, same_config. destruct (storage_ it !! k); [|destruct (vsize_ it <? 0); [done|]]; simpl;
    (destruct (vadd_func_ it); [|done]); intros Hi; inv_bind; by subst it'.
Qed.

Lemma deltas_for_length q (ups : list (Z * list byte)) :
  Forall (fun u => length u.2 = n) ups -> Forall (fun d => length d = n) (deltas_for q ups).
Proof.
  intros Hu. unfold deltas_for. apply Forall_fmap, Forall_forall. intros u [_ Hin]%list_elem_of_filter.
  rewrite Forall_forall in Hu. by apply Hu.
Qed.

Lemma apply_updates_spec ups it :
  table_wf (n := n) (vadd := vadd) it -> Forall (fun u => length u.2 = n) ups ->
  exists it', foldM (fun u it => IncRaw it u.1 u.2) ups it = Ok it' /\
    table_wf (n := n) (vadd := vadd) it' /\ same_config it it' /\
    forall k, value_of (n := n) it' k = vplus (value_of (n := n) it k) (vsum (deltas_for k ups)).
Proof.
  intros Hw Hups.
  destruct (foldM_ind (fun pre s => table_wf (n := n) (vadd := vadd) s /\ same_config it s /\
      forall k, value_of (n := n) s k = vplus (value_of (n := n) it k) (vsum (deltas_for k pre)))
    (fun u it => IncRaw it u.1 u.2) ups it) as (it' & Hf & Hw' & Hc & Hv); [| |by exists it'].
  - split; [done|]. split; [by destruct it|]. intros k.
    change (vsum (deltas_for k [])) with (zero_bytes n).
    rewrite vplus_comm, vplus_zero; [done|..]; first [apply length_zero_bytes|by apply (length_value_of (vadd := vadd))].
  - intros pre [k d] suf s Hl (Hs & Hc & Hv). simpl.
    rewrite Hl in Hups. apply Forall_app in Hups as [Hpre [Hd _]%Forall_cons]. simpl in Hd.
    destruct (IncRaw_spec s k d Hs Hd) as (s' & Hi & Hs' & Hk & Hother).
    exists s'. split; [done|]. split; [done|]. split.
    { apply IncRaw_same_config in Hi. unfold same_config in *. by rewrite <- Hi, <- Hc. }
    assert (forall q, Forall (fun d => length d = n) (deltas_for q pre)) as Hok.
    { intros q. by apply deltas_for_length. }
    intros q. rewrite deltas_for_app. unfold deltas_for at 2. rewrite filter_cons. simpl.
    destruct (decide (k = q)) as [->|Hne].
    + rewrite Hk, Hv, filter_nil. simpl. rewrite vsum_snoc by done.
      by rewrite vplus_assoc by (done || (by apply length_vsum) || by apply (length_value_of (vadd := vadd))).
    + rewrite filter_nil. simpl. rewrite app_nil_r. by rewrite Hother.
Qed.

(** The table a delivery leaves behind. *)
Definition delivered (it : InternalTable) (ups : list (Z * list byte)) (it' : InternalTable) : Prop :=
  table_wf (n := n) (vadd := vadd) it' /\ same_config it it' /\
  forall k, value_of (n := n) it' k =
    if apply_updates_ it then vplus (value_of (n := n) it k) (vsum (deltas_for k ups))
    else value_of (n := n) it k.

Definition forwarded (it : InternalTable) (t : Z) (recv : UpdateBuffer) : list RecvOut :=
  if forward_updates_ it then [ToPropBuffer t recv] else [].

Lemma deliver_spec t ptr it recv a s :
  repr recv a -> ab_usize a = n -> table_wf (n := n) (vadd := vadd) it -> do_user_cbk_ it = false ->
  exists it', delivered it (ab_ups a) it' /\
    deliver t ptr it recv s =
      Ok (mkRecvThr (obj s) (<[ptr := it']> (heap s)) (my_updates s) (peer_prop_info s)
            (have_received_prop_pair_term s) (have_replied_prop_pair_term s)
            (out s ++ forwarded it t recv)).
Proof.
  intros Hr Hus Hw Hcbk. unfold deliver, delivered, forwarded, get_forward_updates, get_apply_updates,
    get_do_user_cbk, get_vsize. rewrite Hcbk, (tw_size _ Hw), Nat2Z.id.
  set (s1 := if forward_updates_ it then _ else _).
  assert (s1 = mkRecvThr (obj s) (heap s) (my_updates s) (peer_prop_info s)
    (have_received_prop_pair_term s) (have_replied_prop_pair_term s)
    (out s ++ if forward_updates_ it then [ToPropBuffer t recv] else [])) as ->.
  { unfold s1. destruct (forward_updates_ it); [done|]. rewrite app_nil_r. by destruct s. }
  destruct (apply_updates_ it).
  - destruct (for_updates_visits_aux (fun k d it => IncRaw it k d) recv a it Hr) as (recv' & Hfor & _).
    rewrite Hus in Hfor. rewrite Hfor.
    destruct (apply_updates_spec (ab_ups a) it Hw) as (it' & -> & Hw' & Hc & Hv).
    { pose proof (r_ups _ _ Hr) as Hok. eapply List.Forall_impl; [|exact Hok]. intros u [_ Hl]. congruence. }
    exists it'. done.
  - exists it. simpl. split_and!; [done|by destruct it|done|done].
Qed.
End values.
