(* ===== verification/ReceiverProps.v ===== *)
(** What the receiver promises while it runs: this node's own updates are taken
    out of what comes back around a loop and nothing else is, the rest is forwarded
    and added to the table - and where that fails. *)
From S2P Require Import Prelude Common MemStruct MemStructSpec Buffer ValueOps Protocol PropagatorSpec PropagatorTrace InternalTable Receiver ReceiverSpec.

(** ** The range table of a received buffer *)

(** As the propagator fills it: used entries first, one per node. *)
Definition packed (slots : list (Z * UpdateRange)) : Prop :=
  exists w k, slots = filled w k /\ NoDup w.*1 /\ Forall (fun e => 0 <= e.1) w.

Lemma packed_split slots my i r :
  packed slots -> 0 <= my -> find_slot (fun z => z = my) slots = Some (i, (my, r)) ->
  exists pre suf, slots = pre ++ (my, r) :: suf /\
    Forall (fun e => 0 <= e.1 /\ e.1 <> my) pre /\ Forall (fun e => e.1 <> my) suf.
Proof.
  intros (w & k & -> & Hnd & Hpos) Hmy (Hi & _ & Hlt)%list_find_Some. unfold filled in *.
  assert (w !! i = Some (my, r)) as Hw.
  { apply lookup_app_Some in Hi as [Hi|[_ Hi]]; [done|].
    apply lookup_replicate in Hi as [Hi _]. injection Hi as Hi. lia. }
  apply list_elem_of_split_length in Hw as (pre & suf & -> & ->).
  exists pre, (suf ++ replicate k free_slot). rewrite <- app_assoc. split; [done|].
  rewrite fmap_app, fmap_cons in Hnd. apply NoDup_app in Hnd as (_ & Hdis & [Hn _]%NoDup_cons).
  apply Forall_app in Hpos as [Hpre _]. split.
  - apply Forall_forall. intros e He. split; [by rewrite Forall_forall in Hpre; apply Hpre|].
    intros Heq. apply (Hdis my); [|by left]. rewrite <- Heq. by apply list_elem_of_fmap_2.
  - apply Forall_app. split.
    + apply Forall_forall. intros e He Heq. apply Hn. simpl. rewrite <- Heq. by apply list_elem_of_fmap_2.
    + apply Forall_replicate. simpl. lia.
Qed.

Lemma delete_own recv a my r :
  repr recv a -> packed (ab_slots a) -> 0 <= my -> a_get_range a my = Some r ->
  exists recv' slots, DeleteNodeRange recv my = Ok (0, recv') /\ repr recv' (a_with_slots a slots) /\
    forall q, 0 <= q -> a_get_range (a_with_slots a slots) q = if decide (q = my) then None else a_get_range a q.
Proof.
  intros Hr Hp Hmy Hget. unfold a_get_range in Hget.
  destruct (find_slot (fun z => z = my) (ab_slots a)) as [[i [id r']]|] eqn:E; [|done].
  injection Hget as ->. pose proof (find_slot_Some _ _ _ _ E) as [_ Hid]. simpl in Hid. subst id.
  destruct (packed_split _ _ _ _ Hp Hmy E) as (pre & suf & Hs & Hpre & Hsuf).
  destruct (DeleteNodeRange_refines recv a my Hr) as (recv' & -> & Hr').
  rewrite (a_delete_range_at a pre my r suf Hs Hmy Hpre) in *. simpl in *.
  exists recv', (pre ++ (-1, r) :: suf). split; [done|]. split; [done|].
  intros q Hq. unfold a_get_range. simpl. rewrite Hs. case_decide as Hqm.
  - subst q. unfold find_slot. replace (list_find _ (pre ++ (-1, r) :: suf)) with (@None (nat * (Z * UpdateRange))); [done|].
    symmetry. apply list_find_None, Forall_app. split.
    + eapply List.Forall_impl; [|exact Hpre]. simpl. tauto.
    + constructor; [simpl; lia|]. exact Hsuf.
  - replace (pre ++ (-1, r) :: suf) with (<[length pre := (-1, r)]> (ab_slots a))
      by (rewrite Hs; by rewrite insert_app_r_alt, Nat.sub_diag by lia).
    rewrite <- Hs. f_equal.
    eapply find_slot_insert_other; [rewrite Hs; by apply list_lookup_middle|simpl; lia..].
Qed.

Section props.
Context {n : nat} {vadd vsub : ValueFunc} `{VG : !ValueGroup n vadd vsub}.
Context (cfg : ReceiverThrInfo).
Notation my := (my_id_ cfg).

(** ** What arrives *)

(** A buffer [recv] for table [t], which the thread, in [RUN], keeps at [ptr]. *)
Record arrives (t ptr : Z) (it : InternalTable) (recv : UpdateBuffer) (a : abuf) (s : RecvThr) : Prop := {
  ar_repr : repr recv a;
  ar_usize : ab_usize a = n;
  ar_keys : NoDup (ab_ups a).*1;
  ar_packed : packed (ab_slots a);
  ar_run : state_ (obj s) = RUN;
  ar_dir : table_dir_ (obj s) !! t = Some ptr;
  ar_heap : heap s !! ptr = Some it;
  ar_table : table_wf (n := n) (vadd := vadd) it;
  ar_vsub : vsub_func_ it = Some vsub;
  ar_my : 0 <= my
}.

(** A batch this node has sent: its updates and their range. *)
Record own_batch (mine : UpdateBuffer) (am : abuf) (r : UpdateRange) : Prop := {
  ob_repr : repr mine am;
  ob_usize : ab_usize am = n;
  ob_nonempty : ab_ups am <> [];
  ob_range : a_get_range am my = Some r
}.

(** The handler up to the removal of own updates. *)
Lemma handle_update_buffer_open t ptr it recv a s :
  arrives t ptr it recv a s ->
  exists recv' j, repr recv' (a_with_niter a (Some j)) /\
    handle_update_buffer cfg t (to_bytes recv) s =
      (if foreign my (ab_slots a) is Some _ then
        '(recv, s) ← dedup cfg t it recv' s;
        s ← deliver t ptr it recv s;
        Ok (Continue, s)
      else Ok (Continue, s)).
Proof.
  intros [Hr Hus _ _ Hrun Hdir Hheap _ _ _]. unfold handle_update_buffer.
  rewrite (repr_block_size _ _ Hr). cbn [CHECK mbind res_bind]. rewrite decide_False by (by intros Hn; apply Hn).
  rewrite of_bytes_to_bytes by (by eapply repr_hdr_ok). simpl.
  destruct (other_range_spec cfg recv a Hr) as (recv' & j & -> & Hr'). simpl.
  exists recv', j. split; [done|]. destruct (foreign _ _); [|done]. by rewrite Hdir, Hheap.
Qed.

(** The removal when the front batch is the whole of this node's part. *)
Lemma dedup_one_batch t it recv a s r mine am rest :
  repr recv a -> ab_usize a = n -> NoDup (ab_ups a).*1 -> packed (ab_slots a) -> 0 <= my ->
  table_wf (n := n) (vadd := vadd) it -> vsub_func_ it = Some vsub ->
  a_get_range a my = Some r -> own_batch mine am r -> (ab_ups am).*1 ⊆ (ab_ups a).*1 ->
  my_updates s !! t = Some (mine :: rest) ->
  exists recv' slots,
    dedup cfg t it recv s = Ok (recv', set_my_updates s (<[t := rest]> (my_updates s))) /\
    repr recv' (a_with_slots (a_with_ups a (subtract (ab_ups am) (ab_ups a))) slots) /\
    forall q, 0 <= q -> a_get_range (a_with_slots a slots) q = if decide (q = my) then None else a_get_range a q.
Proof.
  intros Hr Hus Hnd Hp Hmy Hw Hsub Hget [Hmr Hmus Hne Hmget] Hkeys Hq. unfold dedup.
  rewrite (GetNodeRange_refines _ _ my Hr), Hget. cbn [mbind res_bind]. rewrite Hq.
  unfold get_vsize, get_vsub_func. rewrite (tw_size _ Hw), Nat2Z.id, Hsub.
  assert (Contains r r = true) as Hc by (unfold Contains; by rewrite !Z.leb_refl).
  destruct (dedup_batch (length (mine :: rest)) my recv a r mine am r rest) as (recv1 & Hr1 & Hd); [done..|].
  rewrite Hd, Z.ltb_irrefl. cbn [mbind res_bind].
  destruct (delete_own recv1 _ my r Hr1) as (recv' & slots & -> & Hr' & Hranges); [done..|].
  exists recv', slots. split_and!; [done|by destruct a|done].
Qed.

(** C3. A node's own updates come off exactly once. When a buffer returns to a
    node around a loop with the range of the oldest batch it is keeping, and each
    delta in it is the sum of what the other nodes contributed and of this node's
    part, the receiver takes that batch off its queue, and what it forwards and
    adds to its table is, for every key, exactly the other nodes' contribution: no
    update is applied twice at its origin. This node's range leaves the buffer, the
    others' ranges stay. *)
Theorem own_updates_removed t ptr it recv a s mine am r rest (others : Z -> list (list byte)) :
  arrives t ptr it recv a s -> is_Some (foreign my (ab_slots a)) ->
  a_get_range a my = Some r -> own_batch mine am r -> my_updates s !! t = Some (mine :: rest) ->
  (ab_ups am).*1 ⊆ (ab_ups a).*1 -> do_user_cbk_ it = false ->
  (forall k d, (k, d) ∈ ab_ups a -> Forall (fun e => length e = n) (others k) /\
     d = vplus (vsum (others k)) (vsum (deltas_for k (ab_ups am)))) ->
  exists recv' it' s', handle_update_buffer cfg t (to_bytes recv) s = Ok (Continue, s') /\
    delivered (vadd := vadd) it ((fun u => (u.1, vsum (others u.1))) <$> ab_ups a) it' /\
    heap s' = <[ptr := it']> (heap s) /\ my_updates s' = <[t := rest]> (my_updates s) /\
    out s' = out s ++ forwarded it t recv' /\
    collect_updates n recv' = Ok ((fun u => (u.1, vsum (others u.1))) <$> ab_ups a) /\
    forall q, 0 <= q -> GetNodeRange recv' q = if decide (q = my) then Ok None else GetNodeRange recv q.
Proof.
  intros Har [o Ho] Hget Hob Hq Hkeys Hcbk Hcontr.
  destruct (handle_update_buffer_open t ptr it recv a s Har) as (recv0 & j & Hr0 & ->). rewrite Ho.
  destruct Har as [Hr Hus Hnd Hp Hrun Hdir Hheap Hw Hsub Hmy].
  destruct (dedup_one_batch t it recv0 (a_with_niter a (Some j)) s r mine am rest)
    as (recv' & slots & -> & Hr' & Hranges); [done..|]. cbn [mbind res_bind].
  destruct (deliver_spec t ptr it recv' _ (set_my_updates s (<[t:=rest]> (my_updates s))) Hr')
    as (it' & Hdel & ->); [done..|]. simpl in *.
  assert (subtract (ab_ups am) (ab_ups a) = (fun u => (u.1, vsum (others u.1))) <$> ab_ups a) as Heq.
  { rewrite subtract_deltas. apply list_fmap_ext. intros i [k d] Hi. simpl. f_equal.
    apply list_elem_of_lookup_2 in Hi. destruct (Hcontr k d Hi) as [Hlen ->].
    apply vminus_vsum; [by apply length_vsum|]. apply deltas_for_length.
    pose proof (r_ups _ _ (ob_repr _ _ _ Hob)) as Hok. eapply List.Forall_impl; [|exact Hok].
    intros u [_ Hl]. by rewrite (ob_usize _ _ _ Hob) in Hl. }
  rewrite Heq in *. exists recv', it'. eexists. split; [done|]. split_and!; try done.
  - pose proof (collect_updates_spec _ _ Hr') as Hcol. simpl in Hcol. by rewrite Hus in Hcol.
  - intros q Hq0. rewrite (GetNodeRange_refines _ _ q Hr'), (GetNodeRange_refines _ _ q Hr).
    specialize (Hranges q Hq0). unfold a_get_range in *. simpl in *. rewrite Hranges. by case_decide.
Qed.

Lemma foreign_delivery t ptr it recv a s :
  arrives t ptr it recv a s -> is_Some (foreign my (ab_slots a)) ->
  a_get_range a my = None -> do_user_cbk_ it = false ->
  exists recv' it' s', handle_update_buffer cfg t (to_bytes recv) s = Ok (Continue, s') /\
    delivered (vadd := vadd) it (ab_ups a) it' /\
    obj s' = obj s /\ heap s' = <[ptr := it']> (heap s) /\ my_updates s' = my_updates s /\
    out s' = out s ++ forwarded it t recv' /\
    collect_updates n recv' = Ok (ab_ups a) /\
    forall q, GetNodeRange recv' q = GetNodeRange recv q.
Proof.
  intros Har [o Ho] Hget Hcbk.
  destruct (handle_update_buffer_open t ptr it recv a s Har) as (recv' & j & Hr' & ->). rewrite Ho.
  destruct Har as [Hr Hus Hnd Hp Hrun Hdir Hheap Hw Hsub Hmy].
  unfold dedup. rewrite (GetNodeRange_refines _ _ my Hr').
  change (a_get_range (a_with_niter a (Some j)) my) with (a_get_range a my). rewrite Hget. cbn [mbind res_bind].
  destruct (deliver_spec t ptr it recv' _ s Hr') as (it' & Hdel & ->); [done..|]. simpl in *.
  exists recv', it'. eexists. split; [done|]. split_and!; try done.
  - pose proof (collect_updates_spec _ _ Hr') as Hcol. simpl in Hcol. by rewrite Hus in Hcol.
  - intros q. by rewrite (GetNodeRange_refines _ _ q Hr'), (GetNodeRange_refines _ _ q Hr).
Qed.

(** C21. A buffer without updates of this node is delivered as it is: forwarded
    with all its updates and ranges if the table forwards, every delta added to the
    value of its key if the table applies updates, and the batches this node keeps
    stay where they are. *)
Theorem foreign_updates_delivered t ptr it recv a s :
  arrives t ptr it recv a s -> is_Some (foreign my (ab_slots a)) ->
  a_get_range a my = None -> do_user_cbk_ it = false ->
  exists recv' it' s', handle_update_buffer cfg t (to_bytes recv) s = Ok (Continue, s') /\
    delivered (vadd := vadd) it (ab_ups a) it' /\
    heap s' = <[ptr := it']> (heap s) /\ my_updates s' = my_updates s /\
    out s' = out s ++ forwarded it t recv' /\
    collect_updates n recv' = Ok (ab_ups a) /\
    forall q, GetNodeRange recv' q = GetNodeRange recv q.
Proof.
  intros. destruct (foreign_delivery t ptr it recv a s) as (recv' & it' & s' & ? & ? & _ & ?); [done..|].
  by exists recv', it', s'.
Qed.

(** C23. A returned buffer that covers two batches stops the process. The sender
    merges ranges that follow one another, the second starting one after the end of
    the first, while the receiver expects the second batch to start at the end of
    the first: its [CHECK_EQ] on the sequence number fails. *)
Theorem merged_batches_abort t ptr it recv a s mine1 am1 r1 mine2 am2 r2 r rest :
  arrives t ptr it recv a s -> is_Some (foreign my (ab_slots a)) ->
  a_get_range a my = Some r -> my_updates s !! t = Some (mine1 :: mine2 :: rest) ->
  own_batch mine1 am1 r1 -> own_batch mine2 am2 r2 -> (ab_ups am1).*1 ⊆ (ab_ups a).*1 ->
  st_ r = st_ r1 -> end_ r1 < st_ r2 -> st_ r2 <= end_ r2 -> end_ r2 = end_ r ->
  handle_update_buffer cfg t (to_bytes recv) s = Fault CheckFailed.
Proof.
  intros Har [o Ho] Hget Hq Hb1 Hb2 Hkeys Hst H12 Hle2 Hend.
  destruct (handle_update_buffer_open t ptr it recv a s Har) as (recv0 & j & Hr0 & ->). rewrite Ho.
  destruct Har as [Hr Hus Hnd Hp Hrun Hdir Hheap Hw Hsub Hmy]. destruct Hb1 as [Hm1 Hu1 Hne1 Hg1].
  destruct Hb2 as [Hm2 Hu2 Hne2 Hg2]. unfold dedup. rewrite (GetNodeRange_refines _ _ my Hr0).
  change (a_get_range (a_with_niter a (Some j)) my) with (a_get_range a my). rewrite Hget.
  cbn [mbind res_bind]. rewrite Hq. unfold get_vsize, get_vsub_func. rewrite (tw_size _ Hw), Nat2Z.id, Hsub, Hst.
  assert (Contains r r1 = true) as Hc.
  { unfold Contains. rewrite !(proj2 (Z.leb_le _ _)) by lia. done. }
  destruct (dedup_batch (length (mine1 :: mine2 :: rest)) my recv0 _ r mine1 am1 r1 (mine2 :: rest) Hr0)
    as (recv1 & Hr1 & ->); [done..|].
  rewrite (proj2 (Z.ltb_lt _ _)) by lia. cbn [length dedup_loop].
  rewrite (GetNodeRange_refines _ _ my Hm2), Hg2. cbn [mbind res_bind].
  destruct (Contains r r2); cbn [CHECK mbind res_bind]; [|done].
  rewrite (proj2 (Z.eqb_neq (st_ r2) (end_ r1))) by lia. done.
Qed.

(** A batch that comes back alone is never taken off the queue: a buffer with
    no range but this node's is dropped before the queue is looked at, so the next
    buffer that does carry another node's updates together with a later batch of
    this node finds the old batch at the front and the sequence [CHECK] stops the
    process. *)
Lemma own_only_buffer_keeps_batch `{UnorderedIter} t ptr it recv1 a1 recv2 a2 s mine am r r2 rest :
  0 < num_expected_propagators_ cfg ->
  arrives t ptr it recv1 a1 s -> a_get_range a1 my = Some r -> foreign my (ab_slots a1) = None ->
  my_updates s !! t = Some (mine :: rest) -> own_batch mine am r ->
  arrives t ptr it recv2 a2 s -> a_get_range a2 my = Some r2 -> is_Some (foreign my (ab_slots a2)) ->
  st_ r <= end_ r < st_ r2 ->
  thread_loop cfg [EvNet (NetBuffer t (to_bytes recv1))] s = Ok (Continue, s) /\
  thread_loop cfg [EvNet (NetBuffer t (to_bytes recv1)); EvNet (NetBuffer t (to_bytes recv2))] s =
    Fault CheckFailed.
Proof.
  intros Hexp Har1 _ Ho1 Hq [Hm Hum Hne Hg] Har2 Hget2 [o Ho2] Hlt.
  assert (handle_update_buffer cfg t (to_bytes recv1) s = Ok (Continue, s)) as H1.
  { destruct (handle_update_buffer_open t ptr it recv1 a1 s Har1) as (? & ? & _ & ->). by rewrite Ho1. }
  assert (handle_update_buffer cfg t (to_bytes recv2) s = Fault CheckFailed) as H2.
  { destruct (handle_update_buffer_open t ptr it recv2 a2 s Har2) as (recv0 & j & Hr0 & ->). rewrite Ho2.
    unfold dedup. rewrite (GetNodeRange_refines _ _ my Hr0).
    change (a_get_range (a_with_niter a2 (Some j)) my) with (a_get_range a2 my). rewrite Hget2.
    cbn [mbind res_bind]. rewrite Hq. cbn [length dedup_loop].
    rewrite (GetNodeRange_refines _ _ my Hm), Hg. cbn [mbind res_bind].
    destruct (Contains r2 r); cbn [CHECK mbind res_bind]; [|done].
    rewrite (proj2 (Z.eqb_neq (st_ r) (st_ r2))) by lia. done. }
  assert (forall b es, thread_loop cfg (EvNet (NetBuffer t b) :: es) s =
    ('(fl, s) ← handle_update_buffer cfg t b s; if fl : bool then Ok (Exit, s) else thread_loop cfg es s)) as Hloop.
  { intros b es. simpl. unfold turn, loop_turn. rewrite (proj2 (Z.ltb_lt _ _) Hexp). simpl.
    by destruct (handle_update_buffer cfg t b s) as [[fl s']| |]. }
  split; rewrite Hloop, H1; cbn [mbind res_bind]; [done|]. by rewrite Hloop, H2.
Qed.

(** The application's callback is never set: for a table made with
    [do_user_cbk], whatever callback its configuration names, the first buffer of
    another node's updates makes the receiver call through a member the constructor
    has not initialised. *)
Theorem user_callback_uninitialised t ptr it recv a s tc p :
  arrives t ptr it recv a s -> is_Some (foreign my (ab_slots a)) -> a_get_range a my = None ->
  cfg_do_user_cbk_ tc = true -> same_config (set_propagator (InternalTable_ctor t tc) p) it ->
  handle_update_buffer cfg t (to_bytes recv) s = Fault Uninitialised.
Proof.
  intros Har [o Ho] Hget Hcbk Hctor.
  destruct (handle_update_buffer_open t ptr it recv a s Har) as (recv' & j & Hr' & ->). rewrite Ho.
  destruct Har as [Hr Hus Hnd Hp Hrun Hdir Hheap Hw Hsub Hmy].
  unfold dedup. rewrite (GetNodeRange_refines _ _ my Hr').
  change (a_get_range (a_with_niter a (Some j)) my) with (a_get_range a my). rewrite Hget. cbn [mbind res_bind].
  unfold deliver, get_apply_updates, get_do_user_cbk, get_update_buff_cbk, get_vsize.
  assert (do_user_cbk_ it = true /\ update_buff_cbk_ it = None) as [-> ->] by (rewrite <- Hctor; done).
  rewrite (tw_size _ Hw), Nat2Z.id. destruct (apply_updates_ it); [|done].
  destruct (for_updates_visits_aux (fun k d it => IncRaw it k d) recv' _ it Hr') as (recv2 & Hfor & _).
  simpl in Hfor. rewrite Hus in Hfor. rewrite Hfor.
  destruct (apply_updates_spec (ab_ups a) it Hw) as (it' & -> & _); [|done].
  pose proof (r_ups _ _ Hr) as Hok. eapply List.Forall_impl; [|exact Hok]. intros u [_ Hl]. congruence.
Qed.
End props.

(** ** A concrete node *)

(** Node [my] with one upstream node and one loop table of integers. *)
Definition demo_recv_cfg (my : Z) : ReceiverThrInfo :=
  mkReceiverThrInfo my (mkNodeInfo my "10.0.0.3" "9000" "10.0.0.3" "9001") 1.
Definition demo_recv_obj : RecvObj := mkRecvObj RUN None None {[ 0 := 1 ]}.
Definition demo_recv_state (it : InternalTable) (queue : list UpdateBuffer) : RecvThr :=
  mkRecvThr demo_recv_obj {[ 1 := it ]} {[ 0 := queue ]} {[ 5 := mkPeerPropagatorInfo true false ]}
    false false [].

Definition demo_own (st en : Z) : list buf_op := [OpAppend 7 (demo_delta Byte.x01); OpUpdateRange 3 st en].
Definition demo_abuf (ops : list buf_op) : abuf := (a_run ops (a_create 4 2 3)).2.

Lemma demo_repr ops : ops_pre (a_create 4 2 3) ops -> exists ub, repr ub (demo_abuf ops).
Proof. intros Hp. destruct demo_buffer as (ub & _ & Hr). exact (filled_by _ _ _ Hr Hp). Qed.

Lemma demo_own_pre st en : is_i64 st -> is_i64 en -> ops_pre (a_create 4 2 3) (demo_own st en).
Proof. intros. simpl. unfold is_i32, is_i64 in *. repeat split; (lia || done). Qed.

Lemma demo_arrives my it q ub :
  0 <= my -> repr ub (demo_abuf demo_fill) -> table_wf (n := 4) (vadd := IntAdd) it -> vsub_func_ it = Some IntSub ->
  arrives (n := 4) (vadd := IntAdd) (vsub := IntSub) (demo_recv_cfg my) 0 1 it ub (demo_abuf demo_fill)
    (demo_recv_state it q).
Proof.
  intros Hmy Hr Hw Hsub. split; try done.
  - apply (bool_decide_unpack _). by vm_compute.
  - exists [(3, mkRange 0 4); (5, mkRange 2 9)], 1%nat. split; [done|]. split.
    + apply (bool_decide_unpack _). by vm_compute.
    + repeat constructor; simpl; lia.
Qed.

Lemma demo_own_arrives it q ub st en :
  repr ub (demo_abuf (demo_own st en)) -> table_wf (n := 4) (vadd := IntAdd) it -> vsub_func_ it = Some IntSub ->
  arrives (n := 4) (vadd := IntAdd) (vsub := IntSub) (demo_recv_cfg 3) 0 1 it ub (demo_abuf (demo_own st en))
    (demo_recv_state it q).
Proof.
  intros Hr Hw Hsub. split; try done.
  - apply NoDup_singleton.
  - exists [(3, mkRange st en)], 2%nat. split; [done|]. split; [apply NoDup_singleton|].
    repeat constructor; simpl; lia.
Qed.

Lemma demo_own_batch ub st en :
  repr ub (demo_abuf (demo_own st en)) ->
  own_batch (n := 4) (demo_recv_cfg 3) ub (demo_abuf (demo_own st en)) (mkRange st en).
Proof. intros Hr. by split. Qed.

Lemma demo_keys st en : (ab_ups (demo_abuf (demo_own st en))).*1 ⊆ (ab_ups (demo_abuf demo_fill)).*1.
Proof. intros x Hx. vm_compute in Hx |- *. set_solver. Qed.

(** Key 7 came back with this node's 1 and nothing else, key -2 with another
    node's 2: the table is left at 0 and 2. *)
Lemma own_updates_removed_witness :
  exists recv mine it' s',
    handle_update_buffer (demo_recv_cfg 3) 0 (to_bytes recv) (demo_recv_state demo_table [mine]) =
      Ok (Continue, s') /\
    heap s' !! 1 = Some it' /\ my_updates s' !! 0 = Some [] /\
    value_of (n := 4) it' 7 = demo_bytes 0 /\ value_of (n := 4) it' (-2) = demo_bytes 2.
Proof.
  destruct (demo_repr demo_fill demo_fill_pre) as [recv Hr].
  destruct (demo_repr (demo_own 0 4)) as [mine Hm]; [apply demo_own_pre; unfold is_i64; lia|].
  destruct (own_updates_removed (n := 4) (vadd := IntAdd) (vsub := IntSub) (demo_recv_cfg 3) 0 1 demo_table recv (demo_abuf demo_fill)
    (demo_recv_state demo_table [mine]) mine (demo_abuf (demo_own 0 4)) (mkRange 0 4) []
    (fun k => if decide (k = 7) then [] else [demo_bytes 2]))
    as (recv' & it' & s' & Hh & (_ & _ & Hv) & Hheap & Hq & _).
  - apply demo_arrives; [lia|exact Hr|exact demo_table_wf|reflexivity].
  - by eexists.
  - reflexivity.
  - apply demo_own_batch, Hm.
  - reflexivity.
  - apply demo_keys.
  - reflexivity.
  - intros k d Hin. vm_compute in Hin. apply elem_of_cons in Hin as [[= -> ->]|Hin];
      [split; [constructor|by vm_compute]|].
    apply list_elem_of_singleton in Hin as [= -> ->]. split; [repeat constructor|by vm_compute].
  - exists recv, mine, it', s'. split; [exact Hh|]. rewrite Hheap, Hq, !Hv.
    split_and!; [reflexivity|reflexivity|by vm_compute|by vm_compute].
Defined.

Lemma foreign_updates_delivered_witness :
  exists recv s' recv', handle_update_buffer (demo_recv_cfg 4) 0 (to_bytes recv) (demo_recv_state demo_table []) =
      Ok (Continue, s') /\
    out s' = [ToPropBuffer 0 recv'] /\
    collect_updates 4 recv' = Ok [(7, demo_delta Byte.x01); (-2, demo_delta Byte.x02)].
Proof.
  destruct (demo_repr demo_fill demo_fill_pre) as [recv Hr].
  destruct (foreign_updates_delivered (n := 4) (vadd := IntAdd) (vsub := IntSub) (demo_recv_cfg 4) 0 1 demo_table recv (demo_abuf demo_fill)
    (demo_recv_state demo_table [])) as (recv' & it' & s' & Hh & _ & _ & _ & Hout & Hcol & _).
  - apply demo_arrives; [lia|exact Hr|exact demo_table_wf|reflexivity].
  - by eexists.
  - reflexivity.
  - reflexivity.
  - exists recv, s', recv'. split; [exact Hh|]. split; [exact Hout|exact Hcol].
Defined.

Lemma merged_batches_abort_witness :
  exists recv mine1 mine2, handle_update_buffer (demo_recv_cfg 3) 0 (to_bytes recv)
    (demo_recv_state demo_table [mine1; mine2]) = Fault CheckFailed.
Proof.
  destruct (demo_repr demo_fill demo_fill_pre) as [recv Hr].
  destruct (demo_repr (demo_own 0 2)) as [mine1 Hm1]; [apply demo_own_pre; unfold is_i64; lia|].
  destruct (demo_repr (demo_own 3 4)) as [mine2 Hm2]; [apply demo_own_pre; unfold is_i64; lia|].
  exists recv, mine1, mine2.
  apply (merged_batches_abort (n := 4) (vadd := IntAdd) (vsub := IntSub) (demo_recv_cfg 3) 0 1 demo_table recv (demo_abuf demo_fill)
    (demo_recv_state demo_table [mine1; mine2]) mine1 (demo_abuf (demo_own 0 2)) (mkRange 0 2)
    mine2 (demo_abuf (demo_own 3 4)) (mkRange 3 4) (mkRange 0 4) []);
    [apply demo_arrives; [lia|exact Hr|exact demo_table_wf|reflexivity]
    |by eexists|reflexivity|reflexivity|apply demo_own_batch, Hm1|apply demo_own_batch, Hm2|apply demo_keys
    |simpl; lia..].
Defined.

Lemma own_only_buffer_keeps_batch_witness :
  exists recv1 recv2 mine,
    thread_loop (H := gmap_order) (demo_recv_cfg 3)
      [EvNet (NetBuffer 0 (to_bytes recv1)); EvNet (NetBuffer 0 (to_bytes recv2))]
      (demo_recv_state demo_table [mine]) = Fault CheckFailed.
Proof.
  destruct (demo_repr demo_fill demo_fill_pre) as [recv2 Hr2].
  destruct (demo_repr (demo_own (-3) (-1))) as [mine Hm]; [apply demo_own_pre; unfold is_i64; lia|].
  exists mine, recv2, mine.
  apply (own_only_buffer_keeps_batch (n := 4) (vadd := IntAdd) (vsub := IntSub) (H := gmap_order) (demo_recv_cfg 3) 0 1 demo_table mine (demo_abuf (demo_own (-3) (-1)))
    recv2 (demo_abuf demo_fill) (demo_recv_state demo_table [mine]) mine (demo_abuf (demo_own (-3) (-1)))
    (mkRange (-3) (-1)) (mkRange 0 4) []);
    [simpl; lia|apply demo_own_arrives; [exact Hm|exact demo_table_wf|reflexivity]
    |reflexivity|reflexivity|reflexivity|apply demo_own_batch, Hm
    |apply demo_arrives; [lia|exact Hr2|exact demo_table_wf|reflexivity]
    |reflexivity|by eexists|simpl; lia].
Defined.

Definition demo_cbk_config : TableConfig := mkTableConfig 4 (Some IntAdd) (Some IntSub) true true true true 77.

Lemma user_callback_uninitialised_witness :
  exists recv, handle_update_buffer (demo_recv_cfg 4) 0 (to_bytes recv)
    (demo_recv_state (set_propagator (InternalTable_ctor 0 demo_cbk_config) HPropagator) []) = Fault Uninitialised.
Proof.
  destruct (demo_repr demo_fill demo_fill_pre) as [recv Hr]. exists recv.
  apply (user_callback_uninitialised (n := 4) (vadd := IntAdd) (vsub := IntSub) (demo_recv_cfg 4) 0 1
    (set_propagator (InternalTable_ctor 0 demo_cbk_config) HPropagator) recv (demo_abuf demo_fill) _
    demo_cbk_config HPropagator);
    [apply demo_arrives; [lia|exact Hr|split; [done..|apply map_Forall_empty]|reflexivity]
    |by eexists|reflexivity|reflexivity|reflexivity].
Defined.
