(* ===== verification/ReceiverTerm.v ===== *)
(** How the receiver thread starts and ends: its handshake with the upstream
    propagators, and the shut-down of a node with and without upstream
    neighbours. *)
From S2P Require Import Prelude Common MemStruct ValueOps Protocol InternalTable Receiver.

(** ** The handshake *)

Definition sends (s : RecvThr) (l : list RecvOut) : RecvThr :=
  mkRecvThr (obj s) (heap s) (my_updates s) (peer_prop_info s) (have_received_prop_pair_term s)
    (have_replied_prop_pair_term s) (out s ++ l).

Lemma sends_nil s : sends s [] = s.
Proof. unfold sends. rewrite app_nil_r. by destruct s. Qed.
Lemma sends_cons s m l : sends s (m :: l) = sends (send s m) l.
Proof. unfold sends, send. simpl. by rewrite <- app_assoc. Qed.
Lemma sends_app s l1 l2 : sends s (l1 ++ l2) = sends (sends s l1) l2.
Proof. unfold sends. simpl. by rewrite <- app_assoc. Qed.

Lemma drain_ackacks_iff want : forall l w rem,
  drain_ackacks want l = Ok (w, rem) <->
  (w = 0%nat /\ exists nodes, length nodes = want /\ l = (NetInitAckAck <$> nodes) ++ rem) \/
  (rem = [] /\ exists nodes, l = NetInitAckAck <$> nodes /\ (w + length nodes)%nat = want /\ w <> 0%nat).
Proof.
  induction want as [|want IH]; intros l w rem; simpl.
  - split.
    + intros [= <- <-]. left. split; [done|]. by exists [].
    + intros [[-> ([|] & Hn & ->)]|[-> (nodes & -> & Hn & Hw)]]; [done|done|lia].
  - destruct l as [|m l].
    + split.
      * intros [= <- <-]. right. split; [done|]. exists []. simpl. split_and!; [done|lia|done].
      * intros [[-> ([|] & Hn & Hl)]|[-> ([|] & Hl & Hn & Hw)]]; simpl in *; try done.
        do 2 f_equal. lia.
    + assert ((exists q, m = NetInitAckAck q /\ drain_ackacks want l = Ok (w, rem)) <->
        match m with NetInitAckAck _ => drain_ackacks want l | _ => Fault CheckFailed end = Ok (w, rem)) as <-.
      { split; [by intros (q & -> & ?)|]. destruct m; try done. intros ?. by exists node. }
      split.
      * intros (q & -> & [[-> (nodes & Hn & ->)]|[-> (nodes & -> & Hn & Hw)]]%IH).
        -- left. split; [done|]. exists (q :: nodes). simpl. by rewrite Hn.
        -- right. split; [done|]. exists (q :: nodes). simpl. split_and!; [done|lia|done].
      * intros [[-> ([|q nodes] & Hn & Hl)]|[-> ([|q nodes] & Hl & Hn & Hw)]]; simplify_eq/=;
          exists q; (split; [done|]); apply IH; [left|right]; (split; [done|]); exists nodes; [done|].
        split_and!; [done|lia|done].
Qed.

(** [m] waits, in which exactly [want] replies are read. *)
Definition replies_in (want m : nat) (rounds : list (list NetIn)) (rem : list NetIn) : Prop :=
  (0 < m <= length rounds)%nat /\ (length (concat (take (m - 1) rounds)) < want)%nat /\
  exists nodes extra, length nodes = want /\
    concat (take m rounds) = (NetInitAckAck <$> nodes) ++ extra /\ rem = extra ++ concat (drop m rounds).

Lemma replies_in_first want round rounds rem :
  replies_in want 1 (round :: rounds) rem <->
  exists nodes extra, (0 < want)%nat /\ length nodes = want /\
    round = (NetInitAckAck <$> nodes) ++ extra /\ rem = extra ++ concat rounds.
Proof.
  unfold replies_in. simpl. rewrite ?take_0, ?drop_0, app_nil_r. split.
  - intros (_ & Hw & nodes & extra & Hn & Hr & ->). by exists nodes, extra.
  - intros (nodes & extra & Hw & Hn & Hr & ->). split; [lia|]. split; [done|]. by exists nodes, extra.
Qed.

Lemma replies_in_later want m round rounds rem :
  (0 < m)%nat ->
  replies_in want (S m) (round :: rounds) rem <->
  exists nodes w, round = NetInitAckAck <$> nodes /\ (w + length nodes)%nat = want /\ w <> 0%nat /\
    replies_in w m rounds rem.
Proof.
  intros Hm. unfold replies_in. simpl. destruct m as [|m]; [lia|]. simpl. rewrite Nat.sub_0_r, length_app. split.
  - intros (Hlen & Hlt & nodes & extra & Hn & Hc & ->).
    destruct (decide (length round <= length nodes)%nat) as [Hle|]; [|lia].
    apply app_eq_inv in Hc as [(k & Hk & Hc)|(k & Hk & Hc)].
    + assert (k = []) as -> by (destruct k; [done|]; apply (f_equal length) in Hk;
        rewrite length_app, length_fmap in Hk; simpl in Hk; lia).
      rewrite app_nil_r in Hk. subst round. rewrite length_fmap in Hlt. lia.
    + apply fmap_app_inv in Hk as (n1 & n2 & -> & -> & ->).
      rewrite length_app in *. rewrite length_fmap in Hlt.
      exists n1, (length n2). split; [done|]. split; [lia|]. split; [lia|].
      split; [lia|]. split; [lia|]. exists n2, extra. done.
  - intros (nodes & w & -> & <- & Hw & Hlen & Hlt & n2 & extra & Hn & Hc & ->).
    rewrite length_fmap. split; [lia|]. split; [lia|]. exists (nodes ++ n2), extra.
    rewrite length_app, fmap_app, Hn, Hc, <- app_assoc. split; [lia|]. done.
Qed.

Lemma ack_rounds_step want pending round rounds s :
  want <> 0%nat ->
  ack_rounds want pending (round :: rounds) s =
    ('(w, rem) ← drain_ackacks want (pending ++ round); ack_rounds w rem rounds (send s (Publish PropInitACK))).
Proof. by destruct want. Qed.

Lemma ack_rounds_iff rounds : forall want s s' rem,
  want <> 0%nat ->
  ack_rounds want [] rounds s = Ok (s', rem) <->
  exists m, replies_in want m rounds rem /\ s' = sends s (replicate m (Publish PropInitACK)).
Proof.
  induction rounds as [|round rounds IH]; intros want s s' rem Hw.
  { destruct want; [done|]. simpl. split; [done|]. intros (m & (Hm & _) & _). simpl in Hm. lia. }
  rewrite ack_rounds_step by done. simpl. split.
  - intros Hr. apply bind_Ok in Hr as ([w r] & Hd & Hr).
    apply drain_ackacks_iff in Hd as [[-> (nodes & Hn & ->)]|[-> (nodes & -> & Hn & Hw0)]].
    + destruct rounds; simpl in Hr; injection Hr as <- <-; exists 1%nat;
        (split; [apply replies_in_first; exists nodes, r; split_and!; [lia|done..]|simpl; by rewrite sends_cons, sends_nil]).
    + apply IH in Hr as (m & Hrep & ->); [|done]. exists (S m). split.
      * apply replies_in_later; [apply Hrep|]. exists nodes, w. done.
      * by rewrite <- sends_cons.
  - intros (m & Hrep & ->). destruct m as [|[|m]]; [by destruct Hrep as [? _]; lia|..].
    + apply replies_in_first in Hrep as (nodes & extra & _ & Hn & -> & ->).
      rewrite (proj2 (drain_ackacks_iff want _ 0%nat extra)) by (left; eauto). simpl.
      rewrite sends_cons, sends_nil. by destruct rounds.
    + apply replies_in_later in Hrep as (nodes & w & -> & Hn & Hw0 & Hrep); [|lia].
      rewrite (proj2 (drain_ackacks_iff want _ w [])) by (right; eauto). simpl.
      apply IH; [done|]. exists (S m). split; [done|]. by rewrite <- sends_cons.
Qed.

(** The records made for the announced propagators. *)
Definition announced (ids : list Z) (m : gmap Z PeerPropagatorInfo) : gmap Z PeerPropagatorInfo :=
  fold_left (fun m id => <[id := mkPeerPropagatorInfo true false]> m) ids m.

Lemma collect_inits_spec ids : forall s,
  collect_inits (length ids) (NetInit <$> ids) s =
    Ok (set_peer_prop_info s (announced ids (peer_prop_info s)), []).
Proof.
  induction ids as [|id ids IH]; intros s; simpl; [by destruct s|]. by rewrite IH.
Qed.

Section control.
Context `{UnorderedIter} (cfg : ReceiverThrInfo).

(** The receiver's side of the handshake: after one PropInit from each of the
    expected propagators the thread completes exactly when, within some number of
    waits, that many acknowledgements have been read and no wait before had brought
    enough; it has then published PropInitACK once per wait and PropStart once,
    keeps a record for each announced node, and whatever arrived after the last
    acknowledgement is left for the loop. *)
Lemma handshake_completes_iff ids rounds r h s' rem :
  num_expected_propagators_ cfg = Z.of_nat (length ids) -> ids <> [] ->
  thread_handshake cfg (NetInit <$> ids) rounds (thread_init r h) = Ok (s', rem) <->
  exists m, replies_in (length ids) m rounds rem /\
    s' = mkRecvThr (set_state r RUN) h ∅ (announced ids ∅) false false
           ([ToPairInit] ++ replicate m (Publish PropInitACK) ++ [Publish PropStart]).
Proof.
  intros Hn Hne. assert (length ids <> 0%nat) as Hl by by destruct ids.
  unfold thread_handshake. rewrite Hn, (proj2 (Z.ltb_lt _ _)), Nat2Z.id, collect_inits_spec by lia.
  cbn [mbind res_bind]. set (s1 := set_peer_prop_info _ _).
  split.
  - intros Hr. apply bind_Ok in Hr as ([s2 rem2] & Hr & Heq). injection Heq as <- <-.
    apply bind_Ok in Hr as ([s3 rem3] & Hr & Heq). injection Heq as <- <-.
    apply ack_rounds_iff in Hr as (m & Hrep & ->); [|done]. exists m. split; [done|].
    unfold s1, sends, send, set_thr_state, set_obj. simpl. by rewrite <- ?app_assoc.
  - intros (m & Hrep & ->).
    rewrite (proj2 (ack_rounds_iff rounds _ s1 (sends s1 (replicate m (Publish PropInitACK))) rem Hl)) by eauto.
    cbn [mbind res_bind]. unfold s1, sends, send, set_thr_state, set_obj. simpl. by rewrite <- ?app_assoc.
Qed.

(** ** The loop after the own termination signal *)

Lemma all_replied_iff (l : list (Z * PeerPropagatorInfo)) :
  all_replied l = true <-> forall p, p ∈ l -> has_replied_termination_ p.2 = true.
Proof.
  induction l as [|p l IH]; simpl; [set_solver|]. destruct (has_replied_termination_ p.2) eqn:E; simpl.
  - rewrite IH. split; intros Ha q; [intros [->|Hq]%elem_of_cons; auto|intros Hq; apply Ha; by right].
  - split; [done|]. intros Ha. rewrite <- E. apply Ha. by left.
Qed.

Lemma HasAllPeersAckedTerm_iff m :
  HasAllPeersAckedTerm m = true <-> forall q i, m !! q = Some i -> has_replied_termination_ i = true.
Proof.
  unfold HasAllPeersAckedTerm. rewrite all_replied_iff. split.
  - intros Ha q i Hi. apply (Ha (q, i)). by apply iter_order_elem.
  - intros Ha [q i] Hi%iter_order_elem. by apply (Ha q).
Qed.

(** The propagators that have not acknowledged the termination yet. *)
Definition waiting_for (s : RecvThr) (q : Z) : Prop :=
  exists i, peer_prop_info s !! q = Some i /\ has_replied_termination_ i = false.
Definition finished (s : RecvThr) : Prop := have_replied_prop_pair_term s = true /\ forall q, ~ waiting_for s q.

Lemma done_dec s : HasAllPeersAckedTerm (peer_prop_info s) && have_replied_prop_pair_term s = true <-> finished s.
Proof.
  rewrite andb_true_iff, HasAllPeersAckedTerm_iff. unfold finished, waiting_for. split.
  - intros [Ha Hr]. split; [done|]. intros q (i & Hi & Hf). apply Ha in Hi. congruence.
  - intros [Hr Ha]. split; [|done]. intros q i Hi. destruct (has_replied_termination_ i) eqn:E; [done|].
    destruct (Ha q). by exists i.
Qed.

Lemma exit_if_done_spec s :
  (finished s /\ exit_if_done s = (Exit, set_thr_state s TERM)) \/ (~ finished s /\ exit_if_done s = (Continue, s)).
Proof.
  unfold exit_if_done. pose proof (done_dec s) as Hd. case_match; [left|right]; split; try done; [by apply Hd|].
  intros Hn%Hd. congruence.
Qed.

(** Messages that can still arrive then. *)
Definition late_event (e : recv_event) : Prop :=
  match e with
  | EvInternal (InMyUpdates _ _) | EvInternal (InRecv EPRInternalTerminate) => True
  | EvNet (NetBuffer _ b) => 0 < Z.of_nat (length b) < 2147483648
  | EvNet (NetTermAck _) => True
  | _ => False
  end.
(** Acknowledgements, to the paired propagator. *)
Definition is_ack (m : RecvOut) : Prop := m = ToPairAck \/ m = ToPropTermAck.

(** [s'] is [s] after late messages: the tables are untouched and nothing but
    acknowledgements was sent. *)
Definition quiet (s s' : RecvThr) : Prop :=
  heap s' = heap s /\ exists l, out s' = out s ++ l /\ Forall is_ack l.

Lemma quiet_refl s : quiet s s.
Proof. split; [done|]. exists []. by rewrite app_nil_r. Qed.
Lemma quiet_trans s1 s2 s3 : quiet s1 s2 -> quiet s2 s3 -> quiet s1 s3.
Proof.
  intros [Hh1 (l1 & Ho1 & Ha1)] [Hh2 (l2 & Ho2 & Ha2)]. split; [congruence|]. exists (l1 ++ l2).
  split; [by rewrite Ho2, Ho1, <- app_assoc|]. by apply Forall_app.
Qed.
Lemma quiet_send s m : is_ack m -> quiet s (send s m).
Proof. intros Hm. split; [done|]. exists [m]. split; [done|]. by constructor. Qed.

(** One late message: what it changes of the termination protocol. *)
Lemma late_turn e s :
  0 < num_expected_propagators_ cfg -> state_ (obj s) = TERM_SELF -> late_event e ->
  exists s1, quiet s s1 /\ state_ (obj s1) = TERM_SELF /\
    (have_replied_prop_pair_term s1 = true <->
       have_replied_prop_pair_term s = true \/ e = EvInternal (InRecv EPRInternalTerminate)) /\
    (forall q, waiting_for s1 q <-> waiting_for s q /\ e <> EvNet (NetTermAck q)) /\
    ((~ finished s1 \/ finished s) /\ turn cfg e s = Ok (Continue, s1) \/
     finished s1 /\ turn cfg e s = Ok (Exit, set_thr_state s1 TERM)).
Proof.
  intros Hexp Hst He. unfold turn, loop_turn. destruct e as [[t b|[]]|[ | |t b|q| ]]; try done; simpl.
  - exists (send s ToPairAck). unfold handle_my_updates. rewrite decide_False by congruence.
    split; [apply quiet_send; by left|]. split_and!; [done|naive_solver|naive_solver|].
    left. split; [|done]. destruct (exit_if_done_spec s) as [[? _]|[? _]]; [by right|by left].
  - unfold handle_pair_terminate. rewrite Hst. set (s1 := set_replied_pair_term _ true).
    exists s1. split; [apply (quiet_send s ToPropTermAck); by right|].
    split_and!; [done|naive_solver|naive_solver|].
    destruct (exit_if_done_spec s1) as [[Hd ->]|[Hd ->]]; [by right|left]. split; [by left|done].
  - rewrite (proj2 (Z.ltb_lt _ _) Hexp). unfold handle_net, handle_update_buffer. simpl in He.
    rewrite wrap_i32_id, (proj2 (Z.ltb_lt _ _)) by (unfold is_i32; lia).
    cbn [CHECK mbind res_bind]. rewrite decide_True by congruence. simpl.
    exists s. split; [apply quiet_refl|]. split_and!; [done|naive_solver|naive_solver|].
    left. split; [|done]. destruct (exit_if_done_spec s) as [[? _]|[? _]]; [by right|by left].
  - rewrite (proj2 (Z.ltb_lt _ _) Hexp). unfold handle_net, handle_terminate_ack. cbn [mbind res_bind].
    set (s1 := set_peer_prop_info s _).
    exists s1. split; [split; [done|]; exists []; by rewrite app_nil_r|]. split; [done|]. split; [naive_solver|].
    split.
    + intros p. unfold waiting_for, s1. simpl. destruct (decide (p = q)) as [->|Hne].
      * rewrite lookup_insert_eq. split; [intros (i & [= <-] & ?); done|by intros [_ ?]].
      * rewrite lookup_insert_ne by done. split; [|by intros [? _]]. intros ?. split; [done|]. by intros [= ->].
    + destruct (exit_if_done_spec s1) as [[Hd ->]|[Hd ->]]; [by right|left]. split; [by left|done].
Qed.

Lemma late_run es : forall s,
  0 < num_expected_propagators_ cfg -> state_ (obj s) = TERM_SELF -> Forall late_event es -> ~ finished s ->
  (have_replied_prop_pair_term s = true \/ EvInternal (InRecv EPRInternalTerminate) ∈ es) ->
  (forall q, waiting_for s q -> EvNet (NetTermAck q) ∈ es) ->
  exists s', thread_loop cfg es s = Ok (Exit, s') /\ state_ (obj s') = TERM /\ quiet s s'.
Proof.
  induction es as [|e es IH]; intros s Hexp Hst Hev Hnf Hrep Hack.
  - destruct Hnf. split; [|intros q Hq; by apply Hack, not_elem_of_nil in Hq].
    destruct Hrep as [|Hin]; [done|]. by apply not_elem_of_nil in Hin.
  - apply Forall_cons in Hev as [He Hev].
    destruct (late_turn e s Hexp Hst He) as (s1 & Hq1 & Hst1 & Hrep1 & Hw1 & Hturn). simpl.
    destruct Hturn as [[Hnf1 ->]|[_ ->]]; simpl.
    + destruct (IH s1 Hexp Hst1 Hev) as (s' & -> & Hst' & Hq').
      * by destruct Hnf1.
      * rewrite Hrep1. destruct Hrep as [?|[?|?]%elem_of_cons]; auto.
      * intros q [Hq Hne]%Hw1. by destruct (proj1 (elem_of_cons es _ e) (Hack q Hq)).
      * exists s'. split; [done|]. split; [done|]. by eapply quiet_trans.
    + eexists. split; [done|]. split; [done|]. eapply quiet_trans; [exact Hq1|].
      split; [done|]. exists []. by rewrite app_nil_r.
Qed.

Lemma own_signal_turn s :
  0 < num_expected_propagators_ cfg ->
  exists s1 l, turn cfg (EvInternal (InRecv ERInternalTerminate)) s = Ok (Continue, s1) /\
    state_ (obj s1) = TERM_SELF /\ peer_prop_info s1 = peer_prop_info s /\ heap s1 = heap s /\
    (have_received_prop_pair_term s = true -> have_replied_prop_pair_term s1 = true) /\
    out s1 = out s ++ l ++ [Publish EPRTerminate] /\ Forall is_ack l.
Proof.
  intros Hexp. unfold turn, loop_turn. simpl. unfold handle_internal_terminate.
  rewrite (proj2 (Z.ltb_lt _ _) Hexp). simpl. destruct (have_received_prop_pair_term s).
  - eexists _, [ToPropTermAck]. split; [done|]. simpl. split_and!; try done; [by rewrite <- app_assoc|].
    constructor; [by right|constructor].
  - eexists _, []. by split_and!.
Qed.

(** C12. Shut-down of a node with upstream neighbours. From the moment the thread
    reads the application's signal it tells its upstream propagators to stop, and
    whatever order the remaining messages come in - late batches of this node, late
    buffers, the signal of the paired propagator, the acknowledgements - it returns
    as soon as the paired propagator has signalled and every propagator has
    acknowledged. On the way no table changes and nothing is sent but
    acknowledgements and that one EPRTerminate. *)
Theorem receiver_shutdown s es :
  0 < num_expected_propagators_ cfg -> (exists q, waiting_for s q) -> Forall late_event es ->
  (have_received_prop_pair_term s = true \/ EvInternal (InRecv EPRInternalTerminate) ∈ es) ->
  (forall q, waiting_for s q -> EvNet (NetTermAck q) ∈ es) ->
  exists s' l1 l2, thread_loop cfg (EvInternal (InRecv ERInternalTerminate) :: es) s = Ok (Exit, s') /\
    state_ (obj s') = TERM /\ heap s' = heap s /\
    out s' = out s ++ l1 ++ [Publish EPRTerminate] ++ l2 /\ Forall is_ack (l1 ++ l2).
Proof.
  intros Hexp [q0 Hq0] Hev Hrep Hack.
  destruct (own_signal_turn s Hexp) as (s1 & l1 & Ht & Hst1 & Hp1 & Hh1 & Hr1 & Ho1 & Hl1).
  assert (forall q, waiting_for s1 q <-> waiting_for s q) as Hw by (intros q; unfold waiting_for; by rewrite Hp1).
  destruct (late_run es s1 Hexp Hst1 Hev) as (s' & Hl & Hst' & Hh' & l2 & Ho' & Hl2).
  - intros [_ Hn]. by apply (Hn q0), Hw.
  - destruct Hrep; auto.
  - intros q Hq%Hw. by apply Hack.
  - exists s', l1, l2. cbn [thread_loop]. rewrite Ht. cbn [mbind res_bind]. split; [done|]. split; [done|].
    split; [congruence|]. split; [rewrite Ho', Ho1, <- !app_assoc; done|]. by apply Forall_app.
Qed.

(** ** A node without upstream neighbours *)

Definition batches (l : list (Z * UpdateBuffer)) : list recv_event :=
  (fun p => EvInternal (InMyUpdates p.1 p.2)) <$> l.

Lemma batches_run l : forall s, exists s1,
  (forall es, thread_loop cfg (batches l ++ es) s = thread_loop cfg es s1) /\
  state_ (obj s1) = state_ (obj s) /\ peer_prop_info s1 = peer_prop_info s /\
  have_received_prop_pair_term s1 = have_received_prop_pair_term s /\
  have_replied_prop_pair_term s1 = have_replied_prop_pair_term s.
Proof.
  induction l as [|[t b] l IH]; intros s; [by exists s|].
  destruct (IH (handle_my_updates t b s)) as (s1 & Hes & Hst & Hp & Hr1 & Hr2). exists s1. split.
  { intros es. simpl. by rewrite <- Hes. }
  rewrite Hst, Hp, Hr1, Hr2. unfold handle_my_updates.
  case_decide; [destruct (index_ref [] (my_updates s) t)|]; done.
Qed.

(** C24. Shut-down of a node without upstream neighbours depends on which of two
    threads is faster. Once the application's signal and the paired propagator's
    have both been read, the receiver returns if the application's came first; if
    the propagator's came first it answers it but stays in its loop, and as no
    further message can reach it, the application waits for ever. *)
Theorem no_upstream_shutdown_race s l1 l2 l3 :
  num_expected_propagators_ cfg <= 0 -> state_ (obj s) = RUN -> peer_prop_info s = ∅ ->
  have_received_prop_pair_term s = false -> have_replied_prop_pair_term s = false ->
  (exists s', thread_loop cfg (batches l1 ++ EvInternal (InRecv ERInternalTerminate) ::
      batches l2 ++ EvInternal (InRecv EPRInternalTerminate) :: batches l3) s = Ok (Exit, s') /\
    state_ (obj s') = TERM) /\
  (exists s', thread_loop cfg (batches l1 ++ EvInternal (InRecv EPRInternalTerminate) ::
      batches l2 ++ EvInternal (InRecv ERInternalTerminate) :: batches l3) s = Ok (Continue, s') /\
    state_ (obj s') = TERM_SELF /\ have_replied_prop_pair_term s' = true).
Proof.
  intros Hexp Hst Hp Hrec Hrep. destruct (batches_run l1 s) as (s1 & Hl1 & Hst1 & Hp1 & Hrec1 & Hrep1).
  rewrite Hst in Hst1. rewrite Hp in Hp1. rewrite Hrec in Hrec1. rewrite Hrep in Hrep1.
  assert ((0 <? num_expected_propagators_ cfg) = false) as Hex by by apply Z.ltb_ge.
  rewrite !Hl1. cbn [thread_loop]. unfold turn, loop_turn. cbn [handle_internal mbind res_bind]. split.
  - unfold handle_internal_terminate. rewrite Hex. simpl. rewrite Hrec1.
    set (s2 := set_my_updates _ _). destruct (batches_run l2 s2) as (s3 & Hl2 & Hst3 & Hp3 & _).
    rewrite Hl2. cbn [thread_loop]. unfold turn, loop_turn.
    cbn [handle_internal mbind res_bind]. unfold handle_pair_terminate. rewrite Hst3. simpl.
    set (s4 := set_replied_pair_term _ true).
    assert (finished s4) as Hf.
    { split; [done|]. intros q (i & Hi & _). simpl in Hi. rewrite Hp3 in Hi. simpl in Hi.
      by rewrite Hp1, lookup_empty in Hi. }
    destruct (exit_if_done_spec s4) as [[_ ->]|[Hn _]]; [|done]. simpl. by eexists.
  - unfold handle_pair_terminate. rewrite Hst1. simpl.
    set (s2 := set_received_pair_term s1 true).
    destruct (batches_run l2 s2) as (s3 & Hl2 & Hst3 & Hp3 & Hrec3 & _).
    rewrite Hl2. cbn [thread_loop]. unfold turn, loop_turn. cbn [handle_internal mbind res_bind].
    unfold handle_internal_terminate. rewrite Hex. simpl. rewrite Hrec3. simpl.
    set (s4 := set_replied_pair_term _ true).
    destruct (batches_run l3 s4) as (s5 & Hl3 & Hst5 & _ & _ & Hrep5).
    specialize (Hl3 []). rewrite app_nil_r in Hl3. rewrite Hl3. simpl.
    exists s5. split; [done|]. by rewrite Hst5, Hrep5.
Qed.
End control.

(** ** Concrete runs *)

#[local] Existing Instance gmap_order.

Definition demo_node : NodeInfo := mkNodeInfo 3 "10.0.0.3" "9000" "10.0.0.3" "9001".
Definition demo_two : ReceiverThrInfo := mkReceiverThrInfo 3 demo_node 2.
Definition demo_none : ReceiverThrInfo := mkReceiverThrInfo 3 demo_node 0.

(** The first acknowledgement comes in the first wait, the second, with the first
    message for the loop behind it, in the second. *)
Lemma handshake_completes_iff_witness :
  exists s', thread_handshake demo_two (NetInit <$> [4; 5])
      [[NetInitAckAck 5]; [NetInitAckAck 4; NetTermAck 4]] (thread_init Receiver_ctor ∅) = Ok (s', [NetTermAck 4]) /\
    out s' = [ToPairInit; Publish PropInitACK; Publish PropInitACK; Publish PropStart].
Proof.
  eexists. split.
  - apply (handshake_completes_iff demo_two [4; 5] [[NetInitAckAck 5]; [NetInitAckAck 4; NetTermAck 4]]);
      [reflexivity|discriminate|]. exists 2%nat. split; [|reflexivity].
    split; [simpl; lia|]. split; [simpl; lia|]. by exists [5; 4], [NetTermAck 4].
  - reflexivity.
Defined.

Definition demo_running : RecvThr :=
  mkRecvThr (set_state Receiver_ctor RUN) ∅ ∅ (announced [4; 5] ∅) false false [].

Lemma demo_waiting q : waiting_for demo_running q <-> q = 4 \/ q = 5.
Proof.
  unfold waiting_for, demo_running, announced. simpl.
  destruct (decide (q = 4)) as [->|H4]; [|destruct (decide (q = 5)) as [->|H5]].
  - split; [auto|]. intros _. eexists. by vm_compute.
  - split; [auto|]. intros _. eexists. by vm_compute.
  - rewrite !lookup_insert_ne, lookup_empty by done. naive_solver.
Qed.

Lemma receiver_shutdown_witness :
  exists s' l1 l2, thread_loop demo_two
      [EvInternal (InRecv ERInternalTerminate); EvNet (NetTermAck 5); EvNet (NetBuffer 0 [Byte.x00]);
       EvInternal (InRecv EPRInternalTerminate); EvNet (NetTermAck 4)] demo_running = Ok (Exit, s') /\
    state_ (obj s') = TERM /\ out s' = l1 ++ [Publish EPRTerminate] ++ l2.
Proof.
  destruct (receiver_shutdown demo_two demo_running
    [EvNet (NetTermAck 5); EvNet (NetBuffer 0 [Byte.x00]); EvInternal (InRecv EPRInternalTerminate); EvNet (NetTermAck 4)])
    as (s' & l1 & l2 & Hl & Hst & _ & Hout & _).
  - simpl; lia.
  - exists 4. apply demo_waiting. by left.
  - repeat constructor; simpl; lia.
  - right. set_solver.
  - intros q [-> | ->]%demo_waiting; set_solver.
  - exists s', l1, l2. split; [exact Hl|]. split; [exact Hst|exact Hout].
Defined.

Lemma no_upstream_shutdown_race_witness :
  (exists s', thread_loop demo_none [EvInternal (InRecv ERInternalTerminate); EvInternal (InRecv EPRInternalTerminate)]
     (mkRecvThr (set_state Receiver_ctor RUN) ∅ ∅ ∅ false false []) = Ok (Exit, s')) /\
  (exists s', thread_loop demo_none [EvInternal (InRecv EPRInternalTerminate); EvInternal (InRecv ERInternalTerminate)]
     (mkRecvThr (set_state Receiver_ctor RUN) ∅ ∅ ∅ false false []) = Ok (Continue, s')).
Proof.
  destruct (no_upstream_shutdown_race demo_none (mkRecvThr (set_state Receiver_ctor RUN) ∅ ∅ ∅ false false [])
    [] [] []) as [(s1 & H1 & _) (s2 & H2 & _)]; [simpl; lia|reflexivity..|].
  split; [exists s1; exact H1|exists s2; exact H2].
Defined.
