(* ===== verification/ReceiverRun.v ===== *)
(** A receiver that is sent a sequence of blocks, none of which carries updates of
    its own: every table that applies updates ends with the sum of all of them. *)
From S2P Require Import Prelude Common MemStruct MemStructSpec Buffer ValueOps Protocol PropagatorSpec PropagatorTrace InternalTable Receiver ReceiverSpec ReceiverProps.

Section run.
Context `{UnorderedIter} (cfg : ReceiverThrInfo) (tables : gmap Z VType).
Hypothesis expected_ok : 0 < num_expected_propagators_ cfg.
Hypothesis my_id_ok : 0 <= my_id_ cfg.
Notation my := (my_id_ cfg).

Notation wf v := (table_wf (n := v_size v) (vadd := v_add v)).
Notation val v := (value_of (n := v_size v)).

(** The table [t], at its place in memory. *)
Record has_table (s : RecvThr) (t : Z) (v : VType) (ptr : Z) (it : InternalTable) : Prop := {
  ht_dir : table_dir_ (obj s) !! t = Some ptr;
  ht_heap : heap s !! ptr = Some it;
  ht_wf : wf v it;
  ht_sub : vsub_func_ it = Some (v_sub v);
  ht_cbk : do_user_cbk_ it = false
}.

(** The thread in [RUN] with the tables the application registered, each an
    object of its own. *)
Record recv_ready (s : RecvThr) : Prop := {
  rr_run : state_ (obj s) = RUN;
  rr_tables : forall t v, tables !! t = Some v -> exists ptr it, has_table s t v ptr it;
  rr_apart : forall t1 t2 ptr, table_dir_ (obj s) !! t1 = Some ptr -> table_dir_ (obj s) !! t2 = Some ptr -> t1 = t2
}.

(** A block for table [t] with updates of other nodes and none of this one. *)
Definition foreign_block (p : Z * list byte) : Prop :=
  exists v b a, tables !! p.1 = Some v /\ p.2 = to_bytes b /\ repr b a /\ ab_usize a = v_size v /\
    NoDup (ab_ups a).*1 /\ packed (ab_slots a) /\ is_Some (foreign my (ab_slots a)) /\ a_get_range a my = None.

Definition updates_in (t : Z) (l : list (Z * list byte)) : list (Z * list byte) :=
  l ≫= fun p => if decide (p.1 = t) then block_updates p.2 else [].

Lemma updates_in_ok t v l :
  tables !! t = Some v -> Forall foreign_block l -> Forall (fun u => length u.2 = v_size v) (updates_in t l).
Proof.
  intros Hv. unfold updates_in. induction 1 as [|[t' block] l Hb _ IH]; simpl; [constructor|].
  apply Forall_app. split; [|done]. case_decide as Heq; [|constructor]. simpl in Heq. subst t'.
  destruct Hb as (v' & b & a & Hv' & Hblk & Hr & Hus & _). simpl in *. assert (v' = v) as -> by congruence.
  rewrite Hblk, (block_updates_repr _ _ Hr). eapply List.Forall_impl; [|exact (r_ups _ _ Hr)].
  intros u [_ Hl]. congruence.
Qed.

Lemma deliver_block p s :
  recv_ready s -> foreign_block p ->
  exists s', turn cfg (EvNet (NetBuffer p.1 p.2)) s = Ok (Continue, s') /\ recv_ready s' /\
    forall t v ptr it, tables !! t = Some v -> has_table s t v ptr it ->
      exists it', has_table s' t v ptr it' /\ apply_updates_ it' = apply_updates_ it /\
        forall k, val v it' k =
          if apply_updates_ it
          then vplus (ValueGroup := v_group v) (val v it k) (vsum (VG := v_group v) (deltas_for k (updates_in t [p])))
          else val v it k.
Proof.
  intros Hrr (v0 & b & a & Hv0 & Hblk & Hr & Hus & Hnd & Hpk & Hf & Hget). destruct p as [t0 block]. simpl in *. subst block.
  destruct (rr_tables _ Hrr t0 v0 Hv0) as (ptr0 & it0 & [Hd0 Hh0 Hw0 Hs0 Hc0]).
  destruct (foreign_delivery (n := v_size v0) (vadd := v_add v0) (vsub := v_sub v0) cfg t0 ptr0 it0 b a s)
    as (recv' & it1 & s' & Hh & (Hw1 & Hcfg & Hval) & Hobj & Hheap & _ & _); [|done..|].
  { split; try done. apply (rr_run _ Hrr). }
  assert (turn cfg (EvNet (NetBuffer t0 (to_bytes b))) s = Ok (Continue, s')) as Ht.
  { unfold turn, loop_turn. rewrite (proj2 (Z.ltb_lt _ _) expected_ok). cbn [handle_net mbind res_bind]. by rewrite Hh. }
  assert (forall t v ptr it, tables !! t = Some v -> has_table s t v ptr it ->
    exists it', has_table s' t v ptr it' /\ apply_updates_ it' = apply_updates_ it /\
      forall k, val v it' k = if apply_updates_ it
        then vplus (ValueGroup := v_group v) (val v it k)
               (vsum (VG := v_group v) (deltas_for k (updates_in t [(t0, to_bytes b)])))
        else val v it k) as Htabs.
  { intros t v ptr it Hv [Hd Hhp Hw Hsb Hcb]. destruct (decide (t0 = t)) as [<-|Hne].
    - simplify_eq. exists it1. unfold same_config in Hcfg. split.
      + split; rewrite ?Hobj, ?Hheap; try done; [by rewrite lookup_insert_eq|by rewrite <- Hcfg..].
      + split; [by rewrite <- Hcfg|]. intros k. rewrite Hval. unfold updates_in. simpl.
        rewrite decide_True, app_nil_r by done. by rewrite (block_updates_repr _ _ Hr).
    - exists it. assert (ptr <> ptr0) as Hp by (intros ->; apply Hne; by eapply (rr_apart _ Hrr)).
      split; [split; rewrite ?Hobj, ?Hheap; try done; by rewrite lookup_insert_ne|]. split; [done|].
      intros k. unfold updates_in. simpl. rewrite decide_False by done. simpl.
      destruct (apply_updates_ it); [|done]. change (vsum (VG := v_group v) []) with (zero_bytes (v_size v)).
      symmetry. apply vp_zero_r. by apply (length_value_of (vadd := v_add v)). }
  exists s'. split; [done|]. split; [|done]. split; rewrite ?Hobj; try apply Hrr.
  intros t v Hv. destruct (rr_tables _ Hrr t v Hv) as (ptr & it & Hit).
  destruct (Htabs t v ptr it Hv Hit) as (it' & Hit' & _). eauto.
Qed.

Lemma deliver_blocks l : forall s,
  recv_ready s -> Forall foreign_block l ->
  exists s', thread_loop cfg ((fun p => EvNet (NetBuffer p.1 p.2)) <$> l) s = Ok (Continue, s') /\ recv_ready s' /\
    forall t v ptr it, tables !! t = Some v -> has_table s t v ptr it ->
      exists it', has_table s' t v ptr it' /\ apply_updates_ it' = apply_updates_ it /\
        forall k, val v it' k =
          if apply_updates_ it
          then vplus (ValueGroup := v_group v) (val v it k) (vsum (VG := v_group v) (deltas_for k (updates_in t l)))
          else val v it k.
Proof.
  induction l as [|p l IH]; intros s Hrr Hall.
  { exists s. simpl. split; [done|]. split; [done|]. intros t v ptr it Hv Hit. exists it. split; [done|]. split; [done|].
    intros k. destruct (apply_updates_ it); [|done]. change (vsum (VG := v_group v) []) with (zero_bytes (v_size v)).
    symmetry. apply vp_zero_r. apply (length_value_of (vadd := v_add v)), Hit. }
  apply Forall_cons in Hall as [Hp Hall].
  destruct (deliver_block p s Hrr Hp) as (s1 & Hturn & Hrr1 & Ht1).
  destruct (IH s1 Hrr1 Hall) as (s' & Hl & Hrr' & Ht'). exists s'.
  split; [rewrite fmap_cons; cbn [thread_loop]; rewrite Hturn; exact Hl|]. split; [done|].
  intros t v ptr it Hv Hit. destruct (Ht1 t v ptr it Hv Hit) as (it1 & Hit1 & Ha1 & Hv1).
  destruct (Ht' t v ptr it1 Hv Hit1) as (it' & Hit' & Ha' & Hv'). exists it'. split; [done|]. split; [congruence|].
  intros k. rewrite Hv', Ha1, Hv1. destruct (apply_updates_ it); [|done].
  assert (updates_in t (p :: l) = updates_in t [p] ++ updates_in t l) as ->.
  { unfold updates_in. simpl. by rewrite app_nil_r. }
  pose proof (deltas_for_length k _ (updates_in_ok t v [p] Hv ltac:(by constructor))).
  pose proof (deltas_for_length k _ (updates_in_ok t v l Hv Hall)).
  rewrite deltas_for_app, vsum_app by done. symmetry. apply vplus_assoc; [|by apply length_vsum..].
  apply (length_value_of (vadd := v_add v)), Hit.
Qed.
End run.
