(* ===== verification/System.v ===== *)
(** Two nodes joined: the propagator thread of one and the receiver thread of its
    downstream neighbour, with the blocks the first sends fed to the second in the
    order the socket delivers them. *)
From S2P Require Import Prelude Common MemStruct MemStructSpec Buffer ValueOps Protocol Propagator PropagatorSpec PropagatorTrace PropagatorRun PropagatorProps PropagatorLocal InternalTable Receiver ReceiverSpec ReceiverProps ReceiverRun.

(** The buffers among the messages a propagator sends, by table. *)
Definition wire (o : list Propagator.PropOut) : list (Z * list byte) :=
  o ≫= fun m => match m with
    | Propagator.ToDownstream h block => [(epub_table_id h, block)]
    | _ => []
    end.
Definition arriving (o : list Propagator.PropOut) : list recv_event :=
  (fun p => EvNet (NetBuffer p.1 p.2)) <$> wire o.

Lemma wire_updates t o : updates_in t (wire o) = shipped_updates t o.
Proof.
  unfold updates_in, wire, shipped_updates. induction o as [|m o IH]; [done|].
  rewrite !bind_cons, bind_app, IH. f_equal. destruct m; try done. cbn. by rewrite app_nil_r.
Qed.

Section link.
Context `{Allocator} `{UnorderedIter} (up : Propagator.PropagatorThrInfo) (down : ReceiverThrInfo)
  (tables : gmap Z VType).
Hypothesis ids_differ : my_id_ down <> Propagator.my_id_ up.
Hypothesis up_id_ok : 0 <= Propagator.my_id_ up.

Lemma own_block_foreign h block :
  own_block up tables (Propagator.ToDownstream h block) -> foreign_block down tables (epub_table_id h, block).
Proof.
  intros (v & b & ups & mine & Hv & -> & Hr & Hnd & Hle).
  exists v, b, (outgoing (v_size v) ups [(Propagator.my_id_ up, mine)] 1). split_and!; try done.
  - exists [(Propagator.my_id_ up, mine)], 0%nat. split; [done|]. split; [apply NoDup_singleton|].
    by repeat constructor.
  - unfold foreign, outgoing, filled. simpl. rewrite decide_False by lia. simpl.
    rewrite decide_False by (simpl; congruence). by eexists.
  - unfold a_get_range, find_slot, outgoing, filled. simpl. rewrite decide_False by congruence. done.
Qed.

Lemma wire_foreign o : Forall (own_block up tables) o -> Forall (foreign_block down tables) (wire o).
Proof.
  induction 1 as [|m o Hm _ IH]; simpl; [constructor|]. apply Forall_app. split; [|done].
  destruct m; try constructor; [|constructor]. by apply own_block_foreign.
Qed.
End link.

(** What one node adds, its neighbour has. Let the threads of a node update
    its tables in any order, with ticks in between and one at the end, and let the
    downstream node read what was sent: the propagator ships everything without a
    fault, the receiver takes every block, and in every table that applies updates
    each value of the downstream node has grown by exactly the sum of the deltas
    the upstream threads logged for its key - whatever the batching was. *)
Lemma link_delivers `{Allocator} `{UnorderedIter} up down tables p s es acks sB :
  runs_from up tables p s -> Forall local_event es -> evs_ok up tables (es ++ [Propagator.EvTimer acks]) s ->
  0 < num_expected_propagators_ down -> 0 <= my_id_ down -> my_id_ down <> Propagator.my_id_ up ->
  recv_ready tables sB ->
  exists sA' sB',
    Propagator.thread_loop up (es ++ [Propagator.EvTimer acks]) s = Ok (Propagator.Continue, sA') /\
    thread_loop down (arriving (Propagator.out sA')) sB = Ok (Continue, sB') /\
    forall t v ptr it, tables !! t = Some v -> has_table sB t v ptr it -> apply_updates_ it = true ->
      (forall k, length (vsum (VG := v_group v) (deltas_for k (es ≫= received_updates t))) = v_size v) /\
      exists it', has_table sB' t v ptr it' /\
        forall k, value_of (n := v_size v) it' k =
          vplus (ValueGroup := v_group v) (value_of (n := v_size v) it k)
            (vsum (VG := v_group v) (deltas_for k (es ≫= received_updates t))).
Proof.
  intros Hrun Hev Hok Hexp Hmy Hne Hrr. assert (0 <= Propagator.my_id_ up) as Hup by apply Hrun.
  destruct (local_ships up tables p s es acks Hrun Hev Hok) as (sA' & Hl & Hblocks & Hsum).
  destruct (deliver_blocks down tables Hexp Hmy (wire (Propagator.out sA')) sB Hrr) as (sB' & HlB & _ & Htabs).
  { by apply (wire_foreign up). }
  exists sA', sB'. split; [done|]. split; [exact HlB|]. intros t v ptr it Hv Hit Happ.
  split.
  { intros k. destruct (Hsum t v k Hv) as [Hsh <-]. apply length_vsum, List.Forall_forall. intros u0 Hu0.
    unfold deltas_for in Hu0. apply list_elem_of_In, list_elem_of_fmap in Hu0 as (u & -> & Hu).
    apply list_elem_of_filter in Hu as [_ Hu]. rewrite Forall_forall in Hsh. by apply Hsh. }
  destruct (Htabs t v ptr it Hv Hit) as (it' & Hit' & _ & Hval). exists it'. split; [done|].
  intros k. rewrite Hval, Happ, wire_updates. specialize (Hsum t v k Hv) as [_ Hsum]. by rewrite Hsum.
Qed.
