(* ===== verification/RingProp.v ===== *)
(** A propagator in a ring, for one table: what it holds after the updates of its own
    threads and the buffer that came around, and the block the next tick ships - down
    to the keys and the order of the ranges in it. *)
From S2P Require Import Prelude Common MemStruct MemStructSpec Buffer ValueOps Protocol Propagator PropagatorSpec PropagatorTrace PropagatorRun PropagatorProps.

(** ** Sums per key *)

Section sums.
Context (v : VType).
Notation n := (v_size v).
Notation vs := (vsum (VG := v_group v)).
Notation vp := (vplus (ValueGroup := v_group v)).
Notation logs := (list (Z * list byte)).

(** What the logged deltas add up to for a key that has any. *)
Definition agg (L : logs) (k : Z) : option (list byte) :=
  match deltas_for k L with [] => None | ds => Some (vs ds) end.

(** A store, or the updates of a buffer, that holds the sums of [L]. *)
Definition sums_of (ups : gmap Z (list byte)) (L : logs) : Prop := forall k, ups !! k = agg L k.

Lemma deltas_ok L k : Forall (update_ok n) L -> Forall (fun d => length d = n) (deltas_for k L).
Proof. apply deltas_for_ok. Qed.

Lemma agg_length L k d : Forall (update_ok n) L -> agg L k = Some d -> length d = n.
Proof.
  intros HL. unfold agg. pose proof (deltas_ok L k HL) as Hd. destruct (deltas_for k L) as [|e ds]; [done|].
  intros [= <-]. by apply length_vsum.
Qed.

Lemma agg_key L k : is_Some (agg L k) <-> k ∈ L.*1.
Proof.
  unfold agg. split.
  - intros Hs. destruct (decide (k ∈ L.*1)) as [|Hk]; [done|]. rewrite (deltas_for_none k L Hk) in Hs. by destruct Hs.
  - intros [[k' d] [-> Hin]]%list_elem_of_fmap. simpl.
    assert (d ∈ deltas_for k' L) as Hd.
    { unfold deltas_for. apply (list_elem_of_fmap_2 snd _ (k', d)). by apply list_elem_of_filter. }
    destruct (deltas_for k' L); [set_solver|done].
Qed.

Lemma agg_default L k : default (zero_bytes n) (agg L k) = vs (deltas_for k L).
Proof. unfold agg. by destruct (deltas_for k L). Qed.

Lemma agg_snoc L k d k' :
  Forall (update_ok n) L -> length d = n ->
  agg (L ++ [(k, d)]) k' = if decide (k = k') then Some (vp (default (zero_bytes n) (agg L k)) d) else agg L k'.
Proof.
  intros HL Hd. rewrite agg_default. unfold agg. rewrite deltas_for_app. unfold deltas_for at 2. rewrite filter_cons, filter_nil. simpl.
  destruct (decide (k = k')) as [<-|Hne]; simpl; [|by rewrite app_nil_r].
  pose proof (vsum_snoc (VG := v_group v) _ d Hd (deltas_ok L k HL)) as Hsn.
  destruct (deltas_for k L ++ [d]) eqn:E; [by destruct (deltas_for k L)|]. by rewrite <- Hsn, <- E.
Qed.

Lemma sums_add ups L k d :
  sums_of ups L -> Forall (update_ok n) L -> length d = n -> sums_of (add_at v k d ups) (L ++ [(k, d)]).
Proof.
  intros Hs HL Hd k'. rewrite agg_snoc by done. unfold add_at. rewrite (Hs k).
  destruct (decide (k = k')) as [<-|Hne]; [by rewrite lookup_insert_eq|]. by rewrite lookup_insert_ne by done.
Qed.

Lemma sums_ok ups L : sums_of ups L -> Forall (update_ok n) L -> ups_ok n ups.
Proof.
  intros Hs HL k d Hk. rewrite (Hs k) in Hk. split; [|by apply (agg_length L k)].
  assert (k ∈ L.*1) as Hin by (apply agg_key; eauto). apply list_elem_of_fmap in Hin as ([k' d'] & -> & Hin).
  rewrite Forall_forall in HL. by destruct (HL _ Hin).
Qed.

Lemma sums_empty L : sums_of ∅ L -> L = [].
Proof.
  intros Hs. destruct L as [|[k d] L]; [done|]. specialize (Hs k). rewrite lookup_empty in Hs.
  assert (is_Some (agg ((k, d) :: L) k)) as [x Hx] by (apply agg_key; set_solver). congruence.
Qed.

Lemma sums_size ups L : sums_of ups L -> (size ups <= length L)%nat.
Proof.
  intros Hs. rewrite <- length_map_to_list, <- (length_fmap fst), <- (length_fmap fst L).
  apply submseteq_length, NoDup_submseteq; [apply NoDup_fst_map_to_list|].
  intros k [[k' d] [-> Hin%elem_of_map_to_list]]%list_elem_of_fmap. rewrite (Hs k') in Hin. apply agg_key. eauto.
Qed.

(** Updates that are themselves sums count as what they are sums of. *)
Definition sums_list (l L : logs) : Prop := NoDup l.*1 /\ forall k, deltas_for k l = option_list (agg L k).

Lemma sums_list_append l L K k :
  sums_list l K -> Forall (update_ok n) L -> Forall (update_ok n) K -> agg (L ++ l) k = agg (L ++ K) k.
Proof.
  intros [_ Hl] HL HK. unfold agg. rewrite !deltas_for_app, (Hl k). unfold agg. pose proof (deltas_ok L k HL) as HdL.
  pose proof (deltas_ok K k HK) as HdK. destruct (deltas_for k K) as [|e ds]; simpl option_list; [done|].
  assert (forall x y : list (list byte), y <> [] -> match x ++ y with [] => None | z => Some (vs z) end = Some (vs (x ++ y))) as Hm
    by (intros [|? ?] [|? ?]; done).
  rewrite !Hm by done. f_equal. rewrite !vsum_app by (done || (constructor; [by apply length_vsum|constructor])).
  f_equal. apply vs_one. by apply length_vsum.
Qed.

Lemma sums_iter `{UnorderedIter} ups L : sums_of ups L -> sums_list (iter_order ups) L.
Proof. intros Hs. split; [apply iter_order_NoDup|]. intros k. by rewrite deltas_for_iter, (Hs k). Qed.
End sums.

(** ** What a propagator holds *)

(** A buffer as the receiver hands it on: the sums of [K], and the ranges [w] an
    iteration finds. *)
Definition handed (v : VType) (b : UpdateBuffer) (K : list (Z * list byte)) (w : list (Z * UpdateRange)) : Prop :=
  exists a, repr b a /\ ab_usize a = v_size v /\ sums_list v (ab_ups a) K /\ range_prefix (ab_slots a) = w.

(** A block as the propagator builds it: used range entries first. *)
Definition built (v : VType) (b : UpdateBuffer) (L : list (Z * list byte)) (w : list (Z * UpdateRange)) : Prop :=
  exists a c, repr b a /\ ab_usize a = v_size v /\ sums_list v (ab_ups a) L /\ ab_slots a = filled w c /\
    NoDup w.*1 /\ Forall (fun e => 0 <= e.1) w.
(** The batch a propagator gives its paired receiver. *)
Definition batch (v : VType) (my : Z) (b : UpdateBuffer) (M : list (Z * list byte)) (mine : UpdateRange) : Prop :=
  exists a, repr b a /\ ab_usize a = v_size v /\ sums_list v (ab_ups a) M /\ ab_ups a <> [] /\ a_get_range a my = Some mine.

Definition log_event (t : Z) (u : Z * list byte) : prop_event := EvPull (InUpdateLog (mkPUpdateLogMsg t u.1 EInc) u.2).

Section node.
Context `{Allocator} `{UnorderedIter} (cfg : PropagatorThrInfo) (t : Z) (v : VType).
Hypothesis my_id_ok : 0 <= my_id_ cfg /\ is_i32 (my_id_ cfg).
Hypothesis nanosec_ok : 0 < nanosec_ cfg.
Notation my := (my_id_ cfg).
Notation n := (v_size v).
Notation logs := (list (Z * list byte)).

(** In [RUN], with the sums of [L] to ship, those of [M] among them this node's, and
    the unsent ranges. No other table has anything to ship. *)
Record holding (s : PropThr) (L M : logs) (peers : gmap Z UpdateRange) (mine : UpdateRange) : Prop := {
  hd_run : state_ (obj s) = RUN;
  hd_info : exists info, table_dir_ (obj s) !! t = Some info /\ info_ok v info /\ ti_loop_ info = true;
  hd_ups : sums_of v (default ∅ (update_store s !! t)) L;
  hd_only : forall t', t' <> t -> default ∅ (update_store s !! t') = ∅;
  hd_mys : sums_of v (default ∅ (my_update_store s !! t)) M;
  hd_logs : Forall (update_ok n) L /\ Forall (update_ok n) M;
  hd_peers : table_peers_update_range s !! t = Some peers;
  hd_peers_ok : peers_ok my peers;
  hd_mine : my_update_range s !! t = Some mine;
  hd_mine_ok : range_ok mine;
  hd_own : M <> [] -> st_ mine <= end_ mine;
  hd_pull : pair_pull s = []
}.

Lemma hold_log s L M peers mine u :
  holding s L M peers mine -> update_ok n u -> is_i64 (end_ mine + 2) -> st_ mine <= end_ mine + 1 ->
  exists s', turn cfg (log_event t u) s = Ok (Continue, s') /\
    holding s' (L ++ [u]) (M ++ [u]) peers (mkRange (st_ mine) (end_ mine + 1)) /\ out s' = out s.
Proof.
  intros [Hrun (info & Hdir & Hinfo & Hloop) Hups Honly Hmys [HL HM] Hpe Hpok Hmi Hmok Hown Hpull] [Hk Hd] Hi Hst.
  destruct u as [k d]. simpl in Hk, Hd. unfold log_event. rewrite turn_pull by done. cbn [handle_update_pull fst snd].
  destruct Hmok as (Hi1 & Hi2 & Hi3).
  rewrite (handle_update_log_runs cfg nanosec_ok s _ d v info mine); try done;
    [|by apply (sums_ok v _ L)|by apply (sums_ok v _ M)].
  cbn [mbind res_bind pul_table_id pul_key]. eexists. split; [done|]. split; [|done]. rewrite Hloop.
  split; simpl; rewrite ?lookup_insert_eq; try done.
  - by exists info.
  - simpl. by apply sums_add.
  - intros t' Ht'. rewrite lookup_insert_ne by done. by apply Honly.
  - simpl. by apply sums_add.
  - split; apply Forall_app; (split; [done|]); constructor; done.
  - unfold range_ok, is_i64 in *. simpl. lia.
Qed.

Lemma hold_logs us : forall s L M peers mine,
  holding s L M peers mine -> Forall (update_ok n) us -> is_i64 (end_ mine + Z.of_nat (length us) + 1) ->
  st_ mine <= end_ mine + 1 ->
  exists s', thread_loop cfg (log_event t <$> us) s = Ok (Continue, s') /\
    holding s' (L ++ us) (M ++ us) peers (mkRange (st_ mine) (end_ mine + Z.of_nat (length us))) /\ out s' = out s.
Proof.
  induction us as [|u us IH]; intros s L M peers mine Hh Hus Hi Hst.
  { exists s. split; [done|]. split; [|done]. rewrite !app_nil_r, Z.add_0_r. by destruct mine. }
  apply Forall_cons in Hus as [Hu Hus]. cbn [length] in Hi. rewrite fmap_cons. cbn [thread_loop].
  pose proof (hd_mine_ok _ _ _ _ _ Hh) as (Hi1 & Hi2 & Hi3). unfold is_i64 in Hi1, Hi2, Hi3, Hi.
  destruct (hold_log s L M peers mine u Hh Hu) as (s1 & -> & Hh1 & Ho1); [unfold is_i64; lia|done|]. cbn [mbind res_bind].
  destruct (IH s1 _ _ _ _ Hh1 Hus) as (s2 & Hl & Hh2 & Ho2); simpl; [unfold is_i64; lia|lia|].
  exists s2. split; [exact Hl|]. split; [|congruence]. cbn [st_ end_] in Hh2. rewrite <- !app_assoc in Hh2. simpl in Hh2.
  by replace (end_ mine + Z.of_nat (S (length us))) with (end_ mine + 1 + Z.of_nat (length us)) by lia.
Qed.

Lemma add_received_sums info l : info_ok v info -> forall L store,
  Forall (update_ok n) l -> Forall (update_ok n) L -> sums_of v (default ∅ (store !! t)) L ->
  exists store', foldM (fun u s => add_received_update t info u.1 u.2 s) l store = Ok store' /\
    (forall t', t' <> t -> store' !! t' = store !! t') /\ sums_of v (default ∅ (store' !! t)) (L ++ l).
Proof.
  intros Hinfo. induction l as [|[k d] l IH]; intros L store Hl HL Hs.
  { exists store. rewrite app_nil_r. done. }
  apply Forall_cons in Hl as [[Hk Hd] Hl]. simpl in Hk, Hd. cbn [foldM fst snd].
  rewrite (add_received_update_runs v t info k d store Hinfo) by (done || by apply (sums_ok v _ L)). cbn [mbind res_bind].
  destruct (IH (L ++ [(k, d)]) (<[t := add_at v k d (default ∅ (store !! t))]> store) Hl) as (store' & -> & Hne & Hs').
  - apply Forall_app. split; [done|]. by constructor.
  - rewrite lookup_insert_eq. simpl. by apply sums_add.
  - exists store'. split; [done|]. split.
    + intros t' Ht'. by rewrite Hne, lookup_insert_ne by done.
    + by rewrite <- app_assoc in Hs'.
Qed.

(** [w] continues what is known of the nodes, and what is known after it. *)
Definition contiguous (peers : gmap Z UpdateRange) (w : list (Z * UpdateRange)) : Prop :=
  forall q r old, (q, r) ∈ w -> peers !! q = Some old -> wrap_i64 (end_ old + 1) = st_ r.
Definition merges (peers peers' : gmap Z UpdateRange) (w : list (Z * UpdateRange)) : Prop :=
  (forall q r, (q, r) ∈ w -> peers' !! q = Some (merged (peers !! q) r)) /\
  forall q, q ∉ w.*1 -> peers' !! q = peers !! q.

Lemma merge_next w : forall peers : gmap Z UpdateRange,
  NoDup w.*1 -> contiguous peers w ->
  exists peers', foldM (fun e s => merge_peer_range e.1 e.2 s) w peers = Ok peers' /\ merges peers peers' w.
Proof.
  induction w as [|[q0 r0] w IH]; intros peers Hnd Hc.
  { exists peers. split; [done|]. by split; [intros q r ?%not_elem_of_nil|]. }
  apply NoDup_cons in Hnd as [Hni Hnd]. cbn [foldM fst snd]. cbn [fst] in Hni.
  assert (Hne : forall q r, (q, r) ∈ w -> q <> q0) by (intros q r Hin ->; apply Hni; exact (list_elem_of_fmap_2 fst _ _ Hin)).
  assert (merge_peer_range q0 r0 peers = Ok (<[q0 := merged (peers !! q0) r0]> peers)) as ->.
  { unfold merge_peer_range, merged. destruct (peers !! q0) as [old|] eqn:E; [|done].
    rewrite (proj2 (Z.eqb_eq _ _)); [done|]. by apply (Hc q0 r0 old); [left|]. }
  cbn [mbind res_bind]. destruct (IH (<[q0 := merged (peers !! q0) r0]> peers) Hnd) as (peers' & -> & Hin & Hout).
  - intros q r old Hq. rewrite lookup_insert_ne by (intros ->; by eapply Hne). apply Hc. by right.
  - exists peers'. split; [done|]. split.
    + intros q r [[= -> ->]|Hq]%elem_of_cons; [by rewrite Hout, lookup_insert_eq|].
      rewrite (Hin q r Hq). rewrite lookup_insert_ne; [done|]. intros ->. by eapply Hne.
    + intros q [Hq Hqw]%not_elem_of_cons. rewrite Hout by done. by rewrite lookup_insert_ne.
Qed.

Lemma contiguous_new w : contiguous ∅ w.
Proof. intros q r old _. by rewrite lookup_empty. Qed.

Lemma merges_empty peers w : merges ∅ peers w -> NoDup w.*1 -> forall q r, peers !! q = Some r <-> (q, r) ∈ w.
Proof.
  intros [Hin Hout] Hnd q r. split; [|by intros Hq%Hin]. intros Hq.
  destruct (decide (q ∈ w.*1)) as [Hqw|Hqw]; [|by rewrite (Hout q Hqw), lookup_empty in Hq].
  apply list_elem_of_fmap in Hqw as ([q' r'] & -> & Hqw). cbn [fst] in Hq. rewrite (Hin _ _ Hqw), lookup_empty in Hq.
  by injection Hq as <-.
Qed.

(** A range another node can have in a block. *)
Definition peer_entry (e : Z * UpdateRange) : Prop := (0 <= e.1 /\ e.1 <> my) /\ is_i32 e.1 /\ range_ok e.2.

Lemma merges_ok peers peers' w : merges peers peers' w -> peers_ok my peers -> Forall peer_entry w -> peers_ok my peers'.
Proof.
  intros [Hin Hout] Hp Hw q r Hq. destruct (decide (q ∈ w.*1)) as [Hqw|Hqw]; [|rewrite Hout in Hq by done; by apply (Hp q r)].
  apply list_elem_of_fmap in Hqw as ([q' r'] & -> & Hqw). cbn [fst] in *. rewrite (Hin _ _ Hqw) in Hq.
  rewrite Forall_forall in Hw. destruct (Hw _ Hqw) as (Hid & Hi & Hr). split; [done|]. split; [done|]. injection Hq as <-.
  unfold merged. destruct (peers !! q') as [old|] eqn:E; [|done]. destruct (Hp _ _ E) as (_ & _ & Ho & _ & _), Hr as (_ & ? & ?). done.
Qed.

Lemma hold_buffer s L M peers mine b K w :
  holding s L M peers mine -> handed v b K w -> Forall (update_ok n) K -> NoDup w.*1 -> Forall peer_entry w ->
  contiguous peers w ->
  exists s' peers', turn cfg (EvPull (InUpdateBuffer t b)) s = Ok (Continue, s') /\
    holding s' (L ++ K) M peers' mine /\ out s' = out s /\ merges peers peers' w.
Proof.
  intros [Hrun (info & Hdir & Hinfo & Hloop) Hups Honly Hmys [HL HM] Hpe Hpok Hmi Hmok Hown Hpull]
    (a & Hr & Hus & Hsl & Hw) HK Hnd Hpw Hcont.
  rewrite turn_pull by done. cbn [handle_update_pull]. unfold handle_update_buffer. cbn [obj set_received_update_buffer_cnt].
  rewrite Hdir, Hrun, decide_True by done.
  replace (Z.to_nat (ti_update_size_ info)) with (ab_usize a) by (rewrite Hus, (proj1 Hinfo); by rewrite Nat2Z.id).
  destruct (for_updates_visits_aux (add_received_update t info) b a (update_store s) Hr) as (b1 & Hfor & Hr1).
  cbn [update_store set_received_update_buffer_cnt]. rewrite Hfor.
  assert (Forall (update_ok n) (ab_ups a)) as Hok by (rewrite <- Hus; apply (r_ups _ _ Hr)).
  destruct (add_received_sums info (ab_ups a) Hinfo L (update_store s) Hok HL Hups) as (store' & -> & Hne & Hs').
  cbn [mbind res_bind table_peers_update_range set_update_store set_received_update_buffer_cnt]. rewrite Hpe.
  destruct (for_ranges_visits_aux merge_peer_range b1 _ peers Hr1) as (b2 & j & Hfr & _). cbn [ab_slots a_with_iter] in Hfr.
  rewrite Hw in Hfr. destruct (merge_next w peers Hnd Hcont) as (peers' & Hm & Hp).
  rewrite Hm in Hfr. rewrite Hfr. cbn [mbind res_bind].
  eexists _, peers'. split; [done|]. split; [|done]. split; simpl; try done.
  - by exists info.
  - intros k. rewrite (Hs' k). by apply sums_list_append.
  - intros t' Ht'. rewrite Hne by done. by apply Honly.
  - split; [by apply Forall_app|done].
  - by rewrite lookup_insert_eq.
  - by apply (merges_ok peers peers' w).
Qed.

Lemma fits_mono m1 m2 k1 k2 : fits n m2 k2 -> (m1 <= m2)%nat -> (k1 <= k2)%nat -> fits n m1 k1.
Proof. unfold fits. intros. nia. Qed.

Lemma flush_others l s : (forall t', t' ∈ l -> default ∅ (update_store s !! t') = ∅) -> foldM (flush_table cfg) l s = Ok s.
Proof.
  induction l as [|t' l IH]; intros Hall; [done|]. cbn [foldM]. rewrite flush_table_empty by (apply Hall; set_solver).
  cbn [mbind res_bind]. apply IH. intros. apply Hall. set_solver.
Qed.

(** The flush of the one table with updates is the whole of the loop. *)
Lemma flush_one l s s1 :
  NoDup l -> t ∈ l -> (forall t', t' <> t -> default ∅ (update_store s !! t') = ∅) ->
  flush_table cfg t s = Ok s1 -> (forall t', default ∅ (update_store s1 !! t') = ∅) ->
  foldM (flush_table cfg) l s = Ok s1.
Proof.
  intros Hnd Hin Hs Hf Hs1. apply list_elem_of_split in Hin as (pre & suf & ->).
  apply NoDup_app in Hnd as (_ & Hdis & _). rewrite foldM_app, flush_others.
  - cbn [mbind res_bind foldM]. rewrite Hf. cbn [mbind res_bind]. by apply flush_others.
  - intros t' Ht'. apply Hs. intros ->. apply (Hdis t Ht'). by left.
Qed.

Lemma live_all (l : list (Z * UpdateRange)) : Forall (fun e => st_ e.2 <= end_ e.2) l -> PropagatorSpec.live l = l.
Proof.
  unfold PropagatorSpec.live. induction 1 as [|e l He _ IH]; [done|]. rewrite filter_cons, decide_True by done. by rewrite IH.
Qed.

Lemma outgoing_built b ups L w cap :
  sums_of v ups L -> repr b (outgoing n (iter_order ups) w cap) -> NoDup w.*1 -> Forall (fun e => 0 <= e.1) w ->
  built v b L w.
Proof. intros Hs Hr Hnd Hw. eexists _, _. split; [done|]. split; [done|]. split; [by apply sums_iter|]. by split_and!. Qed.

Lemma marked_ok peers : peers_ok my peers -> peers_ok my (mark_sent <$> peers).
Proof.
  intros Hp q r Hq. rewrite lookup_fmap in Hq. destruct (peers !! q) as [r'|] eqn:E; [|done]. injection Hq as <-.
  destruct (Hp q r' E) as (Hid & Hi & Hr). rewrite mark_sent_ok by done. split; [done|]. split; [done|].
  unfold range_ok, is_i64 in *. case_decide; simpl; lia.
Qed.

Lemma shipped_built ups L peers mine b :
  repr b (outgoing n (iter_order ups) (out_slots cfg peers mine) (size peers + 1)) -> sums_of v ups L -> peers_ok my peers ->
  PropagatorSpec.live (iter_order peers) = iter_order peers -> built v b L (iter_order peers ++ own_slot my mine).
Proof.
  intros Hb Hups Hpok Hliv. unfold out_slots in Hb. rewrite Hliv in Hb. eapply outgoing_built; [exact Hups|exact Hb| |].
  - pose proof (NoDup_out_slots cfg peers mine Hpok) as Hnd. unfold out_slots in Hnd. by rewrite Hliv in Hnd.
  - apply Forall_app. split; [|unfold own_slot; case_decide; [|constructor]; constructor; [simpl; lia|constructor]].
    apply Forall_forall. intros [q r] Hq%iter_order_elem. by destruct (Hpok q r Hq) as ((? & _) & _).
Qed.

Lemma told_batch mys M mine b :
  repr b (outgoing n (iter_order mys) [(my, mine)] 1) -> sums_of v mys M -> M <> [] -> batch v my b M mine.
Proof.
  intros Hb Hmys HM. eexists. split; [exact Hb|]. split; [done|]. split; [by apply sums_iter|]. split.
  - simpl. intros Hnil. assert (mys = ∅) as -> by (apply map_size_empty_iff; rewrite <- length_iter_order; by rewrite Hnil).
    by apply sums_empty in Hmys.
  - unfold a_get_range, outgoing, filled, find_slot. simpl. by rewrite decide_True by done.
Qed.

(** The range of the next batch. *)
Definition next_range (mine : UpdateRange) : UpdateRange := mkRange (end_ mine + 1) (end_ mine).

Lemma hold_flush s L M peers mine info (sent : list PropOut) :
  holding s L M peers mine -> table_dir_ (obj s) !! t = Some info -> ti_loop_ info = true ->
  info_ok v info -> is_i64 (end_ mine + 1) -> forall s', pair_pull s' = [] -> obj s' = obj s ->
  (forall t', t' <> t -> update_store s' !! t' = update_store s !! t') -> default ∅ (update_store s' !! t) = ∅ ->
  default ∅ (my_update_store s' !! t) = ∅ -> table_peers_update_range s' !! t = Some (mark_sent <$> peers) ->
  my_update_range s' !! t = Some (next_range mine) -> holding s' [] [] (mark_sent <$> peers) (next_range mine).
Proof.
  intros Hh Hdir Hloop Hinfo Hi s' Hpull Hobj Hother Hups Hmys Hpe Hmi. split; rewrite ?Hups, ?Hmys; try done.
  - rewrite Hobj. apply Hh.
  - rewrite Hobj. eauto.
  - intros t' Ht'. rewrite Hother by done. by apply (hd_only _ _ _ _ _ Hh).
  - apply marked_ok, Hh.
  - destruct (hd_mine_ok _ _ _ _ _ Hh) as (? & ? & ?). split; [done|]. split; [done|]. simpl. done.
Qed.

(** What the timer's handler finds. *)
Definition at_tick (s : PropThr) (acks : list PropagatorMsgType) : PropThr :=
  send (set_pair_pull s (pair_pull s ++ acks)) (ToTimer (mkTimerCmdMsg (nanosec_ cfg))).

Lemma hold_view s L M peers mine acks :
  holding s L M peers mine -> L <> [] -> fits n (length L) (size peers + 1) -> fits n (length M) 1 ->
  exists info ups, flush_view cfg (at_tick s acks) t v info ups peers mine (default ∅ (my_update_store s !! t)) /\
    update_store s !! t = Some ups /\ ups <> ∅ /\ sums_of v ups L /\ table_dir_ (obj s) !! t = Some info /\
    info_ok v info /\ ti_loop_ info = true /\ (notifies info (default ∅ (my_update_store s !! t)) = true <-> M <> []).
Proof.
  intros [Hrun (info & Hdir & Hinfo & Hloop) Hups Honly Hmys [HL HM] Hpe Hpok Hmi Hmok Hown Hpull] Hne Hfit Hfit1.
  destruct (update_store s !! t) as [ups|] eqn:Eu; simpl in Hups; [|by apply sums_empty in Hups].
  set (mys := default ∅ (my_update_store s !! t)) in *.
  assert (Hmne : mys <> ∅ <-> M <> []).
  { split; intros Hx Hy; apply Hx; [|apply (sums_empty v); by rewrite <- Hy].
    subst M. apply map_eq. intros k. by rewrite (Hmys k), lookup_empty. }
  exists info, ups. split.
  { split; try done; [by apply (sums_ok v _ L)|by apply (sums_ok v _ M)|by intros ?%Hmne; apply Hown| |].
    - eapply fits_mono; [exact Hfit|by apply (sums_size v)|lia].
    - eapply fits_mono; [exact Hfit1|by apply (sums_size v)|lia]. }
  split_and!; try done; [by intros ->; apply sums_empty in Hups|].
  unfold notifies. rewrite Hloop. simpl. by rewrite bool_decide_eq_true.
Qed.

Lemma tick_flushes s L M peers mine acks :
  holding s L M peers mine ->
  turn cfg (EvTimer acks) s =
    (s1 ← foldM (flush_table cfg) (iter_order (update_store s)).*1 (at_tick s acks);
     if decide (state_ (obj s1) = TERM_PREP) then
       let s1 := set_have_stopped_timer_thr (send s1 JoinTimer) true in Ok (exit_if_done s1)
     else Ok (Continue, s1)).
Proof.
  intros Hh. unfold turn, loop_turn. rewrite (proj2 (Z.ltb_lt _ _)) by done. cbn [mbind res_bind]. rewrite bool_decide_eq_true_2 by done.
  cbn [CHECK mbind res_bind]. unfold handle_timer. cbn [obj set_pair_pull]. rewrite (hd_run _ _ _ _ _ Hh), decide_True by done.
  fold (at_tick s acks). change (update_store (at_tick s acks)) with (update_store s).
  destruct (foldM _ _ _) as [s1| |]; cbn [mbind res_bind]; [|done..].
  case_decide; cbn [mbind res_bind]; [by destruct (exit_if_done _)|done].
Qed.

(** A node at the end of a line: as soon as it has something to ship, from its own
    threads or from upstream, its next tick is its last. *)
Lemma hold_tick_stops s L M peers mine acks :
  holding s L M peers mine -> L <> [] -> fits n (length L) (size peers + 1) -> fits n (length M) 1 ->
  (M <> [] -> acks = [EMyUpdatesACK]) -> has_downstream cfg = false -> turn cfg (EvTimer acks) s = Fault NullDeref.
Proof.
  intros Hh Hne Hfit Hfit1 Hacks Hds.
  destruct (hold_view s L M peers mine acks Hh Hne Hfit Hfit1) as (info & ups & Hview & Hst & Hupsne & _ & _ & _ & _ & Hnot).
  rewrite (tick_flushes s L M peers mine acks Hh).
  destruct (flush_table_result cfg my_id_ok (at_tick s acks) t v info ups peers mine _ Hview Hupsne) as (sent & Hf & _).
  { intros HM%Hnot. exists []. simpl. by rewrite (hd_pull _ _ _ _ _ Hh), Hacks. }
  rewrite Hds in Hf. assert (t ∈ (iter_order (update_store s)).*1) as Hin.
  { apply (list_elem_of_fmap_2 fst _ (t, ups)). by apply iter_order_elem. }
  apply list_elem_of_split_l in Hin as (pre & suf & -> & Hni). rewrite foldM_app, flush_others.
  - cbn [mbind res_bind foldM]. by rewrite Hf.
  - intros t' Ht'. apply (hd_only _ _ _ _ _ Hh). by intros ->.
Qed.

(** The tick: one block, with everything held; this node's part of it goes to the paired
    receiver first. *)
Lemma hold_tick s L M peers mine :
  has_downstream cfg = true -> holding s L M peers mine -> L <> [] -> map_Forall (fun _ r => st_ r <= end_ r) peers ->
  fits n (length L) (size peers + 1) -> fits n (length M) 1 ->
  exists s' b w, turn cfg (EvTimer (if decide (M = []) then [] else [EMyUpdatesACK])) s = Ok (Continue, s') /\
    holding s' [] [] (mark_sent <$> peers) (next_range mine) /\
    built v b L (w ++ own_slot my mine) /\ w ≡ₚ map_to_list peers /\
    if decide (M = []) then
      out s' = out s ++ [ToTimer (mkTimerCmdMsg (nanosec_ cfg)); ToDownstream (mkEPRUpdateBufferMsg t) (to_bytes b)]
    else exists b2, batch v my b2 M mine /\
      out s' = out s ++ [ToTimer (mkTimerCmdMsg (nanosec_ cfg)); ToReceiver t b2;
                         ToDownstream (mkEPRUpdateBufferMsg t) (to_bytes b)].
Proof.
  intros downstream_ok Hh Hne Hlive Hfit Hfit1. set (acks := if decide (M = []) then [] else [EMyUpdatesACK]). set (s0 := at_tick s acks).
  destruct (hold_view s L M peers mine acks Hh Hne Hfit Hfit1) as (info & ups & Hview & Hst & Hupsne & Hups & Hdir & Hinfo & Hloop & Hnot).
  set (mys := default ∅ (my_update_store s !! t)) in *. fold s0 in Hview.
  pose proof Hh as [Hrun _ _ Honly Hmys _ Hpe Hpok Hmi Hmok Hown Hpull].
  destruct (flush_table_runs cfg my_id_ok s0 t v info ups peers mine mys Hview Hupsne downstream_ok) as (sent & Hfl & b & Hb & Hsent).
  { intros HM1%Hnot. exists []. unfold s0. simpl. rewrite Hpull. unfold acks. by rewrite decide_False. }
  set (s1 := flushed s0 t info peers mine mys sent) in *.
  assert (Hturn : turn cfg (EvTimer acks) s = Ok (Continue, s1)).
  { rewrite (tick_flushes s L M peers mine acks Hh). fold s0. rewrite (flush_one _ s0 s1).
    - cbn [mbind res_bind]. change (obj s1) with (obj s). rewrite Hrun. by rewrite decide_False.
    - apply iter_order_NoDup.
    - apply (list_elem_of_fmap_2 fst _ (t, ups)). by apply iter_order_elem.
    - exact Honly.
    - exact Hfl.
    - intros t'. unfold s1, flushed. simpl. destruct (decide (t' = t)) as [->|Hn]; [by rewrite lookup_insert_eq|].
      rewrite lookup_insert_ne by done. by apply Honly. }
  assert (Hs1 : holding s1 [] [] (mark_sent <$> peers) (next_range mine)).
  { apply (hold_flush s L M peers mine info sent Hh Hdir Hloop Hinfo); unfold s1, flushed; simpl; rewrite ?lookup_insert_eq; try done.
    - apply Hmok.
    - unfold acks. rewrite Hpull. destruct (notifies info mys).
      + by rewrite decide_False by by apply Hnot.
      + rewrite decide_True; [done|]. destruct (decide (M = [])) as [|HM1]; [done|]. by apply Hnot in HM1.
    - intros t' Ht'. by rewrite lookup_insert_ne.
    - rewrite Hloop. by rewrite lookup_insert_eq. }
  assert (Hliv : PropagatorSpec.live (iter_order peers) = iter_order peers).
  { apply live_all, Forall_forall. intros [q r] Hq%iter_order_elem. by apply (Hlive q). }
  exists s1, b, (iter_order peers). split; [exact Hturn|]. split; [exact Hs1|]. split; [|split; [apply iter_order_perm|]].
  - by apply (shipped_built ups L peers mine b).
  - unfold s1, flushed, s0. cbn [out send set_out set_pair_pull at_tick]. destruct (decide (M = [])) as [HM0|HM1].
    + destruct (notifies info mys); [by apply Hnot in HM0|]. subst sent. unfold at_tick. simpl. by rewrite <- app_assoc.
    + rewrite (proj2 Hnot HM1) in Hsent. destruct Hsent as (b2 & Hb2 & ->). exists b2.
      split; [|unfold at_tick; simpl; by rewrite <- app_assoc]. by apply (told_batch mys M mine).
Qed.
End node.

(** A propagator that has just started holds nothing, with or without a downstream
    neighbour. *)
Lemma handshake_state cfg sub_in p s rest :
  thread_handshake cfg sub_in (thread_init cfg p [EPRInit]) = Ok (s, rest) ->
  exists o, s = set_thr_state (set_out (thread_init cfg p []) o) RUN.
Proof.
  unfold thread_handshake. intros Hh. inv_bind. destruct v as [msg s0]. cbn in Hv. injection Hv as <- <-. inv_bind. destruct v0 as [s1 sub1].
  injection Hh as <- _. destruct (0 <=? node_id_ (downstream_recv_ cfg)).
  - destruct sub_in as [|ack sub_in]; [done|]. inv_bind. simplify_eq. by eexists.
  - simplify_eq. by exists [].
Qed.

Lemma started_holding cfg p s t v info sub_in rest :
  thread_handshake cfg sub_in (thread_init cfg p [EPRInit]) = Ok (s, rest) ->
  table_dir_ p !! t = Some info -> info_ok v info -> ti_loop_ info = true ->
  holding cfg t v s [] [] ∅ (mkRange 0 (-1)).
Proof.
  intros [o ->]%handshake_state Hdir Hiok Hloop. split; simpl; rewrite ?lookup_fmap, ?Hdir, ?lookup_empty; try done.
  by exists info.
Qed.
