(* ===== verification/RingRecv.v ===== *)
(** A receiver in a ring, for one table: what it makes of a block that comes from
    upstream - one it takes in and hands on, one that brings its own batch home, one it
    drops - down to the ranges an iteration over the buffer it hands on still finds. *)
From S2P Require Import Prelude Common MemStruct MemStructSpec Buffer ValueOps Protocol Propagator PropagatorSpec PropagatorTrace PropagatorRun RingProp InternalTable Receiver ReceiverSpec ReceiverProps ReceiverRun.

Lemma range_prefix_filled w c : Forall (fun e : Z * UpdateRange => 0 <= e.1) w -> range_prefix (filled w c) = w.
Proof.
  unfold filled. induction 1 as [|e w He _ IH]; simpl.
  - by destruct c.
  - rewrite decide_False by lia. by rewrite IH.
Qed.

Lemma built_handed v b L w : built v b L w -> handed v b L w.
Proof.
  intros (a & c & Hr & Hus & Hl & Hs & _ & Hp). exists a. split_and!; [done..|]. rewrite Hs. by apply range_prefix_filled.
Qed.

(** Updates with keys of their own are the sums of themselves. *)
Lemma sums_list_refl v l : NoDup l.*1 -> Forall (update_ok (v_size v)) l -> sums_list v l l.
Proof.
  intros Hnd Hok. split; [done|]. intros k. destruct (decide (k ∈ l.*1)) as [Hin|Hni].
  - apply list_elem_of_fmap in Hin as ([k' d] & -> & Hin). cbn [fst]. unfold agg. rewrite (deltas_for_unique k' l d) by done. simpl.
    rewrite vs_one; [done|]. rewrite Forall_forall in Hok. by destruct (Hok _ Hin).
  - unfold agg. by rewrite (deltas_for_none k l Hni).
Qed.

Section recv.
Context `{UnorderedIter} (cfg : ReceiverThrInfo) (dir : PropRef) (t : Z) (v : VType).
Hypothesis expected_ok : 0 < num_expected_propagators_ cfg.
Hypothesis my_id_ok : 0 <= my_id_ cfg.
Notation my := (my_id_ cfg).
Notation n := (v_size v).
Notation vs := (vsum (VG := v_group v)).
Notation vp := (vplus (ValueGroup := v_group v)).
Notation val := (value_of (n := n)).

(** In [RUN], with the table, which belongs to direction [dir], and the batches [q] that have not come back. *)
Record taking (s : RecvThr) (it : InternalTable) (q : list UpdateBuffer) : Prop := {
  tk_run : state_ (obj s) = RUN;
  tk_table : exists ptr, has_table s t v ptr it;
  tk_id : table_id_ it = t;
  tk_prop : propagator it = Some dir;
  tk_apply : apply_updates_ it = true;
  tk_forward : forward_updates_ it = true;
  tk_batches : default [] (my_updates s !! t) = q
}.

Lemma take_batch s it q b :
  taking s it q -> exists s', turn cfg (EvInternal (InMyUpdates t b)) s = Ok (Continue, s') /\
    taking s' it (q ++ [b]) /\ out s' = out s ++ [ToPairAck].
Proof.
  intros [Hrun (ptr & [Hd Hh Hw Hs Hc]) Hti Htp Ha Hf Hq]. unfold turn, loop_turn. cbn [handle_internal mbind res_bind].
  eexists. split; [done|]. unfold handle_my_updates. rewrite decide_True by done. unfold index_ref.
  destruct (my_updates s !! t) as [q0|] eqn:E; simpl in Hq; subst.
  - split; [|done]. split; simpl; try done; [exists ptr; by split|]. by rewrite lookup_insert_eq.
  - split; [|done]. split; simpl; try done; [exists ptr; by split|]. by rewrite lookup_insert_eq.
Qed.

Lemma turn_buffer b s s' :
  handle_update_buffer cfg t (to_bytes b) s = Ok (Continue, s') ->
  turn cfg (EvNet (NetBuffer t (to_bytes b))) s = Ok (Continue, s').
Proof.
  intros Hh. unfold turn, loop_turn. rewrite (proj2 (Z.ltb_lt _ _) expected_ok). cbn [handle_net mbind res_bind]. by rewrite Hh.
Qed.

Lemma taking_arrives s it q b L w :
  taking s it q -> built v b L w ->
  exists ptr a c, arrives (n := n) (vadd := v_add v) (vsub := v_sub v) cfg t ptr it b a s /\ has_table s t v ptr it /\
    ab_slots a = filled w c /\ sums_list v (ab_ups a) L.
Proof.
  intros [Hrun (ptr & Ht) Hti Htp Ha Hf Hq] (a & c & Hr & Hus & Hl & Hs & Hnd & Hp). exists ptr, a, c. split; [|done].
  pose proof Ht as [Hd Hh Hw Hsub Hc]. split; try done; [apply Hl|]. exists w, c. done.
Qed.

(** The updates that a delivery adds. *)
Lemma delivered_sums it ups it' L k :
  delivered (n := n) (vadd := v_add v) (VG := v_group v) it ups it' -> apply_updates_ it = true ->
  table_wf (n := n) (vadd := v_add v) it -> Forall (update_ok n) L -> sums_list v ups L ->
  val it' k = vp (val it k) (vs (deltas_for k L)).
Proof.
  intros (_ & _ & Hv) Ha Hw HL [_ Hl]. rewrite Hv, Ha. f_equal. rewrite (Hl k). unfold agg.
  pose proof (deltas_ok v L k HL) as Hd. destruct (deltas_for k L) as [|d ds]; [done|]. simpl. apply vs_one. by apply length_vsum.
Qed.

Lemma foreign_filled w c e l :
  Forall (fun e : Z * UpdateRange => 0 <= e.1) w -> w = e :: l -> (e.1 = my -> l <> []) -> is_Some (foreign my (filled w c)).
Proof.
  intros Hp -> Hl. unfold foreign. rewrite range_prefix_filled by done. case_decide as He; [|eauto].
  destruct l; [by destruct (Hl He)|eauto].
Qed.

(** What a delivery leaves the thread with. *)
Lemma taking_delivered s s' it it' q ptr ups o :
  taking s it q -> has_table s t v ptr it -> delivered (n := n) (vadd := v_add v) (VG := v_group v) it ups it' ->
  s' = mkRecvThr (obj s) (<[ptr := it']> (heap s)) (my_updates s') (peer_prop_info s') (have_received_prop_pair_term s')
    (have_replied_prop_pair_term s') o ->
  forall q', default [] (my_updates s' !! t) = q' -> taking s' it' q'.
Proof.
  intros [Hrun _ Hti Htp Ha Hf _] [Hd Hh Hw Hsub Hc] (Hw' & Hcfg & _) -> q' Hq'. unfold same_config in Hcfg.
  split; simpl in *; try done; try by rewrite <- Hcfg.
  exists ptr. split; simpl; try done; [by rewrite lookup_insert_eq|by rewrite <- Hcfg..].
Qed.

Lemma range_absent a w c : ab_slots a = filled w c -> 0 <= my -> my ∉ w.*1 -> a_get_range a my = None.
Proof.
  intros Hs Hmy Hni. unfold a_get_range. rewrite Hs. unfold filled. rewrite find_slot_app_None.
  - by rewrite find_slot_free_ne by lia.
  - apply Forall_forall. intros e He Heq. apply Hni. rewrite <- Heq. by apply list_elem_of_fmap_2.
Qed.

Lemma range_present a w c r : ab_slots a = filled w c -> NoDup w.*1 -> (my, r) ∈ w -> a_get_range a my = Some r.
Proof.
  intros Hs Hnd Hin. unfold a_get_range. rewrite Hs. unfold filled. pose proof (find_slot_unique w my r Hnd Hin) as Hf.
  unfold find_slot in *. destruct (list_find (fun e => e.1 = my) w) as [[i e]|] eqn:E; [|done].
  by erewrite list_find_app_l by exact E.
Qed.

(** A block without this node's updates is added to the table and handed on. *)
Lemma take_foreign s it q b L w :
  taking s it q -> built v b L w -> Forall (update_ok n) L -> w <> [] -> my ∉ w.*1 ->
  exists s' it' b', turn cfg (EvNet (NetBuffer t (to_bytes b))) s = Ok (Continue, s') /\ taking s' it' q /\
    out s' = out s ++ [ToPropBuffer t b'] /\ handed v b' L w /\
    forall k, val it' k = vp (val it k) (vs (deltas_for k L)).
Proof.
  intros Htk Hb HL Hne Hni. destruct (taking_arrives s it q b L w Htk Hb) as (ptr & a & c & Har & Ht & Hs & Hl).
  pose proof Hb as (_ & _ & _ & _ & _ & _ & Hnd & Hp).
  destruct (handle_update_buffer_open cfg t ptr it b a s Har) as (recv' & j & Hr' & Hopen).
  destruct w as [|e w]; [done|].
  destruct (foreign_filled (e :: w) c e w Hp eq_refl) as [o Ho]; [intros He; exfalso; apply Hni; rewrite <- He; by left|].
  rewrite Hs, Ho in Hopen. unfold dedup in Hopen. rewrite (GetNodeRange_refines _ _ my Hr') in Hopen.
  change (a_get_range (a_with_niter a (Some j)) my) with (a_get_range a my) in Hopen.
  rewrite (range_absent a _ c Hs my_id_ok Hni) in Hopen. cbn [mbind res_bind] in Hopen.
  pose proof (ar_usize _ _ _ _ _ _ _ Har) as Hus. pose proof Ht as [_ _ Hw _ Hc].
  destruct (deliver_spec (n := n) (vadd := v_add v) (vsub := v_sub v) t ptr it recv' _ s Hr' Hus Hw Hc) as (it' & Hdel & Hdv).
  rewrite Hdv in Hopen. cbn [mbind res_bind] in Hopen.
  eexists _, it', recv'. split; [by apply turn_buffer|]. split; [|split; [|split]].
  - eapply taking_delivered; [exact Htk|exact Ht|exact Hdel|reflexivity|]. simpl. apply Htk.
  - cbn [out]. unfold forwarded. by rewrite (tk_forward _ _ _ Htk).
  - exists (a_with_niter a (Some j)). split_and!; [done..|]. cbn [ab_slots a_with_niter]. rewrite Hs. by apply range_prefix_filled.
  - intros k. eapply delivered_sums; [exact Hdel|apply Htk|exact Hw|exact HL|]. exact Hl.
Qed.

(** A block that brings no other node's range is dropped, whatever its updates. *)
Lemma take_nothing s it q b L w :
  taking s it q -> built v b L w -> (forall e l, w = e :: l -> e.1 = my /\ l = []) ->
  turn cfg (EvNet (NetBuffer t (to_bytes b))) s = Ok (Continue, s).
Proof.
  intros Htk Hb Hown. destruct (taking_arrives s it q b L w Htk Hb) as (ptr & a & c & Har & Ht & Hs & Hl).
  pose proof Hb as (_ & _ & _ & _ & _ & _ & Hnd & Hp).
  destruct (handle_update_buffer_open cfg t ptr it b a s Har) as (recv' & j & Hr' & Hopen).
  apply turn_buffer. rewrite Hopen, Hs. unfold foreign. rewrite range_prefix_filled by done.
  destruct w as [|e l]; [done|]. destruct (Hown e l eq_refl) as [He ->]. by rewrite decide_True.
Qed.

Lemma sums_list_keys l L k : sums_list v l L -> k ∈ l.*1 <-> k ∈ L.*1.
Proof.
  intros [_ Hl]. rewrite <- !(agg_key v). unfold agg at 1. rewrite (Hl k). destruct (agg v L k); simpl; [by split; eauto|].
  split; by intros [? ?].
Qed.

(** The updates of a block without this node's part of them. *)
Lemma subtract_sums ua um M K :
  sums_list v ua (M ++ K) -> sums_list v um M -> Forall (update_ok n) (M ++ K) -> Forall (update_ok n) ua ->
  let l := subtract (vsub := v_sub v) (VG := v_group v) um ua in
  sums_list v l l /\ Forall (update_ok n) l /\ forall k, vs (deltas_for k l) = vs (deltas_for k K).
Proof.
  intros [Hnda Ha] [Hndm Hm] Hok Hua l. pose proof Hok as [HM HK]%Forall_app.
  assert (l = (fun u => (u.1, vs (deltas_for u.1 K))) <$> ua) as Hl.
  { unfold l. rewrite subtract_deltas. apply list_fmap_ext. intros i [k d] Hi%list_elem_of_lookup_2. simpl. f_equal.
    pose proof (deltas_for_unique k ua d Hnda Hi) as Hd. rewrite (Ha k) in Hd. unfold agg in Hd. rewrite deltas_for_app in Hd.
    assert (d = vp (vs (deltas_for k K)) (vs (deltas_for k um))) as ->.
    { assert (d = vs (deltas_for k M ++ deltas_for k K)) as ->
        by (destruct (deltas_for k M ++ deltas_for k K); simpl in Hd; congruence).
      rewrite vsum_app by (by apply deltas_ok).
      rewrite vplus_comm by (by apply length_vsum, deltas_ok). f_equal. rewrite (Hm k). unfold agg.
      pose proof (deltas_ok v M k HM) as HMk. destruct (deltas_for k M); [done|]. symmetry. apply vs_one. by apply length_vsum. }
    apply vminus_vsum; [by apply length_vsum, deltas_ok|]. rewrite (Hm k).
    destruct (agg v M k) as [x|] eqn:E; [|constructor]. constructor; [by apply (agg_length v M k)|constructor]. }
  assert (Hkeys : l.*1 = ua.*1) by (unfold l; apply subtract_keys).
  assert (Hlok : Forall (update_ok n) l).
  { rewrite Hl. apply Forall_fmap, Forall_forall. intros [k d] Hin. rewrite Forall_forall in Hua. destruct (Hua _ Hin) as [Hk _].
    split; [done|]. simpl. by apply length_vsum, deltas_ok. }
  split; [apply sums_list_refl; [by rewrite Hkeys|done]|]. split; [done|]. intros k.
  destruct (decide (k ∈ ua.*1)) as [Hin|Hni].
  - apply list_elem_of_fmap in Hin as ([k' d] & -> & Hin). cbn [fst].
    rewrite (deltas_for_unique k' l (vs (deltas_for k' K))); [apply vs_one; by apply length_vsum, deltas_ok|by rewrite Hkeys|].
    rewrite Hl. apply list_elem_of_fmap. by exists (k', d).
  - rewrite (deltas_for_none k l) by by rewrite Hkeys. rewrite (deltas_for_none k K); [done|].
    intros Hin. apply Hni, (sums_list_keys ua (M ++ K)); [done|]. rewrite fmap_app. set_solver.
Qed.

(** A block that brings the oldest batch home: what is left without it is added to the
    table and handed on, and an iteration over the ranges stops where this node's was. *)
Lemma take_home s it q b bm M K pre suf r :
  taking s it (bm :: q) -> batch v my bm M r -> built v b (M ++ K) (pre ++ (my, r) :: suf) ->
  Forall (update_ok n) (M ++ K) -> (pre <> [] \/ suf <> []) ->
  exists s' it' b' K', turn cfg (EvNet (NetBuffer t (to_bytes b))) s = Ok (Continue, s') /\ taking s' it' q /\
    out s' = out s ++ [ToPropBuffer t b'] /\ handed v b' K' pre /\ Forall (update_ok n) K' /\
    (length K' <= length (M ++ K))%nat /\ (M ++ K <> [] -> K' <> []) /\ (forall k, vs (deltas_for k K') = vs (deltas_for k K)) /\
    forall k, val it' k = vp (val it k) (vs (deltas_for k K)).
Proof.
  intros Htk (am & Hrm & Husm & Hlm & Hnem & Hgm) Hb HL Hother.
  destruct (taking_arrives s it _ b _ _ Htk Hb) as (ptr & a & c & Har & Ht & Hs & Hl).
  pose proof Hb as (_ & _ & _ & _ & _ & _ & Hnd & Hp).
  destruct (handle_update_buffer_open cfg t ptr it b a s Har) as (recv' & j & Hr' & Hopen).
  assert (is_Some (foreign my (filled (pre ++ (my, r) :: suf) c))) as [o Ho].
  { destruct pre as [|e pre]; [eapply foreign_filled; [exact Hp|reflexivity|]; simpl; intros _; by destruct Hother|].
    eapply foreign_filled; [exact Hp|reflexivity|]. intros _ Hnil. by destruct pre. }
  rewrite Hs, Ho in Hopen. unfold dedup in Hopen. rewrite (GetNodeRange_refines _ _ my Hr') in Hopen.
  change (a_get_range (a_with_niter a (Some j)) my) with (a_get_range a my) in Hopen.
  rewrite (range_present a _ c r Hs Hnd) in Hopen by set_solver. cbn [mbind res_bind] in Hopen.
  destruct (my_updates s !! t) as [q0|] eqn:Eq; [|by pose proof (tk_batches _ _ _ Htk) as Hq; rewrite Eq in Hq].
  pose proof (tk_batches _ _ _ Htk) as Hq. rewrite Eq in Hq. simpl in Hq. subst q0.
  pose proof Ht as [_ _ Hw Hsub Hc]. pose proof (ar_usize _ _ _ _ _ _ _ Har) as Hus. pose proof (ar_keys _ _ _ _ _ _ _ Har) as Hnda.
  unfold get_vsize, get_vsub_func in Hopen. rewrite (tw_size _ Hw), Nat2Z.id, Hsub in Hopen.
  assert (Contains r r = true) as Hcr by (unfold Contains; by rewrite !Z.leb_refl).
  assert ((ab_ups am).*1 ⊆ (ab_ups a).*1) as Hsubk.
  { intros k Hk%(sums_list_keys _ M k Hlm). apply (sums_list_keys _ (M ++ K) k Hl). rewrite fmap_app. set_solver. }
  destruct (dedup_batch (n := n) (vsub := v_sub v) (length (bm :: q)) my recv' _ r bm am r q Hr') as (recv1 & Hr1 & Hd); [done..|].
  rewrite Hd, Z.ltb_irrefl in Hopen. cbn [mbind res_bind] in Hopen.
  destruct (DeleteNodeRange_refines recv1 _ my Hr1) as (recv2 & Hdn & Hr2).
  assert (Forall (fun e : Z * UpdateRange => 0 <= e.1 /\ e.1 <> my) pre) as Hpre.
  { apply Forall_app in Hp as [Hp _]. rewrite fmap_app, fmap_cons in Hnd. apply NoDup_app in Hnd as (_ & Hdis & _).
    apply Forall_forall. intros e He. rewrite Forall_forall in Hp. split; [by apply Hp|]. intros Heq.
    apply (Hdis my); [rewrite <- Heq; by apply list_elem_of_fmap_2|by left]. }
  set (a1 := a_with_ups (a_with_niter a (Some j)) _) in *.
  assert (ab_slots a1 = pre ++ (my, r) :: suf ++ replicate c free_slot) as Hs1
    by (simpl; rewrite Hs; unfold filled; by rewrite <- app_assoc).
  pose proof (a_delete_range_at a1 pre my r _ Hs1 my_id_ok Hpre) as Hdr.
  rewrite Hdr in Hdn. rewrite Hdr in Hr2. rewrite Hdn in Hopen. cbn [mbind res_bind] in Hopen. cbn [snd] in Hr2.
  destruct (subtract_sums (ab_ups a) (ab_ups am) M K Hl Hlm HL) as (Hll & Hlok & Hlk); [rewrite <- Hus; apply (r_ups _ _ (ar_repr _ _ _ _ _ _ _ Har))|].
  set (ups := subtract (ab_ups am) (ab_ups a)) in *.
  set (s1 := set_my_updates s (<[t := q]> (my_updates s))) in *.
  destruct (deliver_spec (n := n) (vadd := v_add v) (vsub := v_sub v) t ptr it recv2 _ s1 Hr2) as (it' & Hdel & Hdv); [done..|].
  rewrite Hdv in Hopen. cbn [mbind res_bind] in Hopen.
  eexists _, it', recv2, ups. split; [by apply turn_buffer|]. split; [|split; [|split; [|split; [done|split; [|split; [|split; [done|]]]]]]].
  - eapply taking_delivered; [exact Htk|exact Ht|exact Hdel|reflexivity|]. simpl. by rewrite lookup_insert_eq.
  - cbn [out]. unfold forwarded. by rewrite (tk_forward _ _ _ Htk).
  - eexists. split; [exact Hr2|]. split; [done|]. split; [exact Hll|]. cbn [ab_slots a_with_slots].
    clear -Hpre. induction Hpre as [|e pre [He _] _ IH]; simpl; [done|]. rewrite decide_False by lia. by rewrite IH.
  - rewrite <- (length_fmap fst ups), <- (length_fmap fst (M ++ K)). unfold ups. rewrite subtract_keys.
    apply submseteq_length, NoDup_submseteq; [done|]. by intros k ?%(sums_list_keys _ (M ++ K) k Hl).
  - intros Hne Hnil. assert (ab_ups a = []) as Ha by (apply (f_equal (fmap fst)) in Hnil; unfold ups in Hnil; rewrite subtract_keys in Hnil; by apply fmap_nil_inv in Hnil).
    destruct (M ++ K) as [|u l] eqn:E; [done|]. assert (u.1 ∈ (ab_ups a).*1) as Hin by (apply (sums_list_keys _ _ u.1 Hl); by left).
    by rewrite Ha in Hin; apply not_elem_of_nil in Hin.
  - intros k. rewrite <- Hlk. eapply delivered_sums; [exact Hdel|apply Htk|exact Hw|exact Hlok|exact Hll].
Qed.
End recv.
