(* ===== verification/Ring.v ===== *)
(** Nodes in a ring, for one table with [loop] set: every node's threads update their
    own table and log the updates, the propagator batches them and sends the batch to
    its paired receiver and, in a block, downstream; the receiver of the next node adds
    the block to its table and hands it to its propagator; and when a block has been
    around, the receiver of the node it started from takes that node's part out. *)
From S2P Require Import Prelude Common MemStruct MemStructSpec Buffer ValueOps Protocol Propagator PropagatorSpec PropagatorTrace PropagatorRun PropagatorProps RingProp InternalTable Receiver ReceiverSpec ReceiverProps ReceiverRun RingRecv System.

(** ** A node *)

(** The two threads of one direction, and the propagator objects as the threads of the
    application see them. The memory of the tables is the receiver's [heap]. *)
Record member := mkMember {
  prop_cfg : PropagatorThrInfo;
  prop_thr : PropThr;
  recv_cfg : ReceiverThrInfo;
  recv_thr : RecvThr;
  objects : PropRef -> PropObj
}.
Definition set_threads (m : member) (p : PropThr) (r : RecvThr) : member :=
  mkMember (prop_cfg m) p (recv_cfg m) r (objects m).

Section steps.
Context `{Allocator} `{UnorderedIter} (t thr : Z).

Definition find_table (m : member) : option (Z * InternalTable) :=
  ptr ← Receiver.table_dir_ (Receiver.obj (recv_thr m)) !! t;
  it ← heap (recv_thr m) !! ptr;
  Some (ptr, it).

(** [Table::Inc] by thread [thr], and the propagator reading what it pushed. *)
Definition increment (u : Z * list byte) (m : member) : res member :=
  match find_table m with
  | None => Fault NullDeref
  | Some (ptr, it) =>
      '(it, msgs) ← InternalTable.Inc it (objects m) thr u.1 u.2;
      '(_, p) ← Propagator.thread_loop (prop_cfg m) (EvPull <$> msgs) (prop_thr m);
      Ok (set_threads m p (set_heap (recv_thr m) (<[ptr := it]> (heap (recv_thr m)))))
  end.
Definition work (us : list (Z * list byte)) (m : member) : res member := foldM increment us m.

(** What a thread sent since it had sent [old]. *)
Definition since {A} (old new : list A) : list A := drop (length old) new.

Definition batches (o : list Propagator.PropOut) : list recv_event :=
  o ≫= fun x => match x with Propagator.ToReceiver t b => [EvInternal (InMyUpdates t b)] | _ => [] end.
Definition acks (o : list RecvOut) : list PropagatorMsgType :=
  o ≫= fun x => match x with ToPairAck => [EMyUpdatesACK] | _ => [] end.
Definition handed_on (o : list RecvOut) : list prop_event :=
  o ≫= fun x => match x with ToPropBuffer t b => [EvPull (InUpdateBuffer t b)] | _ => [] end.

(** The tick of the timer. The propagator waits for the receiver's acknowledgement of
    its batch, if it has one to send: what it reads has to be what the receiver, given
    the batch, sends. Returns the blocks for the next node. *)
Definition tick (m : member) : res (list (Z * list byte) * member) :=
  let replies := if decide (default ∅ (my_update_store (prop_thr m) !! t) = ∅) then [] else [EMyUpdatesACK] in
  '(_, p) ← Propagator.turn (prop_cfg m) (EvTimer replies) (prop_thr m);
  let sent := since (Propagator.out (prop_thr m)) (Propagator.out p) in
  '(_, r) ← Receiver.thread_loop (recv_cfg m) (batches sent) (recv_thr m);
  if decide (acks (since (Receiver.out (recv_thr m)) (Receiver.out r)) = replies)
  then Ok (wire sent, set_threads m p r) else Block.

(** Blocks from the node upstream: the receiver, then the propagator with what it is
    handed. *)
Definition take_in (blocks : list (Z * list byte)) (m : member) : res member :=
  '(_, r) ← Receiver.thread_loop (recv_cfg m) ((fun p => EvNet (NetBuffer p.1 p.2)) <$> blocks) (recv_thr m);
  '(_, p) ← Propagator.thread_loop (prop_cfg m) (handed_on (since (Receiver.out (recv_thr m)) (Receiver.out r))) (prop_thr m);
  Ok (set_threads m p r).

(** A node with updates of its own that blocks come to. *)
Definition relay (us : list (Z * list byte)) (blocks : list (Z * list byte)) (m : member)
    : res (list (Z * list byte) * member) :=
  m ← work us m;
  m ← take_in blocks m;
  tick m.

Fixpoint pass (blocks : list (Z * list byte)) (relays : list (member * list (Z * list byte)))
    : res (list (Z * list byte) * list member) :=
  match relays with
  | [] => Ok (blocks, [])
  | (m, us) :: relays =>
      '(blocks, m) ← relay us blocks m;
      '(blocks, ms) ← pass blocks relays;
      Ok (blocks, m :: ms)
  end.

(** Once around, from the node [o]. *)
Definition lap (o : member) (us : list (Z * list byte)) (relays : list (member * list (Z * list byte)))
    : res (member * list member) :=
  o ← work us o;
  '(blocks, o) ← tick o;
  '(blocks, ms) ← pass blocks relays;
  o ← take_in blocks o;
  Ok (o, ms).
End steps.

(** ** What a node holds *)

Section ring.
Context `{Allocator} `{UnorderedIter} (dir : PropRef) (t thr : Z) (v : VType).
Notation n := (v_size v).
Notation logs := (list (Z * list byte)).
Notation vs := (vsum (VG := v_group v)).
Notation vp := (vplus (ValueGroup := v_group v)).

Notation val := (value_of (n := n)).
Notation wf := (table_wf (n := n) (vadd := v_add v)).

(** The value of [k] in the node's table. *)
Definition value (m : member) (k : Z) : list byte :=
  match find_table t m with Some (_, it) => value_of (n := n) it k | None => zero_bytes n end.

(** From [m] to [m'] every value has grown by its deltas in [L]. *)
Definition grows (m m' : member) (L : logs) : Prop := forall k, value m' k = vp (value m k) (vs (deltas_for k L)).

Definition log_ok (u : Z * list byte) : Prop := is_i32 u.1 /\ length u.2 = n.

(** Node [id]: the same id in both threads, a batching interval, an upstream node, a
    downstream one if [down], and [thr] registered. *)
Record member_ok (down : bool) (id : Z) (m : member) : Prop := {
  mo_prop_id : Propagator.my_id_ (prop_cfg m) = id;
  mo_recv_id : my_id_ (recv_cfg m) = id;
  mo_id : 0 <= id /\ is_i32 id;
  mo_nanosec : 0 < nanosec_ (prop_cfg m);
  mo_downstream : has_downstream (prop_cfg m) = down;
  mo_expected : 0 < num_expected_propagators_ (recv_cfg m);
  mo_run : Propagator.state_ (objects m dir) = Propagator.RUN;
  mo_registered : thr ∈ update_push_sock_ (objects m dir)
}.

Definition holds (m : member) (L M : logs) (peers : gmap Z UpdateRange) (mine : UpdateRange) (q : list UpdateBuffer) : Prop :=
  holding (prop_cfg m) t v (prop_thr m) L M peers mine /\ exists it, taking dir t v (recv_thr m) it q.

Lemma log_update_ok L : Forall log_ok L -> Forall (update_ok n) L.
Proof. apply List.Forall_impl. intros u [Hk Hd]. split; [|done]. unfold is_i32, is_i64 in *. lia. Qed.

Lemma taking_find m it q : taking dir t v (recv_thr m) it q -> exists ptr, find_table t m = Some (ptr, it) /\
  has_table (recv_thr m) t v ptr it.
Proof.
  intros [_ (ptr & Ht) _ _ _ _ _]. exists ptr. split; [|done]. destruct Ht as [Hd Hh _ _ _].
  unfold find_table. rewrite Hd. simpl. by rewrite Hh.
Qed.

Lemma taking_value m it q : taking dir t v (recv_thr m) it q -> forall k, value m k = value_of (n := n) it k.
Proof. intros (ptr & Hf & _)%taking_find k. unfold value. by rewrite Hf. Qed.

Lemma value_length m it q k : taking dir t v (recv_thr m) it q -> length (value m k) = n.
Proof.
  intros Htk. rewrite (taking_value m it q Htk). apply taking_find in Htk as (ptr & _ & [_ _ Hw _ _]).
  by apply (length_value_of (vadd := v_add v)).
Qed.

Lemma grows_trans m1 m2 m3 it q A B :
  taking dir t v (recv_thr m1) it q -> Forall (update_ok n) A -> Forall (update_ok n) B ->
  grows m1 m2 A -> grows m2 m3 B -> grows m1 m3 (A ++ B).
Proof.
  intros Htk HA HB H1 H2 k. rewrite H2, H1, deltas_for_app, vsum_app by (by apply deltas_ok).
  rewrite vplus_assoc; [done|by eapply value_length| |]; by apply length_vsum, deltas_ok.
Qed.

Lemma grows_perm m m' A B : Forall (update_ok n) A -> A ≡ₚ B -> grows m m' A -> grows m m' B.
Proof.
  intros HA Hp Hg k. rewrite Hg. f_equal. apply vsum_perm; [by apply deltas_ok|].
  unfold deltas_for. by rewrite Hp.
Qed.

Lemma grows_none m m' : (forall k, value m' k = value m k) -> forall it q, taking dir t v (recv_thr m) it q -> grows m m' [].
Proof.
  intros Hv it q Htk k. rewrite Hv. change (vs (deltas_for k [])) with (zero_bytes n).
  rewrite vplus_comm; [by rewrite vplus_zero by by eapply value_length|by eapply value_length|apply length_zero_bytes].
Qed.

Lemma built_perm b A B w : Forall (update_ok n) A -> A ≡ₚ B -> built v b A w -> built v b B w.
Proof.
  intros HA Hp (a & c & Hr & Hus & [Hnd Hl] & Hrest). exists a, c. split; [done|]. split; [done|]. split; [|done].
  split; [done|]. intros k. rewrite Hl. f_equal. unfold agg.
  assert (deltas_for k A ≡ₚ deltas_for k B) as Hk by (unfold deltas_for; by rewrite Hp).
  pose proof (deltas_ok v A k HA) as HdA. destruct (deltas_for k A) as [|x A'] eqn:EA.
  - by apply Permutation_nil in Hk as ->.
  - destruct (deltas_for k B) as [|y B'] eqn:EB; [by apply Permutation_sym, Permutation_nil in Hk|].
    f_equal. by apply vsum_perm.
Qed.

(** ** Updates of the node's own threads *)

Lemma inc_runs it objs k d :
  wf it -> propagator it = Some dir -> length d = n -> is_i32 k ->
  Propagator.state_ (objs dir) = Propagator.RUN -> thr ∈ update_push_sock_ (objs dir) ->
  exists it', InternalTable.Inc it objs thr k d = Ok (it', [InUpdateLog (mkPUpdateLogMsg (table_id_ it) k EInc) d]) /\
    wf it' /\ same_config it it' /\ forall k', val it' k' = vp (val it k') (vs (deltas_for k' [(k, d)])).
Proof.
  intros Hw Hp Hd Hk Hrun Hreg.
  destruct (apply_updates_spec (vsub := v_sub v) (VG := v_group v) [(k, d)] it Hw) as (it' & Hi & Hw' & Hc & Hv); [by repeat constructor|].
  exists it'. split; [|done]. cbn [foldM fst snd] in Hi. unfold InternalTable.Inc. destruct (IncRaw it k d) as [it1| |] eqn:Ei; [|done..].
  injection Hi as ->. cbn [mbind res_bind]. destruct (IncRaw_keeps _ _ _ _ Ei) as [-> ->]. rewrite Hp.
  unfold Propagator.Inc. rewrite decide_False by (by intros ?). rewrite decide_False by (by intros ?).
  unfold memcpy_src. rewrite (proj2 (Z.leb_le _ _)) by lia. rewrite Z.leb_refl. simpl. rewrite Nat2Z.id, take_ge by lia.
  by rewrite wrap_i32_id.
Qed.

Lemma increment_runs down id u m L M peers mine q :
  member_ok down id m -> holds m L M peers mine q -> log_ok u -> is_i64 (end_ mine + 2) -> st_ mine <= end_ mine + 1 ->
  exists m', increment t thr u m = Ok m' /\ member_ok down id m' /\
    holds m' (L ++ [u]) (M ++ [u]) peers (mkRange (st_ mine) (end_ mine + 1)) q /\ grows m m' [u].
Proof.
  intros Hm (Hh & it & Htk) [Hk Hd] Hi Hst. destruct u as [k d]. simpl in Hk, Hd.
  destruct (taking_find m it q Htk) as (ptr & Hf & [Hdir Hheap Hw Hsub Hc]). pose proof Htk as [Hrun _ Hti Htp Ha Hfw Hq].
  destruct (inc_runs it (objects m) k d Hw Htp Hd Hk (mo_run _ _ _ Hm) (mo_registered _ _ _ Hm)) as (it' & Hinc & Hw' & Hcfg & Hv).
  destruct (hold_logs (prop_cfg m) t v (mo_nanosec _ _ _ Hm) [(k, d)] (prop_thr m) L M peers mine Hh) as (p & Hl & Hh' & _);
    [by apply log_update_ok, Forall_singleton|replace (end_ mine + _ + 1) with (end_ mine + 2) by (simpl; lia); done|done|].
  unfold increment. rewrite Hf. cbn [fst snd]. rewrite Hinc. cbn [mbind res_bind]. rewrite Hti.
  cbn [fmap list_fmap] in Hl |- *. unfold log_event in Hl. cbn [fst snd] in Hl. rewrite Hl. cbn [mbind res_bind].
  eexists. split; [done|]. split; [by destruct Hm; split|].
  unfold same_config in Hcfg.
  assert (taking dir t v (set_heap (recv_thr m) (<[ptr := it']> (heap (recv_thr m)))) it' q) as Htk'.
  { split; try done; try by rewrite <- Hcfg.
    exists ptr. split; simpl; try done; [by rewrite lookup_insert_eq|by rewrite <- Hcfg..]. }
  split; [split; [exact Hh'|by exists it']|]. intros k'.
  rewrite (taking_value m it q Htk), (taking_value (set_threads m p _) it' q Htk'). apply Hv.
Qed.

Lemma work_runs down id us : forall m L M peers mine q,
  member_ok down id m -> holds m L M peers mine q -> Forall log_ok us -> is_i64 (end_ mine + Z.of_nat (length us) + 1) ->
  st_ mine <= end_ mine + 1 ->
  exists m', work t thr us m = Ok m' /\ member_ok down id m' /\
    holds m' (L ++ us) (M ++ us) peers (mkRange (st_ mine) (end_ mine + Z.of_nat (length us))) q /\ grows m m' us.
Proof.
  induction us as [|u us IH]; intros m L M peers mine q Hm Hh Hus Hi Hst.
  { exists m. split; [done|]. split; [done|]. rewrite !app_nil_r, Z.add_0_r. split; [by destruct mine|].
    destruct Hh as (_ & it & Htk). by eapply grows_none. }
  apply Forall_cons in Hus as [Hu Hus]. cbn [length] in Hi. unfold work. cbn [foldM].
  pose proof (hd_mine_ok _ _ _ _ _ _ _ _ (proj1 Hh)) as (Hi1 & Hi2 & Hi3). unfold is_i64 in Hi1, Hi2, Hi3, Hi.
  destruct (increment_runs down id u m L M peers mine q Hm Hh Hu) as (m1 & -> & Hm1 & Hh1 & Hg1); [unfold is_i64; lia|done|].
  cbn [mbind res_bind]. destruct (IH m1 _ _ _ _ q Hm1 Hh1 Hus) as (m2 & Hw & Hm2 & Hh2 & Hg2); simpl; [unfold is_i64; lia|lia|].
  exists m2. split; [exact Hw|]. split; [done|]. cbn [st_ end_] in Hh2. rewrite <- !app_assoc in Hh2. simpl in Hh2.
  replace (end_ mine + Z.of_nat (S (length us))) with (end_ mine + 1 + Z.of_nat (length us)) by lia. split; [done|].
  destruct Hh as (_ & it & Htk).
  by apply (grows_trans m m1 m2 it q [u] us Htk); [by apply log_update_ok, Forall_singleton|by apply log_update_ok|..].
Qed.

(** ** A tick *)

Lemma recv_loop_one cfg e s s' : turn cfg e s = Ok (Continue, s') -> Receiver.thread_loop cfg [e] s = Ok (Continue, s').
Proof. intros Ht. cbn [Receiver.thread_loop]. by rewrite Ht. Qed.
Lemma prop_loop_one cfg e s s' :
  Propagator.turn cfg e s = Ok (Propagator.Continue, s') -> Propagator.thread_loop cfg [e] s = Ok (Propagator.Continue, s').
Proof. intros Ht. cbn [Propagator.thread_loop]. by rewrite Ht. Qed.

Lemma since_app {A} (l k : list A) : since l (l ++ k) = k.
Proof. apply drop_app_length. Qed.

Lemma tick_runs id m L M peers mine q :
  member_ok true id m -> holds m L M peers mine q -> L <> [] -> map_Forall (fun _ r => st_ r <= end_ r) peers ->
  fits n (length L) (size peers + 1) -> fits n (length M) 1 ->
  exists m' b w q', tick t m = Ok ([(t, to_bytes b)], m') /\ member_ok true id m' /\
    holds m' [] [] (mark_sent <$> peers) (next_range mine) q' /\ (forall k, value m' k = value m k) /\
    built v b L (w ++ own_slot id mine) /\ w ≡ₚ map_to_list peers /\
    if decide (M = []) then q' = q else exists b2, batch v id b2 M mine /\ q' = q ++ [b2].
Proof.
  intros Hm (Hh & it & Htk) HL Hlive Hfit Hfit1. pose proof Hm as [Hpi Hri Hid Hns Hds Hex Hrun Hreg].
  destruct (hold_tick (prop_cfg m) t v) with (5 := HL) (4 := Hh) as (p & b & w & Ht & Hh' & Hb & Hw & Ho); [by rewrite Hpi|done..|].
  rewrite Hpi in Hb, Ho. unfold tick.
  assert (Hrep : (if decide (default ∅ (my_update_store (prop_thr m) !! t) = ∅) then [] else [EMyUpdatesACK]) =
    if decide (M = []) then [] else [EMyUpdatesACK]).
  { pose proof (hd_mys _ _ _ _ _ _ _ _ Hh) as Hmys. destruct (decide (M = [])) as [->|HM].
    - rewrite decide_True; [done|]. apply map_eq. intros k. by rewrite (Hmys k), lookup_empty.
    - rewrite decide_False; [done|]. intros He. rewrite He in Hmys. by apply sums_empty in Hmys. }
  rewrite Hrep, Ht. cbn [mbind res_bind]. destruct (decide (M = [])) as [HM|HM].
  - rewrite Ho, since_app. cbn [batches mbind list_bind app Receiver.thread_loop res_bind]. unfold since. rewrite drop_all.
    cbn [acks mbind list_bind]. rewrite decide_True by done. eexists _, b, w, q. split; [done|]. split; [by destruct Hm; split|].
    split; [split; [exact Hh'|by exists it]|]. split; [done|]. by split_and!.
  - destruct Ho as (b2 & Hb2 & Ho). rewrite Ho, since_app. cbn [batches mbind list_bind app].
    destruct (take_batch (recv_cfg m) dir t v (recv_thr m) it q b2 Htk) as (r & Htb & Htk' & Hr).
    rewrite (recv_loop_one _ _ _ _ Htb). cbn [mbind res_bind]. rewrite Hr, since_app. cbn [acks mbind list_bind app].
    rewrite decide_True by done. eexists _, b, w, (q ++ [b2]). split; [done|]. split; [by destruct Hm; split|].
    split; [split; [exact Hh'|by exists it]|]. split; [|split_and!; [done..|by exists b2]].
    intros k. rewrite (taking_value m it q Htk). by rewrite (taking_value (set_threads m p r) it _ Htk').
Qed.

(** Without a downstream neighbour. *)
Lemma tick_stops id m L M peers mine q :
  member_ok false id m -> holds m L M peers mine q -> L <> [] -> fits n (length L) (size peers + 1) -> fits n (length M) 1 ->
  tick t m = Fault NullDeref.
Proof.
  intros Hm (Hh & it & Htk) HL Hfit Hfit1. pose proof Hm as [Hpi Hri Hid Hns Hds Hex Hrun Hreg]. unfold tick.
  rewrite (hold_tick_stops (prop_cfg m) t v ltac:(by rewrite Hpi) Hns (prop_thr m) L M peers mine _ Hh HL Hfit Hfit1); [done| |done].
  intros HM. rewrite decide_False; [done|]. intros He. pose proof (hd_mys _ _ _ _ _ _ _ _ Hh) as Hmys. rewrite He in Hmys.
  by apply sums_empty in Hmys.
Qed.

(** ** Blocks from upstream *)

(** A range of another node in a block. *)
Definition entry_ok (e : Z * UpdateRange) : Prop := 0 <= e.1 /\ is_i32 e.1 /\ range_ok e.2 /\ st_ e.2 <= end_ e.2.

Lemma entries_peer cfg id w :
  Propagator.my_id_ cfg = id -> Forall entry_ok w -> id ∉ w.*1 -> Forall (peer_entry cfg) w.
Proof.
  intros <- Hw Hni. apply Forall_forall. intros e He. rewrite Forall_forall in Hw. destruct (Hw e He) as (? & ? & ? & _).
  split; [split; [done|]|done]. intros Heq. apply Hni. rewrite <- Heq. by apply list_elem_of_fmap_2.
Qed.

Lemma take_in_buffer down id m r it it' q q' L M peers mine b b' K w G :
  member_ok down id m -> holding (prop_cfg m) t v (prop_thr m) L M peers mine -> taking dir t v (recv_thr m) it q ->
  turn (recv_cfg m) (EvNet (NetBuffer t (to_bytes b))) (recv_thr m) = Ok (Continue, r) -> taking dir t v r it' q' ->
  out r = out (recv_thr m) ++ [ToPropBuffer t b'] -> handed v b' K w -> Forall (update_ok n) K -> NoDup w.*1 ->
  Forall entry_ok w -> id ∉ w.*1 -> contiguous peers w -> (forall k, val it' k = vp (val it k) (vs (deltas_for k G))) ->
  exists m' peers', take_in [(t, to_bytes b)] m = Ok m' /\ member_ok down id m' /\ holds m' (L ++ K) M peers' mine q' /\
    merges peers peers' w /\ grows m m' G.
Proof.
  intros Hm Hh Htk Htb Htk' Ho Hb HK Hnd Hent Hni Hcont Hg. pose proof Hm as [Hpi Hri Hid Hns Hds Hex Hrun Hreg].
  destruct (hold_buffer (prop_cfg m) t v) with (1 := Hh) (2 := Hb) (3 := HK) (4 := Hnd) as (p & peers' & Htp & Hh' & _ & Hp);
    [by apply (entries_peer _ id)|done|].
  unfold take_in. cbn [fmap list_fmap fst snd]. rewrite (recv_loop_one _ _ _ _ Htb). cbn [mbind res_bind].
  rewrite Ho, since_app. cbn [handed_on mbind list_bind app]. rewrite (prop_loop_one _ _ _ _ Htp). cbn [mbind res_bind].
  eexists _, peers'. split; [done|]. split; [by destruct Hm; split|]. split; [split; [exact Hh'|by exists it']|]. split; [done|].
  intros k. rewrite (taking_value m it q Htk), (taking_value (set_threads m p r) it' q' Htk'). apply Hg.
Qed.

Lemma take_in_foreign down id m L M peers mine q b K w :
  member_ok down id m -> holds m L M peers mine q -> built v b K w -> Forall (update_ok n) K -> w <> [] -> id ∉ w.*1 ->
  Forall entry_ok w -> contiguous peers w ->
  exists m' peers', take_in [(t, to_bytes b)] m = Ok m' /\ member_ok down id m' /\ holds m' (L ++ K) M peers' mine q /\
    merges peers peers' w /\ grows m m' K.
Proof.
  intros Hm (Hh & it & Htk) Hb HK Hw Hni Hent Hcont. pose proof Hm as [Hpi Hri Hid Hns Hds Hex Hrun Hreg].
  pose proof Hb as (_ & _ & _ & _ & _ & _ & Hnd & _).
  destruct (take_foreign (recv_cfg m) dir t v Hex ltac:(rewrite Hri; apply Hid) (recv_thr m) it q b K w Htk Hb HK Hw)
    as (r & it' & b' & Ht & Htk' & Ho & Hb' & Hg); [by rewrite Hri|].
  by apply (take_in_buffer down id m r it it' q q L M peers mine b b' K w).
Qed.

(** ** A relay *)

(** The range a tick sends for a node whose first updates are [us]. *)
Definition first_range (us : logs) : UpdateRange := mkRange 0 (Z.of_nat (length us) - 1).
Definition own_entry (id : Z) (us : logs) : list (Z * UpdateRange) := own_slot id (first_range us).

(** A node that has had no updates yet. *)
Definition fresh_node (down : bool) (id : Z) (m : member) (q : list UpdateBuffer) : Prop :=
  member_ok down id m /\ holds m [] [] ∅ (mkRange 0 (-1)) q.

Lemma peers_perm (peers : gmap Z UpdateRange) w :
  NoDup w.*1 -> (forall p r, peers !! p = Some r <-> (p, r) ∈ w) -> map_to_list peers ≡ₚ w.
Proof.
  intros Hnd Hp. apply NoDup_Permutation; [apply NoDup_map_to_list|by apply NoDup_fmap_1 in Hnd|].
  intros [p r]. by rewrite elem_of_map_to_list.
Qed.

Lemma work_fresh down id m us q :
  fresh_node down id m q -> Forall log_ok us -> is_i64 (Z.of_nat (length us)) ->
  exists m', work t thr us m = Ok m' /\ member_ok down id m' /\ holds m' us us ∅ (first_range us) q /\ grows m m' us.
Proof.
  intros [Hm Hh] Hus Hi. destruct (work_runs down id us m [] [] ∅ (mkRange 0 (-1)) q Hm Hh Hus) as (m' & Hw & Hm' & Hh' & Hg).
  - simpl. by replace (-1 + Z.of_nat (length us) + 1) with (Z.of_nat (length us)) by lia.
  - simpl. lia.
  - exists m'. split; [done|]. split; [done|]. split; [|done]. unfold first_range. simpl in Hh'.
    by replace (Z.of_nat (length us) - 1) with (-1 + Z.of_nat (length us)) by lia.
Qed.

Lemma relay_runs id m us b K w q :
  fresh_node true id m q -> Forall log_ok us -> is_i64 (Z.of_nat (length us)) ->
  built v b K w -> Forall (update_ok n) K -> K <> [] -> w <> [] -> id ∉ w.*1 -> Forall entry_ok w ->
  fits n (length us + length K) (length w + 1) ->
  exists m' b' w' peers q', relay t thr us [(t, to_bytes b)] m = Ok ([(t, to_bytes b')], m') /\ member_ok true id m' /\
    holds m' [] [] peers (next_range (first_range us)) q' /\ built v b' (us ++ K) (w' ++ own_entry id us) /\ w' ≡ₚ w /\
    (forall p r, (p, r) ∈ w -> peers !! p = Some (mark_sent r)) /\ grows m m' (us ++ K).
Proof.
  intros Hf Hus Hi Hb HK HKne Hw Hni Hent Hfit. unfold relay. pose proof (log_update_ok _ Hus) as Huo.
  pose proof Hb as (_ & _ & _ & _ & _ & _ & Hnd & _). pose proof Hf as [_ (_ & it & Htk)].
  destruct (work_fresh true id m us q Hf Hus Hi) as (m1 & -> & Hm1 & Hh1 & Hg1). cbn [mbind res_bind].
  destruct (take_in_foreign true id m1 us us ∅ (first_range us) q b K w Hm1 Hh1 Hb HK Hw Hni Hent (contiguous_new w))
    as (m2 & peers & -> & Hm2 & Hh2 & Hmg & Hg2). cbn [mbind res_bind]. pose proof (merges_empty peers w Hmg Hnd) as Hp.
  pose proof (peers_perm peers w Hnd Hp) as Hperm.
  assert (size peers = length w) as Hsz by (by rewrite <- length_map_to_list, Hperm).
  destruct (tick_runs id m2 (us ++ K) us peers (first_range us) q Hm2 Hh2) as (m3 & b3 & w3 & q3 & Ht & Hm3 & Hh3 & Hv3 & Hb3 & Hw3 & _).
  - by destruct us, K.
  - intros p r Hpr%Hp. rewrite Forall_forall in Hent. by apply (Hent (p, r)).
  - by rewrite length_app, Hsz.
  - eapply fits_mono; [exact Hfit|lia|lia].
  - exists m3, b3, w3, (mark_sent <$> peers), q3. split; [done|]. split; [done|]. split; [done|]. split; [done|].
    split; [by rewrite Hw3|]. split; [intros p r Hpr; by rewrite lookup_fmap, (proj2 (Hp p r) Hpr)|]. intros k. rewrite Hv3. by apply (grows_trans m m1 m2 it q us K Htk).
Qed.

(** ** Along the ring *)

Definition relay_ok (r : Z * member * logs) : Prop :=
  (exists q, fresh_node true r.1.1 r.1.2 q) /\ Forall log_ok r.2 /\ is_i64 (Z.of_nat (length r.2) + 1).
Definition entries (rs : list (Z * member * logs)) : list (Z * UpdateRange) := rs ≫= fun r => own_entry r.1.1 r.2.
Definition relays (rs : list (Z * member * logs)) : list (member * logs) := (fun r => (r.1.2, r.2)) <$> rs.

Lemma own_entry_ok id us : 0 <= id /\ is_i32 id -> is_i64 (Z.of_nat (length us) + 1) -> Forall entry_ok (own_entry id us).
Proof.
  intros [Hid Hi] Hl. unfold own_entry, own_slot. case_decide as Hle; [|constructor]. constructor; [|constructor].
  unfold entry_ok, range_ok, first_range, is_i64 in *. simpl in *. split_and!; try done; lia.
Qed.

Lemma own_entry_id id us e : e ∈ own_entry id us -> e.1 = id.
Proof. unfold own_entry, own_slot. case_decide; [|by intros ?%not_elem_of_nil]. by intros ->%list_elem_of_singleton. Qed.

Lemma length_own_entry id us : (length (own_entry id us) <= 1)%nat.
Proof. unfold own_entry, own_slot. case_decide; simpl; lia. Qed.

Notation ids rs := ((fun r : Z * member * logs => r.1.1) <$> rs).

Lemma ids_step (w w' : list (Z * UpdateRange)) id us l :
  NoDup (w.*1 ++ id :: l) -> w' ≡ₚ w -> NoDup ((w' ++ own_entry id us).*1 ++ l) /\ id ∉ w.*1.
Proof.
  intros Hnd Hp. split.
  - rewrite fmap_app, Hp, <- app_assoc. unfold own_entry, own_slot. case_decide; [done|].
    simpl. rewrite <- Permutation_middle in Hnd. by apply NoDup_cons in Hnd as [_ ?].
  - apply NoDup_app in Hnd as (_ & Hdis & _). intros Hin. apply (Hdis id Hin). by left.
Qed.

Lemma pass_runs rs : forall b K w,
  built v b K w -> Forall (update_ok n) K -> K <> [] -> w <> [] -> Forall entry_ok w -> Forall relay_ok rs ->
  NoDup (w.*1 ++ ids rs) -> fits n (length K + length (concat rs.*2)) (length w + length rs) ->
  exists b' w' ms, pass t thr [(t, to_bytes b)] (relays rs) = Ok ([(t, to_bytes b')], ms) /\
    built v b' (K ++ concat rs.*2) w' /\ w' ≡ₚ w ++ entries rs /\ length ms = length rs /\
    forall j r m', rs !! j = Some r -> ms !! j = Some m' -> grows r.1.2 m' (K ++ concat (take (S j) rs.*2)).
Proof.
  induction rs as [|[[id m] us] rs IH]; intros b K w Hb HK HKne Hw Hent Hrs Hnd Hfit.
  { exists b, w, []. cbn [fmap list_fmap concat entries mbind list_bind]. rewrite !app_nil_r. done. }
  apply Forall_cons in Hrs as [([q Hf] & Hus & Hi) Hrs]. cbn [fst snd] in Hf, Hus, Hi. cbn [fmap list_fmap fst snd concat length] in Hnd, Hfit.
  rewrite length_app in Hfit. pose proof (log_update_ok _ Hus) as Huo.
  destruct (ids_step w w id us _ Hnd ltac:(done)) as [_ Hni].
  destruct (relay_runs id m us b K w q Hf Hus) as (m1 & b1 & w1 & peers & q1 & Hrel & Hm1 & Hh1 & Hb1 & Hw1 & _ & Hg1); try done.
  { unfold is_i64 in *. lia. }
  { eapply fits_mono; [exact Hfit|lia|lia]. }
  pose proof (length_own_entry id us) as Hlo. pose proof (Permutation_length Hw1) as Hlw.
  assert (Forall (update_ok n) (us ++ K)) as HuK by (by apply Forall_app).
  destruct (IH b1 (us ++ K) (w1 ++ own_entry id us)) as (b' & w' & ms & Hp & Hb' & Hw' & Hlen & Hg); try done.
  { by destruct us. }
  { destruct w1; [|done]. by apply Permutation_nil in Hw1. }
  { apply Forall_app. split; [by rewrite Hw1|]. apply own_entry_ok; [apply Hf|done]. }
  { by apply (ids_step w w1 id us). }
  { eapply fits_mono; [exact Hfit| |]; rewrite ?length_app; lia. }
  exists b', w', (m1 :: ms). unfold relays. cbn [fmap list_fmap fst snd pass]. rewrite Hrel. cbn [mbind res_bind].
  change ((λ r, (r.1.2, r.2)) <$> rs) with (relays rs). rewrite Hp. cbn [mbind res_bind]. split; [done|].
  assert (forall A, (us ++ K) ++ A ≡ₚ K ++ us ++ A) as Hsw by (intros A; rewrite app_assoc, (Permutation_app_comm us K); done).
  assert (Forall (update_ok n) (concat rs.*2)) as Hrest.
  { apply List.Forall_concat, Forall_fmap. eapply List.Forall_impl; [|exact Hrs]. intros r (_ & Hr & _). by apply log_update_ok. }
  split; [|split; [|split; [by simpl; rewrite Hlen|]]].
  - cbn [concat]. apply (built_perm b' ((us ++ K) ++ concat rs.*2)); [by apply Forall_app|apply Hsw|done].
  - rewrite Hw', Hw1, <- app_assoc. done.
  - intros [|j] r m' Hr Hm'; cbn [lookup list_lookup] in Hr, Hm'.
    + injection Hr as <-. injection Hm' as <-. cbn [take fst snd concat]. rewrite app_nil_r.
      apply (grows_perm _ _ (us ++ K)); [done|apply Permutation_app_comm|done].
    + cbn [take concat]. apply (grows_perm _ _ ((us ++ K) ++ concat (take (S j) rs.*2))); [|apply Hsw|by apply Hg].
      apply Forall_app. split; [done|]. apply List.Forall_concat. apply List.Forall_forall. intros x Hx%list_elem_of_In.
      apply elem_of_take in Hx as (i & Hx & _). rewrite list_lookup_fmap in Hx. destruct (rs !! i) as [r'|] eqn:E; [|done].
      injection Hx as <-. apply log_update_ok. rewrite Forall_forall in Hrs. apply list_elem_of_lookup_2 in E. by apply Hrs in E as (_ & ? & _).
Qed.

(** ** From the origin and back to it *)

Lemma set_off id o us :
  fresh_node true id o [] -> Forall log_ok us -> is_i64 (Z.of_nat (length us)) -> us <> [] -> fits n (length us) 1 ->
  exists o1 o2 b bm, work t thr us o = Ok o1 /\ tick t o1 = Ok ([(t, to_bytes b)], o2) /\ member_ok true id o2 /\
    holds o2 [] [] ∅ (next_range (first_range us)) [bm] /\ batch v id bm us (first_range us) /\
    built v b us [(id, first_range us)] /\ grows o o2 us.
Proof.
  intros Hf Hus Hi Hne Hfit. destruct (work_fresh true id o us [] Hf Hus Hi) as (o1 & Hw & Hm1 & Hh1 & Hg1).
  destruct (tick_runs id o1 us us ∅ (first_range us) [] Hm1 Hh1) as (o2 & b & w & q & Ht & Hm2 & Hh2 & Hv2 & Hb & Hnil & Hq); try done.
  rewrite decide_False in Hq by done. destruct Hq as (bm & Hbm & ->). rewrite map_to_list_empty in Hnil. apply Permutation_nil_r in Hnil as ->.
  exists o1, o2, b, bm. split; [done|]. split; [done|]. split; [done|]. rewrite fmap_empty in Hh2. split; [exact Hh2|]. split; [done|].
  split.
  - unfold own_slot in Hb. rewrite decide_True in Hb; [done|]. destruct us; [done|]. simpl. lia.
  - intros k. rewrite Hv2. apply Hg1.
Qed.

Lemma home_runs id o mine bm q b M K pre suf r :
  member_ok true id o -> holds o [] [] ∅ mine (bm :: q) -> batch v id bm M r -> built v b (M ++ K) (pre ++ (id, r) :: suf) ->
  Forall (update_ok n) (M ++ K) -> Forall entry_ok (pre ++ (id, r) :: suf) -> pre <> [] \/ suf <> [] ->
  exists o' K' peers, take_in [(t, to_bytes b)] o = Ok o' /\ member_ok true id o' /\ holds o' K' [] peers mine q /\
    (forall p r, peers !! p = Some r <-> (p, r) ∈ pre) /\ Forall (update_ok n) K' /\ (length K' <= length (M ++ K))%nat /\ (M ++ K <> [] -> K' <> []) /\
    (forall k, vs (deltas_for k K') = vs (deltas_for k K)) /\ grows o o' K.
Proof.
  intros Hm (Hh & it & Htk) Hbm Hb HL Hent Hother. pose proof Hm as [Hpi Hri Hid Hns Hds Hex Hrun Hreg].
  pose proof Hb as (_ & _ & _ & _ & _ & _ & Hnd & _). rewrite fmap_app, fmap_cons in Hnd. apply NoDup_app in Hnd as (Hnd & Hdis & _).
  apply Forall_app in Hent as [Hent _]. rewrite <- Hri in Hbm, Hb.
  destruct (take_home (recv_cfg o) dir t v Hex ltac:(rewrite Hri; apply Hid) (recv_thr o) it q b bm M K pre suf r Htk Hbm Hb HL Hother)
    as (rt & it' & b' & K' & Ht & Htk' & Ho & Hb' & HK' & Hlen & Hsome & Hsum & Hg).
  destruct (take_in_buffer true id o rt it it' (bm :: q) q [] [] ∅ mine b b' K' pre K) as (o' & peers & Hti & Hm' & Hh' & Hp & Hg'); try done.
  - intros Hin. apply (Hdis id Hin). by left.
  - exists o', K', peers. pose proof (merges_empty peers pre Hp Hnd). by split_and!.
Qed.

(** A block that brings no other node's range leaves no trace. *)
Lemma dropped down id o L M peers mine q b K w :
  member_ok down id o -> holds o L M peers mine q -> built v b K w -> (forall e l, w = e :: l -> e.1 = id /\ l = []) ->
  take_in [(t, to_bytes b)] o = Ok o.
Proof.
  intros Hm (Hh & it & Htk) Hb Hw. pose proof Hm as [Hpi Hri Hid Hns Hds Hex Hrun Hreg]. unfold take_in. cbn [fmap list_fmap fst snd].
  rewrite (recv_loop_one _ _ _ (recv_thr o)).
  - cbn [mbind res_bind]. unfold since. rewrite drop_all. cbn [handed_on mbind list_bind Propagator.thread_loop res_bind]. by destruct o.
  - apply (take_nothing (recv_cfg o) dir t v Hex ltac:(rewrite Hri; apply Hid) _ it _ b K w Htk Hb). by rewrite Hri.
Qed.

Lemma entries_none rs : Forall relay_ok rs -> entries rs = [] -> concat rs.*2 = [].
Proof.
  induction 1 as [|[[id m] us] rs _ _ IH]; [done|]. unfold entries. cbn [mbind list_bind fst snd]. intros [Ho He]%app_eq_nil.
  cbn [fmap list_fmap concat snd]. rewrite IH by done. unfold own_entry, own_slot in Ho. case_decide as Hle; [done|].
  destruct us; [done|]. unfold first_range in Hle. simpl in Hle. lia.
Qed.

Lemma own_entry_some id us : us <> [] -> own_entry id us = [(id, first_range us)].
Proof.
  intros Hne. unfold own_entry, own_slot. rewrite decide_True; [done|]. destruct us; [done|]. simpl. lia.
Qed.

Lemma lap_runs id o us rs :
  fresh_node true id o [] -> Forall log_ok us -> is_i64 (Z.of_nat (length us) + 1) -> us <> [] -> Forall relay_ok rs ->
  NoDup (id :: ids rs) -> fits n (length us + length (concat rs.*2)) (1 + length rs) ->
  exists o' ms, lap t thr o us (relays rs) = Ok (o', ms) /\ grows o o' (us ++ concat rs.*2) /\ length ms = length rs /\
    forall j r m', rs !! j = Some r -> ms !! j = Some m' -> grows r.1.2 m' (us ++ concat (take (S j) rs.*2)).
Proof.
  intros Hf Hus Hi Hne Hrs Hnd Hfit. pose proof (log_update_ok _ Hus) as Huo. pose proof Hf as [[_ _ Hid _ _ _ _ _] (_ & it & Htk)].
  destruct (set_off id o us Hf Hus) as (o1 & o2 & b & bm & Hw & Ht & Hm2 & Hh2 & Hbm & Hb & Hg2); try done.
  { unfold is_i64 in *. lia. }
  { eapply fits_mono; [exact Hfit|lia|lia]. }
  pose proof (own_entry_some id us Hne) as Hown.
  destruct (pass_runs rs b us [(id, first_range us)] Hb Huo Hne) as (b' & w & ms & Hp & Hb' & Hw' & Hlen & Hg); try done.
  { rewrite <- Hown. by apply own_entry_ok. }
  unfold lap. rewrite Hw. cbn [mbind res_bind]. rewrite Ht. cbn [mbind res_bind]. rewrite Hp. cbn [mbind res_bind].
  assert (Forall (update_ok n) (concat rs.*2)) as Hrest.
  { apply List.Forall_concat, Forall_fmap. eapply List.Forall_impl; [|exact Hrs]. intros r (_ & Hr & _). by apply log_update_ok. }
  assert ((id, first_range us) ∈ w) as Hin by (rewrite Hw'; set_solver). apply list_elem_of_split in Hin as (pre & suf & ->).
  rewrite <- Permutation_middle in Hw'. apply Permutation_cons_inv in Hw'. cbn [app] in Hw'.
  assert (exists o', take_in [(t, to_bytes b')] o2 = Ok o' /\ grows o2 o' (concat rs.*2)) as (o' & -> & Hg').
  { destruct (decide (pre ++ suf = [])) as [Hnil|Hsome].
    - rewrite Hnil in Hw'. apply Permutation_nil in Hw'. rewrite (entries_none rs) by done. apply app_eq_nil in Hnil as [-> ->].
      exists o2. split; [apply (dropped true id o2 _ _ _ _ _ b' _ _ Hm2 Hh2 Hb'); by intros e l [= <- <-]|]. destruct Hh2 as (_ & it2 & Htk2). by eapply grows_none.
    - destruct (home_runs id o2 _ bm [] b' us (concat rs.*2) pre suf _ Hm2 Hh2 Hbm Hb') as (o' & K' & peers & Hti & _ & _ & _ & _ & _ & _ & _ & Hg');
        [by apply Forall_app| | |by exists o'].
      + rewrite <- Permutation_middle, Hw'. constructor; [by rewrite <- Forall_singleton, <- Hown; apply own_entry_ok|].
        clear -Hrs. unfold entries. apply List.Forall_forall. intros e He%list_elem_of_In. apply list_elem_of_bind in He as (r & He & Hr).
        rewrite Forall_forall in Hrs. destruct (Hrs r Hr) as ([q [[_ _ Hid _ _ _ _ _] _]] & _ & Hl).
        pose proof (own_entry_ok r.1.1 r.2 Hid Hl) as Ho. rewrite Forall_forall in Ho. by apply Ho.
      + destruct pre; [right|by left]. by destruct suf. }
  exists o', ms. split; [done|]. split; [|done]. by apply (grows_trans o o2 o' it [] us (concat rs.*2) Htk).
Qed.

(** ** A second lap *)

(** The first hop: the origin's block, and what the next node makes of it. *)
Lemma first_hop id o us id1 m us1 k :
  fresh_node true id o [] -> Forall log_ok us -> is_i64 (Z.of_nat (length us) + 1) -> us <> [] ->
  (exists q, fresh_node true id1 m q) -> Forall log_ok us1 -> is_i64 (Z.of_nat (length us1) + 1) -> us1 <> [] -> id <> id1 ->
  fits n (length us + length us1) (2 + k) ->
  exists o1 o2 b bm m1 b1 w1 peers q1, work t thr us o = Ok o1 /\ tick t o1 = Ok ([(t, to_bytes b)], o2) /\
    relay t thr us1 [(t, to_bytes b)] m = Ok ([(t, to_bytes b1)], m1) /\
    member_ok true id o2 /\ holds o2 [] [] ∅ (next_range (first_range us)) [bm] /\ batch v id bm us (first_range us) /\ grows o o2 us /\
    built v b1 (us1 ++ us) (w1 ++ [(id1, first_range us1)]) /\ w1 = [(id, first_range us)] /\
    Forall entry_ok (w1 ++ [(id1, first_range us1)]) /\
    member_ok true id1 m1 /\ holds m1 [] [] peers (next_range (first_range us1)) q1 /\ peers !! id = Some (mark_sent (first_range us)) /\
    grows m m1 (us1 ++ us).
Proof.
  intros Hf Hus Hi Hne [q Hf1] Hus1 Hi1 Hne1 Hid Hfit. pose proof (log_update_ok _ Hus) as Huo.
  pose proof Hf as [[_ _ Hido _ _ _ _ _] _]. pose proof Hf1 as [[_ _ Hid1 _ _ _ _ _] _].
  destruct (set_off id o us Hf Hus) as (o1 & o2 & b & bm & Hw & Ht & Hm2 & Hh2 & Hbm & Hb & Hg2); try done.
  { unfold is_i64 in *. lia. }
  { eapply fits_mono; [exact Hfit|lia|lia]. }
  pose proof (own_entry_ok id us Hido Hi) as He. pose proof (own_entry_ok id1 us1 Hid1 Hi1) as He1. rewrite own_entry_some in He, He1 by done.
  destruct (relay_runs id1 m us1 b us [(id, first_range us)] q Hf1 Hus1) as (m1 & b1 & w1 & peers & q1 & Hrel & Hm1 & Hh1 & Hb1 & Hw1 & Hpe & Hg1); try done.
  { unfold is_i64 in *. lia. }
  { by intros ->%list_elem_of_singleton. }
  { eapply fits_mono; [exact Hfit|lia|simpl; lia]. }
  apply Permutation_singleton_r in Hw1 as ->. rewrite own_entry_some in Hb1 by done.
  exists o1, o2, b, bm, m1, b1, [(id, first_range us)], peers, q1. split_and!; try done; [by apply Forall_app|apply Hpe; by left].
Qed.

(** Two nodes. The origin, which took its own part out of the block, hands its
    propagator what the other node logged, but no range of that node: it is behind the
    one that was deleted. *)
Lemma pair_home id o us id1 m us1 :
  fresh_node true id o [] -> Forall log_ok us -> is_i64 (Z.of_nat (length us) + 1) -> us <> [] ->
  (exists q, fresh_node true id1 m q) -> Forall log_ok us1 -> is_i64 (Z.of_nat (length us1) + 1) -> us1 <> [] -> id <> id1 ->
  fits n (length us + length us1) 2 ->
  exists o1 m1 K' peers q1, lap t thr o us [(m, us1)] = Ok (o1, [m1]) /\
    member_ok true id o1 /\ holds o1 K' [] ∅ (next_range (first_range us)) [] /\ Forall (update_ok n) K' /\
    (length K' <= length us + length us1)%nat /\ (forall k, vs (deltas_for k K') = vs (deltas_for k us1)) /\
    member_ok true id1 m1 /\ holds m1 [] [] peers (next_range (first_range us1)) q1 /\ peers !! id = Some (mark_sent (first_range us)) /\
    grows o o1 (us ++ us1) /\ grows m m1 (us1 ++ us).
Proof.
  intros Hf Hus Hi Hne Hf1 Hus1 Hi1 Hne1 Hid Hfit. pose proof (log_update_ok _ Hus) as Huo. pose proof (log_update_ok _ Hus1) as Huo1.
  pose proof Hf as [_ (_ & it & Htk)].
  destruct (first_hop id o us id1 m us1 0 Hf Hus Hi Hne Hf1 Hus1 Hi1 Hne1 Hid Hfit)
    as (o1 & o2 & b & bm & m1 & b1 & w1 & peers & q1 & Hw & Ht & Hrel & Hm2 & Hh2 & Hbm & Hg2 & Hb1 & -> & Hent & Hm1 & Hh1 & Hpe & Hg1).
  destruct (home_runs id o2 _ bm [] b1 us us1 [] [(id1, first_range us1)] _ Hm2 Hh2 Hbm) as (o3 & K' & peers3 & Hti & Hm3 & Hh3 & Hp3 & HK' & Hlen & _ & Hsum & Hg3).
  { apply (built_perm _ (us1 ++ us)); [by apply Forall_app|apply Permutation_app_comm|exact Hb1]. }
  { by apply Forall_app. }
  { done. }
  { by right. }
  assert (peers3 = ∅) as ->.
  { apply map_eq. intros p. rewrite lookup_empty. destruct (peers3 !! p) as [r|] eqn:E; [|done]. by apply Hp3, not_elem_of_nil in E. }
  exists o3, m1, K', peers, q1. split.
  { unfold lap. rewrite Hw. cbn [mbind res_bind]. rewrite Ht. cbn [mbind res_bind pass]. rewrite Hrel. cbn [mbind res_bind].
    rewrite Hti. done. }
  rewrite length_app in Hlen. split_and!; try done. by apply (grows_trans o o2 o3 it [] us us1 Htk).
Qed.

Lemma pair_second_lap id o us id1 m us1 us2 :
  fresh_node true id o [] -> Forall log_ok us -> is_i64 (Z.of_nat (length us + length us2) + 1) -> us <> [] ->
  (exists q, fresh_node true id1 m q) -> Forall log_ok us1 -> is_i64 (Z.of_nat (length us1) + 1) -> us1 <> [] -> id <> id1 ->
  Forall log_ok us2 -> us2 <> [] -> fits n (length us + length us1 + length us2) 2 ->
  exists o1 m1 o2 blocks o3 m2, lap t thr o us [(m, us1)] = Ok (o1, [m1]) /\
    work t thr us2 o1 = Ok o2 /\ tick t o2 = Ok (blocks, o3) /\ take_in blocks m1 = Ok m2 /\
    grows o o1 (us ++ us1) /\ grows m m1 (us1 ++ us) /\ grows o o3 (us ++ us1 ++ us2) /\ grows m m2 (us1 ++ us ++ us1 ++ us2).
Proof.
  intros Hf Hus Hi Hne Hf1 Hus1 Hi1 Hne1 Hid Hus2 Hne2 Hfit. pose proof (log_update_ok _ Hus) as Huo.
  pose proof (log_update_ok _ Hus1) as Huo1. pose proof (log_update_ok _ Hus2) as Huo2. unfold is_i64 in Hi.
  pose proof Hf as [[_ _ Hido _ _ _ _ _] (_ & it & Htk)]. destruct Hf1 as [q Hf1]. pose proof Hf1 as [_ (_ & it1 & Htk1)].
  destruct (pair_home id o us id1 m us1 Hf Hus) as (o1 & m1 & K' & peers & q1 & Hlap & Hmo & Hho & HK' & Hlen & Hsum & Hm1 & Hh1 & Hpe & Hg & Hg1);
    [unfold is_i64; lia|done|by exists q|done..| |].
  { eapply fits_mono; [exact Hfit|lia|lia]. }
  destruct (work_runs true id us2 o1 K' [] ∅ _ [] Hmo Hho Hus2) as (o2 & Hw & Hm2 & Hh2 & Hg2).
  { simpl. unfold is_i64. lia. }
  { simpl. lia. }
  set (r2 := mkRange _ _) in Hh2. simpl in r2. cbn [app] in Hh2.
  destruct (tick_runs id o2 (K' ++ us2) us2 ∅ r2 [] Hm2 Hh2) as (o3 & b & w & q3 & Ht & Hm3 & Hh3 & Hv3 & Hb & Hnil & _).
  { by destruct K'. }
  { done. }
  { eapply fits_mono; [exact Hfit|rewrite length_app; lia|rewrite map_size_empty; lia]. }
  { eapply fits_mono; [exact Hfit|lia|lia]. }
  rewrite map_to_list_empty in Hnil. apply Permutation_nil_r in Hnil as ->. cbn [app] in Hb.
  assert (own_slot id r2 = [(id, r2)]) as Hown by (unfold own_slot; rewrite decide_True; [done|]; destruct us2; [done|]; simpl; lia).
  rewrite Hown in Hb.
  destruct (take_in_foreign true id1 m1 [] [] peers _ q1 b (K' ++ us2) [(id, r2)] Hm1 Hh1 Hb) as (m2 & peers2 & Hti & _ & _ & _ & Hg3).
  { by apply Forall_app. }
  { done. }
  { by intros ->%list_elem_of_singleton. }
  { constructor; [|constructor]. unfold entry_ok, range_ok, r2, is_i64. cbn [fst snd st_ end_]. destruct us2; [done|].
    simpl in *. split_and!; try apply Hido; lia. }
  { intros p r old [= -> ->]%list_elem_of_singleton. rewrite Hpe. intros [= <-]. unfold mark_sent, first_range, r2. cbn [st_ end_].
    rewrite decide_True by (destruct us; [done|]; simpl; lia). cbn [st_ end_]. rewrite wrap_i64_id; [lia|]. unfold is_i64. lia. }
  exists o1, m1, o2, [(t, to_bytes b)], o3, m2. split_and!; try done.
  - apply (grows_trans o o1 o3 it [] (us ++ us1) us2 Htk) in Hg; [by rewrite <- app_assoc in Hg|by apply Forall_app|done|].
    intros k. rewrite Hv3. apply Hg2.
  - assert (grows m1 m2 (us1 ++ us2)) as Hg4.
    { intros k. rewrite (Hg3 k), !deltas_for_app, !vsum_app by (by apply deltas_ok). by rewrite Hsum. }
    apply (grows_trans m m1 m2 it1 q (us1 ++ us) (us1 ++ us2) Htk1) in Hg1; [by rewrite <- app_assoc in Hg1|by apply Forall_app..|done].
Qed.

(** Three nodes: whatever the order of the ranges in the block that comes back, the last
    node's is behind the origin's, so at most the second node's is left. *)
Lemma triple_slots id r0 id1 r1 id2 r2 w1 w2 pre suf :
  NoDup [id; id1; id2] -> w1 = [(id, r0)] -> w2 ≡ₚ w1 ++ [(id1, r1)] -> w2 ++ [(id2, r2)] = pre ++ (id, r0) :: suf ->
  suf <> [] /\ forall (e : Z * UpdateRange) l, pre = e :: l -> e.1 = id1 /\ l = [].
Proof.
  intros Hnd -> Hw2 Heq.
  apply NoDup_cons in Hnd as [[Hn1 [Hn2 _]%not_elem_of_cons]%not_elem_of_cons _].
  destruct suf as [|e suf] using rev_ind.
  { apply app_inj_tail in Heq as [_ [= Hid _]]. by destruct Hn2. }
  clear IHsuf. split; [by destruct suf|]. rewrite app_comm_cons, app_assoc in Heq. apply app_inj_tail in Heq as [-> _].
  rewrite <- Permutation_middle in Hw2. apply Permutation_cons_inv in Hw2.
  intros e' l ->. apply Permutation_sym, Permutation_length_1_inv in Hw2. by injection Hw2 as -> [-> _]%app_eq_nil.
Qed.

Lemma triple_home id o us id1 m us1 id2 m' us2 :
  fresh_node true id o [] -> Forall log_ok us -> is_i64 (Z.of_nat (length us) + 1) -> us <> [] ->
  (exists q, fresh_node true id1 m q) -> Forall log_ok us1 -> is_i64 (Z.of_nat (length us1) + 1) -> us1 <> [] ->
  (exists q, fresh_node true id2 m' q) -> Forall log_ok us2 -> is_i64 (Z.of_nat (length us2) + 1) -> us2 <> [] ->
  NoDup [id; id1; id2] -> fits n (length us + length us1 + length us2) 3 ->
  exists o1 m1 m2 K' peers peers1 q1, lap t thr o us [(m, us1); (m', us2)] = Ok (o1, [m1; m2]) /\
    member_ok true id o1 /\ holds o1 K' [] peers (next_range (first_range us)) [] /\ K' <> [] /\
    (length K' <= length us + length us1 + length us2)%nat /\
    (forall w, w ≡ₚ map_to_list peers -> forall e l, w = e :: l -> e.1 = id1 /\ l = []) /\
    map_Forall (fun _ r => st_ r <= end_ r) peers /\
    member_ok true id1 m1 /\ holds m1 [] [] peers1 (next_range (first_range us1)) q1 /\
    grows o o1 (us ++ us2 ++ us1) /\ grows m m1 (us1 ++ us).
Proof.
  intros Hf Hus Hi Hne Hf1 Hus1 Hi1 Hne1 [q' Hf2] Hus2 Hi2 Hne2 Hids Hfit. pose proof (log_update_ok _ Hus) as Huo.
  pose proof (log_update_ok _ Hus1) as Huo1. pose proof (log_update_ok _ Hus2) as Huo2. pose proof Hf as [_ (_ & it & Htk)].
  pose proof Hf2 as [[_ _ Hid2 _ _ _ _ _] _]. pose proof Hids as [Hn0 [Hn1 _]%NoDup_cons]%NoDup_cons.
  destruct (first_hop id o us id1 m us1 1 Hf Hus Hi Hne Hf1 Hus1 Hi1 Hne1)
    as (o1 & o2 & b & bm & m1 & b1 & w1 & peers1 & q1 & Hw & Ht & Hrel & Hm2 & Hh2 & Hbm & Hg2 & Hb1 & Hw1 & Hent1 & Hm1 & Hh1 & _ & Hg1).
  { intros ->. apply Hn0. by left. }
  { eapply fits_mono; [exact Hfit|lia|lia]. }
  destruct (relay_runs id2 m' us2 b1 (us1 ++ us) (w1 ++ [(id1, first_range us1)]) q' Hf2 Hus2)
    as (m2 & b2 & w2 & peers2 & q2 & Hrel2 & _ & _ & Hb2 & Hw2 & _ & _); try done.
  { unfold is_i64 in *. lia. }
  { by apply Forall_app. }
  { by destruct us1. }
  { by destruct w1. }
  { rewrite Hw1. set_solver. }
  { eapply fits_mono; [exact Hfit|rewrite length_app; lia|rewrite Hw1; simpl; lia]. }
  pose proof (own_entry_ok id2 us2 Hid2 Hi2) as He2.
  rewrite own_entry_some in Hb2, He2 by done.
  assert ((id, first_range us) ∈ w2 ++ [(id2, first_range us2)]) as Hin by (rewrite Hw2, Hw1; set_solver).
  apply list_elem_of_split in Hin as (pre & suf & Hsplit).
  destruct (triple_slots _ _ _ _ _ _ w1 w2 pre suf Hids Hw1 Hw2 Hsplit) as [Hsuf Hpre].
  assert (Forall entry_ok (pre ++ (id, first_range us) :: suf)) as Hent2.
  { rewrite <- Hsplit, Hw2. by apply Forall_app. }
  rewrite Hsplit in Hb2.
  destruct (home_runs id o2 _ bm [] b2 us (us2 ++ us1) pre suf _ Hm2 Hh2 Hbm)
    as (o3 & K' & peers & Hti & Hm3 & Hh3 & Hp3 & HK' & Hlen & Hsome & Hsum & Hg3); [|by rewrite !Forall_app|done|by right|].
  { apply (built_perm _ (us2 ++ us1 ++ us)); [by rewrite !Forall_app| |exact Hb2].
    by rewrite (app_assoc us2), (Permutation_app_comm (us2 ++ us1)). }
  exists o3, m1, m2, K', peers, peers1, q1. split.
  { unfold lap. rewrite Hw. cbn [mbind res_bind]. rewrite Ht. cbn [mbind res_bind pass]. rewrite Hrel. cbn [mbind res_bind].
    rewrite Hrel2. cbn [mbind res_bind]. by rewrite Hti. }
  rewrite !length_app in Hlen. split_and!; try done; [|lia| | |].
  - apply Hsome. by destruct us.
  - pose proof Hb2 as (_ & _ & _ & _ & _ & _ & Hnd & _). rewrite fmap_app in Hnd. apply NoDup_app in Hnd as [Hnd _].
    intros w Hwp e l ->. rewrite (peers_perm peers pre Hnd Hp3) in Hwp. pose proof (Permutation_length Hwp) as Hl.
    destruct pre as [|e' pre']; [by apply Permutation_nil_r in Hwp|]. destruct (Hpre e' pre' eq_refl) as [He ->].
    apply Permutation_singleton_r in Hwp. by injection Hwp as -> ->.
  - intros p r Hpr%Hp3. apply Forall_app in Hent2 as [Hent2 _]. rewrite Forall_forall in Hent2. by apply (Hent2 (p, r)).
  - by apply (grows_trans o o2 o3 it [] us (us2 ++ us1) Htk); [|apply Forall_app| |].
Qed.
End ring.
