(* ===== verification/Timer.v ===== *)
(** The timer of utils/timer_thr.hpp and .cpp with the handler the propagator gives
    it (comm/propagator.cpp): a thread that sleeps, triggers the propagator thread
    and waits for the next interval from it. *)
From S2P Require Import Prelude Protocol.

(** ** Data *)

Record TimerThrInfo := mkTimerThrInfo { interval_ : Z }.
Record NanoTimer := mkNanoTimer { started_ : bool; tinfo_ : option TimerThrInfo }.

Definition NanoTimer_ctor : NanoTimer := mkNanoTimer false None.

(** ** Operations *)

(** [created] tells whether [pthread_create] succeeded; the last component is the
    first interval of the thread, when one was made. *)
Definition Start (t : NanoTimer) (_interval : Z) (created : bool) : Z * NanoTimer * option Z :=
  if started_ t then (-1, t, None)
  else if _interval <=? 0 then (-1, t, None)
  else
    let t := mkNanoTimer (started_ t) (Some (mkTimerThrInfo _interval)) in
    if created then (0, mkNanoTimer true (tinfo_ t), Some _interval) else (-1, t, None).

(** [pthread_join] blocks until the thread has returned. *)
Definition WaitStop (t : NanoTimer) (thread_returned : bool) : res (Z * NanoTimer) :=
  if started_ t then
    if thread_returned then Ok (0, mkNanoTimer false (tinfo_ t)) else Block
  else Ok (-1, t).

(** What the thread does: [nanosleep] with [tv_sec = 0] and the given [tv_nsec],
    and the trigger message of the handler. *)
Inductive timer_action := Sleep (nanosec : Z) | Trigger (m : TimerMsgType).

#[export] Instance timer_action_eq_dec : EqDecision timer_action.
Proof. solve_decision. Defined.

(** How long the sleep lasts: [nanosleep] rejects a [tv_nsec] of a second or more
    at once, and the return code is not looked at. *)
Definition slept (a : timer_action) : Z :=
  match a with
  | Sleep ns => if (0 <=? ns) && (ns <=? 999999999) then ns else 0
  | Trigger _ => 0
  end.

(** [TimerHandler]: sends the trigger, then waits for the command. [_rem] is ignored:
    it is the remaining time, or indeterminate ([None]), since nanosleep writes it only
    when a signal interrupts the sleep and [TimerThreadMain] passes it in any case. *)
Definition TimerHandler (_rem : option Z) (cmds : list TimerCmdMsg) : list timer_action * option (Z * list TimerCmdMsg) :=
  ([Trigger ETimerTrigger],
   match cmds with [] => None | c :: cmds => Some (tc_nanosec c, cmds) end).

Section thread.
(** [rem.tv_nsec] after the sleep of a turn. *)
Variable rem : nat -> option Z.

(** The [while(1)] of [TimerThreadMain]. The last component tells whether the
    thread has returned, with the commands it leaves unread, or waits for a
    command; each turn reads one, so [length cmds + 1] turns are enough. *)
Fixpoint timer_loop (fuel : nat) (interval : Z) (cmds : list TimerCmdMsg)
    : list timer_action * option (list TimerCmdMsg) :=
  match fuel with
  | O => ([], None)
  | S fuel =>
      let '(acts, answer) := TimerHandler (rem fuel) cmds in
      match answer with
      | None => (Sleep interval :: acts, None)
      | Some (interval', cmds) =>
          if interval' <=? 0 then (Sleep interval :: acts, Some cmds)
          else let '(rest, r) := timer_loop fuel interval' cmds in (Sleep interval :: acts ++ rest, r)
      end
  end.

Definition TimerThreadMain (tinfo : TimerThrInfo) (cmds : list TimerCmdMsg)
    : list timer_action * option (list TimerCmdMsg) :=
  timer_loop (S (length cmds)) (interval_ tinfo) cmds.
End thread.

(** ** Properties *)

(** One sleep and one trigger per interval. *)
Definition rounds (intervals : list Z) : list timer_action :=
  intervals ≫= fun i => [Sleep i; Trigger ETimerTrigger].

Lemma timer_loop_stop rem fuel : forall i cs c rest,
  Forall (fun c => 0 < tc_nanosec c) cs -> tc_nanosec c <= 0 -> (length cs < fuel)%nat ->
  timer_loop rem fuel i (cs ++ c :: rest) = (rounds (i :: (tc_nanosec <$> cs)), Some rest).
Proof.
  induction fuel as [|fuel IH]; intros i cs c rest Hcs Hc Hf; [lia|].
  destruct cs as [|c1 cs]; simpl in *.
  - by rewrite (proj2 (Z.leb_le _ _)).
  - apply Forall_cons in Hcs as [H1 Hcs]. rewrite (proj2 (Z.leb_gt _ _)) by done.
    by rewrite (IH _ cs c rest) by (done || lia).
Qed.

Lemma timer_loop_wait rem fuel : forall i cs,
  Forall (fun c => 0 < tc_nanosec c) cs -> (length cs < fuel)%nat ->
  timer_loop rem fuel i cs = (rounds (i :: (tc_nanosec <$> cs)), None).
Proof.
  induction fuel as [|fuel IH]; intros i cs Hcs Hf; [lia|].
  destruct cs as [|c1 cs]; simpl in *; [done|].
  apply Forall_cons in Hcs as [H1 Hcs]. rewrite (proj2 (Z.leb_gt _ _)) by done.
  by rewrite (IH _ cs) by (done || lia).
Qed.

Lemma split_first_stop (cmds : list TimerCmdMsg) :
  Forall (fun c => 0 < tc_nanosec c) cmds \/
  exists cs c rest, cmds = cs ++ c :: rest /\ Forall (fun c => 0 < tc_nanosec c) cs /\ tc_nanosec c <= 0.
Proof.
  induction cmds as [|c cmds [IH|(cs & c' & rest & -> & Hcs & Hc)]]; [by left|..];
    destruct (decide (0 < tc_nanosec c)).
  - left. by constructor.
  - right. exists [], c, cmds. split_and!; [done..|lia].
  - right. exists (c :: cs), c', rest. split_and!; [done| |done]. by constructor.
  - right. exists [], c, (cs ++ c' :: rest). split_and!; [done..|lia].
Qed.

(** Lock step of the timer and the propagator: the thread sends one trigger
    per command it is sent, plus one for the command it waits for; it sleeps for
    each commanded interval in turn; and it returns exactly when a command of 0 or
    less arrives, leaving every later command unread. So as long as the propagator
    answers each trigger there is never more than one trigger unanswered, and its
    answer of 0 ends the thread it then joins. *)
Lemma timer_lock_step rem tinfo cmds :
  (Forall (fun c => 0 < tc_nanosec c) cmds /\
   TimerThreadMain rem tinfo cmds = (rounds (interval_ tinfo :: (tc_nanosec <$> cmds)), None)) \/
  exists cs c rest, cmds = cs ++ c :: rest /\ Forall (fun c => 0 < tc_nanosec c) cs /\ tc_nanosec c <= 0 /\
    TimerThreadMain rem tinfo cmds = (rounds (interval_ tinfo :: (tc_nanosec <$> cs)), Some rest).
Proof.
  unfold TimerThreadMain. destruct (split_first_stop cmds) as [Hall|(cs & c & rest & -> & Hcs & Hc)]; [left|right].
  - split; [done|]. apply timer_loop_wait; [done|lia].
  - exists cs, c, rest. split_and!; [done..|]. apply timer_loop_stop; [done..|]. rewrite length_app. simpl. lia.
Qed.

(** A batch time of a second or more is no batch time: such an interval is
    accepted - [Start] refuses only intervals of 0 or less and a timer that
    already runs - and the thread then triggers without any pause between. *)
Theorem long_interval_never_sleeps rem t i t' first cmds :
  Start t i true = (0, t', Some first) -> 1000000000 <= i ->
  Forall (fun c => tc_nanosec c = i) cmds ->
  started_ t = false /\ started_ t' = true /\
  exists acts, timer_loop rem (S (length cmds)) first cmds = (acts, None) /\
    (length (filter (fun a => a = Trigger ETimerTrigger) acts) = S (length cmds))%nat /\
    Forall (fun a => slept a = 0) acts.
Proof.
  unfold Start. destruct (started_ t); [done|]. destruct (Z.leb_spec i 0); [done|].
  intros [= <- <-] Hi Hcs. split; [done|]. split; [done|].
  assert (forall n, Forall (fun a => slept a = 0) (rounds (replicate n i)) /\
    length (filter (fun a => a = Trigger ETimerTrigger) (rounds (replicate n i))) = n) as Hr.
  { induction n as [|n [IH1 IH2]]; [done|].
    change (rounds (replicate (S n) i)) with (Sleep i :: Trigger ETimerTrigger :: rounds (replicate n i)). split.
    - constructor; [|by constructor]. simpl. by rewrite (proj2 (Z.leb_gt i 999999999)), andb_false_r by lia.
    - rewrite filter_cons, decide_False, filter_cons, decide_True by done. cbn [length]. by rewrite IH2. }
  assert (i :: (tc_nanosec <$> cmds) = replicate (S (length cmds)) i) as Heq.
  { rewrite replicate_S. f_equal. clear -Hcs. induction Hcs as [|c cmds Hc _ IH]; [done|].
    rewrite fmap_cons, Hc. cbn [length]. by rewrite replicate_S, IH. }
  eexists. split; [apply timer_loop_wait; [|lia]|].
  - eapply List.Forall_impl; [|exact Hcs]. simpl. intros c ->. lia.
  - rewrite Heq. destruct (Hr (S (length cmds))) as [H1 H2]. by split.
Qed.

Lemma long_interval_never_sleeps_witness :
  exists acts, timer_loop (fun _ => None) 3 1500000000 [mkTimerCmdMsg 1500000000; mkTimerCmdMsg 1500000000] = (acts, None) /\
    Forall (fun a => slept a = 0) acts.
Proof.
  destruct (long_interval_never_sleeps (fun _ => None) NanoTimer_ctor 1500000000 (mkNanoTimer true (Some (mkTimerThrInfo 1500000000)))
    1500000000 [mkTimerCmdMsg 1500000000; mkTimerCmdMsg 1500000000]) as (_ & _ & acts & H1 & _ & H2);
    [reflexivity|lia|by repeat constructor|]. by exists acts.
Defined.
