(* ===== verification/ZmqUtil.v ===== *)
(** The message functions of utils/zmq_util.hpp and .cpp, over an interface of the
    0MQ socket they call. The socket is a parameter: [ZmqSocket] has the calls the
    code makes, [FifoSocket] the behaviour 0MQ documents for one connection - whole
    messages, in order, the parts of a message with their more flags - and
    [fifo_socket] is a queue that has it. *)
From S2P Require Import Prelude.

(** ** Routing ids *)

(** [cid << 4 | 0x1] on [int32_t]: the bits shifted out are lost. *)
Definition CidToZmqRid (cid : Z) : Z := wrap_i32 (Z.lor (wrap_i32 (Z.shiftl cid 4)) 1).
(** The shift of a negative [int32_t] copies the sign. *)
Definition ZmqRidToCid (zid : Z) : Z := Z.shiftr zid 4.

(** ** The socket *)

(** How [socket_t::recv] ends: with a message ([true]), without one ([false],
    [zmq_errno() == EAGAIN]), by throwing [error_t], or not at all yet. *)
Inductive recv_outcome := Received (m : list byte) | Again | RecvThrows | Waits.
(** How [socket_t::send] ends: with the bytes sent, 0 of them on [EAGAIN]. *)
Inductive send_outcome := Sent (nbytes : Z) | SendThrows.

Definition ZMQ_DONTWAIT : Z := 1.
Definition ZMQ_SNDMORE : Z := 2.

Class ZmqSocket (S : Type) := {
  zmq_recv : S -> Z -> recv_outcome * S;
  zmq_send : S -> list byte -> Z -> send_outcome * S;
  zmq_rcvmore : S -> bool                        (** [getsockopt(ZMQ_RCVMORE)] *)
}.

Section messages.
Context {S : Type} `{ZmqSocket S}.

(** Return code, the data behind [data] and the flag behind [_more] when they were
    written, and the socket. *)
Definition received : Type := (Z * option (list byte) * option bool * S).

Definition take_message (sock : S) (m : list byte) (want_more : bool) : received :=
  (wrap_i32 (Z.of_nat (length m)), Some m, if want_more then Some (zmq_rcvmore sock) else None, sock).

Definition RecvMsg (sock : S) (want_more : bool) : res received :=
  let '(o, sock) := zmq_recv sock 0 in
  match o with
  | RecvThrows => Ok (-1, None, None, sock)
  | Again => Ok (0, None, None, sock)
  | Received m => Ok (take_message sock m want_more)
  | Waits => Block
  end.

(** With a client id in front: its own message part of four bytes. A [recv] that
    gets nothing leaves an empty message, which has the wrong size. *)
Definition RecvMsg_cid (sock : S) (want_more : bool) : res (option Z * received) :=
  let '(o, sock) := zmq_recv sock 0 in
  match o with
  | RecvThrows | Again => Ok (None, (-1, None, None, sock))
  | Received m =>
      if (length m =? 4)%nat then r ← RecvMsg sock want_more; Ok (Some (bytes_i32 m), r)
      else Ok (None, (-1, None, None, sock))
  | Waits => Block
  end.

Definition SendMsg (sock : S) (data : list byte) (flag : Z) : Z * S :=
  let '(o, sock) := zmq_send sock data flag in
  match o with
  | SendThrows => (-1, sock)
  | Sent nbytes => (wrap_i32 nbytes, sock)
  end.

Definition SendMsg_cid (sock : S) (cid : Z) (data : list byte) (flag : Z) : Z * S :=
  let '(nbytes, sock) := SendMsg sock (i32_bytes cid) (Z.lor flag ZMQ_SNDMORE) in
  if nbytes <? 0 then (-1, sock)
  else if negb (nbytes =? 4) then (-1, sock)
  else SendMsg sock data flag.

Definition RecvMsgAsync (sock : S) (want_more : bool) : res received :=
  let '(o, sock) := zmq_recv sock ZMQ_DONTWAIT in
  match o with
  | RecvThrows => Ok (-1, None, None, sock)
  | Again => Ok (0, None, None, sock)
  | Received m => Ok (take_message sock m want_more)
  | Waits => Block
  end.

(** The second part is received with the blocking call. *)
Definition RecvMsgAsync_cid (sock : S) (want_more : bool) : res (option Z * received) :=
  let '(o, sock) := zmq_recv sock ZMQ_DONTWAIT in
  match o with
  | RecvThrows => Ok (None, (-1, None, None, sock))
  | Again => Ok (None, (0, None, None, sock))
  | Received m =>
      if (length m =? 4)%nat then r ← RecvMsg sock want_more; Ok (Some (bytes_i32 m), r)
      else Ok (None, (-1, None, None, sock))
  | Waits => Block
  end.
End messages.
Arguments received : clear implicits.

(** ** One connection *)

(** What 0MQ promises of a connection with both ends up: [parts] are the message
    parts sent and not yet received, with their more flags. A call that may not
    wait never does. *)
Class FifoSocket (S : Type) `{ZmqSocket S} := {
  parts : S -> list (list byte * bool);
  send_parts : forall s m flag, exists s',
    zmq_send s m flag = (Sent (Z.of_nat (length m)), s') /\ parts s' = parts s ++ [(m, Z.testbit flag 1)];
  recv_parts : forall s flag m more q, parts s = (m, more) :: q -> exists s',
    zmq_recv s flag = (Received m, s') /\ parts s' = q /\ zmq_rcvmore s' = more;
  recv_nothing : forall s, parts s = [] -> zmq_recv s ZMQ_DONTWAIT = (Again, s)
}.

(** A queue; the flag is that of the part received last. *)
Definition queue_socket : Type := list (list byte * bool) * bool.
#[export] Instance queue_ZmqSocket : ZmqSocket queue_socket := {|
  zmq_recv s flag :=
    match s.1 with
    | (m, more) :: q => (Received m, (q, more))
    | [] => if Z.testbit flag 0 then (Again, s) else (Waits, s)
    end;
  zmq_send s m flag := (Sent (Z.of_nat (length m)), (s.1 ++ [(m, Z.testbit flag 1)], s.2));
  zmq_rcvmore s := s.2
|}.
#[export, refine] Instance queue_FifoSocket : FifoSocket queue_socket := {| parts := fst |}.
Proof.
  - intros s m flag. by eexists.
  - intros [l b] flag m more q Hs. simpl in *. subst l. by eexists.
  - intros [l b] Hs. simpl in *. by subst l.
Defined.

(** ** Lemmas *)

Section fifo.
Context {S : Type} `{FifoSocket S}.

Lemma SendMsg_sends sock m flag :
  Z.of_nat (length m) < 2147483648 ->
  exists sock', SendMsg sock m flag = (Z.of_nat (length m), sock') /\
    parts sock' = parts sock ++ [(m, Z.testbit flag 1)].
Proof.
  intros Hm. unfold SendMsg. destruct (send_parts sock m flag) as (sock' & -> & Hp).
  exists sock'. rewrite wrap_i32_id by (unfold is_i32; lia). done.
Qed.

Lemma SendMsg_cid_sends sock cid m flag :
  Z.of_nat (length m) < 2147483648 ->
  exists sock', SendMsg_cid sock cid m flag = (Z.of_nat (length m), sock') /\
    parts sock' = parts sock ++ [(i32_bytes cid, true); (m, Z.testbit flag 1)].
Proof.
  intros Hm. unfold SendMsg_cid.
  destruct (SendMsg_sends sock (i32_bytes cid) (Z.lor flag ZMQ_SNDMORE)) as (s1 & -> & Hp1);
    [by rewrite length_i32_bytes|]. rewrite length_i32_bytes. simpl.
  destruct (SendMsg_sends s1 m flag Hm) as (s2 & -> & Hp2). exists s2. split; [done|].
  assert (Z.testbit (Z.lor flag ZMQ_SNDMORE) 1 = true) as Hb by (rewrite Z.lor_spec; apply orb_true_r).
  by rewrite Hp2, Hp1, <- app_assoc, Hb.
Qed.

Lemma RecvMsg_receives sock want m more q :
  parts sock = (m, more) :: q -> Z.of_nat (length m) < 2147483648 ->
  exists sock', RecvMsg sock want =
      Ok (Z.of_nat (length m), Some m, if want then Some more else None, sock') /\ parts sock' = q.
Proof.
  intros Hq Hm. unfold RecvMsg. destruct (recv_parts sock 0 m more q Hq) as (s' & -> & Hp & <-).
  exists s'. unfold take_message. by rewrite wrap_i32_id by (unfold is_i32; lia).
Qed.

Lemma RecvMsg_cid_receives sock want cid m more q :
  parts sock = (i32_bytes cid, true) :: (m, more) :: q -> is_i32 cid -> Z.of_nat (length m) < 2147483648 ->
  exists sock', RecvMsg_cid sock want =
      Ok (Some cid, (Z.of_nat (length m), Some m, if want then Some more else None, sock')) /\ parts sock' = q.
Proof.
  intros Hq Hc Hm. unfold RecvMsg_cid. destruct (recv_parts sock 0 _ _ _ Hq) as (s1 & -> & Hp & _).
  rewrite length_i32_bytes. simpl. destruct (RecvMsg_receives s1 want m more q Hp Hm) as (s' & -> & Hp').
  simpl. exists s'. by rewrite bytes_i32_i32_bytes, wrap_i32_id.
Qed.

(** Sends messages one after another; the return codes. *)
Fixpoint send_all (sock : S) (ms : list (Z * list byte)) : list Z * S :=
  match ms with
  | [] => ([], sock)
  | (cid, m) :: ms =>
      let '(r, sock) := SendMsg_cid sock cid m 0 in
      let '(rs, sock) := send_all sock ms in (r :: rs, sock)
  end.
(** Receives [n] messages. *)
Fixpoint recv_all (sock : S) (n : nat) : res (list (option Z * option (list byte)) * S) :=
  match n with
  | O => Ok ([], sock)
  | Datatypes.S n =>
      '(cid, (_, data, _, sock)) ← RecvMsg_cid sock false;
      '(rest, sock) ← recv_all sock n;
      Ok ((cid, data) :: rest, sock)
  end.

Definition sendable (p : Z * list byte) : Prop := is_i32 p.1 /\ Z.of_nat (length p.2) < 2147483648.
Definition framed (p : Z * list byte) : list (list byte * bool) := [(i32_bytes p.1, true); (p.2, false)].

Lemma send_all_frames ms : forall sock,
  Forall sendable ms ->
  exists sock', send_all sock ms = ((fun p => Z.of_nat (length p.2)) <$> ms, sock') /\
    parts sock' = parts sock ++ (ms ≫= framed).
Proof.
  induction ms as [|[cid m] ms IH]; intros sock Hms.
  { exists sock. simpl. by rewrite app_nil_r. }
  apply Forall_cons in Hms as [[_ Hm] Hms]. simpl in Hm. cbn [send_all].
  destruct (SendMsg_cid_sends sock cid m 0 Hm) as (s1 & -> & Hp1).
  destruct (IH s1 Hms) as (s2 & -> & Hp2). exists s2. split; [done|].
  by rewrite Hp2, Hp1, <- app_assoc.
Qed.

Lemma recv_all_frames ms : forall sock rest,
  Forall sendable ms -> parts sock = (ms ≫= framed) ++ rest ->
  exists sock', recv_all sock (length ms) = Ok ((fun p => (Some p.1, Some p.2)) <$> ms, sock') /\ parts sock' = rest.
Proof.
  induction ms as [|[cid m] ms IH]; intros sock rest Hms Hp.
  { exists sock. done. }
  apply Forall_cons in Hms as [[Hc Hm] Hms]. simpl in Hc, Hm. cbn [length recv_all].
  destruct (RecvMsg_cid_receives sock false cid m false _ Hp Hc Hm) as (s1 & -> & Hp1).
  cbn [mbind res_bind]. destruct (IH s1 rest Hms Hp1) as (s2 & -> & Hp2). simpl. by exists s2.
Qed.

(** C37. Framing is lossless: against any socket with the documented behaviour of a
    connection, a sequence of messages sent each with its client id is received in
    the same order, every id with its data, whatever lengths (0 included) the
    messages have; every send reports the length of its data, and nothing is left
    over. *)
Theorem routed_messages_roundtrip ms sock :
  Forall sendable ms -> parts sock = [] ->
  exists sock1 sock2, send_all sock ms = ((fun p => Z.of_nat (length p.2)) <$> ms, sock1) /\
    recv_all sock1 (length ms) = Ok ((fun p => (Some p.1, Some p.2)) <$> ms, sock2) /\ parts sock2 = [].
Proof.
  intros Hms Hp. destruct (send_all_frames ms sock Hms) as (s1 & Hs & Hp1). rewrite Hp in Hp1.
  destruct (recv_all_frames ms s1 [] Hms) as (s2 & Hr & Hp2); [by rewrite app_nil_r|].
  by exists s1, s2.
Qed.

(** Reading without waiting cannot tell an empty message from none: the call
    returns 0 both when nothing has arrived and when an empty message has, and in
    the second case the message is gone; it returns a positive count exactly for a
    message with at least one byte. *)
Theorem async_zero_is_ambiguous sock want :
  (forall m more q, parts sock = (m, more) :: q -> Z.of_nat (length m) < 2147483648) ->
  exists ret data more sock', RecvMsgAsync sock want = Ok (ret, data, more, sock') /\
    (ret = 0 <-> parts sock = [] \/ exists more q, parts sock = ([], more) :: q) /\
    (0 < ret <-> exists m more q, parts sock = (m, more) :: q /\ m <> []) /\
    parts sock' = tail (parts sock).
Proof.
  intros Hsz. unfold RecvMsgAsync. destruct (parts sock) as [|[m more] q] eqn:Hp.
  - rewrite recv_nothing by done. do 4 eexists. split; [done|]. split_and!; [|naive_solver lia|by rewrite Hp].
    split; [auto|done].
  - destruct (recv_parts sock ZMQ_DONTWAIT m more q Hp) as (s' & -> & Hp' & _). unfold take_message.
    specialize (Hsz m more q eq_refl). rewrite wrap_i32_id by (unfold is_i32; lia).
    do 4 eexists. split; [done|]. simpl. destruct m as [|b m]; split_and!; try done; split; try naive_solver lia.
Qed.
End fifo.

(** Routing ids: the id survives the encoding exactly when it fits 28 bits,
    and an encoded id is never 0, as its lowest bit is set. *)
Theorem rid_roundtrip_iff cid :
  is_i32 cid ->
  (ZmqRidToCid (CidToZmqRid cid) = cid <-> -134217728 <= cid < 134217728) /\ Z.odd (CidToZmqRid cid) = true.
Proof.
  intros Hc. unfold ZmqRidToCid, CidToZmqRid. rewrite Z.shiftl_mul_pow2 by lia. change (2 ^ 4) with 16.
  set (w := wrap_i32 (cid * 16)).
  assert (exists k, w = 16 * k /\ -134217728 <= k < 134217728 /\ (k = cid <-> -134217728 <= cid < 134217728))
    as (k & -> & Hk & Hiff).
  { exists ((cid + 134217728) mod 268435456 - 134217728). unfold w, is_i32 in *. int_lia. }
  assert (Z.lor (16 * k) 1 = 16 * k + 1) as ->.
  { rewrite <- Z.add_lor_land. replace (Z.land (16 * k) 1) with 0; [lia|].
    replace (16 * k) with (Z.shiftl k 4) by (rewrite Z.shiftl_mul_pow2 by lia; lia).
    symmetry. apply Z.bits_inj_0. intros n. rewrite Z.land_spec. destruct (decide (n = 0)) as [->|Hn].
    - by rewrite Z.shiftl_spec_low by lia.
    - destruct (decide (n < 0)); [by rewrite Z.testbit_neg_r by lia|].
      rewrite (Z.bits_above_log2 1 n) by (simpl; lia). by rewrite andb_false_r. }
  rewrite wrap_i32_id by (unfold is_i32; lia). rewrite Z.shiftr_div_pow2 by lia. change (2 ^ 4) with 16. split.
  - rewrite <- Hiff. replace ((16 * k + 1) / 16) with k; [done|]. Z.to_euclidean_division_equations; lia.
  - replace (16 * k + 1) with (1 + 2 * (8 * k)) by lia. by rewrite Z.odd_add_mul_2.
Qed.

(** ** Concrete runs *)

Lemma routed_messages_roundtrip_witness :
  exists s1 s2, send_all ([], false) [(7, [Byte.x01; Byte.x02]); (-1, [])] = ([2; 0], s1) /\
    recv_all s1 2 = Ok ([(Some 7, Some [Byte.x01; Byte.x02]); (Some (-1), Some [])], s2).
Proof.
  destruct (routed_messages_roundtrip (S := queue_socket) [(7, [Byte.x01; Byte.x02]); (-1, [])] ([], false))
    as (s1 & s2 & H1 & H2 & _); [repeat constructor; simpl; unfold is_i32; lia|reflexivity|].
  exists s1, s2. split; [exact H1|exact H2].
Defined.

Lemma async_zero_is_ambiguous_witness :
  exists data more s', RecvMsgAsync (S := queue_socket) ([([], false); ([Byte.x01], false)], false) false = Ok (0, data, more, s').
Proof.
  destruct (async_zero_is_ambiguous (S := queue_socket) ([([], false); ([Byte.x01], false)], false) false)
    as (ret & data & more & s' & Hr & Hz & _).
  - intros m more q [= <- <- <-]. simpl. lia.
  - exists data, more, s'. rewrite Hr. rewrite (proj2 Hz); [reflexivity|]. right. by exists false, [([Byte.x01], false)].
Defined.

Lemma rid_roundtrip_iff_witness :
  ZmqRidToCid (CidToZmqRid (-5)) = -5 /\ ZmqRidToCid (CidToZmqRid 134217728) <> 134217728.
Proof.
  split.
  - apply (rid_roundtrip_iff (-5)); unfold is_i32; lia.
  - intros Heq. apply (rid_roundtrip_iff 134217728) in Heq; unfold is_i32; lia.
Defined.
