(* ===== verification/Wire.v ===== *)
(** The messages on the wire: what each send of comm/propagator.cpp and
    comm/receiver.cpp writes, what each receiving switch makes of the bytes it finds, and
    a node - its two threads with the sockets between them and around them - that runs
    over any transport of messages. One transport is sockets that carry bytes, with the
    buffers the two threads pass each other by address; the other is queues of typed
    messages, which is how the rest of the development sees the threads. *)
From S2P Require Import Prelude Common MemStruct ValueOps Protocol Propagator InternalTable Receiver Ring ZmqUtil.

(** ** Channels *)

(** The sockets a node's threads read, and those it writes to other nodes: the timer's
    trigger and commands, update_pull_sock and term_sub_sock of the propagator,
    internal_recv_pull_sock and update_pull_sock of the receiver, prop_push_sock and
    term_pub_sock. *)
Inductive chan := Trigger | Command | Update | Sub | Internal | Net | Push | Pub.
#[export] Instance chan_eq_dec : EqDecision chan.
Proof. solve_decision. Defined.

Definition msg (c : chan) : Type :=
  match c with
  | Trigger => TimerMsgType
  | Command => TimerCmdMsg
  | Update => PropIn
  | Sub | Pub => PropRecvMsgType
  | Internal => RecvIn
  | Net | Push => NetIn
  end.

(** [get]: [None] when zmq::poll reports nothing on the socket. *)
Class Transport (W : Type) := {
  get (c : chan) : W -> option (res (msg c * W));
  put (c : chan) : msg c -> W -> res W
}.

(** ** A node over a transport *)

Record Node (W : Type) := mkNode {
  n_prop : PropThr;
  n_prop_done : bool;
  n_recv : RecvThr;
  n_recv_done : bool;
  n_intervals : list Z;             (** the intervals the timer thread has been given *)
  n_net : W
}.
Arguments mkNode {W}.
Arguments n_prop {W}.
Arguments n_prop_done {W}.
Arguments n_recv {W}.
Arguments n_recv_done {W}.
Arguments n_intervals {W}.
Arguments n_net {W}.

(** The socket of each message a thread sends. The receiver's handshake message and its
    acknowledgements go to the pull socket the propagator waits on, [pair_pull]. *)
Definition prop_route (m : Propagator.PropOut) : option { c : chan & msg c } :=
  match m with
  | ToTimer m => Some (existT Command m)
  | ToReceiver t b => Some (existT Internal (InMyUpdates t b))
  | ToReceiverTerm => Some (existT Internal (InRecv EPRInternalTerminate))
  | ToDownstreamInit m => Some (existT Push (NetInit (pi_node_id m)))
  | ToDownstreamInitAckAck m => Some (existT Push (NetInitAckAck (piaa_node_id m)))
  | ToDownstream m block => Some (existT Push (NetBuffer (epub_table_id m) block))
  | ToDownstreamTermAck m => Some (existT Push (NetTermAck (prta_node_id m)))
  | JoinTimer => None
  end.
Definition recv_route (m : RecvOut) : option { c : chan & msg c } :=
  match m with
  | ToPropTermAck => Some (existT Update (InOther EPRecvInternalTerminateACK))
  | ToPropBuffer t b => Some (existT Update (InUpdateBuffer t b))
  | Publish m => Some (existT Pub m)
  | ToPairInit | ToPairAck | UserCbk _ _ _ => None
  end.
Definition pair_answers (o : list RecvOut) : list PropagatorMsgType :=
  o ≫= fun m => match m with ToPairInit => [EPRInit] | ToPairAck => [EMyUpdatesACK] | _ => [] end.

Section node.
Context {W : Type} `{Transport W} `{Allocator} `{UnorderedIter}.
Context (pcfg : PropagatorThrInfo) (rcfg : ReceiverThrInfo).

Definition post (o : option { c : chan & msg c }) (w : W) : res W :=
  match o with Some (existT c m) => put c m w | None => Ok w end.
Definition post_all {M} (route : M -> option { c : chan & msg c }) (o : list M) (w : W) : res W :=
  foldM (fun m w => post (route m) w) o w.

(** What the propagator finds: one message, of the first socket in its order of
    priority that has one. *)
Definition prop_poll (w : W) : res (option TimerMsgType * option PropIn * option PropRecvMsgType * W) :=
  match (if 0 <? nanosec_ pcfg then get Trigger w else None) with
  | Some r => '(m, w) ← r; Ok (Some m, None, None, w)
  | None =>
      match get Update w with
      | Some r => '(m, w) ← r; Ok (None, Some m, None, w)
      | None =>
          match (if has_downstream pcfg then get Sub w else None) with
          | Some r => '(m, w) ← r; Ok (None, None, Some m, w)
          | None => Ok (None, None, None, w)
          end
      end
  end.

Definition prop_turn (n : Node W) : res (Node W) :=
  if n_prop_done n then Ok n
  else
    '(t, u, m, w) ← prop_poll (n_net n);
    '(_, fl, s) ← Propagator.loop_turn pcfg t u m (n_prop n);
    w ← post_all prop_route (since (Propagator.out (n_prop n)) (Propagator.out s)) w;
    Ok (mkNode s fl (n_recv n) (n_recv_done n) (n_intervals n) w).

Definition recv_poll (w : W) : res (option RecvIn * option NetIn * W) :=
  match get Internal w with
  | Some r => '(m, w) ← r; Ok (Some m, None, w)
  | None =>
      match (if 0 <? num_expected_propagators_ rcfg then get Net w else None) with
      | Some r => '(m, w) ← r; Ok (None, Some m, w)
      | None => Ok (None, None, w)
      end
  end.

Definition recv_turn (n : Node W) : res (Node W) :=
  if n_recv_done n then Ok n
  else
    '(i, m, w) ← recv_poll (n_net n);
    '(_, fl, s) ← loop_turn rcfg i m (n_recv n);
    let o := since (out (n_recv n)) (out s) in
    w ← post_all recv_route o w;
    Ok (mkNode (set_pair_pull (n_prop n) (pair_pull (n_prop n) ++ pair_answers o)) (n_prop_done n) s fl (n_intervals n) w).

(** The timer thread reads its next command. *)
Definition timer_read (n : Node W) : res (Node W) :=
  match get Command (n_net n) with
  | Some r =>
      '(m, w) ← r;
      Ok (mkNode (n_prop n) (n_prop_done n) (n_recv n) (n_recv_done n) (n_intervals n ++ [tc_nanosec m]) w)
  | None => Ok n
  end.

(** A thread makes a turn, or a message arrives from outside: from the applications,
    the timer thread, the upstream propagators or the downstream receiver. *)
Inductive node_act := PropTurn | RecvTurn | TimerRead | Arrive (c : chan) (m : msg c).

Definition node_step (act : node_act) (n : Node W) : res (Node W) :=
  match act with
  | PropTurn => prop_turn n
  | RecvTurn => recv_turn n
  | TimerRead => timer_read n
  | Arrive c m =>
      w ← put c m (n_net n);
      Ok (mkNode (n_prop n) (n_prop_done n) (n_recv n) (n_recv_done n) (n_intervals n) w)
  end.
Definition node_run (acts : list node_act) (n : Node W) : res (Node W) := foldM node_step acts n.
End node.

(** ** Queues of messages *)

Definition queues : Type := forall c, list (msg c).
Definition set_queue (c : chan) (l : list (msg c)) (q : queues) : queues :=
  fun c' => match decide (c = c') with left e => eq_rect c (fun c => list (msg c)) l c' e | right _ => q c' end.

#[export] Instance queue_transport : Transport queues := {|
  get c q := match q c with [] => None | m :: l => Some (Ok (m, set_queue c l q)) end;
  put c m q := Ok (set_queue c (q c ++ [m]) q)
|}.
Definition no_messages : queues := fun _ => [].

(** ** Sockets *)

(** Whether zmq::poll reports a message: it does when one has arrived. *)
Class ZmqPoll (S : Type) := zmq_pollin : S -> bool.
Class PollSocket (S : Type) `{FifoSocket S} `{ZmqPoll S} :=
  pollin_parts : forall s : S, zmq_pollin s = bool_decide (parts s <> []).

#[export] Instance queue_ZmqPoll : ZmqPoll queue_socket := fun s => bool_decide (s.1 <> []).
#[export] Instance queue_PollSocket : PollSocket queue_socket.
Proof. by intros s. Qed.

(** The buffers one thread has made and the other has not taken over yet, by address;
    operator new gives a new buffer an address none of them has, or throws. *)
Notation Memory := (gmap Z UpdateBuffer).
Class Addresses := {
  new_address : Memory -> option Z;
  new_address_free : forall m p, new_address m = Some p -> m !! p = None /\ is_i64 p
}.
#[export, refine] Instance fresh_addresses : Addresses := {|
  new_address m :=
    let p := Z.pos (fresh (set_map Z.to_pos (dom m : gset Z) : gset positive)) in
    if p <? 9223372036854775808 then Some p else None
|}.
Proof.
  intros m p. cbv zeta. pose proof (is_fresh (set_map Z.to_pos (dom m : gset Z) : gset positive)) as Hf.
  revert Hf. generalize (fresh (set_map Z.to_pos (dom m : gset Z) : gset positive)). intros q Hq.
  destruct (Z.ltb_spec (Z.pos q) 9223372036854775808) as [Hlt|]; [|done]. intros [= <-].
  split; [|unfold is_i64; lia].
  apply not_elem_of_dom. intros Hin. apply Hq, elem_of_map. by exists (Z.pos q).
Defined.

Record Wires (S : Type) := mkWires { sock : chan -> S; buffers : Memory }.
Arguments mkWires {S}.
Arguments sock {S}.
Arguments buffers {S}.
Definition set_sock {S} (c : chan) (s : S) (w : Wires S) : Wires S :=
  mkWires (fun c' => if decide (c = c') then s else sock w c') (buffers w).
Definition set_buffers {S} (m : Memory) (w : Wires S) : Wires S := mkWires (sock w) m.

Section sockets.
Context {S : Type} `{ZmqSocket S} `{ZmqPoll S} `{Addresses}.

(** *** Sends *)

(** Every send is followed by a CHECK_EQ of its result with the size. *)
Definition send_part (b : list byte) (size flag : Z) (s : S) : res S :=
  let '(ret, s) := SendMsg s b flag in
  CHECK (ret =? size);;
  Ok s.
Definition send_struct {T A} `{Enum T} `{Struct A} (msgtype_ : T) (x : A) (flag : Z) (s : S) : res S :=
  send_part (object_bytes msgtype_ x) (sizeof A) flag s.
(** A bare message type: SignalTerm of both classes, the handler's trigger, and the
    messages between the two threads of a direction. *)
Definition send_enum {A} `{Enum A} (x : A) (s : S) : res S := send_part (enum_bytes x) 4 0 s.

(** Propagator::Inc. *)
Definition send_log (updatelog : PUpdateLogMsg) (delta : list byte) (s : S) : res S :=
  s ← send_struct EPUpdateLog updatelog ZMQ_SNDMORE s;
  send_part delta (Z.of_nat (length delta)) 0 s.
(** A received buffer on its way from the receiver to the propagator. *)
Definition send_buffer (table_id : Z) (b : UpdateBuffer) (s : S) (mem : Memory) : res (S * Memory) :=
  match new_address mem with
  | None => Fault BadAlloc
  | Some p => s ← send_struct EPUpdateBuffer (mkPUpdateBufferMsg table_id p) 0 s; Ok (s, <[p := b]> mem)
  end.
(** The propagator's own updates of a batch, to its receiver. *)
Definition send_my_updates (table_id : Z) (b : UpdateBuffer) (s : S) (mem : Memory) : res (S * Memory) :=
  match new_address mem with
  | None => Fault BadAlloc
  | Some p => s ← send_struct EMyUpdates (mkMyUpdatesMsg table_id p) 0 s; Ok (s, <[p := b]> mem)
  end.
(** An update buffer, downstream. *)
Definition send_block (table_id : Z) (block : list byte) (s : S) : res S :=
  s ← send_struct EPRUpdateBuffer (mkEPRUpdateBufferMsg table_id) ZMQ_SNDMORE s;
  send_part block (Z.of_nat (length block)) 0 s.
Definition send_term_ack (my_id : Z) (s : S) : res S := send_struct EPRTerminateACK (mkPRTerminateAckMsg my_id) 0 s.
(** The answer to the timer's trigger. *)
Definition send_command (tcmd_msg : TimerCmdMsg) (s : S) : res S := send_struct ETimerCmd tcmd_msg 0 s.
(** On term_pub_sock, to the group all propagators subscribe to. *)
Definition send_pub (m : PropRecvMsgType) (s : S) : res S :=
  let '(ret, s) := SendMsg_cid s 1 (enum_bytes m) 0 in
  CHECK (ret =? 4);;
  Ok s.

(** What goes into update_pull_sock of the propagator, *)
Definition send_update (m : PropIn) (s : S) (mem : Memory) : res (S * Memory) :=
  match m with
  | InUpdateLog m delta => s ← send_log m delta s; Ok (s, mem)
  | InUpdateBuffer table_id b => send_buffer table_id b s mem
  | InOther t => s ← send_enum t s; Ok (s, mem)
  end.
(** into internal_recv_pull_sock, *)
Definition send_internal (m : RecvIn) (s : S) (mem : Memory) : res (S * Memory) :=
  match m with
  | InMyUpdates table_id b => send_my_updates table_id b s mem
  | InRecv t => s ← send_enum t s; Ok (s, mem)
  end.
(** and into prop_push_sock. *)
Definition send_net (m : NetIn) (s : S) : res S :=
  match m with
  | NetInit node => send_struct PropInit (mkPropInitMsg node) 0 s
  | NetInitAckAck node => send_struct PropInitACKACK (mkPropInitAckAckMsg node) 0 s
  | NetBuffer table_id block => send_block table_id block s
  | NetTermAck node => send_term_ack node s
  | NetOther t => send_enum t s
  end.

(** *** Receiving switches *)

(** The first part of a message: a CHECK or a test for [len <= 0], and its type. *)
Definition recv_first {A} `{Enum A} (s : S) : res (Z * list byte * option A * S) :=
  '(len, data, _, s) ← RecvMsg s false;
  CHECK (0 <? len);;
  let data := default [] data in
  msgtype ← member_enum data 0;
  Ok (len, data, msgtype, s).
(** The second part; the handler makes the CHECK of its length. *)
Definition recv_second (s : S) : res (list byte * S) :=
  '(_, data, _, s) ← RecvMsg s false;
  match data with Some data => Ok (data, s) | None => Fault CheckFailed end.

(** The buffer behind a pointer, which the reader takes over. *)
Definition take_buffer (p : Z) (mem : Memory) : res (UpdateBuffer * Memory) :=
  match mem !! p with Some b => Ok (b, delete p mem) | None => Fault OutOfBounds end.

(** EPUpdateLog: the struct, of its size only, and a second part. *)
Definition recv_log (len : Z) (data : list byte) (s : S) : res (PropIn * S) :=
  CHECK (len =? sizeof PUpdateLogMsg);;
  tid ← member_i32 data 4;
  key ← member_i64 data 8;
  update_type ← member_enum (A := UpdateType) data 16;
  CHECK (bool_decide (update_type = Some EInc));;
  '(delta, s) ← recv_second s;
  Ok (InUpdateLog (mkPUpdateLogMsg tid key EInc) delta, s).
(** EPUpdateBuffer: the length is not looked at. *)
Definition recv_buffer (data : list byte) (mem : Memory) : res (PropIn * Memory) :=
  p ← member_i64 data 8;
  table_id ← member_i32 data 4;
  '(b, mem) ← take_buffer p mem;
  Ok (InUpdateBuffer table_id b, mem).

(** On update_pull_sock of the propagator. *)
Definition recv_update (s : S) (mem : Memory) : res (PropIn * S * Memory) :=
  '(len, data, msgtype, s) ← recv_first (A := PropagatorMsgType) s;
  match msgtype with
  | Some EPUpdateLog => '(m, s) ← recv_log len data s; Ok (m, s, mem)
  | Some EPUpdateBuffer => '(m, mem) ← recv_buffer data mem; Ok (m, s, mem)
  | Some t => Ok (InOther t, s, mem)
  | None => Fault CheckFailed
  end.

(** On term_sub_sock. *)
Definition recv_sub (s : S) : res (PropRecvMsgType * S) :=
  '(_, (len, data, _, s)) ← RecvMsg_cid s false;
  CHECK (0 <? len);;
  msgtype ← member_enum (A := PropRecvMsgType) (default [] data) 0;
  match msgtype with Some t => Ok (t, s) | None => Fault CheckFailed end.

(** On timer_pull_sock. *)
Definition recv_trigger (s : S) : res (TimerMsgType * S) :=
  '(_, _, msgtype, s) ← recv_first (A := TimerMsgType) s;
  match msgtype with Some t => Ok (t, s) | None => Fault CheckFailed end.

(** TimerHandler, on timer_recv_sock. *)
Definition recv_command (s : S) : res (TimerCmdMsg * S) :=
  '(ret, data, _, s) ← RecvMsg s false;
  CHECK (ret =? sizeof TimerCmdMsg);;
  nanosec ← member_i32 (default [] data) 4;
  Ok (mkTimerCmdMsg nanosec, s).

(** On internal_recv_pull_sock. *)
Definition recv_internal (s : S) (mem : Memory) : res (RecvIn * S * Memory) :=
  '(len, data, msgtype, s) ← recv_first (A := ReceiverMsgType) s;
  match msgtype with
  | Some EMyUpdates =>
      CHECK (len =? sizeof MyUpdatesMsg);;
      table_id ← member_i32 data 4;
      p ← member_i64 data 8;
      '(b, mem) ← take_buffer p mem;
      Ok (InMyUpdates table_id b, s, mem)
  | Some t => Ok (InRecv t, s, mem)
  | None => Fault CheckFailed
  end.

(** The rest of an EPRUpdateBuffer message. *)
Definition recv_block (data : list byte) (s : S) : res (NetIn * S) :=
  table_id ← member_i32 data 4;
  '(block, s) ← recv_second s;
  Ok (NetBuffer table_id block, s).

(** On update_pull_sock of the receiver. The length of the first part is not looked at,
    and without a message its data is a null pointer; the handshake messages go to the
    default branch, as every other type does. *)
Definition recv_net (s : S) : res (NetIn * S) :=
  '(_, data, _, s) ← RecvMsg s false;
  match data with
  | None => Fault NullDeref
  | Some data =>
      msgtype ← member_enum (A := PropRecvMsgType) data 0;
      match msgtype with
      | Some EPRUpdateBuffer => recv_block data s
      | Some EPRTerminateACK => node ← member_i32 data 4; Ok (NetTermAck node, s)
      | Some PropInit | Some PropInitACKACK | None => Fault CheckFailed
      | Some t => Ok (NetOther t, s)
      end
  end.

(** *** The transport *)

Definition put_bytes (c : chan) : msg c -> Wires S -> res (Wires S) :=
  match c with
  | Trigger => fun m w => s ← send_enum m (sock w Trigger); Ok (set_sock Trigger s w)
  | Command => fun m w => s ← send_command m (sock w Command); Ok (set_sock Command s w)
  | Update => fun m w => '(s, mem) ← send_update m (sock w Update) (buffers w); Ok (set_buffers mem (set_sock Update s w))
  | Sub => fun m w => s ← send_pub m (sock w Sub); Ok (set_sock Sub s w)
  | Internal => fun m w => '(s, mem) ← send_internal m (sock w Internal) (buffers w); Ok (set_buffers mem (set_sock Internal s w))
  | Net => fun m w => s ← send_net m (sock w Net); Ok (set_sock Net s w)
  | Push => fun m w => s ← send_net m (sock w Push); Ok (set_sock Push s w)
  | Pub => fun m w => s ← send_pub m (sock w Pub); Ok (set_sock Pub s w)
  end.

Definition get_bytes (c : chan) : Wires S -> res (msg c * Wires S) :=
  match c with
  | Trigger => fun w => '(m, s) ← recv_trigger (sock w Trigger); Ok (m, set_sock Trigger s w)
  | Command => fun w => '(m, s) ← recv_command (sock w Command); Ok (m, set_sock Command s w)
  | Update => fun w => '(m, s, mem) ← recv_update (sock w Update) (buffers w); Ok (m, set_buffers mem (set_sock Update s w))
  | Sub => fun w => '(m, s) ← recv_sub (sock w Sub); Ok (m, set_sock Sub s w)
  | Internal => fun w => '(m, s, mem) ← recv_internal (sock w Internal) (buffers w); Ok (m, set_buffers mem (set_sock Internal s w))
  | Net => fun w => '(m, s) ← recv_net (sock w Net); Ok (m, set_sock Net s w)
  | Push => fun w => '(m, s) ← recv_net (sock w Push); Ok (m, set_sock Push s w)
  | Pub => fun w => '(m, s) ← recv_sub (sock w Pub); Ok (m, set_sock Pub s w)
  end.

#[export] Instance byte_transport : Transport (Wires S) := {|
  get c w := if zmq_pollin (sock w c) then Some (get_bytes c w) else None;
  put c := put_bytes c
|}.
End sockets.

(** ** What can be sent *)

(** What the members of the structs can hold, what 0MQ's sizes can, and the messages
    that are no bare message type. *)
Definition fits (c : chan) : msg c -> Prop :=
  match c with
  | Trigger | Sub | Pub => fun _ => True
  | Command => fun m => is_i32 (tc_nanosec m)
  | Update => fun m =>
      match m with
      | InUpdateLog m delta => is_i32 (pul_table_id m) /\ is_i64 (pul_key m) /\ Z.of_nat (length delta) < 2147483648
      | InUpdateBuffer t _ => is_i32 t
      | InOther t => t <> EPUpdateLog /\ t <> EPUpdateBuffer
      end
  | Internal => fun m => match m with InMyUpdates t _ => is_i32 t | InRecv t => t <> EMyUpdates end
  | Net | Push => fun m =>
      match m with
      | NetBuffer t block => is_i32 t /\ Z.of_nat (length block) < 2147483648
      | NetTermAck node => is_i32 node
      | NetOther t => t = PropInitACK \/ t = PropStart \/ t = EPRTerminate
      | NetInit _ | NetInitAckAck _ => False
      end
  end.
