(* ===== verification/WireFits.v ===== *)
(** What the threads send fits its structs: the ids of tables and nodes are 32 bits wide
    and a block is no longer than an int can say, as long as what the threads have been
    given is so. *)
From S2P Require Import Prelude Common MemStruct ValueOps Protocol Propagator PropagatorTerm InternalTable Receiver Ring Wire.

(** ** Buffers *)

(** An invariant of the loop over the updates of a buffer. *)
Lemma for_updates_keeps {A} (P : A -> Prop) n f b (s : A) s' b' :
  for_updates n f b s = Ok (s', b') -> P s -> (forall key d s1 s2, P s1 -> f key d s1 = Ok s2 -> P s2) -> P s'.
Proof.
  unfold for_updates. generalize (StartIteration b).2. intros b0. generalize (S (length (data_ b0))). intros fuel0 Hl Hs Hf. revert b0 s Hl Hs.
  induction fuel0 as [|fuel IH]; intros b0 s Hl Hs; simpl in Hl; [done|].
  inv_bind. destruct v as [[[key ptr]|] b1]; [|by simplify_eq]. inv_bind. apply (IH b1 v0); [done|]. by eapply Hf.
Qed.


Lemma store_size ub off bs ub' : store ub off bs = Ok ub' -> buff_size_ ub' = buff_size_ ub.
Proof. unfold store. case_match; [|done]. by intros [= <-]. Qed.

Lemma append_size b k v r b' : AppendUpdate b k v = Ok (r, b') -> buff_size_ b' = buff_size_ b.
Proof.
  unfold AppendUpdate. case_match; [by intros [= _ <-]|]. intros Ha. inv_bind. simplify_eq. simpl.
  apply store_size in Hv. apply store_size in Hv1. congruence.
Qed.

Lemma range_size b id st en r b' : UpdateNodeRange b id st en = Ok (r, b') -> buff_size_ b' = buff_size_ b.
Proof.
  unfold UpdateNodeRange, store_i32, store_i64. intros Hr. inv_bind. destruct v as [ptr|]; inv_bind.
  - simplify_eq. apply store_size in Hv0. apply store_size in Hv1. congruence.
  - destruct v as [ptr|]; [|by simplify_eq]. inv_bind. simplify_eq.
    apply store_size in Hv1. apply store_size in Hv2. apply store_size in Hv3. congruence.
Qed.

Lemma init_size n : forall ptr ub ub', init_node_ranges n ptr ub = Ok ub' -> buff_size_ ub' = buff_size_ ub.
Proof.
  induction n as [|n IH]; intros ptr ub ub'; simpl; [by intros [= <-]|]. unfold store_i32, store_i64. intros Hi. inv_bind.
  apply store_size in Hv. apply store_size in Hv0. apply store_size in Hv1. apply IH in Hi. congruence.
Qed.

Lemma create_size `{Allocator} us cap nr b : CreateUpdateBuffer us cap nr = Ok b -> is_i32 (buff_size_ b).
Proof.
  unfold CreateUpdateBuffer, UpdateBuffer_ctor. intros Hc. inv_bind. case_match; [done|]. apply init_size in Hc. rewrite Hc. simpl.
  unfold GetBuffSize. apply wrap_i32_range.
Qed.

Section propagator.
Context `{Allocator} `{UnorderedIter} (cfg : PropagatorThrInfo).

Lemma append_all_size ups b b' : append_all ups b = Ok b' -> buff_size_ b' = buff_size_ b.
Proof.
  intros Ha. apply (foldM_Ok_ind (fun _ b1 => buff_size_ b1 = buff_size_ b) _ _ _ _ Ha); [done|].
  intros pre u suf b1 b2 _ Hb Hu. inv_bind. destruct v as [r b3]. inv_bind. simplify_eq. apply append_size in Hv. congruence.
Qed.

Lemma add_ranges_size peers acc acc' : add_peer_ranges peers acc = Ok acc' -> buff_size_ acc'.1 = buff_size_ acc.1.
Proof.
  intros Ha. apply (foldM_Ok_ind (fun _ a => buff_size_ a.1 = buff_size_ acc.1) _ _ _ _ Ha); [done|].
  intros pre u suf b1 b2 _ Hb Hu. cbv zeta in Hu. case_match; [|by simplify_eq]. inv_bind. destruct v as [r b3]. inv_bind. simplify_eq.
  apply range_size in Hv. simpl. congruence.
Qed.

(** ** The propagator *)

(** The tables of the store have ids an int32_t can hold. *)
Definition ids_ok (s : PropThr) : Prop := forall t, is_Some (update_store s !! t) -> is_i32 t.
Definition route_fits {M} (route : M -> option { c : chan & msg c }) (m : M) : Prop :=
  match route m with Some (existT c x) => fits c x | None => True end.

(** [s'] has sent [l] more than [s], and keeps the ids. *)
Definition sent_ok (s s' : PropThr) : Prop :=
  (exists l, Propagator.out s' = Propagator.out s ++ l /\ Forall (route_fits prop_route) l) /\
  (ids_ok s -> ids_ok s').

Lemma sent_ok_refl s : sent_ok s s.
Proof. split; [|done]. exists []. by rewrite app_nil_r. Qed.
Lemma sent_ok_trans s1 s2 s3 : sent_ok s1 s2 -> sent_ok s2 s3 -> sent_ok s1 s3.
Proof.
  intros [(l1 & Ho1 & Hl1) Hi1] [(l2 & Ho2 & Hl2) Hi2]. split; [|auto]. exists (l1 ++ l2).
  rewrite Ho2, Ho1, app_assoc. split; [done|]. by apply Forall_app.
Qed.
Lemma sent_nothing s s' : Propagator.out s' = Propagator.out s -> (ids_ok s -> ids_ok s') -> sent_ok s s'.
Proof. intros Ho Hi. split; [|done]. exists []. by rewrite app_nil_r. Qed.
Lemma sent_one s s' m :
  Propagator.out s' = Propagator.out s ++ [m] -> route_fits prop_route m -> (ids_ok s -> ids_ok s') -> sent_ok s s'.
Proof. intros Ho Hm Hi. split; [|done]. exists [m]. split; [done|]. by constructor. Qed.

Lemma ids_insert s t u : is_i32 t -> ids_ok s -> ids_ok (set_update_store s (<[t := u]> (update_store s))).
Proof.
  intros Ht Hi t' Hin. destruct (decide (t = t')) as [<-|Hne]; [done|]. simpl in Hin. rewrite lookup_insert_ne in Hin by done. by apply Hi.
Qed.

Lemma build_sent t n s b s' :
  is_i32 t -> build_update_buff cfg t n s = Ok (b, s') -> sent_ok s s' /\ is_i32 (buff_size_ b).
Proof.
  unfold build_update_buff. intros Ht Hb. destruct (index_ref _ (table_peers_update_range s) t) as [peers tp]. inv_bind.
  destruct v1 as [b2 p2]. simpl in *. destruct (index_ref range0 (my_update_range s) t) as [mine mr]. inv_bind. simplify_eq. split.
  - apply sent_nothing; [done|]. intros Hi. by apply (ids_insert s t).
  - apply create_size in Hv. apply append_all_size in Hv0. apply add_ranges_size in Hv1. simpl in Hv1.
    assert (buff_size_ b = buff_size_ b2) as ->; [|congruence]. case_match; [|by simplify_eq]. inv_bind.
    destruct v1 as [r b3]. inv_bind. simplify_eq. by apply range_size in Hv3.
Qed.

Lemma notify_sent t n s s' : is_i32 t -> notify_receiver cfg t n s = Ok s' -> sent_ok s s'.
Proof.
  unfold notify_receiver. intros Ht Hn. destruct (index_ref ∅ (my_update_store s) t) as [mine ms].
  case_match; [|simplify_eq; by apply sent_nothing]. inv_bind. destruct (index_ref range0 _ t) as [r rs]. inv_bind.
  destruct v2 as [c b]. inv_bind. destruct v2 as [ack s1]. inv_bind. subst s1.
  unfold recv_pair in Hv3. simpl in Hv3. case_match; [done|]. simplify_eq. rewrite connect_internal_eq.
  apply (sent_one _ _ (ToReceiver t b)); done.
Qed.

Lemma ship_sent t b s s' : is_i32 t -> is_i32 (buff_size_ b) -> ship_buffer cfg t b s = Ok s' -> sent_ok s s'.
Proof.
  unfold ship_buffer, send_downstream, memcpy_src. intros Ht Hb Hs. destruct (index_ref range0 (my_update_range s) t) as [r rs].
  inv_bind. case_match; [|done]. simplify_eq. case_match eqn:E; [|done]. simplify_eq.
  apply (sent_one _ _ (ToDownstream (mkEPRUpdateBufferMsg t) (take (Z.to_nat (get_buff_size b)) (to_bytes b)))); [done| |done].
  split; [done|]. rewrite length_take. unfold get_buff_size, is_i32 in *. lia.
Qed.

Lemma flush_sent t s s' : is_i32 t -> flush_table cfg t s = Ok s' -> sent_ok s s'.
Proof.
  unfold flush_table. intros Ht Hf. case_match; [simplify_eq; apply sent_ok_refl|].
  destruct (index_ref TableInfo_zero _ t) as [info dir]. inv_bind. destruct v as [b s1]. inv_bind.
  apply build_sent in Hv as [Hs1 Hb]; [|done]. apply (sent_ok_trans _ s1); [exact Hs1|].
  apply (sent_ok_trans _ v); [|by apply (ship_sent t b)]. case_match; [by apply (notify_sent t (ti_update_size_ info))|].
  simplify_eq. apply sent_ok_refl.
Qed.

Lemma flushes_sent ts s s' : Forall is_i32 ts -> foldM (flush_table cfg) ts s = Ok s' -> sent_ok s s'.
Proof.
  intros Hts Hf. apply (foldM_Ok_ind (fun _ s1 => sent_ok s s1) _ _ _ _ Hf); [apply sent_ok_refl|].
  intros pre t suf s1 s2 -> Hs1 Hs2. apply (sent_ok_trans _ s1); [done|]. apply (flush_sent t); [|done].
  apply Forall_app in Hts as [_ Hts]. by apply Forall_cons in Hts as [Ht _].
Qed.

Lemma exit_sent s s' fl : Propagator.exit_if_done s = (fl, s') -> sent_ok s s'.
Proof. unfold Propagator.exit_if_done. case_match; intros [= _ <-]; by apply sent_nothing. Qed.

Lemma timer_sent s fl s' : is_i32 (nanosec_ cfg) -> ids_ok s -> handle_timer cfg s = Ok (fl, s') -> sent_ok s s'.
Proof.
  unfold handle_timer. intros Hn Hi Ht. inv_bind.
  set (m := mkTimerCmdMsg (if decide (Propagator.state_ (Propagator.obj s) = Propagator.RUN) then nanosec_ cfg else 0)) in Hv.
  apply (sent_ok_trans _ (Propagator.send s (ToTimer m))).
  { apply (sent_one _ _ (ToTimer m)); [done| |done]. unfold m, route_fits. simpl. unfold is_i32 in *. clear Hv Ht. case_decide; lia. }
  apply (sent_ok_trans _ v).
  { eapply flushes_sent; [|exact Hv]. apply Forall_fmap, Forall_forall. intros [t ups] Hin. apply Hi. apply iter_order_elem in Hin. by eexists. }
  case_decide; inv_bind; [|subst; apply sent_ok_refl].
  eapply sent_ok_trans; [|by eapply exit_sent]. by apply (sent_one _ _ JoinTimer).
Qed.

Lemma add_update_ids us t m key d len vadd ups ups' :
  is_i32 t -> (forall t', is_Some (us !! t') -> is_i32 t') ->
  index_ref ∅ us t = (ups, m) -> AddUpdate key d len vadd ups = Ok ups' -> forall t', is_Some (<[t := ups']> m !! t') -> is_i32 t'.
Proof.
  intros Ht Hi Hr _ t' Hin. destruct (decide (t = t')) as [<-|Hne]; [done|]. rewrite lookup_insert_ne in Hin by done.
  pose proof (index_ref_lookup ∅ us t t') as Hl. rewrite Hr in Hl. simpl in Hl. rewrite Hl, decide_False in Hin by done. by apply Hi.
Qed.

Lemma log_sent m d s fl s' : fits Update (InUpdateLog m d) -> handle_update_log cfg m d s = Ok (fl, s') -> sent_ok s s'.
Proof.
  intros (Ht & _) Hl. destruct (handle_update_log_ctl _ _ _ _ _ _ Hl) as [_ [_ Ho]]. rewrite app_nil_r in Ho. apply sent_nothing; [done|].
  intros Hi. revert Hl. unfold handle_update_log. intros Hl. inv_bind. case_decide; [by simplify_eq|].
  destruct (index_ref range0 _ _) as [mine mr]. case_match; [by simplify_eq|]. case_match; [|done].
  destruct (index_ref ∅ (update_store _) _) as [ups st] eqn:Hr. inv_bind.
  assert (forall t', is_Some (<[pul_table_id m := v0]> st !! t') -> is_i32 t') as Hst by (by eapply add_update_ids).
  case_match; [|injection Hl as _ <-; exact Hst].
  match type of Hl with context [index_ref ∅ ?a ?b] => destruct (index_ref ∅ a b) as [mys ms] end.
  apply bind_Ok in Hl as (v1 & _ & Hl). injection Hl as _ <-. exact Hst.
Qed.

Lemma buffer_sent t b s fl s' :
  fits Update (InUpdateBuffer t b) -> Propagator.handle_update_buffer t b s = Ok (fl, s') -> sent_ok s s'.
Proof.
  intros Ht Hl. destruct (handle_update_buffer_ctl _ _ _ _ _ Hl) as [_ [_ Ho]]. rewrite app_nil_r in Ho. apply sent_nothing; [done|].
  intros Hi. revert Hl. unfold Propagator.handle_update_buffer. intros Hl. case_match; [|done]. case_decide; [|by simplify_eq].
  inv_bind. destruct v as [store b1].
  assert (forall t', is_Some (store !! t') -> is_i32 t') as Hst.
  { apply (for_updates_keeps (fun st => forall t', is_Some (st !! t') -> is_i32 t') _ _ _ _ _ _ Hv Hi). intros key d st st' Hst Ha. unfold add_received_update in Ha.
    destruct (index_ref ∅ st t) as [ups m] eqn:Hr. inv_bind. simplify_eq. by eapply add_update_ids. }
  case_match; [|done]. inv_bind. destruct v as [peers b2]. injection Hl as _ <-. exact Hst.
Qed.

Lemma terminate_sent s fl s' : is_i32 (Propagator.my_id_ cfg) -> Propagator.handle_internal_terminate cfg s = Ok (fl, s') -> sent_ok s s'.
Proof.
  unfold Propagator.handle_internal_terminate, send_downstream. intros Hid Ht. inv_bind.
  apply (sent_ok_trans _ v).
  - apply (sent_ok_trans _ (Propagator.set_thr_state s Propagator.TERM_PREP)); [by apply sent_nothing|].
    case_match; [|simplify_eq; apply sent_ok_refl]. inv_bind. case_match; [|done]. simplify_eq.
    by apply (sent_one _ _ (ToDownstreamTermAck (mkPRTerminateAckMsg (Propagator.my_id_ cfg)))).
  - simplify_eq. rewrite connect_internal_eq. apply (sent_one _ _ ToReceiverTerm); [done|done|].
    intros Hi t Hin. simpl in Hin. rewrite lookup_fmap in Hin. apply Hi. by destruct (update_store v !! t); [eexists|destruct Hin].
Qed.

Lemma sub_sent m s fl s' : is_i32 (Propagator.my_id_ cfg) -> handle_term_sub cfg m s = Ok (fl, s') -> sent_ok s s'.
Proof.
  unfold handle_term_sub, send_downstream. intros Hid Ht. destruct m; try done. case_decide; [|simplify_eq; by apply sent_nothing].
  destruct (has_downstream cfg); [|done]. cbn [mbind res_bind] in Ht. injection Ht as Ht.
  eapply sent_ok_trans; [|by eapply exit_sent]. by apply (sent_one _ _ (ToDownstreamTermAck (mkPRTerminateAckMsg (Propagator.my_id_ cfg)))).
Qed.

(** A turn of the propagator. *)
Lemma prop_turn_sent t u m s pl fl s' :
  is_i32 (nanosec_ cfg) -> is_i32 (Propagator.my_id_ cfg) -> ids_ok s -> (forall x, u = Some x -> fits Update x) ->
  Propagator.loop_turn cfg t u m s = Ok (pl, fl, s') -> sent_ok s s'.
Proof.
  unfold Propagator.loop_turn. intros Hn Hid Hi Hu Hl. case_match; [|destruct u as [x|]; [|case_match; [|by simplify_eq; apply sent_ok_refl]]].
  - inv_bind. destruct v0 as [fl1 s1]. simplify_eq. by apply (timer_sent s fl s').
  - inv_bind. destruct v as [fl1 s1]. simplify_eq. specialize (Hu x eq_refl). destruct x as [lm d|tb b|[]]; simpl in Hv; try done.
    + by apply (log_sent lm d s fl s').
    + by apply (buffer_sent tb b s fl s').
    + by apply (terminate_sent s fl s').
    + unfold handle_recv_terminate_ack in Hv. injection Hv as Hv. eapply sent_ok_trans; [|by eapply exit_sent]. by apply sent_nothing.
  - inv_bind. destruct v as [fl1 s1]. simplify_eq. by eapply (sub_sent _ s fl s').
Qed.
End propagator.

(** ** The receiver *)

Section receiver.
Context `{UnorderedIter} (cfg : ReceiverThrInfo).

Definition recv_sent (s s' : RecvThr) : Prop :=
  exists l, out s' = out s ++ l /\ Forall (route_fits recv_route) l.

Lemma recv_sent_some s s' l : out s' = out s ++ l -> Forall (route_fits recv_route) l -> recv_sent s s'.
Proof. by exists l. Qed.
Lemma recv_sent_nothing s s' : out s' = out s -> recv_sent s s'.
Proof. intros Ho. exists []. by rewrite app_nil_r. Qed.
Lemma recv_sent_trans s1 s2 s3 : recv_sent s1 s2 -> recv_sent s2 s3 -> recv_sent s1 s3.
Proof.
  intros (l1 & Ho1 & Hl1) (l2 & Ho2 & Hl2). exists (l1 ++ l2). rewrite Ho2, Ho1, app_assoc. split; [done|]. by apply Forall_app.
Qed.

Lemma dedup_out t it b s b' s' : dedup cfg t it b s = Ok (b', s') -> out s' = out s.
Proof.
  unfold dedup. intros Hd. inv_bind. case_match; [|by simplify_eq]. case_match; [|done]. inv_bind.
  repeat match goal with p : _ * _ |- _ => destruct p end. inv_bind.
  repeat match goal with p : _ * _ |- _ => destruct p end. by simplify_eq.
Qed.

Lemma deliver_sent t ptr it b s s' : is_i32 t -> deliver t ptr it b s = Ok s' -> recv_sent s s'.
Proof.
  unfold deliver. intros Ht Hd. inv_bind. destruct v as [it' b'].
  set (s1 := if get_forward_updates it then send s (ToPropBuffer t b) else s) in Hd.
  assert (recv_sent s s1) as Hs1.
  { unfold s1. destruct (get_forward_updates it); [|by apply recv_sent_nothing].
    apply (recv_sent_some _ _ [ToPropBuffer t b]); [done|by constructor]. }
  clear Hv. clearbody s1. apply (recv_sent_trans _ s1); [done|]. destruct (get_do_user_cbk it); [|injection Hd as <-; by apply recv_sent_nothing].
  destruct (get_update_buff_cbk it) as [u|]; [|done]. injection Hd as <-.
  apply (recv_sent_some _ _ [UserCbk u t b']); [done|by constructor].
Qed.

Lemma net_sent m s fl s' : fits Net m -> handle_net cfg m s = Ok (fl, s') -> recv_sent s s'.
Proof.
  intros Hf Hh. destruct m as [| |t block|node|]; try done; simpl in Hh.
  - destruct Hf as [Ht _]. unfold handle_update_buffer in Hh. inv_bind. case_decide; [simplify_eq; by apply recv_sent_nothing|].
    inv_bind. destruct v1 as [[o|] rv]; [|simplify_eq; by apply recv_sent_nothing].
    case_match; [|done]. case_match; [|done]. inv_bind. destruct v1 as [rv' s1]. inv_bind. simplify_eq.
    apply dedup_out in Hv2. apply (recv_sent_trans _ s1); [by apply recv_sent_nothing|]. by eapply deliver_sent.
  - unfold handle_terminate_ack in Hh. injection Hh as Hh. unfold exit_if_done in Hh.
    case_match; injection Hh as _ <-; by apply recv_sent_nothing.
Qed.

Lemma internal_sent m s fl s' : handle_internal cfg m s = Ok (fl, s') -> recv_sent s s'.
Proof.
  intros Hh. destruct m as [t b|[]]; simpl in Hh; try done.
  - injection Hh as _ <-. apply (recv_sent_some _ _ [ToPairAck]); [|by repeat constructor].
    unfold handle_my_updates. case_decide; [|done]. by destruct (index_ref [] _ _).
  - injection Hh as _ <-. unfold handle_internal_terminate. simpl.
    destruct (have_received_prop_pair_term s), (0 <? num_expected_propagators_ cfg); simpl.
    + apply (recv_sent_some _ _ [ToPropTermAck; Publish EPRTerminate]); [simpl; by rewrite <- app_assoc|by repeat constructor].
    + apply (recv_sent_some _ _ [ToPropTermAck]); [done|by repeat constructor].
    + apply (recv_sent_some _ _ [Publish EPRTerminate]); [done|by repeat constructor].
    + by apply recv_sent_nothing.
  - unfold handle_pair_terminate in Hh. case_match; try done; [injection Hh as _ <-; by apply recv_sent_nothing|].
    injection Hh as Hh. apply (recv_sent_some _ _ [ToPropTermAck]); [|by repeat constructor].
    unfold exit_if_done in Hh. by case_match; injection Hh as _ <-.
Qed.

(** A turn of the receiver. *)
Lemma recv_turn_sent i m s pl fl s' :
  (forall x, m = Some x -> fits Net x) -> loop_turn cfg i m s = Ok (pl, fl, s') -> recv_sent s s'.
Proof.
  unfold loop_turn. intros Hm Hl. destruct i as [x|].
  - inv_bind. destruct v as [fl1 s1]. simplify_eq. by eapply internal_sent.
  - destruct (0 <? num_expected_propagators_ cfg); [|simplify_eq; by apply recv_sent_nothing].
    destruct m as [x|]; [|simplify_eq; by apply recv_sent_nothing]. inv_bind. destruct v as [fl1 s1]. simplify_eq.
    eapply net_sent; [by apply Hm|done].
Qed.
End receiver.
