(* ===== verification/WireProps.v ===== *)
(** A node over sockets does what the node over queues of messages does: the sends and
    the receiving switches carry every message unchanged, and refuse messages whose size
    they check. *)
From S2P Require Import Prelude Common MemStruct ValueOps Protocol Propagator PropagatorSpec PropagatorProps PropagatorTerm InternalTable Receiver ReceiverSpec ReceiverProps Ring ZmqUtil Wire WireFits.

(** ** Messages and their parts *)

(** The parts of a message, a buffer at address [p]. *)
Definition net_parts (m : NetIn) : list (list byte * bool) :=
  match m with
  | NetInit node => [(object_bytes PropInit (mkPropInitMsg node), false)]
  | NetInitAckAck node => [(object_bytes PropInitACKACK (mkPropInitAckAckMsg node), false)]
  | NetBuffer t block => [(object_bytes EPRUpdateBuffer (mkEPRUpdateBufferMsg t), true); (block, false)]
  | NetTermAck node => [(object_bytes EPRTerminateACK (mkPRTerminateAckMsg node), false)]
  | NetOther t => [(enum_bytes t, false)]
  end.
Definition parts_of (c : chan) : msg c -> Z -> list (list byte * bool) :=
  match c with
  | Trigger => fun m _ => [(enum_bytes m, false)]
  | Command => fun m _ => [(object_bytes ETimerCmd m, false)]
  | Update => fun m p =>
      match m with
      | InUpdateLog m delta => [(object_bytes EPUpdateLog m, true); (delta, false)]
      | InUpdateBuffer t _ => [(object_bytes EPUpdateBuffer (mkPUpdateBufferMsg t p), false)]
      | InOther t => [(enum_bytes t, false)]
      end
  | Sub | Pub => fun m _ => [(i32_bytes 1, true); (enum_bytes m, false)]
  | Internal => fun m p =>
      match m with
      | InMyUpdates t _ => [(object_bytes EMyUpdates (mkMyUpdatesMsg t p), false)]
      | InRecv t => [(enum_bytes t, false)]
      end
  | Net | Push => fun m _ => net_parts m
  end.
Definition buffer_of (c : chan) : msg c -> option UpdateBuffer :=
  match c with
  | Update => fun m => match m with InUpdateBuffer _ b => Some b | _ => None end
  | Internal => fun m => match m with InMyUpdates _ b => Some b | _ => None end
  | _ => fun _ => None
  end.

Lemma object_sizes :
  (forall m : PropInitMsg, Z.of_nat (length (object_bytes PropInit m)) = sizeof PropInitMsg) /\
  (forall m : PropInitAckAckMsg, Z.of_nat (length (object_bytes PropInitACKACK m)) = sizeof PropInitAckAckMsg) /\
  (forall m : EPRUpdateBufferMsg, Z.of_nat (length (object_bytes EPRUpdateBuffer m)) = sizeof EPRUpdateBufferMsg) /\
  (forall m : PRTerminateAckMsg, Z.of_nat (length (object_bytes EPRTerminateACK m)) = sizeof PRTerminateAckMsg) /\
  (forall m : TimerCmdMsg, Z.of_nat (length (object_bytes ETimerCmd m)) = sizeof TimerCmdMsg) /\
  (forall m : MyUpdatesMsg, Z.of_nat (length (object_bytes EMyUpdates m)) = sizeof MyUpdatesMsg) /\
  (forall m : PUpdateBufferMsg, Z.of_nat (length (object_bytes EPUpdateBuffer m)) = sizeof PUpdateBufferMsg) /\
  (forall m : PUpdateLogMsg, Z.of_nat (length (object_bytes EPUpdateLog m)) = sizeof PUpdateLogMsg).
Proof. split_and!; intros m; unfold object_bytes, members; simpl; unfold enum_bytes; len_lia. Qed.

(** ** One socket *)

Section socket.
Context {S : Type} `{PollSocket S} `{Addresses}.
Implicit Types s : S.

Lemma send_part_sends b n flag s :
  n = Z.of_nat (length b) -> n < 2147483648 ->
  exists s', send_part b n flag s = Ok s' /\ parts s' = parts s ++ [(b, Z.testbit flag 1)].
Proof.
  intros -> Hn. unfold send_part. destruct (SendMsg_sends s b flag Hn) as (s' & -> & Hp). exists s'.
  unfold CHECK. by rewrite Z.eqb_refl.
Qed.

Lemma send_struct_sends {T A} `{Enum T} `{Struct A} (t : T) (x : A) flag s :
  Z.of_nat (length (object_bytes t x)) = sizeof A -> sizeof A < 2147483648 ->
  exists s', send_struct t x flag s = Ok s' /\ parts s' = parts s ++ [(object_bytes t x, Z.testbit flag 1)].
Proof. intros Hs Hn. by apply send_part_sends. Qed.

Lemma send_enum_sends {A} `{Enum A} (x : A) s :
  exists s', send_enum x s = Ok s' /\ parts s' = parts s ++ [(enum_bytes x, false)].
Proof. apply (send_part_sends (enum_bytes x) 4 0); [by rewrite length_enum_bytes|done]. Qed.

Lemma send_pub_sends m s :
  exists s', send_pub m s = Ok s' /\ parts s' = parts s ++ [(i32_bytes 1, true); (enum_bytes m, false)].
Proof.
  unfold send_pub. destruct (SendMsg_cid_sends s 1 (enum_bytes m) 0) as (s' & -> & Hp); rewrite ?length_enum_bytes; [done|].
  by exists s'.
Qed.

Lemma send_two s1 s2 s3 x y : parts s2 = parts s1 ++ [x] -> parts s3 = parts s2 ++ [y] -> parts s3 = parts s1 ++ [x; y].
Proof. intros Hs1 Hs2. by rewrite Hs2, Hs1, <- app_assoc. Qed.

Lemma send_net_sends m s : fits Net m -> exists s', send_net m s = Ok s' /\ parts s' = parts s ++ net_parts m.
Proof.
  destruct object_sizes as (_ & _ & Hz3 & Hz4 & _). destruct m as [| |t block|node|t]; cbn [fits]; try done; intros Hf; cbn [send_net net_parts]; unfold send_block, send_term_ack.
  - destruct (send_struct_sends EPRUpdateBuffer (mkEPRUpdateBufferMsg t) ZMQ_SNDMORE s) as (s1 & -> & Hp1); [apply Hz3|done|]. simpl.
    destruct (send_part_sends block _ 0 s1 eq_refl) as (s2 & -> & Hp2); [apply Hf|]. exists s2. split; [done|]. by apply (send_two s s1).
  - by apply (send_struct_sends EPRTerminateACK (mkPRTerminateAckMsg node) 0).
  - apply send_enum_sends.
Qed.

Lemma send_update_sends m s mem :
  fits Update m ->
  send_update m s mem = Fault BadAlloc \/
  exists s' mem' p, send_update m s mem = Ok (s', mem') /\ parts s' = parts s ++ parts_of Update m p /\ is_i64 p /\
    match buffer_of Update m with Some b => mem !! p = None /\ mem' = <[p := b]> mem | None => mem' = mem end.
Proof.
  destruct object_sizes as (_ & _ & _ & _ & _ & _ & Hz7 & Hz8). destruct m as [m delta|t b|t]; cbn [fits send_update parts_of buffer_of]; unfold send_log, send_buffer; intros Hf.
  - right. destruct (send_struct_sends EPUpdateLog m ZMQ_SNDMORE s) as (s1 & -> & Hp1); [apply Hz8|done|]. simpl.
    destruct (send_part_sends delta _ 0 s1 eq_refl) as (s2 & -> & Hp2); [apply Hf|]. exists s2, mem, 0.
    split; [done|]. split; [by apply (send_two s s1)|done].
  - destruct (new_address mem) as [p|] eqn:Ha; [right|by left]. apply new_address_free in Ha as [Hfree Hp].
    destruct (send_struct_sends EPUpdateBuffer (mkPUpdateBufferMsg t p) 0 s) as (s1 & -> & Hp1); [apply Hz7|done|].
    by exists s1, (<[p := b]> mem), p.
  - right. destruct (send_enum_sends t s) as (s1 & -> & Hp1). by exists s1, mem, 0.
Qed.

Lemma send_internal_sends m s mem :
  fits Internal m ->
  send_internal m s mem = Fault BadAlloc \/
  exists s' mem' p, send_internal m s mem = Ok (s', mem') /\ parts s' = parts s ++ parts_of Internal m p /\ is_i64 p /\
    match buffer_of Internal m with Some b => mem !! p = None /\ mem' = <[p := b]> mem | None => mem' = mem end.
Proof.
  destruct object_sizes as (_ & _ & _ & _ & _ & Hz6 & _). destruct m as [t b|t]; cbn [fits send_internal parts_of buffer_of]; unfold send_my_updates; intros Hf.
  - destruct (new_address mem) as [p|] eqn:Ha; [right|by left]. apply new_address_free in Ha as [Hfree Hp].
    destruct (send_struct_sends EMyUpdates (mkMyUpdatesMsg t p) 0 s) as (s1 & -> & Hp1); [apply Hz6|done|].
    by exists s1, (<[p := b]> mem), p.
  - right. destruct (send_enum_sends t s) as (s1 & -> & Hp1). by exists s1, mem, 0.
Qed.

(** ** Receiving *)

Lemma recv_first_reads {A} `{Enum A} s b more q t :
  parts s = (b, more) :: q -> 0 < Z.of_nat (length b) < 2147483648 -> member_enum b 0 = Ok t ->
  exists s', recv_first (A := A) s = Ok (Z.of_nat (length b), b, t, s') /\ parts s' = q.
Proof.
  intros Hp Hb Ht. unfold recv_first. destruct (RecvMsg_receives s false b more q Hp) as (s' & -> & Hq); [lia|].
  cbn [mbind res_bind default from_option id]. unfold CHECK. rewrite (proj2 (Z.ltb_lt _ _)) by lia. cbn [mbind res_bind].
  rewrite Ht. by exists s'.
Qed.

Lemma recv_second_reads s b more q :
  parts s = (b, more) :: q -> Z.of_nat (length b) < 2147483648 -> exists s', recv_second s = Ok (b, s') /\ parts s' = q.
Proof.
  intros Hp Hb. unfold recv_second. destruct (RecvMsg_receives s false b more q Hp Hb) as (s' & -> & Hq). by exists s'.
Qed.

Lemma take_buffer_takes mem p b : mem !! p = Some b -> take_buffer p mem = Ok (b, delete p mem).
Proof. unfold take_buffer. by intros ->. Qed.

(** The members of the structs at their offsets. *)
Lemma second_word {A} `{Enum A} (t : A) z b : is_i32 z -> member_i32 (enum_bytes t ++ i32_bytes z ++ b) 4 = Ok z.
Proof. apply member_i32_here. by rewrite length_enum_bytes. Qed.
Lemma second_word_last {A} `{Enum A} (t : A) z : is_i32 z -> member_i32 (enum_bytes t ++ i32_bytes z) 4 = Ok z.
Proof. intros Hz. rewrite <- (app_nil_r (i32_bytes z)). by apply second_word. Qed.
Lemma at_eight {A} `{Enum A} (t : A) x z b :
  is_i64 z -> member_i64 (enum_bytes t ++ i32_bytes x ++ i64_bytes z ++ b) 8 = Ok z.
Proof. rewrite app_assoc. apply member_i64_here. unfold enum_bytes. len_lia. Qed.
Lemma at_eight_last {A} `{Enum A} (t : A) x z : is_i64 z -> member_i64 (enum_bytes t ++ i32_bytes x ++ i64_bytes z) 8 = Ok z.
Proof. intros Hz. rewrite <- (app_nil_r (i64_bytes z)). by apply at_eight. Qed.
Lemma at_sixteen {A} `{Enum A} {B} `{Enum B} (t : A) x z (u : B) b :
  Z.of_nat (length (enumerators (A := B))) < 2147483648 ->
  member_enum (enum_bytes t ++ i32_bytes x ++ i64_bytes z ++ enum_bytes u ++ b) 16 = Ok (Some u).
Proof. rewrite !app_assoc, <- (app_assoc _ (enum_bytes u)). apply member_enum_here. unfold enum_bytes. len_lia. Qed.
Lemma bare_type {A} `{Enum A} (t : A) :
  Z.of_nat (length (enumerators (A := A))) < 2147483648 -> member_enum (enum_bytes t) 0 = Ok (Some t).
Proof. rewrite <- (app_nil_r (enum_bytes t)). by apply member_enum_first. Qed.

Lemma recv_update_reads m p q s mem :
  fits Update m -> is_i64 p -> parts s = parts_of Update m p ++ q ->
  (forall b, buffer_of Update m = Some b -> mem !! p = Some b) ->
  exists s', recv_update s mem = Ok (m, s', if buffer_of Update m is Some _ then delete p mem else mem) /\ parts s' = q.
Proof.
  destruct object_sizes as (_ & _ & _ & _ & _ & _ & Hz7 & Hz8).
  intros Hf Hp Hq Hb. unfold recv_update, recv_log, recv_buffer. destruct m as [m delta|t b|t]; cbn [fits parts_of buffer_of app] in *.
  - destruct (recv_first_reads (A := PropagatorMsgType) s _ _ _ (Some EPUpdateLog) Hq) as (s1 & -> & Hq1);
      [by rewrite Hz8|by apply member_enum_first|]. cbn [mbind res_bind]. rewrite Hz8, Z.eqb_refl. cbn [CHECK mbind res_bind].
    destruct m as [tid key []], Hf as (Ht & Hk & Hd). cbn [pul_table_id pul_key] in *. unfold object_bytes, members, PUpdateLogMsg_Struct.
    rewrite second_word, at_eight by done. cbn [mbind res_bind pul_update_type]. rewrite at_sixteen by done. cbn [mbind res_bind].
    rewrite bool_decide_eq_true_2 by done. cbn [CHECK mbind res_bind].
    destruct (recv_second_reads s1 _ _ _ Hq1 Hd) as (s2 & -> & Hq2). by exists s2.
  - destruct (recv_first_reads (A := PropagatorMsgType) s _ _ _ (Some EPUpdateBuffer) Hq) as (s1 & -> & Hq1);
      [by rewrite Hz7|by apply member_enum_first|]. cbn [mbind res_bind]. unfold object_bytes, members, PUpdateBufferMsg_Struct.
    cbn [pub_table_id pub_ptr]. rewrite second_word, at_eight_last by done. cbn [mbind res_bind].
    rewrite (take_buffer_takes mem p b (Hb b eq_refl)). by exists s1.
  - destruct (recv_first_reads (A := PropagatorMsgType) s _ _ _ (Some t) Hq) as (s1 & -> & Hq1);
      [by rewrite length_enum_bytes|by apply bare_type|]. cbn [mbind res_bind]. exists s1. split; [|done].
    destruct Hf as [Hf1 Hf2]. by destruct t.
Qed.

Lemma recv_internal_reads m p q s mem :
  fits Internal m -> is_i64 p -> parts s = parts_of Internal m p ++ q ->
  (forall b, buffer_of Internal m = Some b -> mem !! p = Some b) ->
  exists s', recv_internal s mem = Ok (m, s', if buffer_of Internal m is Some _ then delete p mem else mem) /\ parts s' = q.
Proof.
  destruct object_sizes as (_ & _ & _ & _ & _ & Hz6 & _).
  intros Hf Hp Hq Hb. unfold recv_internal. destruct m as [t b|t]; cbn [fits parts_of buffer_of app] in *.
  - destruct (recv_first_reads (A := ReceiverMsgType) s _ _ _ (Some EMyUpdates) Hq) as (s1 & -> & Hq1);
      [by rewrite Hz6|by apply member_enum_first|]. cbn [mbind res_bind]. rewrite Hz6, Z.eqb_refl. cbn [CHECK mbind res_bind].
    unfold object_bytes, members, MyUpdatesMsg_Struct. cbn [mu_table_id mu_ptr]. rewrite second_word, at_eight_last by done. cbn [mbind res_bind].
    rewrite (take_buffer_takes mem p b (Hb b eq_refl)). by exists s1.
  - destruct (recv_first_reads (A := ReceiverMsgType) s _ _ _ (Some t) Hq) as (s1 & -> & Hq1);
      [by rewrite length_enum_bytes|by apply bare_type|]. cbn [mbind res_bind]. exists s1. split; [|done]. by destruct t.
Qed.

Lemma recv_net_reads m q s :
  fits Net m -> parts s = net_parts m ++ q -> exists s', recv_net s = Ok (m, s') /\ parts s' = q.
Proof.
  destruct object_sizes as (_ & _ & Hz3 & Hz4 & _). intros Hf Hq. unfold recv_net, recv_block.
  destruct m as [| |t block|node|t]; cbn [fits net_parts app] in *; try done.
  - destruct (RecvMsg_receives s false _ _ _ Hq) as (s1 & -> & Hq1); [by rewrite Hz3|]. cbn [mbind res_bind].
    unfold object_bytes, members, EPRUpdateBufferMsg_Struct. rewrite member_enum_first by done. cbn [mbind res_bind epub_table_id].
    destruct Hf as [Ht Hb]. rewrite second_word_last by done. cbn [mbind res_bind].
    destruct (recv_second_reads s1 _ _ _ Hq1 Hb) as (s2 & -> & Hq2). by exists s2.
  - destruct (RecvMsg_receives s false _ _ _ Hq) as (s1 & -> & Hq1); [by rewrite Hz4|]. cbn [mbind res_bind].
    unfold object_bytes, members, PRTerminateAckMsg_Struct. rewrite member_enum_first by done. cbn [mbind res_bind prta_node_id].
    rewrite second_word_last by done. by exists s1.
  - destruct (RecvMsg_receives s false _ _ _ Hq) as (s1 & -> & Hq1); [by rewrite length_enum_bytes|]. cbn [mbind res_bind].
    rewrite bare_type by done. cbn [mbind res_bind]. exists s1. by destruct Hf as [->|[->| ->]].
Qed.

Lemma recv_sub_reads m q s :
  parts s = [(i32_bytes 1, true); (enum_bytes m, false)] ++ q -> exists s', recv_sub s = Ok (m, s') /\ parts s' = q.
Proof.
  intros Hq. unfold recv_sub. destruct (RecvMsg_cid_receives s false 1 (enum_bytes m) false q Hq) as (s' & -> & Hp);
    [done|by rewrite length_enum_bytes|]. cbn [mbind res_bind default from_option id]. rewrite length_enum_bytes. cbn [CHECK mbind res_bind].
  rewrite bare_type by done. by exists s'.
Qed.

Lemma recv_trigger_reads m q s : parts s = (enum_bytes m, false) :: q -> exists s', recv_trigger s = Ok (m, s') /\ parts s' = q.
Proof.
  intros Hq. unfold recv_trigger. destruct (recv_first_reads s _ _ _ (Some m) Hq) as (s1 & -> & Hq1);
    [by rewrite length_enum_bytes|by apply bare_type|]. by exists s1.
Qed.

Lemma recv_command_reads m q s :
  is_i32 (tc_nanosec m) -> parts s = (object_bytes ETimerCmd m, false) :: q -> exists s', recv_command s = Ok (m, s') /\ parts s' = q.
Proof.
  destruct object_sizes as (_ & _ & _ & _ & Hz5 & _). intros Hf Hq. unfold recv_command.
  destruct (RecvMsg_receives s false _ _ _ Hq) as (s1 & -> & Hq1); [by rewrite Hz5|]. cbn [mbind res_bind default from_option id].
  rewrite Hz5, Z.eqb_refl. cbn [CHECK mbind res_bind]. destruct m as [ns]. unfold object_bytes, members, TimerCmdMsg_Struct. cbn [tc_nanosec] in *.
  rewrite second_word_last by done. by exists s1.
Qed.
End socket.

(** ** Sockets and queues *)

(** The messages under way with the addresses of their buffers. *)
Definition placed : Type := forall c, list (msg c * Z).
Definition set_placed (c : chan) (l : list (msg c * Z)) (q : placed) : placed :=
  fun c' => match decide (c = c') with left e => eq_rect c (fun c => list (msg c * Z)) l c' e | right _ => q c' end.
Definition held (c : chan) (l : list (msg c * Z)) : list (Z * UpdateBuffer) :=
  l ≫= fun x => match buffer_of c x.1 with Some b => [(x.2, b)] | None => [] end.
Definition all_held (q : placed) : list (Z * UpdateBuffer) := held Update (q Update) ++ held Internal (q Internal).

Lemma set_placed_eq c l q : set_placed c l q c = l.
Proof. unfold set_placed. destruct (decide (c = c)) as [e|]; [|done]. by rewrite (proof_irrel e eq_refl). Qed.
Lemma set_placed_ne c c' l q : c <> c' -> set_placed c l q c' = q c'.
Proof. intros Hc. unfold set_placed. by destruct (decide (c = c')). Qed.
Lemma set_queue_eq c l q : set_queue c l q c = l.
Proof. unfold set_queue. destruct (decide (c = c)) as [e|]; [|done]. by rewrite (proof_irrel e eq_refl). Qed.
Lemma set_queue_ne c c' l q : c <> c' -> set_queue c l q c' = q c'.
Proof. intros Hc. unfold set_queue. by destruct (decide (c = c')). Qed.

Lemma held_app c l1 l2 : held c (l1 ++ l2) = held c l1 ++ held c l2.
Proof. apply bind_app. Qed.
Lemma held_nothing c l : c <> Update -> c <> Internal -> held c l = [].
Proof. intros. induction l as [|x l IH]; [done|]. unfold held in *. rewrite bind_cons, IH. by destruct c. Qed.

(** Putting messages on a channel and taking them off change what is held in one place. *)
Lemma all_held_split c l1 l2 l2' q :
  q c = l1 ++ l2 ->
  exists a b, all_held q = a ++ held c l2 ++ b /\ all_held (set_placed c (l1 ++ l2') q) = a ++ held c l2' ++ b.
Proof.
  intros Hq. unfold all_held. destruct (decide (c = Update)) as [->|Hu].
  { rewrite set_placed_eq, set_placed_ne by done. rewrite Hq, !held_app, <- !app_assoc. by eexists _, _. }
  destruct (decide (c = Internal)) as [->|Hi].
  { rewrite set_placed_eq, set_placed_ne by done. rewrite Hq, !held_app.
    exists (held Update (q Update) ++ held Internal l1), []. by rewrite <- !app_assoc, !app_nil_r. }
  rewrite !set_placed_ne by done. rewrite !(held_nothing c) by done. exists (held Update (q Update) ++ held Internal (q Internal)), []. by rewrite !app_nil_r.
Qed.

Section carry.
Context {S : Type} `{PollSocket S} `{Addresses}.

Definition parts_on (c : chan) (l : list (msg c * Z)) : list (list byte * bool) := l ≫= fun x => parts_of c x.1 x.2.

Record carries_at (w : Wires S) (q : placed) : Prop := {
  ca_parts c : parts (sock w c) = parts_on c (q c);
  ca_fits c : Forall (fun x => fits c x.1 /\ is_i64 x.2) (q c);
  ca_held p b : (p, b) ∈ all_held q -> buffers w !! p = Some b;
  ca_apart : NoDup (all_held q).*1
}.

(** The parts on the sockets are those of the messages in the queues. *)
Definition carries (w : Wires S) (q : queues) : Prop := exists l, carries_at w l /\ forall c, q c = (l c).*1.

Lemma carries_nothing w : (forall c, parts (sock w c) = []) -> carries w no_messages.
Proof.
  intros Hw. exists (fun _ => []). split; [|done]. split; [done|by constructor|..].
  - intros p b Hin. by apply not_elem_of_nil in Hin.
  - constructor.
Qed.

Definition wires_after (c : chan) (s : S) (mem : Memory) (w : Wires S) : Wires S := set_buffers mem (set_sock c s w).

Lemma sock_after c c' s mem w : sock (wires_after c s mem w) c' = if decide (c = c') then s else sock w c'.
Proof. done. Qed.

(** One more message. *)
Lemma carries_put w q c m p s mem :
  carries_at w q -> fits c m -> is_i64 p -> parts s = parts (sock w c) ++ parts_of c m p ->
  match buffer_of c m with Some b => buffers w !! p = None /\ mem = <[p := b]> (buffers w) | None => mem = buffers w end ->
  carries_at (wires_after c s mem w) (set_placed c (q c ++ [(m, p)]) q).
Proof.
  intros Hc Hf Hp Hs Hm. destruct (all_held_split c (q c) [] [(m, p)] q) as (a & b & Ha & Hb); [by rewrite app_nil_r|].
  simpl in Ha. assert (held c [(m, p)] = match buffer_of c m with Some b => [(p, b)] | None => [] end) as Hh
    by (unfold held; simpl; by rewrite app_nil_r).
  rewrite Hh in Hb. pose proof (ca_held _ _ Hc) as Hheld. pose proof (ca_apart _ _ Hc) as Hapart. rewrite Ha in Hheld, Hapart.
  split.
  - intros c'. rewrite sock_after. destruct (decide (c = c')) as [<-|Hne].
    + rewrite set_placed_eq, Hs, (ca_parts _ _ Hc). unfold parts_on. rewrite bind_app. simpl. by rewrite app_nil_r.
    + rewrite set_placed_ne by done. apply (ca_parts _ _ Hc).
  - intros c'. destruct (decide (c = c')) as [<-|Hne].
    + rewrite set_placed_eq. apply Forall_app. split; [apply (ca_fits _ _ Hc)|by constructor].
    + rewrite set_placed_ne by done. apply (ca_fits _ _ Hc).
  - rewrite Hb. change (buffers (wires_after c s mem w)) with mem. destruct (buffer_of c m) as [ub|]; [|by subst mem].
    destruct Hm as [Hfree ->]. intros p' b' [Hin|[[[= -> ->]|Hin]%elem_of_cons|Hin]%elem_of_app]%elem_of_app.
    + rewrite lookup_insert_ne; [apply Hheld, elem_of_app; by left|]. intros <-. rewrite (Hheld p b') in Hfree; [done|apply elem_of_app; by left].
    + by rewrite lookup_insert_eq.
    + by apply not_elem_of_nil in Hin.
    + rewrite lookup_insert_ne; [apply Hheld, elem_of_app; by right|]. intros <-. rewrite (Hheld p b') in Hfree; [done|apply elem_of_app; by right].
  - rewrite Hb. destruct (buffer_of c m) as [ub|]; [|done]. destruct Hm as [Hfree _].
    rewrite fmap_app in Hapart. rewrite !fmap_app. cbn [fmap list_fmap fst]. rewrite Permutation_app_comm. simpl.
    apply NoDup_cons. split; [|by rewrite Permutation_app_comm].
    intros [Hin|Hin]%elem_of_app; apply list_elem_of_fmap in Hin as ([p' b'] & -> & Hin); simpl in Hfree;
      rewrite (Hheld p' b') in Hfree; try done; apply elem_of_app; by (left + right).
Qed.

(** One less. *)
Lemma carries_take w q c m p l s mem :
  carries_at w q -> q c = (m, p) :: l -> parts s = parts_on c l ->
  mem = (if buffer_of c m is Some _ then delete p (buffers w) else buffers w) ->
  carries_at (wires_after c s mem w) (set_placed c l q).
Proof.
  intros Hc Hq Hs Hm. destruct (all_held_split c [] ((m, p) :: l) l q Hq) as (a & b & Ha & Hb). simpl in Hb.
  assert (held c ((m, p) :: l) = (match buffer_of c m with Some b => [(p, b)] | None => [] end) ++ held c l) as Hh by done.
  rewrite Hh in Ha. pose proof (ca_held _ _ Hc) as Hheld. pose proof (ca_apart _ _ Hc) as Hapart. rewrite Ha in Hheld, Hapart.
  split.
  - intros c'. rewrite sock_after. destruct (decide (c = c')) as [<-|Hne]; [by rewrite set_placed_eq|].
    rewrite set_placed_ne by done. apply (ca_parts _ _ Hc).
  - intros c'. destruct (decide (c = c')) as [<-|Hne].
    + rewrite set_placed_eq. pose proof (ca_fits _ _ Hc c) as Hf. rewrite Hq in Hf. by apply Forall_cons in Hf as [_ Hf].
    + rewrite set_placed_ne by done. apply (ca_fits _ _ Hc).
  - rewrite Hb. change (buffers (wires_after c s mem w)) with mem. intros p' b' Hin. subst mem. destruct (buffer_of c m) as [ub|]; [|by apply Hheld].
    rewrite lookup_delete_ne; [apply Hheld; set_solver|]. intros <-. rewrite !fmap_app, Permutation_app_comm in Hapart. simpl in Hapart.
    apply NoDup_cons in Hapart as [Hout _]. apply Hout. rewrite <- !fmap_app. apply list_elem_of_fmap. exists (p, b'). split; [done|]. set_solver.
  - rewrite Hb. destruct (buffer_of c m) as [ub|]; [|done]. rewrite !fmap_app, Permutation_app_comm in Hapart. simpl in Hapart.
    apply NoDup_cons in Hapart as [_ Hapart]. rewrite !fmap_app. by rewrite Permutation_app_comm.
Qed.

Lemma carries_intro w q (l : placed) c (l' : list (msg c * Z)) k :
  carries_at w (set_placed c l' l) -> (forall c', q c' = (l c').*1) -> k = l'.*1 -> carries w (set_queue c k q).
Proof.
  intros Hc Hq ->. exists (set_placed c l' l). split; [done|]. intros c'. destruct (decide (c = c')) as [<-|Hne].
  - by rewrite set_placed_eq, set_queue_eq.
  - by rewrite set_placed_ne, set_queue_ne.
Qed.

(** What a send does. *)
Lemma put_carries w q c m :
  carries w q -> fits c m ->
  put c m w = Fault BadAlloc \/ exists w', put c m w = Ok w' /\ carries w' (set_queue c (q c ++ [m]) q).
Proof.
  intros (l & Hc & Hq) Hf.
  assert (Hput : forall s mem p, is_i64 p -> parts s = parts (sock w c) ++ parts_of c m p ->
    match buffer_of c m with Some b => buffers w !! p = None /\ mem = <[p := b]> (buffers w) | None => mem = buffers w end ->
    carries (wires_after c s mem w) (set_queue c (q c ++ [m]) q)).
  { intros s mem p Hp Hs Hm. eapply carries_intro; [by apply (carries_put w l c m p)|done|]. rewrite Hq, fmap_app. done. }
  destruct object_sizes as (_ & _ & _ & _ & Hz5 & _). destruct c; cbn [put byte_transport put_bytes].
  - right. destruct (send_enum_sends m (sock w Trigger)) as (s & -> & Hs). eexists. split; [done|]. by apply (Hput s _ 0).
  - right. unfold send_command.
    destruct (send_struct_sends (A := TimerCmdMsg) ETimerCmd m 0 (sock w Command)) as (s & -> & Hs); [apply Hz5|done|].
    eexists. split; [done|]. by apply (Hput s _ 0).
  - destruct (send_update_sends m (sock w Update) (buffers w) Hf) as [->|(s & mem & p & -> & Hs & Hp & Hm)]; [by left|right].
    eexists. split; [done|]. by apply (Hput s mem p).
  - right. destruct (send_pub_sends m (sock w Sub)) as (s & -> & Hs). eexists. split; [done|]. by apply (Hput s _ 0).
  - destruct (send_internal_sends m (sock w Internal) (buffers w) Hf) as [->|(s & mem & p & -> & Hs & Hp & Hm)]; [by left|right].
    eexists. split; [done|]. by apply (Hput s mem p).
  - right. destruct (send_net_sends m (sock w Net) Hf) as (s & -> & Hs). eexists. split; [done|]. by apply (Hput s _ 0).
  - right. destruct (send_net_sends m (sock w Push) Hf) as (s & -> & Hs). eexists. split; [done|]. by apply (Hput s _ 0).
  - right. destruct (send_pub_sends m (sock w Pub)) as (s & -> & Hs). eexists. split; [done|]. by apply (Hput s _ 0).
Qed.

Lemma parts_of_some c m p : fits c m -> parts_of c m p <> [].
Proof. destruct c; try done; by destruct m. Qed.

(** What a read does. *)
Lemma get_carries w q c :
  carries w q ->
  match q c with
  | [] => get c w = None
  | m :: k => exists w', get c w = Some (Ok (m, w')) /\ carries w' (set_queue c k q)
  end.
Proof.
  intros (l & Hc & Hq). rewrite Hq. pose proof (ca_parts _ _ Hc c) as Hs. pose proof (ca_fits _ _ Hc c) as Hfs.
  assert (get c w = if bool_decide (parts (sock w c) <> []) then Some (get_bytes c w) else None) as ->
    by (cbn [get byte_transport]; by rewrite pollin_parts).
  destruct (l c) as [|[m p] k] eqn:Hl.
  { simpl. rewrite Hs. by rewrite bool_decide_eq_false_2 by (by intros []). }
  cbn [fmap list_fmap fst]. apply Forall_cons in Hfs as [[Hf Hp] _]. cbn [fst snd] in Hf, Hp.
  unfold parts_on in Hs. rewrite bind_cons in Hs. cbn [fst snd] in Hs. fold (parts_on c k) in Hs.
  rewrite bool_decide_eq_true_2.
  2:{ rewrite Hs. intros [Hn _]%app_nil. by apply (parts_of_some c m p Hf). }
  assert (Hget : forall s mem, parts s = parts_on c k -> mem = (if buffer_of c m is Some _ then delete p (buffers w) else buffers w) ->
    carries (wires_after c s mem w) (set_queue c k.*1 q)).
  { intros s mem Hs1 Hm. eapply carries_intro; [by eapply (carries_take w l c m p)|done|done]. }
  assert (forall b, buffer_of c m = Some b -> buffers w !! p = Some b) as Hb.
  { intros b Hb. apply (ca_held _ _ Hc). destruct (all_held_split c [] ((m, p) :: k) k l Hl) as (a & z & -> & _).
    unfold held. rewrite bind_cons. cbn [fst snd]. rewrite Hb. set_solver. }
  destruct c; cbn [get_bytes].
  - destruct (recv_trigger_reads m _ _ Hs) as (s & -> & Hs1). eexists. split; [done|]. by apply (Hget s).
  - destruct (recv_command_reads m _ _ Hf Hs) as (s & -> & Hs1). eexists. split; [done|]. by apply (Hget s).
  - destruct (recv_update_reads m p _ _ (buffers w) Hf Hp Hs Hb) as (s & -> & Hs1). eexists. split; [done|]. by apply (Hget s).
  - destruct (recv_sub_reads m _ _ Hs) as (s & -> & Hs1). eexists. split; [done|]. by apply (Hget s).
  - destruct (recv_internal_reads m p _ _ (buffers w) Hf Hp Hs Hb) as (s & -> & Hs1). eexists. split; [done|]. by apply (Hget s).
  - destruct (recv_net_reads m _ _ Hf Hs) as (s & -> & Hs1). eexists. split; [done|]. by apply (Hget s).
  - destruct (recv_net_reads m _ _ Hf Hs) as (s & -> & Hs1). eexists. split; [done|]. by apply (Hget s).
  - destruct (recv_sub_reads m _ _ Hs) as (s & -> & Hs1). eexists. split; [done|]. by apply (Hget s).
Qed.
End carry.

(** ** The node *)

(** Two runs agree: they end in the same way, and in related results, unless the first
    runs out of memory. *)
Definition agree {A B} (R : A -> B -> Prop) (r1 : res A) (r2 : res B) : Prop :=
  r1 = Fault BadAlloc \/
  match r1, r2 with
  | Ok a, Ok b => R a b
  | Fault e1, Fault e2 => e1 = e2
  | Block, Block => True
  | _, _ => False
  end.

Lemma agree_bind {A B A' B'} (R : A -> B -> Prop) (Q : A' -> B' -> Prop) r1 r2 f g :
  agree R r1 r2 -> (forall a b, R a b -> agree Q (f a) (g b)) -> agree Q (r1 ≫= f) (r2 ≫= g).
Proof.
  intros [->|Hr] Hf; [by left|]. destruct r1, r2; try done; [by apply Hf|subst; by right|by right].
Qed.
Lemma agree_ok {A B} (R : A -> B -> Prop) a b : R a b -> agree R (Ok a) (Ok b).
Proof. by right. Qed.
Lemma agree_fault {A B} (R : A -> B -> Prop) e : agree R (Fault e) (Fault e).
Proof. by right. Qed.
Lemma agree_same {A} (r : res A) : agree (fun a b => a = b /\ r = Ok a) r r.
Proof. right. by destruct r. Qed.

Section node.
Context {S : Type} `{PollSocket S} `{Addresses} `{Allocator} `{UnorderedIter}.
Context (pcfg : PropagatorThrInfo) (rcfg : ReceiverThrInfo).
Hypothesis id_ok : is_i32 (Propagator.my_id_ pcfg).
Hypothesis time_ok : is_i32 (nanosec_ pcfg).
Implicit Types w : Wires S.

Lemma post_agree c m w q : carries w q -> fits c m -> agree carries (put c m w) (put c m q).
Proof. intros Hc Hf. destruct (put_carries w q c m Hc Hf) as [->|(w' & -> & Hw)]; [by left|]. by apply agree_ok. Qed.

Lemma post_all_agree {M} (route : M -> option { c : chan & msg c }) o : forall w q,
  carries w q -> Forall (route_fits route) o -> agree carries (post_all route o w) (post_all route o q).
Proof.
  unfold post_all. induction o as [|m o IH]; intros w q Hc Ho; cbn [foldM]; [by apply agree_ok|].
  apply Forall_cons in Ho as [Hm Ho]. apply (agree_bind carries); [|intros w' q' Hc'; by apply IH].
  unfold route_fits in Hm. unfold post. destruct (route m) as [[c x]|]; [by apply post_agree|by apply agree_ok].
Qed.

Definition same_message {c : chan} (a : msg c * Wires S) (b : msg c * queues) : Prop :=
  a.1 = b.1 /\ fits c b.1 /\ carries a.2 b.2.

Lemma get_agree c w q :
  carries w q ->
  (get c w = None /\ get c q = None) \/
  exists r1 r2, get c w = Some r1 /\ get c q = Some r2 /\ agree same_message r1 r2.
Proof.
  intros Hc. pose proof (get_carries w q c Hc) as Hg. cbn [get queue_transport].
  assert (Forall (fits c) (q c)) as Hf.
  { destruct Hc as (l & Hc & Hq). rewrite Hq. apply Forall_fmap. eapply List.Forall_impl; [|apply (ca_fits _ _ Hc)]. by intros x [Hx _]. }
  destruct (q c) as [|m k] eqn:E; [by left|right]. destruct Hg as (w' & Hg & Hc'). eexists _, _. split; [exact Hg|]. split; [done|].
  apply agree_ok. apply Forall_cons in Hf as [Hm _]. split; [done|]. split; [done|]. exact Hc'.
Qed.

(** The same threads, and sockets that carry what the queues hold. *)
Record node_rel (n : Node (Wires S)) (k : Node queues) : Prop := {
  nr_prop : n_prop n = n_prop k;
  nr_prop_done : n_prop_done n = n_prop_done k;
  nr_recv : n_recv n = n_recv k;
  nr_recv_done : n_recv_done n = n_recv_done k;
  nr_intervals : n_intervals n = n_intervals k;
  nr_net : carries (n_net n) (n_net k);
  nr_ids : ids_ok (n_prop k)
}.

Ltac get_cases c :=
  match goal with Hc : carries ?w ?q |- _ => destruct (get_agree c w q Hc) as [[-> ->]|(r1 & r2 & -> & -> & Hr)] end.

Lemma prop_poll_agree w q :
  carries w q ->
  agree (fun a b => a.1 = b.1 /\ (forall x, b.1.1.2 = Some x -> fits Update x) /\ carries a.2 b.2)
    (prop_poll pcfg w) (prop_poll pcfg q).
Proof.
  intros Hc. unfold prop_poll. destruct (0 <? nanosec_ pcfg); [get_cases Trigger|]; try get_cases Update;
    try (destruct (has_downstream pcfg); [get_cases Sub|]); try (by apply agree_ok);
    (apply (agree_bind _ _ _ _ _ _ Hr); intros [m1 w1] [m2 q2] (Hm & Hf & Hc'); simpl in Hm, Hf, Hc'; subst m2; apply agree_ok;
      split; [done|]; split; [|done]; simpl; intros x [= <-]; exact Hf).
Qed.

Lemma prop_turn_agree n k : node_rel n k -> agree node_rel (prop_turn pcfg n) (prop_turn pcfg k).
Proof.
  intros Hn. pose proof Hn as [Hp Hpd Hrv Hrd Hi Hc Hids]. unfold prop_turn. rewrite Hp, Hpd. destruct (n_prop_done k); [by apply agree_ok|].
  apply (agree_bind _ _ _ _ _ _ (prop_poll_agree _ _ Hc)).
  intros [[[t u] m] w] [[[t' u'] m'] q] (Heq & Hf & Hc'). simpl in Heq, Hf, Hc'. injection Heq as <- <- <-.
  apply (agree_bind _ _ _ _ _ _ (agree_same _)). intros [[pl fl] s] b [<- Hl].
  destruct (prop_turn_sent pcfg t u m (n_prop k) pl fl s time_ok id_ok Hids Hf Hl) as [(l & Ho & Hfl) Hk].
  rewrite Ho, since_app. apply (agree_bind carries); [by apply post_all_agree|]. intros w' q' Hc2. apply agree_ok.
  split; try done. by apply Hk.
Qed.

Lemma recv_poll_agree w q :
  carries w q ->
  agree (fun a b => a.1 = b.1 /\ (forall x, b.1.2 = Some x -> fits Net x) /\ carries a.2 b.2) (recv_poll rcfg w) (recv_poll rcfg q).
Proof.
  intros Hc. unfold recv_poll. get_cases Internal; try (destruct (0 <? num_expected_propagators_ rcfg); [get_cases Net|]);
    try (by apply agree_ok);
    (apply (agree_bind _ _ _ _ _ _ Hr); intros [m1 w1] [m2 q2] (Hm & Hf & Hc'); simpl in Hm, Hf, Hc'; subst m2; apply agree_ok;
      split; [done|]; split; [|done]; simpl; intros x [= <-]; exact Hf).
Qed.

Lemma recv_turn_agree n k : node_rel n k -> agree node_rel (recv_turn rcfg n) (recv_turn rcfg k).
Proof.
  intros Hn. pose proof Hn as [Hp Hpd Hrv Hrd Hi Hc Hids]. unfold recv_turn. rewrite Hrv, Hrd, Hp. destruct (n_recv_done k); [by apply agree_ok|].
  apply (agree_bind _ _ _ _ _ _ (recv_poll_agree _ _ Hc)).
  intros [[i m] w] [[i' m'] q] (Heq & Hf & Hc'). simpl in Heq, Hf, Hc'. injection Heq as <- <-.
  apply (agree_bind _ _ _ _ _ _ (agree_same _)). intros [[pl fl] s] b [<- Hl].
  destruct (recv_turn_sent rcfg i m (n_recv k) pl fl s Hf Hl) as (l & Ho & Hfl).
  rewrite Ho, since_app. apply (agree_bind carries); [by apply post_all_agree|]. intros w' q' Hc2. apply agree_ok.
  by split.
Qed.

Lemma timer_read_agree n k : node_rel n k -> agree node_rel (timer_read n) (timer_read k).
Proof.
  intros Hn. pose proof Hn as [Hp Hpd Hrv Hrd Hi Hc Hids]. unfold timer_read. get_cases Command; [by apply agree_ok|].
  apply (agree_bind _ _ _ _ _ _ Hr). intros [m1 w1] [m2 q2] (Hm & Hf & Hc'). simpl in Hm, Hf, Hc'. subst m2. apply agree_ok.
  split; try done. simpl. by rewrite Hi.
Qed.

Definition act_fits (a : node_act) : Prop := match a with Arrive c m => fits c m | _ => True end.

Lemma node_run_agree acts : forall n k,
  Forall act_fits acts -> node_rel n k -> agree node_rel (node_run pcfg rcfg acts n) (node_run pcfg rcfg acts k).
Proof.
  unfold node_run. induction acts as [|a acts IH]; intros n k Ha Hn; cbn [foldM]; [by apply agree_ok|].
  apply Forall_cons in Ha as [Ha Has]. apply (agree_bind node_rel); [|intros n' k' Hn'; by apply IH].
  destruct a as [| | |c m]; cbn [node_step]; [by apply prop_turn_agree|by apply recv_turn_agree|by apply timer_read_agree|].
  apply (agree_bind carries); [by apply post_agree; [apply nr_net|]|]. intros w q Hc. apply agree_ok. by destruct Hn.
Qed.

(** ** What the receiving switches refuse *)

Lemma recv_first_type {A} `{Enum A} (s : S) b more q t :
  parts s = (b, more) :: q -> Z.of_nat (length b) < 2147483648 -> member_enum b 0 = Ok (Some t) ->
  exists s', recv_first (A := A) s = Ok (Z.of_nat (length b), b, Some t, s').
Proof.
  intros Hp Hb Ht. destruct (recv_first_reads s b more q (Some t) Hp) as (s' & Hr & _); [|done|by exists s'].
  split; [|done]. unfold member_enum, member_i32 in Ht. destruct (length b <? 0 + 4)%nat eqn:E; [done|]. apply Nat.ltb_ge in E. lia.
Qed.

(** A first part [b] of a socket. *)
Definition arrives (s : S) (b : list byte) : Prop :=
  exists more q, parts s = (b, more) :: q /\ Z.of_nat (length b) < 2147483648.

Lemma malformed_log s mem b :
  arrives s b -> member_enum b 0 = Ok (Some EPUpdateLog) -> Z.of_nat (length b) <> sizeof PUpdateLogMsg ->
  recv_update s mem = Fault CheckFailed.
Proof.
  intros (more & q & Hp & Hb) Ht Hn. unfold recv_update, recv_log, recv_buffer. destruct (recv_first_type s b more q _ Hp Hb Ht) as (s' & ->).
  cbn [mbind res_bind]. by rewrite (proj2 (Z.eqb_neq _ _) Hn).
Qed.
Lemma malformed_batch s mem b :
  arrives s b -> member_enum b 0 = Ok (Some EMyUpdates) -> Z.of_nat (length b) <> sizeof MyUpdatesMsg ->
  recv_internal s mem = Fault CheckFailed.
Proof.
  intros (more & q & Hp & Hb) Ht Hn. unfold recv_internal. destruct (recv_first_type s b more q _ Hp Hb Ht) as (s' & ->).
  cbn [mbind res_bind]. by rewrite (proj2 (Z.eqb_neq _ _) Hn).
Qed.
Lemma malformed_command s b :
  arrives s b -> Z.of_nat (length b) <> sizeof TimerCmdMsg -> recv_command s = Fault CheckFailed.
Proof.
  intros (more & q & Hp & Hb) Hn. unfold recv_command. destruct (RecvMsg_receives s false b more q Hp Hb) as (s' & -> & _).
  cbn [mbind res_bind]. by rewrite (proj2 (Z.eqb_neq _ _) Hn).
Qed.
(** The sizes of forwarded buffers and of what comes over the network are not checked:
    the members are read past the end of a block that is too short. *)
Lemma unchecked_buffer s mem b :
  arrives s b -> member_enum b 0 = Ok (Some EPUpdateBuffer) -> Z.of_nat (length b) < sizeof PUpdateBufferMsg ->
  recv_update s mem = Fault OutOfBounds.
Proof.
  intros (more & q & Hp & Hb) Ht Hn. unfold recv_update, recv_log, recv_buffer. destruct (recv_first_type s b more q _ Hp Hb Ht) as (s' & ->).
  cbn [mbind res_bind]. unfold member_i64. rewrite (proj2 (Nat.ltb_lt _ _)); [done|]. simpl in Hn. lia.
Qed.
Lemma unchecked_net s b :
  arrives s b -> member_enum b 0 = Ok (Some EPRUpdateBuffer) \/ member_enum b 0 = Ok (Some EPRTerminateACK) ->
  Z.of_nat (length b) < sizeof EPRUpdateBufferMsg -> recv_net s = Fault OutOfBounds.
Proof.
  intros (more & q & Hp & Hb) Ht Hn. unfold recv_net, recv_block. destruct (RecvMsg_receives s false b more q Hp Hb) as (s' & -> & _).
  cbn [mbind res_bind]. assert (member_i32 b 4 = Fault OutOfBounds) as Hm
    by (unfold member_i32; rewrite (proj2 (Nat.ltb_lt _ _)); [done|simpl in Hn; lia]).
  destruct Ht as [-> | ->]; cbn [mbind res_bind]; by rewrite Hm.
Qed.

(** C32. The wire. A node whose threads exchange messages with each other and with the
    world as bytes on sockets - every send and receiving switch of the code, buffers
    handed over by address - does exactly what the same node does over queues of typed
    messages, which is the model of the threads everywhere else: for any threads, any
    turns and any arriving messages in any order, both runs return the same states, or
    fail with the same fault, or block, unless memory runs out; and the sockets then
    carry the parts of the messages the queues hold. Messages of the types whose size
    the switches check abort the node when their size is wrong; of the others, a part
    too short is read past its end. *)
Theorem bytes_carry_messages acts w p r :
  (forall c, parts (sock w c) = []) -> ids_ok p -> Forall act_fits acts ->
  agree node_rel (node_run pcfg rcfg acts (mkNode p false r false [] w)) (node_run pcfg rcfg acts (mkNode p false r false [] no_messages)) /\
  forall (s : S) mem b, arrives s b ->
    (member_enum b 0 = Ok (Some EPUpdateLog) -> Z.of_nat (length b) <> sizeof PUpdateLogMsg -> recv_update s mem = Fault CheckFailed) /\
    (member_enum b 0 = Ok (Some EMyUpdates) -> Z.of_nat (length b) <> sizeof MyUpdatesMsg -> recv_internal s mem = Fault CheckFailed) /\
    (Z.of_nat (length b) <> sizeof TimerCmdMsg -> recv_command s = Fault CheckFailed) /\
    (member_enum b 0 = Ok (Some EPUpdateBuffer) -> Z.of_nat (length b) < sizeof PUpdateBufferMsg -> recv_update s mem = Fault OutOfBounds) /\
    (member_enum b 0 = Ok (Some EPRUpdateBuffer) \/ member_enum b 0 = Ok (Some EPRTerminateACK) ->
      Z.of_nat (length b) < sizeof EPRUpdateBufferMsg -> recv_net s = Fault OutOfBounds).
Proof.
  intros Hw Hp Ha. split.
  - apply node_run_agree; [done|]. split; try done. by apply carries_nothing.
  - intros s mem b Hb. split_and!; intros.
    + by apply (malformed_log s mem b).
    + by apply (malformed_batch s mem b).
    + by apply (malformed_command s b).
    + by apply (unchecked_buffer s mem b).
    + by apply (unchecked_net s b).
Qed.
End node.

(** ** A concrete node *)

#[local] Existing Instance gmap_order.

(** Node 2 with one table that is no loop; node 5 is upstream. *)
Definition wire_prop : PropThr :=
  let p := Propagator.RegisterTable Propagator_ctor 0 (Some IntAdd) 4 false true in
  match Propagator.thread_handshake demo_cfg [PropInitACK; PropStart] (Propagator.thread_init demo_cfg p [EPRInit]) with
  | Ok (s, _) => s
  | _ => Propagator.thread_init demo_cfg p []
  end.
Definition wire_recv : RecvThr := demo_recv_state demo_table [].
Definition wire_block : list byte :=
  match (b ← CreateUpdateBuffer 4 1 1; '(_, b) ← AppendUpdate b 7 (demo_bytes 1); '(_, b) ← UpdateNodeRange b 5 0 0; Ok b) with
  | Ok b => to_bytes b
  | _ => []
  end.

(** A block arrives from node 5 and is forwarded, an update is logged, the timer fires,
    and the node is shut down. *)
Definition wire_acts : list node_act :=
  [Arrive Net (NetBuffer 0 wire_block); RecvTurn; Arrive Update (InUpdateLog (mkPUpdateLogMsg 0 7 EInc) (demo_bytes 2));
   PropTurn; PropTurn; Arrive Trigger ETimerTrigger; PropTurn; TimerRead;
   Arrive Internal (InRecv ERInternalTerminate); Arrive Update (InOther EPInternalTerminate); RecvTurn; PropTurn; RecvTurn; PropTurn;
   Arrive Sub EPRTerminate; PropTurn; Arrive Trigger ETimerTrigger; PropTurn; TimerRead; Arrive Net (NetTermAck 5); RecvTurn].

Definition no_parts : Wires queue_socket := mkWires (fun _ => ([], false)) ∅.
Definition wire_node {W} (net : W) : Node W := mkNode wire_prop false wire_recv false [] net.
Definition node_of {W} (r : res (Node W)) (d : Node W) : Node W := match r with Ok n => n | _ => d end.
Definition byte_run : res (Node (Wires queue_socket)) := node_run demo_cfg (demo_recv_cfg 2) wire_acts (wire_node no_parts).
Definition message_run : res (Node queues) := node_run demo_cfg (demo_recv_cfg 2) wire_acts (wire_node no_messages).

Lemma wire_acts_fit : Forall act_fits wire_acts.
Proof. repeat constructor; unfold is_i32, is_i64; simpl; auto; try lia; try done. Qed.

Lemma wire_ids : ids_ok wire_prop.
Proof. intros t [x Hx]. vm_compute in Hx. discriminate Hx. Qed.

(** Everything was read, both threads returned, and two messages went downstream: a block
    and the acknowledgement. *)
Lemma bytes_carry_messages_witness :
  exists nb nm, byte_run = Ok nb /\ message_run = Ok nm /\ node_rel nb nm /\
    n_prop_done nb = true /\ n_recv_done nb = true /\ n_intervals nb = [1000; 0] /\
    length (parts (sock (n_net nb) Push)) = 3%nat.
Proof.
  destruct (bytes_carry_messages (S := queue_socket) demo_cfg (demo_recv_cfg 2) ltac:(by vm_compute) ltac:(by vm_compute)
    wire_acts no_parts wire_prop wire_recv) as [Hrun _]; [done|exact wire_ids|exact wire_acts_fit|].
  assert (match byte_run with Ok _ => true | _ => false end = true) as Hb by (by vm_compute).
  assert (match message_run with Ok n => (n_prop_done n, n_recv_done n, n_intervals n) = (true, true, [1000; 0]) | _ => False end)
    as Hm by (by vm_compute).
  assert (match byte_run with Ok n => length (parts (sock (n_net n) Push)) | _ => 0%nat end = 3%nat) as Hp by (by vm_compute).
  change (agree node_rel byte_run message_run) in Hrun.
  destruct byte_run as [nb| |]; [|discriminate Hb..]. destruct message_run as [nm| |]; [|destruct Hm..].
  destruct Hrun as [Hrun|Hrun]; [discriminate Hrun|]. pose proof Hrun as [_ Hpd _ Hrd Hi _ _].
  injection Hm as Hm1 Hm2 Hm3. exists nb, nm. split_and!; (assumption || congruence).
Defined.
