(* ===== verification/CommUtil.v ===== *)
(** The socket set-up helpers of comm/comm_util.hpp and comm/comm_util.cpp, which the
    objects call before a send from a thread that may not have a socket yet. The
    smart pointer is an [option]; whether 0MQ creates and connects a socket is the
    environment's choice at every call. *)
From S2P Require Import Prelude.
From stdpp Require Import strings.
#[global] Open Scope Z_scope.

(** A socket: its type and the end point it is connected to. *)
Record Socket := mkSocket { sock_type : Z; connected_to : option string }.

(** What one attempt meets: whether [zmq::socket_t()] and [connect] succeed;
    otherwise they throw, and every exception is caught. *)
Record attempt := mkAttempt { creates : bool; connects : bool }.

(** [_sock->reset] comes between the two calls that may throw. *)
Definition InitThrSockIfHaveNot (_sock : option Socket) (_type : Z) (_connect_endp : string) (env : attempt)
    : Z * option Socket :=
  match _sock with
  | Some s => (0, Some s)
  | None =>
      if creates env then
        if connects env then (0, Some (mkSocket _type (Some _connect_endp)))
        else (-1, Some (mkSocket _type None))
      else (-1, None)
  end.

(** The same body for a [scoped_ptr]. *)
Definition InitScopedSockIfHaveNot (_sock : option Socket) (_type : Z) (_connect_endp : string) (env : attempt)
    : Z * option Socket :=
  match _sock with
  | Some s => (0, Some s)
  | None =>
      if creates env then
        if connects env then (0, Some (mkSocket _type (Some _connect_endp)))
        else (-1, Some (mkSocket _type None))
      else (-1, None)
  end.

(** The calls of one thread, in order: their return codes and the pointer. *)
Fixpoint calls_of (init : option Socket -> Z -> string -> attempt -> Z * option Socket)
    (sock : option Socket) (ty : Z) (endp : string) (envs : list attempt) : list Z * option Socket :=
  match envs with
  | [] => ([], sock)
  | env :: envs =>
      let '(ret, sock) := init sock ty endp env in
      let '(rets, sock) := calls_of init sock ty endp envs in
      (ret :: rets, sock)
  end.

(** Either helper. *)
Definition init_of (scoped : bool) : option Socket -> Z -> string -> attempt -> Z * option Socket :=
  if scoped then InitScopedSockIfHaveNot else InitThrSockIfHaveNot.

Lemma calls_once_set b s ty endp envs :
  calls_of (init_of b) (Some s) ty endp envs = (replicate (length envs) 0, Some s).
Proof. induction envs as [|e envs IH]; [done|]. cbn [calls_of].
  replace (init_of b (Some s) ty endp e) with (0, Some s) by (by destruct b). by rewrite IH. Qed.

Lemma calls_uncreated b ty endp fails envs :
  Forall (fun a => creates a = false) fails ->
  calls_of (init_of b) None ty endp (fails ++ envs) =
  let '(rets, sock) := calls_of (init_of b) None ty endp envs in (replicate (length fails) (-1) ++ rets, sock).
Proof.
  induction 1 as [|a fails Ha _ IH]; cbn [length replicate app calls_of]; [by destruct (calls_of _ _ _ _ _)|].
  replace (init_of b None ty endp a) with (-1, @None Socket) by (destruct b; cbn; by rewrite Ha).
  rewrite IH. by destruct (calls_of (init_of b) None ty endp envs).
Qed.

(** The first call that creates the socket decides. Whatever the calls of a
    thread meet, those before it report failure; if it also connects, it and
    all later calls report success and the socket is connected to the end point
    asked for; if it does not, it alone reports the failure: every later call
    returns 0 although the socket is connected to nothing, and no call ever
    connects it. *)
Theorem first_created_socket_decides b ty endp fails first envs :
  Forall (fun a => creates a = false) fails -> creates first = true ->
  calls_of (init_of b) None ty endp (fails ++ first :: envs) =
    (replicate (length fails) (-1) ++ (if connects first then 0 else -1) :: replicate (length envs) 0,
     Some (mkSocket ty (if connects first then Some endp else None))).
Proof.
  intros Hf Hc. rewrite calls_uncreated by done. cbn [calls_of].
  replace (init_of b None ty endp first) with
    ((if connects first then 0 else -1), Some (mkSocket ty (if connects first then Some endp else None)))
    by (destruct b; cbn; rewrite Hc; by destruct (connects first)).
  by rewrite calls_once_set.
Qed.

(** Creation fails once, then the connection; the third and fourth call report
    success on a socket without a peer. *)
Lemma first_created_socket_decides_witness :
  calls_of InitThrSockIfHaveNot None 8 "inproc://hinternal_recv_pull_endp"
    [mkAttempt false true; mkAttempt true false; mkAttempt true true; mkAttempt true true] =
  ([-1; -1; 0; 0], Some (mkSocket 8 None)).
Proof.
  apply (first_created_socket_decides false 8 "inproc://hinternal_recv_pull_endp"
    [mkAttempt false true] (mkAttempt true false) [mkAttempt true true; mkAttempt true true]);
    repeat constructor.
Defined.
