(* ===== verification/Stream.v ===== *)
(** Extraction of integers from the streams of the C++ standard library, as the
    configuration reader and the matrix loader use it, and its inverse on printed
    numbers. *)
From S2P Require Import Prelude Common.
From Stdlib Require Export Ascii.
From stdpp Require Export pretty.
#[global] Open Scope Z_scope.

(** ** [std::stringstream >> int32_t] *)

Definition is_space (c : Ascii.ascii) : bool :=
  bool_decide (c ∈ [" "; "009"; "010"; "011"; "012"; "013"]%char).

Fixpoint skip_space (s : string) : string :=
  match s with
  | String c s' => if is_space c then skip_space s' else s
  | EmptyString => EmptyString
  end.

Definition digit_value (c : Ascii.ascii) : option Z :=
  let z := Z.of_nat (Ascii.nat_of_ascii c) - 48 in
  if (0 <=? z) && (z <=? 9) then Some z else None.

(** The number the leading digits of [s] spell, after [acc]. *)
Fixpoint digits (acc : Z) (s : string) : Z :=
  match s with
  | String c s' => match digit_value c with Some d => digits (10 * acc + d) s' | None => acc end
  | EmptyString => acc
  end.

(** No digit: 0 is stored. Out of range: the nearest value. *)
Definition signed (negative : bool) (s : string) : Z :=
  match s with
  | String c _ =>
      match digit_value c with
      | Some _ => let z := digits 0 s in
                  Z.max (-2147483648) (Z.min 2147483647 (if negative then - z else z))
      | None => 0
      end
  | EmptyString => 0
  end.

(** [None]: the variable keeps the value it had, since nothing but white space was
    there to read. *)
Definition extract_int32 (s : string) : option Z :=
  match skip_space s with
  | EmptyString => None
  | String c s' as t =>
      if bool_decide (c = "-"%char) then Some (signed true s')
      else if bool_decide (c = "+"%char) then Some (signed false s')
      else Some (signed false t)
  end.

(** ** Integers that were printed *)

Lemma digit_value_char x : (x < 10)%N -> digit_value (pretty_N_char x) = Some (Z.of_N x).
Proof.
  intros Hx. assert (x ∈ [0; 1; 2; 3; 4; 5; 6; 7; 8; 9]%N) as Hin.
  { destruct x as [|p]; [set_solver|]. do 4 (destruct p as [p|p|]; try set_solver; try lia). }
  rewrite !elem_of_cons, elem_of_nil in Hin. naive_solver.
Qed.

Lemma digits_pretty x : forall s, digits 0 (pretty_N_go x s) = digits (Z.of_N x) s.
Proof.
  induction x as [x IH] using (well_founded_induction N.lt_wf_0); intros s.
  destruct (decide (x = 0)%N) as [->|Hx]; [by rewrite pretty_N_go_0|].
  rewrite pretty_N_go_step by lia. rewrite IH by (apply N.div_lt; lia). cbn [digits].
  rewrite digit_value_char by (apply N.mod_lt; lia). f_equal.
  rewrite N2Z.inj_div, N2Z.inj_mod by lia. pose proof (Z.div_mod (Z.of_N x) 10). lia.
Qed.

Lemma pretty_starts x : forall s, (0 < x)%N ->
  exists d s', pretty_N_go x s = String (pretty_N_char d) s' /\ (d < 10)%N.
Proof.
  induction x as [x IH] using (well_founded_induction N.lt_wf_0); intros s Hx.
  rewrite pretty_N_go_step by lia. destruct (decide (x / 10 = 0)%N) as [->|Hd].
  - rewrite pretty_N_go_0. exists (x mod 10)%N, s. split; [done|]. apply N.mod_lt. lia.
  - apply IH; [apply N.div_lt; lia|by apply N.neq_0_lt_0].
Qed.

(** A digit is none of the characters the extraction treats in a special way. *)
Lemma digit_plain d : (d < 10)%N ->
  is_space (pretty_N_char d) = false /\ pretty_N_char d <> "-"%char /\ pretty_N_char d <> "+"%char.
Proof.
  intros Hd. pose proof (digit_value_char d Hd) as Hv. unfold is_space. rewrite bool_decide_eq_false.
  rewrite !elem_of_cons, elem_of_nil.
  split_and!; [intros [E|[E|[E|[E|[E|[E|[]]]]]]]|intros E|intros E]; rewrite E in Hv; by vm_compute in Hv.
Qed.

Lemma signed_pretty (neg : bool) x :
  (0 < x)%N -> is_i32 (if neg then - Z.of_N x else Z.of_N x) ->
  signed neg (pretty_N_go x "") = if neg then - Z.of_N x else Z.of_N x.
Proof.
  intros Hx Hr. pose proof (digits_pretty x "") as Hd. simpl in Hd.
  destruct (pretty_starts x "" Hx) as (d & s' & Hs & Hlt). unfold signed. rewrite Hs in Hd |- *.
  rewrite digit_value_char by done. rewrite Hd. unfold is_i32 in Hr. destruct neg; lia.
Qed.

Lemma extract_pretty z : is_i32 z -> extract_int32 (pretty z) = Some z.
Proof.
  intros Hz. destruct z as [|p|p]; [done|..]; unfold pretty, pretty_Z, pretty, pretty_positive, pretty, pretty_N;
    rewrite decide_False by lia.
  - pose proof (signed_pretty false (N.pos p) ltac:(lia) Hz) as Hs.
    destruct (pretty_starts (N.pos p) "" ltac:(lia)) as (d & s' & E & Hd).
    destruct (digit_plain d Hd) as (H1 & H2 & H3). rewrite E in Hs |- *.
    unfold extract_int32. cbn [skip_space]. rewrite H1. cbn match.
    rewrite (bool_decide_eq_false_2 _ H2), (bool_decide_eq_false_2 _ H3). by rewrite Hs.
  - pose proof (signed_pretty true (N.pos p) ltac:(lia) Hz) as Hs. 
    change ("-" +:+ pretty_N_go (N.pos p) "") with (String "-" (pretty_N_go (N.pos p) "")).
    unfold extract_int32. cbn [skip_space is_space]. change (is_space "-") with false. cbn match.
    rewrite bool_decide_eq_true_2 by done. by rewrite Hs.
Qed.

(** ** [std::istream >> size_t] *)

(** The number the leading digits spell, and what follows them. *)
Fixpoint take_digits (acc : Z) (s : string) : Z * string :=
  match s with
  | String c s' => match digit_value c with Some d => take_digits (10 * acc + d) s' | None => (acc, s) end
  | EmptyString => (acc, s)
  end.

Definition unsigned (negative : bool) (s : string) : Z * option string :=
  match s with
  | String c _ =>
      match digit_value c with
      | Some _ =>
          let '(z, rest) := take_digits 0 s in
          if 18446744073709551616 <=? z then (18446744073709551615, None)
          else (wrap_u64 (if negative then - z else z), Some rest)
      | None => (0, None)
      end
  | EmptyString => (0, None)
  end.

(** The value stored into a variable that was 0, and the rest of the stream;
    [None]: the stream has failed, and later extractions store nothing. *)
Definition extract_u64 (s : string) : Z * option string :=
  match skip_space s with
  | EmptyString => (0, None)
  | String c s' as t =>
      if bool_decide (c = "-"%char) then unsigned true s'
      else if bool_decide (c = "+"%char) then unsigned false s'
      else unsigned false t
  end.

(** [n] variables, all 0 at first, in one chain of [>>]. *)
Fixpoint extract_u64s (n : nat) (s : option string) : list Z :=
  match n with
  | O => []
  | S n =>
      match s with
      | None => replicate (S n) 0
      | Some s => let '(z, rest) := extract_u64 s in z :: extract_u64s n rest
      end
  end.

(** ** Sizes that were printed *)

(** A stream that does not go on with a digit. *)
Definition stops (s : string) : Prop :=
  match s with EmptyString => True | String c _ => digit_value c = None end.

Lemma take_digits_pretty x : forall s, take_digits 0 (pretty_N_go x s) = take_digits (Z.of_N x) s.
Proof.
  induction x as [x IH] using (well_founded_induction N.lt_wf_0); intros s.
  destruct (decide (x = 0)%N) as [->|Hx]; [by rewrite pretty_N_go_0|].
  rewrite pretty_N_go_step by lia. rewrite IH by (apply N.div_lt; lia). cbn [take_digits].
  rewrite digit_value_char by (apply N.mod_lt; lia). f_equal.
  rewrite N2Z.inj_div, N2Z.inj_mod by lia. pose proof (Z.div_mod (Z.of_N x) 10). lia.
Qed.

Lemma pretty_go_app x : forall s rest, pretty_N_go x s +:+ rest = pretty_N_go x (s +:+ rest).
Proof.
  induction x as [x IH] using (well_founded_induction N.lt_wf_0); intros s rest.
  destruct (decide (x = 0)%N) as [->|Hx]; [by rewrite !pretty_N_go_0|].
  rewrite !(pretty_N_go_step x) by lia. rewrite IH by (apply N.div_lt; lia). done.
Qed.

Lemma take_digits_stops acc rest : stops rest -> take_digits acc rest = (acc, rest).
Proof. destruct rest as [|c rest]; simpl; [done|]. by intros ->. Qed.

Lemma extract_u64_pretty z rest :
  0 <= z < 18446744073709551616 -> stops rest -> extract_u64 (pretty z +:+ rest) = (z, Some rest).
Proof.
  intros Hz Hr. destruct z as [|p|p]; [| |lia].
  { change (pretty 0 +:+ rest) with (String "0" rest). unfold extract_u64. cbn [skip_space].
    change (is_space "0") with false. cbn match. rewrite !bool_decide_eq_false_2 by done.
    unfold unsigned. change (digit_value "0") with (Some 0). cbn match.
    change (take_digits 0 (String "0" rest)) with (take_digits 0 rest). by rewrite take_digits_stops. }
  unfold pretty, pretty_Z, pretty, pretty_positive, pretty, pretty_N. rewrite decide_False by lia.
  rewrite pretty_go_app. change ("" +:+ rest) with rest.
  pose proof (take_digits_pretty (N.pos p) rest) as Hd. rewrite (take_digits_stops _ _ Hr) in Hd. simpl in Hd.
  destruct (pretty_starts (N.pos p) rest ltac:(lia)) as (d & s' & E & Hlt).
  destruct (digit_plain d Hlt) as (H1 & H2 & H3). rewrite E in Hd |- *. unfold extract_u64. cbn [skip_space].
  rewrite H1. cbn match. rewrite !bool_decide_eq_false_2 by done. unfold unsigned. rewrite digit_value_char, Hd by done.
  destruct (Z.leb_spec 18446744073709551616 (Z.pos p)); [lia|]. by rewrite wrap_u64_id.
Qed.

Lemma extract_u64_space z rest :
  0 <= z < 18446744073709551616 -> stops rest -> extract_u64 (" " +:+ pretty z +:+ rest) = (z, Some rest).
Proof. intros Hz Hr. change (extract_u64 (pretty z +:+ rest) = (z, Some rest)). by apply extract_u64_pretty. Qed.
