(* ===== verification/ConfigParser.v ===== *)
(** The configuration reader of utils/config_parser.hpp and config_parser.cpp. The
    YAML library is a parameter, [Yaml]; [DocYaml] is a tree of maps, sequences and
    scalars that has its documented behaviour. Integers are extracted
    from a string stream. *)
From S2P Require Import Prelude Common Stream.
#[global] Open Scope Z_scope.

(** ** YAML *)

(** [None] where the library throws. *)
Class Yaml := {
  Node : Type;
  LoadFile : string -> option Node;
  key : Node -> string -> option Node;          (** [node["k"]] *)
  idx : Node -> Z -> option Node;               (** [node[i]] *)
  defined : Node -> bool;                       (** [!!node] *)
  node_size : Node -> Z;
  as_string : Node -> option string             (** [node.as<std::string>()] *)
}.

(** ** Data *)

(** [None]: an [int32_t] nothing was stored in. *)
Record NodeConfig := mkNodeConfig {
  node_info_ : NodeInfo;
  downstream_recv_ : option Z;
  num_expected_props_ : option Z
}.

Record ConfigParser := mkConfigParser { node_dir_ : gmap Z NodeConfig }.
Definition ConfigParser_ctor : ConfigParser := mkConfigParser ∅.

(** ** Operations *)

Section parser.
Context `{Yaml}.

Definition as_str (n : Node) (k : string) : option string := c ← key n k; as_string c.

(** One entry; [None] where a conversion throws. Its id goes into [node_dir_] last,
    so an id that was never stored is used only when everything else was there. *)
Definition parse_node (yaml_node : Node) : option (res NodeConfig) :=
  id ← as_str yaml_node "id";
  pull_ip ← as_str yaml_node "recv-pull-ip";
  pull_port ← as_str yaml_node "recv-pull-port";
  push_ip ← as_str yaml_node "recv-push-ip";
  push_port ← as_str yaml_node "recv-push-port";
  num_props ← as_str yaml_node "num-props";
  downstream ← as_str yaml_node "downstream-id";
  Some (match extract_int32 id with
        | None => Fault Uninitialised
        | Some node_id =>
            Ok (mkNodeConfig (mkNodeInfo node_id pull_ip pull_port push_ip push_port)
                  (extract_int32 downstream) (extract_int32 num_props))
        end).

Definition add_node (c : NodeConfig) (p : ConfigParser) : ConfigParser :=
  mkConfigParser (<[node_id_ (node_info_ c) := c]> (node_dir_ p)).

(** The entries from [i] on; [n] of them are left. *)
Fixpoint load_nodes (nodes : Node) (n : nat) (i : Z) (p : ConfigParser) : res (Z * ConfigParser) :=
  match n with
  | O => Ok (0, p)
  | S n =>
      match idx nodes i ≫= parse_node with
      | None => Ok (-1, p)
      | Some c => c ← c; load_nodes nodes n (i + 1) (add_node c p)
      end
  end.

Definition LoadConfigFile (p : ConfigParser) (_filename : string) : res (Z * ConfigParser) :=
  match LoadFile _filename with
  | None => Ok (-1, p)
  | Some yaml_config =>
      match key yaml_config "NodeConfig" with
      | None => Ok (-1, p)
      | Some nodes =>
          if negb (defined nodes) then Fault CheckFailed
          else load_nodes nodes (Z.to_nat (wrap_i32 (node_size nodes))) 0 p
      end
  end.
End parser.

(** What is returned for an id that is not there has only its id assigned. *)
Definition GetNodeInfo (p : ConfigParser) (_node_id : Z) : NodeConfig :=
  match node_dir_ p !! _node_id with
  | Some node => node
  | None => mkNodeConfig (mkNodeInfo (-1) "" "" "" "") None None
  end.

Definition GetParam (p : ConfigParser) (_param : string) (_val : Z) : bool * Z := (false, _val).

(** ** Documents *)

Inductive ynode :=
| YUndefined
| YScalar (s : string)
| YSeq (l : list ynode)
| YMap (m : list (string * ynode)).

(** A key that is not there gives an undefined node; only a scalar cannot be
    subscripted, only a scalar converts to a string. *)
Definition y_key (n : ynode) (k : string) : option ynode :=
  match n with
  | YScalar _ => None
  | YMap m => Some (from_option snd YUndefined (head (filter (fun p => p.1 = k) m)))
  | _ => Some YUndefined
  end.
Definition y_idx (n : ynode) (i : Z) : option ynode :=
  match n with
  | YScalar _ => None
  | YSeq l => Some (default YUndefined (if 0 <=? i then l !! Z.to_nat i else None))
  | _ => Some YUndefined
  end.
Definition DocYaml (files : string -> option ynode) : Yaml := {|
  Node := ynode;
  LoadFile := files;
  key := y_key;
  idx := y_idx;
  defined n := match n with YUndefined => false | _ => true end;
  node_size n := match n with YSeq l => Z.of_nat (length l) | YMap m => Z.of_nat (length m) | _ => 0 end;
  as_string n := match n with YScalar s => Some s | _ => None end
|}.

(** The file a configuration is written to. *)
Definition emit_node (c : NodeConfig) : ynode :=
  let n := node_info_ c in
  YMap [("id", YScalar (pretty (node_id_ n)));
        ("recv-pull-ip", YScalar (recv_pull_ip_ n)); ("recv-pull-port", YScalar (recv_pull_port_ n));
        ("recv-push-ip", YScalar (recv_push_ip_ n)); ("recv-push-port", YScalar (recv_push_port_ n));
        ("num-props", YScalar (pretty (default 0 (num_expected_props_ c))));
        ("downstream-id", YScalar (pretty (default 0 (downstream_recv_ c))))].
Definition emit (cs : list NodeConfig) : ynode := YMap [("NodeConfig", YSeq (emit_node <$> cs))].

Definition is_some_i32 (o : option Z) : Prop := match o with Some z => is_i32 z | None => False end.
Definition writable (c : NodeConfig) : Prop :=
  is_i32 (node_id_ (node_info_ c)) /\ is_some_i32 (downstream_recv_ c) /\ is_some_i32 (num_expected_props_ c).

Definition add_nodes (cs : list NodeConfig) (p : ConfigParser) : ConfigParser := foldl (flip add_node) p cs.

Lemma add_nodes_lookup cs id : forall p,
  node_dir_ (add_nodes cs p) !! id =
  match last (filter (fun c => node_id_ (node_info_ c) = id) cs) with
  | Some c => Some c
  | None => node_dir_ p !! id
  end.
Proof.
  induction cs as [|c cs IH] using rev_ind; intros p; [done|]. unfold add_nodes in *.
  rewrite foldl_app, filter_app. cbn [foldl flip]. unfold add_node at 1. cbn [node_dir_].
  rewrite filter_cons, filter_nil. destruct (decide (node_id_ (node_info_ c) = id)) as [<-|Hne].
  - by rewrite last_snoc, lookup_insert_eq.
  - by rewrite lookup_insert_ne, app_nil_r.
Qed.

(** The loop reads the entries it can; it stops at the first that throws. *)
Lemma load_nodes_reads `{Yaml} nodes cs : forall n i p,
  (forall j c, cs !! j = Some c -> idx nodes (i + Z.of_nat j) ≫= parse_node = Some (Ok c)) ->
  load_nodes nodes (length cs + n) i p = load_nodes nodes n (i + Z.of_nat (length cs)) (add_nodes cs p).
Proof.
  induction cs as [|c cs IH]; intros n i p Hc; cbn [length Nat.add load_nodes].
  { by rewrite Z.add_0_r. }
  specialize (Hc O c eq_refl) as H0. rewrite Z.add_0_r in H0. rewrite H0. cbn [mbind res_bind].
  rewrite IH.
  - replace (i + 1 + Z.of_nat (length cs)) with (i + Z.of_nat (S (length cs))) by lia. done.
  - intros j c' Hj. replace (i + 1 + Z.of_nat j) with (i + Z.of_nat (S j)) by lia. by apply Hc.
Qed.

Lemma parse_emitted files c : writable c -> @parse_node (DocYaml files) (emit_node c) = Some (Ok c).
Proof.
  destruct c as [[id pip pport qip qport] [d|] [k|]]; intros (Hi & Hd & Hk); try done. simpl in Hi, Hd, Hk.
  unfold parse_node, as_str. simpl. by rewrite !extract_pretty.
Qed.

(** C36. What is written is read back: loading the file that lists the nodes [cs]
    (fewer than 2^31, their integers in range) succeeds, and from then on asking
    for an id gives the last entry of the file with that id - addresses, expected
    propagators and downstream node as written, negative numbers included - or,
    for an id not in the file, what was known before. *)
Theorem config_roundtrip files name cs p :
  files name = Some (emit cs) -> Forall writable cs -> Z.of_nat (length cs) < 2147483648 ->
  exists p', @LoadConfigFile (DocYaml files) p name = Ok (0, p') /\
    forall id, GetNodeInfo p' id =
      match last (filter (fun c => node_id_ (node_info_ c) = id) cs) with
      | Some c => c
      | None => GetNodeInfo p id
      end.
Proof.
  intros Hf Hcs Hlen. exists (add_nodes cs p). split.
  - unfold LoadConfigFile. cbn [LoadFile key DocYaml]. rewrite Hf.
    change (y_key (emit cs) "NodeConfig") with (Some (YSeq (emit_node <$> cs))).
    cbn [defined negb node_size DocYaml]. rewrite length_fmap.
    rewrite wrap_i32_id, Nat2Z.id by (unfold is_i32; lia).
    rewrite <- (Nat.add_0_r (length cs)), (load_nodes_reads (H := DocYaml files)); [done|].
    intros j c Hj. cbn [idx DocYaml y_idx]. rewrite Z.add_0_l, Nat2Z.id, list_lookup_fmap, Hj.
    rewrite (proj2 (Z.leb_le 0 (Z.of_nat j))) by lia. cbn [fmap option_fmap option_map default from_option mbind option_bind]. apply parse_emitted. rewrite Forall_lookup in Hcs. by eapply Hcs.
  - intros id. unfold GetNodeInfo. rewrite add_nodes_lookup. by destruct (last _).
Qed.

(** A failed load is not undone: over any YAML library, when the file has a list
    of nodes, the entries before number [length cs] can be read and that one throws
    (it lacks a field, or is no map), the call returns -1, and every entry before
    the bad one is in the directory, none after it. *)
Theorem failed_load_keeps_entries `{Yaml} name doc nodes cs p :
  LoadFile name = Some doc -> key doc "NodeConfig" = Some nodes -> defined nodes = true ->
  (forall j c, cs !! j = Some c -> idx nodes (Z.of_nat j) ≫= parse_node = Some (Ok c)) ->
  idx nodes (Z.of_nat (length cs)) ≫= parse_node = None ->
  Z.of_nat (length cs) < node_size nodes < 2147483648 ->
  LoadConfigFile p name = Ok (-1, add_nodes cs p).
Proof.
  intros Hl Hk Hd Hgood Hbad Hn. unfold LoadConfigFile. rewrite Hl, Hk, Hd. cbn [negb].
  rewrite wrap_i32_id by (unfold is_i32; lia).
  replace (Z.to_nat (node_size nodes)) with (length cs + S (Z.to_nat (node_size nodes) - length cs - 1))%nat by lia.
  rewrite load_nodes_reads by done. cbn [load_nodes]. by rewrite Z.add_0_l, Hbad.
Qed.

(** ** A concrete file *)

Definition demo_entry (id down : Z) : NodeConfig :=
  mkNodeConfig (mkNodeInfo id "10.0.0.1" "9000" "10.0.0.1" "9001") (Some down) (Some 1).
Definition demo_nodes : list NodeConfig := [demo_entry 0 1; demo_entry 1 (-1); demo_entry 0 7].
Definition demo_file (name : string) : option ynode :=
  if decide (name = "ring.yaml") then Some (emit demo_nodes) else None.
(** The third entry has no fields. *)
Definition demo_bad_nodes : ynode := YSeq [emit_node (demo_entry 0 1); emit_node (demo_entry 1 0); YMap []; emit_node (demo_entry 2 0)].
Definition demo_bad_file (_ : string) : option ynode := Some (YMap [("NodeConfig", demo_bad_nodes)]).

Lemma config_roundtrip_witness :
  exists p', @LoadConfigFile (DocYaml demo_file) ConfigParser_ctor "ring.yaml" = Ok (0, p') /\
    GetNodeInfo p' 0 = demo_entry 0 7 /\ GetNodeInfo p' 1 = demo_entry 1 (-1) /\ node_id_ (node_info_ (GetNodeInfo p' 5)) = -1.
Proof.
  destruct (config_roundtrip demo_file "ring.yaml" demo_nodes ConfigParser_ctor) as (p' & Hl & Hg).
  - reflexivity.
  - repeat constructor; simpl; unfold is_i32; lia.
  - simpl. lia.
  - exists p'. split; [exact Hl|]. rewrite !Hg. split; [reflexivity|]. split; reflexivity.
Defined.

Lemma failed_load_keeps_entries_witness :
  @LoadConfigFile (DocYaml demo_bad_file) ConfigParser_ctor "bad.yaml" =
    Ok (-1, add_nodes [demo_entry 0 1; demo_entry 1 0] ConfigParser_ctor).
Proof.
  apply (failed_load_keeps_entries (H := DocYaml demo_bad_file) "bad.yaml"
    (YMap [("NodeConfig", demo_bad_nodes)]) demo_bad_nodes); try reflexivity.
  - intros [|[|j]] c Hj; simplify_eq/=; reflexivity.
  - simpl. lia.
Defined.
