(* ===== verification/QuiltDB.v ===== *)
(** The database object of include/quiltdb.hpp and include/quiltdb.cpp: two pairs of a
    propagator and a receiver, one per direction, and the directory of tables. One
    definition per method. The memory the tables live in, [heap], is part of the
    state, since a [Table] and the receivers hold pointers to them. *)
From S2P Require Import Prelude Common ValueOps MemStruct Protocol Propagator InternalTable Receiver.

(** ** End points *)

Definition KHPROP_UPDATE_PULL_ENDP : string := "inproc://hprop_update_pull_endp".
Definition KHINTERNAL_RECV_PULL_ENDP : string := "inproc://hinternal_recv_pull_endp".
Definition KHINTERNAL_PAIR_RECV_PUSH_ENDP : string := "inproc://hinternal_pair_recv_push_endp".
Definition KHINTERNAL_PAIR_P2R_ENDP : string := KHINTERNAL_RECV_PULL_ENDP.
Definition KHINTERNAL_PAIR_R2P_ENDP : string := KHINTERNAL_PAIR_RECV_PUSH_ENDP.
Definition KVPROP_UPDATE_PULL_ENDP : string := "inproc://vprop_update_pull_endp".
Definition KVINTERNAL_RECV_PULL_ENDP : string := "inproc://vinternal_recv_pull_endp".
Definition KVINTERNAL_PAIR_RECV_PUSH_ENDP : string := "inproc://vinternal_pair_recv_push_endp".
Definition KVINTERNAL_PAIR_P2R_ENDP : string := KVINTERNAL_RECV_PULL_ENDP.
Definition KVINTERNAL_PAIR_R2P_ENDP : string := KVINTERNAL_PAIR_RECV_PUSH_ENDP.

(** ** Configurations *)

Record PropagatorConfig := mkPropagatorConfig {
  pc_my_id_ : Z;
  pc_nanosec_ : Z;
  pc_downstream_recv_ : NodeInfo;
  pc_zmq_ctx_ : Z;
  pc_update_pull_endp_ : string;
  pc_internal_pair_p2r_endp_ : string;
  pc_internal_pair_r2p_endp_ : string
}.
(** What [Propagator::Start] copies for its thread, end points apart. *)
Definition prop_thrinfo (c : PropagatorConfig) : PropagatorThrInfo :=
  mkPropagatorThrInfo (pc_my_id_ c) (pc_nanosec_ c) (pc_downstream_recv_ c).

Record ReceiverConfig := mkReceiverConfig {
  rc_my_id_ : Z;
  rc_my_info_ : NodeInfo;
  rc_num_expected_propagators_ : Z;
  rc_zmq_ctx_ : Z;
  rc_update_push_endp_ : string;
  rc_internal_recv_pull_endp_ : string;
  rc_internal_pair_recv_push_endp_ : string
}.
Definition recv_thrinfo (c : ReceiverConfig) : ReceiverThrInfo :=
  mkReceiverThrInfo (rc_my_id_ c) (rc_my_info_ c) (rc_num_expected_propagators_ c).

Record DBConfig := mkDBConfig {
  my_hid_ : Z;
  my_hrecv_info_ : NodeInfo;
  hnode_prop_downstream_ : NodeInfo;
  hexpected_prop_ : Z;
  my_vid_ : Z;
  my_vrecv_info_ : NodeInfo;
  vnode_prop_downstream_ : NodeInfo;
  vexpected_prop_ : Z;
  hbatch_nanosec_ : Z;
  vbatch_nanosec_ : Z
}.

(** ** The object *)

(** A null [zmq_ctx_] is 0. *)
Record QuiltDB := mkQuiltDB {
  hpropagator_ : PropObj;
  vpropagator_ : PropObj;
  hreceiver_ : RecvObj;
  vreceiver_ : RecvObj;
  config_ : DBConfig;
  started_ : bool;
  table_dir_ : gmap Z Z;                  (** table id to [InternalTable*] *)
  zmq_ctx_ : Z;
  heap : gmap Z InternalTable
}.

Definition set_props (db : QuiltDB) (h v : PropObj) : QuiltDB :=
  mkQuiltDB h v (hreceiver_ db) (vreceiver_ db) (config_ db) (started_ db) (table_dir_ db) (zmq_ctx_ db) (heap db).
Definition set_recvs (db : QuiltDB) (h v : RecvObj) : QuiltDB :=
  mkQuiltDB (hpropagator_ db) (vpropagator_ db) h v (config_ db) (started_ db) (table_dir_ db) (zmq_ctx_ db) (heap db).
Definition set_started (db : QuiltDB) (b : bool) : QuiltDB :=
  mkQuiltDB (hpropagator_ db) (vpropagator_ db) (hreceiver_ db) (vreceiver_ db) (config_ db) b (table_dir_ db)
    (zmq_ctx_ db) (heap db).
Definition set_tables (db : QuiltDB) (dir : gmap Z Z) (h : gmap Z InternalTable) : QuiltDB :=
  mkQuiltDB (hpropagator_ db) (vpropagator_ db) (hreceiver_ db) (vreceiver_ db) (config_ db) (started_ db) dir
    (zmq_ctx_ db) h.
Definition set_zmq_ctx (db : QuiltDB) (ctx : Z) : QuiltDB :=
  mkQuiltDB (hpropagator_ db) (vpropagator_ db) (hreceiver_ db) (vreceiver_ db) (config_ db) (started_ db)
    (table_dir_ db) ctx (heap db).

Definition QuiltDB_ctor (_dbconfig : DBConfig) : QuiltDB :=
  mkQuiltDB Propagator_ctor Propagator_ctor Receiver_ctor Receiver_ctor _dbconfig false ∅ 0 ∅.

(** Every table is deleted; the context too, if there is one. *)
Definition QuiltDB_dtor (db : QuiltDB) : QuiltDB :=
  set_zmq_ctx (set_tables db (table_dir_ db) (foldr (fun p h => delete p.2 h) (heap db) (map_to_list (table_dir_ db)))) 0.

(** [db] is the function's static variable, which the first call initialises;
    later calls ignore their configuration, and every call creates a context,
    [ctx], unless that throws. *)
Definition CreateQuiltDB (db : option QuiltDB) (_dbconfig : DBConfig) (ctx : option Z) : res QuiltDB :=
  let db := default (QuiltDB_ctor _dbconfig) db in
  match ctx with
  | None => Fault CheckFailed
  | Some ctx => Ok (set_zmq_ctx db ctx)
  end.

(** ** Tables *)

(** A [Table] is a pointer that its default constructor leaves unset. *)
Definition Table := option Z.

Definition deref (h : gmap Z InternalTable) (t : Table) : res (Z * InternalTable) :=
  match t with
  | None => Fault Uninitialised
  | Some ptr => match h !! ptr with Some it => Ok (ptr, it) | None => Fault NullDeref end
  end.

(** [new] returns a pointer to unused memory. *)
Definition CreateTable (db : QuiltDB) (_table_id : Z) (_table_config : TableConfig) (_table : Table)
    : Z * QuiltDB * Table :=
  match table_dir_ db !! _table_id with
  | Some _ => (-1, db, _table)
  | None =>
      let ptr := fresh (dom (heap db)) in
      (0, set_tables db (<[_table_id := ptr]> (table_dir_ db))
            (<[ptr := InternalTable_ctor _table_id _table_config]> (heap db)), Some ptr)
  end.

Definition CreateHTable (db : QuiltDB) (_table_id : Z) (_table_config : TableConfig) : res (Table * QuiltDB) :=
  let '(ret, db, table) := CreateTable db _table_id _table_config None in
  CHECK (ret =? 0);;
  '(ptr, it) ← deref (heap db) table;
  let db := set_props db (Propagator.RegisterTable (hpropagator_ db) _table_id (get_vadd_func it) (get_vsize it)
                            (cfg_loop_ _table_config) (cfg_apply_updates_ _table_config)) (vpropagator_ db) in
  let db := set_tables db (table_dir_ db) (<[ptr := set_propagator it HPropagator]> (heap db)) in
  '(_, r) ← Receiver.RegisterTable (heap db) (hreceiver_ db) ptr;
  Ok (table, set_recvs db r (vreceiver_ db)).

(** The return code is not looked at. *)
Definition CreateVTable (db : QuiltDB) (_table_id : Z) (_table_config : TableConfig) : res (Table * QuiltDB) :=
  let '(ret, db, table) := CreateTable db _table_id _table_config None in
  '(ptr, it) ← deref (heap db) table;
  let db := set_props db (hpropagator_ db)
              (Propagator.RegisterTable (vpropagator_ db) _table_id (get_vadd_func it) (get_vsize it)
                 (cfg_loop_ _table_config) (cfg_apply_updates_ _table_config)) in
  let db := set_tables db (table_dir_ db) (<[ptr := set_propagator it VPropagator]> (heap db)) in
  '(_, r) ← Receiver.RegisterTable (heap db) (vreceiver_ db) ptr;
  Ok (table, set_recvs db (hreceiver_ db) r).

(** The methods of [Table], on the memory of the database; the propagator a table
    was given is a member of the database. *)
Definition props_of (db : QuiltDB) (p : PropRef) : PropObj :=
  match p with HPropagator => hpropagator_ db | VPropagator => vpropagator_ db end.

Definition Table_Get (n : nat) (db : QuiltDB) (t : Table) (_key : Z) : res (list byte * QuiltDB) :=
  '(ptr, it) ← deref (heap db) t;
  '(v, it) ← Get n it _key;
  Ok (v, set_tables db (table_dir_ db) (<[ptr := it]> (heap db))).

Definition Table_Inc (db : QuiltDB) (t : Table) (thr _key : Z) (_delta : list byte) : res (QuiltDB * list PropIn) :=
  '(ptr, it) ← deref (heap db) t;
  '(it, msgs) ← InternalTable.Inc it (props_of db) thr _key _delta;
  Ok (set_tables db (table_dir_ db) (<[ptr := it]> (heap db)), msgs).

Definition Table_GetID (db : QuiltDB) (t : Table) : res Z := '(_, it) ← deref (heap db) t; Ok (GetID it).

(** ** Start *)

(** Two threads at once: an abort in either ends the process; otherwise a thread
    that waits for ever keeps the other's result from being seen. *)
Definition par {A B} (a : res A) (b : res B) : res (A * B) :=
  match a, b with
  | Fault f, _ => Fault f
  | _, Fault f => Fault f
  | Ok x, Ok y => Ok (x, y)
  | _, _ => Block
  end.

(** What a direction hears from outside while it starts: the control messages of its
    downstream receiver, and the messages of its upstream propagators. *)
Record Outside := mkOutside {
  sub_in : list PropRecvMsgType;
  inits : list NetIn;
  rounds : list (list NetIn)
}.

(** The two threads of a direction, with the messages they have not read yet. *)
Definition Threads : Type := (PropThr * list PropRecvMsgType) * (RecvThr * list NetIn).

(** The threads of the objects whose [Start] returned 0, up to their [sem_post]. The
    receiver's first message, [EPRInit], reaches the propagator if the receiver
    connects to the end point the propagator has bound. *)
Definition start_threads (h : gmap Z InternalTable) (pc : PropagatorConfig) (started_p : Z * PropObj)
    (rc : ReceiverConfig) (started_r : Z * RecvObj) (o : Outside) : res Threads :=
  let receiver :=
    if started_r.1 =? 0 then
      Receiver.thread_handshake (recv_thrinfo rc) (inits o) (rounds o) (Receiver.thread_init started_r.2 h)
    else Block in
  let pair_in :=
    if (started_r.1 =? 0) && bool_decide (rc_internal_pair_recv_push_endp_ rc = pc_internal_pair_r2p_endp_ pc)
    then [EPRInit] else [] in
  let propagator :=
    if started_p.1 =? 0 then
      Propagator.thread_handshake (prop_thrinfo pc) (sub_in o) (Propagator.thread_init (prop_thrinfo pc) started_p.2 pair_in)
    else Block in
  par propagator receiver.

(** The configurations [Start] passes on, built one from the other. *)
Definition hprop_config (db : QuiltDB) : PropagatorConfig :=
  let c := config_ db in
  mkPropagatorConfig (my_hid_ c) (hbatch_nanosec_ c) (hnode_prop_downstream_ c) (zmq_ctx_ db)
    KHPROP_UPDATE_PULL_ENDP KHINTERNAL_PAIR_P2R_ENDP KHINTERNAL_PAIR_R2P_ENDP.
Definition hrecv_config (db : QuiltDB) : ReceiverConfig :=
  let c := config_ db in
  mkReceiverConfig (my_hid_ c) (my_hrecv_info_ c) (hexpected_prop_ c) (zmq_ctx_ db)
    KHPROP_UPDATE_PULL_ENDP KHINTERNAL_RECV_PULL_ENDP KHINTERNAL_PAIR_RECV_PUSH_ENDP.
(** [nanosec_] is left as it was. *)
Definition vprop_config (db : QuiltDB) : PropagatorConfig :=
  let c := config_ db in
  mkPropagatorConfig (my_vid_ c) (pc_nanosec_ (hprop_config db)) (vnode_prop_downstream_ c) (pc_zmq_ctx_ (hprop_config db))
    KVPROP_UPDATE_PULL_ENDP KVINTERNAL_PAIR_P2R_ENDP KVINTERNAL_PAIR_R2P_ENDP.
Definition vrecv_config (db : QuiltDB) : ReceiverConfig :=
  let c := config_ db in
  mkReceiverConfig (my_vid_ c) (my_vrecv_info_ c) (vexpected_prop_ c) (rc_zmq_ctx_ (hrecv_config db))
    KVPROP_UPDATE_PULL_ENDP KVINTERNAL_RECV_PULL_ENDP KVINTERNAL_PAIR_RECV_PUSH_ENDP.

(** Returns after four posts to [sync_sem]: once every thread is in [RUN]. *)
Definition Start (db : QuiltDB) (hout vout : Outside) : res (Z * QuiltDB * (Threads * Threads)) :=
  let db := set_started db true in
  let hp := Propagator.Start (hpropagator_ db) (prop_thrinfo (hprop_config db)) in
  CHECK (hp.1 =? 0);;
  let hr := Receiver.Start (hreceiver_ db) (recv_thrinfo (hrecv_config db)) in
  let vp := Propagator.Start (vpropagator_ db) (prop_thrinfo (vprop_config db)) in
  let vr := Receiver.Start (vreceiver_ db) (recv_thrinfo (vrecv_config db)) in
  '(hthr, vthr) ← par (start_threads (heap db) (hprop_config db) hp (hrecv_config db) hr hout)
                      (start_threads (heap db) (vprop_config db) vp (vrecv_config db) vr vout);
  Ok (0, set_recvs (set_props db (Propagator.obj hthr.1.1) (Propagator.obj vthr.1.1))
           (Receiver.obj hthr.2.1) (Receiver.obj vthr.2.1), (hthr, vthr)).

(** ** Threads of the application *)

Definition RegisterThr (db : QuiltDB) (thr : Z) : Z * QuiltDB :=
  let '(ret, hp) := Propagator.RegisterThr (hpropagator_ db) thr in
  let db := set_props db hp (vpropagator_ db) in
  if ret <? 0 then (-1, db)
  else
    let '(ret, vp) := Propagator.RegisterThr (vpropagator_ db) thr in
    let db := set_props db (hpropagator_ db) vp in
    if ret <? 0 then (-1, db) else (0, db).

Definition DeregisterThr (db : QuiltDB) (thr : Z) : Z * QuiltDB :=
  let '(ret, hp) := Propagator.DeregisterThr (hpropagator_ db) thr in
  let db := set_props db hp (vpropagator_ db) in
  if ret <? 0 then (-1, db)
  else
    let '(ret, vp) := Propagator.DeregisterThr (vpropagator_ db) thr in
    let db := set_props db (hpropagator_ db) vp in
    if ret <? 0 then (-1, db) else (0, db).

(** Which of the four threads return. *)
Record Joins := mkJoins { join_hp : bool; join_hr : bool; join_vp : bool; join_vr : bool }.

(** The messages the four [SignalTerm]s push. *)
Record Signals := mkSignals {
  to_hp : list PropIn; to_hr : list RecvIn; to_vp : list PropIn; to_vr : list RecvIn
}.

(** All four are told first, then waited for. *)
Definition ShutDown (db : QuiltDB) (thr : Z) (j : Joins) : res (Z * QuiltDB * Signals) :=
  '(ret, hp, m1) ← Propagator.SignalTerm (hpropagator_ db) thr;
  CHECK (ret =? 0);;
  let '(ret, hr, m2) := Receiver.SignalTerm (hreceiver_ db) in
  CHECK (ret =? 0);;
  '(ret, vp, m3) ← Propagator.SignalTerm (vpropagator_ db) thr;
  CHECK (ret =? 0);;
  let '(ret, vr, m4) := Receiver.SignalTerm (vreceiver_ db) in
  CHECK (ret =? 0);;
  ret ← Propagator.WaitTerm hp (join_hp j);
  CHECK (ret =? 0);;
  ret ← Receiver.WaitTerm hr (join_hr j);
  CHECK (ret =? 0);;
  ret ← Propagator.WaitTerm vp (join_vp j);
  CHECK (ret =? 0);;
  ret ← Receiver.WaitTerm vr (join_vr j);
  CHECK (ret =? 0);;
  Ok (0, set_recvs (set_props db hp vp) hr vr, mkSignals m1 m2 m3 m4).
