(* ===== verification/QuiltDBProps.v ===== *)
(** Correctness of the database object: the directories of its parts agree with a
    finite map from table ids to a direction and a configuration, a thread is
    registered with both propagators or none, and the shutdown sequence. *)
From S2P Require Import Prelude Common ValueOps MemStruct Protocol Propagator InternalTable Receiver QuiltDB.

#[export] Instance PropRef_eq_dec : EqDecision PropRef.
Proof. solve_decision. Defined.

(** ** The tables *)

(** What a database is to its user: each table's direction and configuration. *)
Notation TableSpec := (gmap Z (PropRef * TableConfig)).

Record table_request := mkRequest { rq_dir : PropRef; rq_id : Z; rq_config : TableConfig }.

(** A second table with the same id aborts one way or the other. *)
Definition spec_create (c : table_request) (m : TableSpec) : res TableSpec :=
  match m !! rq_id c with
  | Some _ => Fault (match rq_dir c with HPropagator => CheckFailed | VPropagator => Uninitialised end)
  | None => Ok (<[rq_id c := (rq_dir c, rq_config c)]> m)
  end.

Definition create (c : table_request) (db : QuiltDB) : res QuiltDB :=
  '(_, db) ← match rq_dir c with
             | HPropagator => CreateHTable db (rq_id c) (rq_config c)
             | VPropagator => CreateVTable db (rq_id c) (rq_config c)
             end;
  Ok db.

Definition recv_of (db : QuiltDB) (d : PropRef) : RecvObj :=
  match d with HPropagator => hreceiver_ db | VPropagator => vreceiver_ db end.

Definition info_of (c : TableConfig) : TableInfo :=
  mkTableInfo (cfg_vsize_ c) (cfg_vadd_func_ c) (cfg_loop_ c) (cfg_apply_updates_ c).
Definition table_of (id : Z) (dc : PropRef * TableConfig) : InternalTable :=
  set_propagator (InternalTable_ctor id dc.2) dc.1.

(** Keeps an entry of direction [d]. *)
Definition of_dir {A} (d : PropRef) (dc : PropRef * TableConfig) (a : A) : option A :=
  if decide (dc.1 = d) then Some a else None.

(** The database holds exactly the tables of [m]: each an object of its own,
    known to the propagator and the receiver of its direction only. *)
Record db_repr (m : TableSpec) (db : QuiltDB) : Prop := {
  dr_dir : forall id, m !! id = None -> table_dir_ db !! id = None;
  dr_table : forall id dc, m !! id = Some dc ->
    exists ptr, table_dir_ db !! id = Some ptr /\ heap db !! ptr = Some (table_of id dc);
  dr_heap : forall ptr it, heap db !! ptr = Some it -> table_dir_ db !! GetID it = Some ptr;
  dr_prop : forall d id, Propagator.table_dir_ (props_of db d) !! id = m !! id ≫= fun dc => of_dir d dc (info_of dc.2);
  dr_recv : forall d id, Receiver.table_dir_ (recv_of db d) !! id =
    m !! id ≫= fun dc => table_dir_ db !! id ≫= of_dir d dc;
  dr_init : forall d, Propagator.state_ (props_of db d) = Propagator.INIT /\ Receiver.state_ (recv_of db d) = INIT
}.

Lemma db_repr_new cfg ctx : db_repr ∅ (set_zmq_ctx (QuiltDB_ctor cfg) ctx).
Proof. split; try done; intros []; done. Qed.

(** A new table, in either direction. *)
Definition with_table (c : table_request) (ptr : Z) (db : QuiltDB) : QuiltDB :=
  let dc := (rq_dir c, rq_config c) in
  let upd_p d p := if decide (d = rq_dir c)
                   then Propagator.set_table_dir p (<[rq_id c := info_of (rq_config c)]> (Propagator.table_dir_ p)) else p in
  let upd_r d (r : RecvObj) := if decide (d = rq_dir c)
                   then mkRecvObj (Receiver.state_ r) (thrinfo_ r) (have_signaled_term_ r)
                          (<[rq_id c := ptr]> (Receiver.table_dir_ r)) else r in
  set_recvs (set_props (set_tables db (<[rq_id c := ptr]> (table_dir_ db)) (<[ptr := table_of (rq_id c) dc]> (heap db)))
    (upd_p HPropagator (hpropagator_ db)) (upd_p VPropagator (vpropagator_ db)))
    (upd_r HPropagator (hreceiver_ db)) (upd_r VPropagator (vreceiver_ db)).

Definition create_table (c : table_request) (db : QuiltDB) : res (Table * QuiltDB) :=
  match rq_dir c with
  | HPropagator => CreateHTable db (rq_id c) (rq_config c)
  | VPropagator => CreateVTable db (rq_id c) (rq_config c)
  end.

Lemma create_table_new m db c :
  db_repr m db -> m !! rq_id c = None ->
  create_table c db = Ok (Some (fresh (dom (heap db))), with_table c (fresh (dom (heap db))) db).
Proof.
  intros [Hd _ _ _ _ Hi] Hm. specialize (Hd _ Hm).
  destruct (Hi HPropagator) as [Hp1 Hr1]. destruct (Hi VPropagator) as [Hp2 Hr2].
  simpl in Hp1, Hr1, Hp2, Hr2.
  destruct c as [[] id cfg]; simpl in *; unfold create_table, CreateHTable, CreateVTable, CreateTable; simpl;
    rewrite Hd; simpl; rewrite lookup_insert_eq; simpl;
    unfold Propagator.RegisterTable, Receiver.RegisterTable; simpl; rewrite ?Hp1, ?Hr1, ?Hp2, ?Hr2;
    rewrite !decide_False by naive_solver; rewrite lookup_insert_eq; simpl;
    unfold with_table; simpl; rewrite ?Hr1, ?Hr2; by rewrite insert_insert_eq.
Qed.

Lemma create_new m db c :
  db_repr m db -> m !! rq_id c = None -> create c db = Ok (with_table c (fresh (dom (heap db))) db).
Proof.
  intros Hr Hm. change (create c db) with ('(_, db) ← create_table c db; Ok db).
  by rewrite (create_table_new m).
Qed.

Lemma create_again m db c :
  db_repr m db -> is_Some (m !! rq_id c) ->
  create c db = Fault (match rq_dir c with HPropagator => CheckFailed | VPropagator => Uninitialised end).
Proof.
  intros Hr [dc Hm]. destruct (dr_table _ _ Hr _ _ Hm) as (ptr & Hd & _).
  destruct c as [[] id cfg]; simpl in *; unfold create, CreateHTable, CreateVTable, CreateTable; simpl; by rewrite Hd.
Qed.

Lemma with_table_repr m db c :
  db_repr m db -> m !! rq_id c = None ->
  db_repr (<[rq_id c := (rq_dir c, rq_config c)]> m) (with_table c (fresh (dom (heap db))) db).
Proof.
  intros [Hd Ht Hh Hp Hr Hi] Hm. pose proof (is_fresh (dom (heap db))) as Hfresh.
  set (ptr := fresh (dom (heap db))) in *. apply not_elem_of_dom in Hfresh.
  assert (forall id, table_dir_ db !! id <> Some ptr) as Hnew.
  { intros id Hid. destruct (m !! id) as [dc|] eqn:E; [|by rewrite Hd in Hid].
    destruct (Ht _ _ E) as (p & Hp' & Hhp). assert (p = ptr) as -> by congruence. congruence. }
  split; simpl.
  - intros id Hid. apply lookup_insert_None in Hid as [Hid Hne]. rewrite lookup_insert_ne by done. by apply Hd.
  - intros id dc Hid. destruct (decide (id = rq_id c)) as [->|Hne].
    + rewrite lookup_insert_eq in Hid. injection Hid as <-. exists ptr. by rewrite !lookup_insert_eq.
    + rewrite lookup_insert_ne in Hid by done. destruct (Ht _ _ Hid) as (p & Hp' & Hhp). exists p.
      rewrite lookup_insert_ne by done. split; [done|]. rewrite lookup_insert_ne; [done|]. intros <-. by eapply Hnew.
  - intros p it Hp'. destruct (decide (p = ptr)) as [->|Hne].
    + rewrite lookup_insert_eq in Hp'. injection Hp' as <-. simpl. by rewrite lookup_insert_eq.
    + rewrite lookup_insert_ne in Hp' by done. apply Hh in Hp'. rewrite lookup_insert_ne; [done|].
      intros E. rewrite <- E, (Hd _ Hm) in Hp'. discriminate Hp'.
  - intros d id. specialize (Hp d id). unfold of_dir in *.
    destruct (decide (id = rq_id c)) as [->|Hne].
    + rewrite lookup_insert_eq. simpl. rewrite Hm in Hp. simpl in Hp.
      unfold with_table. destruct d, (rq_dir c); simpl in *; rewrite ?lookup_insert_eq; done.
    + rewrite lookup_insert_ne by done. rewrite <- Hp.
      unfold with_table. destruct d, (rq_dir c); simpl; by rewrite ?lookup_insert_ne.
  - intros d id. specialize (Hr d id). unfold of_dir in *.
    destruct (decide (id = rq_id c)) as [->|Hne].
    + rewrite !lookup_insert_eq. simpl. rewrite Hm in Hr. simpl in Hr.
      unfold with_table. destruct d, (rq_dir c); simpl in *; rewrite ?lookup_insert_eq; done.
    + rewrite !lookup_insert_ne by done. rewrite <- Hr.
      unfold with_table. destruct d, (rq_dir c); simpl; by rewrite ?lookup_insert_ne.
  - intros d. specialize (Hi d). unfold with_table. destruct d, (rq_dir c); simpl in *; done.
Qed.

Lemma dtor_frees_all m db : db_repr m db -> heap (QuiltDB_dtor db) = ∅.
Proof.
  intros [_ _ Hh _ _ _]. apply map_eq. intros ptr. rewrite lookup_empty. unfold QuiltDB_dtor. simpl.
  assert (forall (l : list (Z * Z)) (h : gmap Z InternalTable), (exists id, (id, ptr) ∈ l) \/ h !! ptr = None ->
    foldr (fun p h => delete p.2 h) h l !! ptr = @None InternalTable)
    as Hfold.
  { induction l as [|[i q] l IH]; intros h Hor; simpl; [destruct Hor as [[? ?%elem_of_nil]|]; done|].
    rewrite lookup_delete. destruct (decide (q = ptr)) as [|Hne]; [done|]. apply IH.
    destruct Hor as [[id [E|Hin]%elem_of_cons]|]; [|eauto..]. injection E as _ ->. done. }
  apply Hfold. destruct (heap db !! ptr) as [it|] eqn:E; [left|by right].
  exists (GetID it). apply elem_of_map_to_list. by apply Hh.
Qed.

Lemma creates_refine cs : forall m db,
  db_repr m db ->
  match foldM spec_create cs m with
  | Ok m' => exists db', foldM create cs db = Ok db' /\ db_repr m' db'
  | Fault f => foldM create cs db = Fault f
  | Block => False
  end.
Proof.
  induction cs as [|c cs IH]; intros m db Hr; cbn [foldM]; [by exists db|].
  destruct (spec_create c m) as [m'|f|] eqn:Hs; unfold spec_create in Hs;
    destruct (m !! rq_id c) as [dc|] eqn:Hm; try done; injection Hs as <-; cbn [mbind res_bind].
  - rewrite (create_new m) by done. by apply IH, with_table_repr.
  - by rewrite (create_again m) by (done || by exists dc).
Qed.

(** C33. The table directories refine a finite map: on a newly created database any
    program of CreateHTable and CreateVTable calls does what it does on the map
    from ids to directions and configurations - it aborts at the first id used
    twice, by a failed check in the horizontal call and through an unset pointer in
    the vertical one - and otherwise leaves a database where every table is an
    object of its own, zeroed, bound to the propagator of its direction, and known
    with its size, addition, loop and apply flags to that propagator and with its
    address to that receiver, to no other; destroying it then frees every table. *)
Theorem table_programs_refine cfg ctx cs :
  let db := set_zmq_ctx (QuiltDB_ctor cfg) ctx in
  match foldM spec_create cs ∅ with
  | Ok m => exists db', foldM create cs db = Ok db' /\ db_repr m db' /\ heap (QuiltDB_dtor db') = ∅
  | Fault f => foldM create cs db = Fault f
  | Block => False
  end.
Proof.
  intros db. pose proof (creates_refine cs ∅ db (db_repr_new cfg ctx)) as Hr.
  destruct (foldM spec_create cs ∅) as [m|f|]; [|done..]. destruct Hr as (db' & Hc & Hr). exists db'.
  split; [done|]. split; [done|by eapply dtor_frees_all].
Qed.

(** ** Application threads *)

(** Both propagators run and know the same threads. *)
Definition running (db : QuiltDB) (regs : gset Z) : Prop :=
  forall d, Propagator.state_ (props_of db d) = Propagator.RUN /\ update_push_sock_ (props_of db d) = regs.

Inductive thr_request := Register (thr : Z) | Deregister (thr : Z).
Definition thr_call (db : QuiltDB) (r : thr_request) : Z * QuiltDB :=
  match r with Register thr => RegisterThr db thr | Deregister thr => DeregisterThr db thr end.
Fixpoint thr_calls (db : QuiltDB) (rs : list thr_request) : list Z * QuiltDB :=
  match rs with
  | [] => ([], db)
  | r :: rs => let '(ret, db) := thr_call db r in let '(rets, db) := thr_calls db rs in (ret :: rets, db)
  end.

(** One set of registered threads. *)
Definition spec_thr (regs : gset Z) (r : thr_request) : Z * gset Z :=
  match r with
  | Register thr => if decide (thr ∈ regs) then (-1, regs) else (0, {[thr]} ∪ regs)
  | Deregister thr => if decide (thr ∈ regs) then (0, regs ∖ {[thr]}) else (-1, regs)
  end.
Fixpoint spec_thrs (regs : gset Z) (rs : list thr_request) : list Z * gset Z :=
  match rs with
  | [] => ([], regs)
  | r :: rs => let '(ret, regs) := spec_thr regs r in let '(rets, regs) := spec_thrs regs rs in (ret :: rets, regs)
  end.

Definition set_regs (p : PropObj) (rs : Z * gset Z) : Z * PropObj := (rs.1, set_update_push_sock p rs.2).

Lemma prop_thr_call p thr :
  Propagator.state_ p = Propagator.RUN ->
  Propagator.RegisterThr p thr = set_regs p (spec_thr (update_push_sock_ p) (Register thr)) /\
  Propagator.DeregisterThr p thr = set_regs p (spec_thr (update_push_sock_ p) (Deregister thr)).
Proof.
  intros Hs. unfold Propagator.RegisterThr, Propagator.DeregisterThr, spec_thr, set_regs. rewrite Hs. simpl.
  destruct (decide (thr ∈ update_push_sock_ p)) as [Hin|Hout]; destruct p; simpl in *; [|by rewrite decide_True].
  by rewrite decide_False by auto.
Qed.

Lemma thr_call_spec db regs r :
  running db regs ->
  exists db', thr_call db r = ((spec_thr regs r).1, db') /\ running db' (spec_thr regs r).2.
Proof.
  intros Hrun. destruct (Hrun HPropagator) as [Hs1 Hr1]. destruct (Hrun VPropagator) as [Hs2 Hr2].
  simpl in Hs1, Hr1, Hs2, Hr2.
  destruct r as [thr|thr]; cbn [thr_call]; unfold RegisterThr, DeregisterThr.
  - destruct (prop_thr_call _ thr Hs1) as [-> _]. destruct (prop_thr_call _ thr Hs2) as [Hv _]. rewrite Hr1.
    simpl. rewrite Hv, Hr2. destruct (decide (thr ∈ regs)) as [Hin|Hout];
      simpl; rewrite ?(decide_True (P := thr ∈ regs)), ?(decide_False (P := thr ∈ regs)) by done; simpl; eexists; (split; [done|]); intros []; simpl; auto.
  - destruct (prop_thr_call _ thr Hs1) as [_ ->]. destruct (prop_thr_call _ thr Hs2) as [_ Hv]. rewrite Hr1.
    simpl. rewrite Hv, Hr2. destruct (decide (thr ∈ regs)) as [Hin|Hout];
      simpl; rewrite ?(decide_True (P := thr ∈ regs)), ?(decide_False (P := thr ∈ regs)) by done; simpl; eexists; (split; [done|]); intros []; simpl; auto.
Qed.

(** C34. Registration is all or nothing: on a running database any program of
    RegisterThr and DeregisterThr calls by any threads answers as one set of threads
    would - 0 exactly for a thread that is not, respectively is, in it - and keeps
    the two propagators in agreement: a thread is known to both or to none. *)
Theorem registration_is_a_set db regs rs :
  running db regs ->
  exists db', thr_calls db rs = ((spec_thrs regs rs).1, db') /\ running db' (spec_thrs regs rs).2.
Proof.
  revert db regs. induction rs as [|r rs IH]; intros db regs Hrun; [by exists db|]. cbn [thr_calls spec_thrs].
  destruct (thr_call_spec db regs r Hrun) as (db1 & -> & Hrun1). destruct (spec_thr regs r) as [ret regs1]. simpl in Hrun1 |- *.
  destruct (IH db1 regs1 Hrun1) as (db2 & -> & Hrun2). destruct (spec_thrs regs1 rs). by exists db2.
Qed.

(** ** Shutdown *)

Definition all_join (j : Joins) : bool := join_hp j && join_hr j && join_vp j && join_vr j.
Definition one_signal : Signals :=
  mkSignals [InOther EPInternalTerminate] [InRecv ERInternalTerminate] [InOther EPInternalTerminate] [InRecv ERInternalTerminate].

Lemma prop_signal p thr :
  Propagator.state_ p = Propagator.RUN ->
  Propagator.SignalTerm p thr =
    if decide (thr ∈ update_push_sock_ p)
    then Ok (0, set_have_signaled_term p true, [InOther EPInternalTerminate]) else Fault NullDeref.
Proof.
  intros Hs. unfold Propagator.SignalTerm. rewrite Hs. simpl. destruct (decide (thr ∈ update_push_sock_ p)).
  - by rewrite decide_False by auto.
  - by rewrite decide_True.
Qed.

Lemma shutdown_running db regs thr j :
  running db regs -> (forall d, Receiver.state_ (recv_of db d) = RUN) ->
  if decide (thr ∈ regs) then
    if all_join j then exists db', ShutDown db thr j = Ok (0, db', one_signal) /\ running db' regs
    else ShutDown db thr j = Block
  else ShutDown db thr j = Fault NullDeref.
Proof.
  intros Hrun Hrecv. destruct (Hrun HPropagator) as [Hs1 Hr1]. destruct (Hrun VPropagator) as [Hs2 Hr2].
  pose proof (Hrecv HPropagator) as Hs3. pose proof (Hrecv VPropagator) as Hs4.
  simpl in Hs1, Hr1, Hs2, Hr2, Hs3, Hs4.
  unfold ShutDown, Receiver.SignalTerm. rewrite !prop_signal, Hr1, Hr2, Hs3, Hs4 by done.
  destruct (decide (thr ∈ regs)) as [Hin|Hout]; [simpl|done].
  rewrite ?(decide_True (P := thr ∈ regs)) by done. simpl.
  unfold Propagator.WaitTerm, Receiver.WaitTerm. simpl. rewrite Hs1, Hs2. simpl.
  destruct j as [[] [] [] []]; try reflexivity. eexists. split; [reflexivity|]. intros []; simpl; auto.
Qed.

(** C35. Shutdown of a running database: called by a registered thread it sends each of
    the four threads one termination message, and no other, and returns 0 exactly
    when all four return - until then it waits; called by any other thread it
    dereferences a null socket, and on a database that has not been started, or has
    terminated already, it aborts. *)
Theorem shutdown_cases db regs thr j :
  (running db regs /\ (forall d, Receiver.state_ (recv_of db d) = RUN) \/ Propagator.state_ (hpropagator_ db) <> Propagator.RUN) ->
  if decide (Propagator.state_ (hpropagator_ db) = Propagator.RUN) then
    if decide (thr ∈ regs) then
      if all_join j then exists db', ShutDown db thr j = Ok (0, db', one_signal) /\ running db' regs
      else ShutDown db thr j = Block
    else ShutDown db thr j = Fault NullDeref
  else ShutDown db thr j = Fault CheckFailed.
Proof.
  intros [[Hrun Hrecv]|Hns].
  - rewrite decide_True by apply (Hrun HPropagator). by apply shutdown_running.
  - rewrite decide_False by done. unfold ShutDown, Propagator.SignalTerm.
    by rewrite (decide_True (P := Propagator.state_ (hpropagator_ db) <> _)).
Qed.

(** ** A concrete database *)

Definition demo_node_info (id : Z) : NodeInfo := mkNodeInfo id "10.0.0.1" "9000" "10.0.0.1" "9001".
(** Neither direction has neighbours. *)
Definition lone_config : DBConfig :=
  mkDBConfig 0 (demo_node_info 0) (demo_node_info (-1)) 0 1 (demo_node_info 1) (demo_node_info (-1)) 0 500000 500000.
Definition nothing : Outside := mkOutside [] [] [].
Definition lone_db : QuiltDB :=
  match Start (set_zmq_ctx (QuiltDB_ctor lone_config) 1) nothing nothing with
  | Ok (_, db, _) => db
  | _ => QuiltDB_ctor lone_config
  end.

Lemma lone_running : running lone_db ∅.
Proof. by intros []. Qed.

(** Thread 7 registers, again, and leaves; thread 8 tries to leave. *)
Lemma registration_is_a_set_witness :
  exists db', thr_calls lone_db [Register 7; Register 7; Deregister 8; Deregister 7] = ([0; -1; -1; 0], db') /\ running db' ∅.
Proof.
  destruct (registration_is_a_set lone_db ∅ [Register 7; Register 7; Deregister 8; Deregister 7] lone_running)
    as (db' & Hc & Hr).
  exists db'. split; [exact Hc|].
  replace (∅ : gset Z) with (spec_thrs ∅ [Register 7; Register 7; Deregister 8; Deregister 7]).2; [exact Hr|].
  apply (bool_decide_unpack _). vm_compute. exact I.
Defined.

Definition lone_registered : QuiltDB := (RegisterThr lone_db 7).2.

Lemma shutdown_cases_witness :
  exists db', ShutDown lone_registered 7 (mkJoins true true true true) = Ok (0, db', one_signal).
Proof.
  destruct (shutdown_cases lone_registered {[7]} 7 (mkJoins true true true true)) as (db' & Hs & _).
  - left. split; intros []; split; reflexivity.
  - exists db'. exact Hs.
Defined.
