(* ===== verification/Node.v ===== *)
(** From the calls of the application to the threads: a database that was created,
    given tables and started has its threads in the states the results on the threads
    start from, so those results speak about databases. *)
From S2P Require Import Prelude Common MemStruct MemStructSpec Buffer ValueOps Protocol Propagator PropagatorSpec PropagatorTrace PropagatorRun PropagatorProps PropagatorLocal InternalTable Receiver ReceiverSpec ReceiverProps ReceiverRun System QuiltDB QuiltDBProps.

(** ** By direction *)

Definition prop_config (db : QuiltDB) (d : PropRef) : PropagatorConfig :=
  match d with HPropagator => hprop_config db | VPropagator => vprop_config db end.
Definition recv_config (db : QuiltDB) (d : PropRef) : ReceiverConfig :=
  match d with HPropagator => hrecv_config db | VPropagator => vrecv_config db end.
Definition of_pair {A} (p : A * A) (d : PropRef) : A := match d with HPropagator => p.1 | VPropagator => p.2 end.

(** ** Starting *)

Lemma par_Ok {A B} (a : res A) (b : res B) xy : par a b = Ok xy <-> a = Ok xy.1 /\ b = Ok xy.2.
Proof. destruct xy, a, b; simpl; naive_solver. Qed.

Lemma collect_inits_frame n : forall net (s s' : RecvThr) rem,
  collect_inits n net s = Ok (s', rem) ->
  Receiver.heap s' = Receiver.heap s /\ obj s' = obj s /\ my_updates s' = my_updates s.
Proof.
  induction n as [|n IH]; intros net s s' rem Hc; [by injection Hc as -> _|].
  destruct net as [|[] net]; try done; cbn [collect_inits] in Hc; by apply IH in Hc.
Qed.

Lemma ack_rounds_frame rs : forall want pending (s s' : RecvThr) rem,
  ack_rounds want pending rs s = Ok (s', rem) ->
  Receiver.heap s' = Receiver.heap s /\ obj s' = obj s /\ my_updates s' = my_updates s.
Proof.
  induction rs as [|r rs IH]; intros [|want] pending s s' rem Ha; simpl in Ha; try done;
    try by injection Ha as -> _. inv_bind. destruct v as [w p]. by apply IH in Ha.
Qed.

(** The handshake touches neither the tables nor the directory. *)
Lemma receiver_handshake_frame cfg inits rounds r h s rem :
  Receiver.thread_handshake cfg inits rounds (Receiver.thread_init r h) = Ok (s, rem) ->
  Receiver.heap s = h /\ Receiver.table_dir_ (obj s) = Receiver.table_dir_ r /\ Receiver.state_ (obj s) = RUN /\
  my_updates s = ∅.
Proof.
  unfold Receiver.thread_handshake. intros Hh. inv_bind. destruct v as [s1 rem1]. injection Hh as <- _.
  destruct (0 <? num_expected_propagators_ cfg); inv_bind.
  - destruct v as [s2 rem2]. inv_bind. destruct v as [s3 rem3]. injection Hv as <- _.
    apply collect_inits_frame in Hv0 as (Hh1 & Ho1 & Hm1). apply ack_rounds_frame in Hv1 as (Hh2 & Ho2 & Hm2).
    simpl in *. rewrite Ho2, Ho1, Hh2, Hh1, Hm2, Hm1. done.
  - by subst s1.
Qed.

(** What [Start] returns on a database with tables: for each direction the handshake
    of each thread, on the object with its configuration. *)
Lemma start_inv m db hout vout ret db' thrs d :
  db_repr m db -> Start db hout vout = Ok (ret, db', thrs) ->
  Propagator.thread_handshake (prop_thrinfo (prop_config db d)) (sub_in (of_pair (hout, vout) d))
    (Propagator.thread_init (prop_thrinfo (prop_config db d))
       (set_thrinfo (props_of db d) (Some (prop_thrinfo (prop_config db d)))) [EPRInit]) = Ok (of_pair thrs d).1 /\
  Receiver.thread_handshake (recv_thrinfo (recv_config db d)) (inits (of_pair (hout, vout) d)) (rounds (of_pair (hout, vout) d))
    (Receiver.thread_init (mkRecvObj INIT (Some (recv_thrinfo (recv_config db d)))
       (have_signaled_term_ (recv_of db d)) (Receiver.table_dir_ (recv_of db d))) (QuiltDB.heap db)) = Ok (of_pair thrs d).2.
Proof.
  intros [_ _ _ _ _ Hi] Hs. destruct (Hi HPropagator) as [Hp1 Hr1]. destruct (Hi VPropagator) as [Hp2 Hr2].
  simpl in Hp1, Hr1, Hp2, Hr2. unfold Start in Hs. inv_bind. destruct v0 as [hthr vthr]. injection Hs as _ _ <-.
  apply par_Ok in Hv0 as [Hh Hv1]. unfold start_threads, Propagator.Start, Receiver.Start in Hh, Hv1.
  simpl in Hh, Hv1. rewrite Hp1, Hr1 in Hh. rewrite Hp2, Hr2 in Hv1. simpl in Hh, Hv1.
  apply par_Ok in Hh as [Hh1 Hh2]. apply par_Ok in Hv1 as [Hv1 Hv2]. by destruct d.
Qed.

(** The database then has the objects of the threads, and its tables as before. *)
Lemma start_db db hout vout ret db' thrs :
  Start db hout vout = Ok (ret, db', thrs) ->
  ret = 0 /\ QuiltDB.heap db' = QuiltDB.heap db /\ QuiltDB.table_dir_ db' = QuiltDB.table_dir_ db /\
  forall d, props_of db' d = Propagator.obj (of_pair thrs d).1.1 /\ recv_of db' d = obj (of_pair thrs d).2.1.
Proof.
  unfold Start. intros Hs. inv_bind. destruct v0 as [hthr vthr]. injection Hs as <- <- <-. split_and!; try done.
  by intros [].
Qed.

Lemma prop_handshake_frame cfg sub_in pin p s rem :
  Propagator.thread_handshake cfg sub_in (Propagator.thread_init cfg p pin) = Ok (s, rem) ->
  Propagator.obj s = Propagator.set_state p Propagator.RUN.
Proof.
  unfold Propagator.thread_handshake. intros Hh. inv_bind. destruct v as [msg s0]. inv_bind.
  destruct v0 as [s2 sub2]. injection Hh as <- _.
  assert (Propagator.obj s0 = p) as Hs0.
  { unfold recv_pair in Hv. destruct pin; simpl in Hv; [done|]. by injection Hv as _ <-. }
  enough (Propagator.obj s2 = p) as E by (simpl; by rewrite E).
  destruct (0 <=? node_id_ (downstream_recv_ cfg)); [|by injection Hv1 as <- _].
  destruct sub_in as [|ack sub]; [done|]. inv_bind. by subst.
Qed.

(** ** Ready to run *)

(** The tables of direction [d], with the value type their configuration describes. *)
Definition config_ok (v : VType) (c : TableConfig) : Prop :=
  cfg_vsize_ c = Z.of_nat (v_size v) /\ cfg_vadd_func_ c = Some (v_add v) /\ cfg_vsub_func_ c = Some (v_sub v) /\
  cfg_do_user_cbk_ c = false.
Definition has_tables (d : PropRef) (m : TableSpec) (tables : gmap Z VType) : Prop :=
  forall t, match tables !! t with
            | Some v => exists c, m !! t = Some (d, c) /\ config_ok v c
            | None => forall c, m !! t <> Some (d, c)
            end.

Section ready.
Context (m : TableSpec) (tables : gmap Z VType) (db : QuiltDB) (d : PropRef).
Hypothesis db_ok : db_repr m db.
Hypothesis tables_here : has_tables d m tables.

Lemma prop_dir_ok : tables_ok tables (props_of db d).
Proof.
  destruct db_ok as [_ _ _ Hp _ _]. specialize (Hp d). split.
  - apply set_eq. intros t. rewrite !elem_of_dom, Hp. specialize (tables_here t).
    destruct (tables !! t) as [v|].
    + destruct tables_here as (c & -> & _). simpl. unfold of_dir. rewrite decide_True by done. split; by eexists.
    + split; [|by intros []]. intros [i Hi]. destruct (m !! t) as [[d' c]|] eqn:E; [|done]. simpl in Hi.
      unfold of_dir in Hi. simpl in Hi. case_decide as Hd; [|done]. subst d'. by destruct (tables_here c).
  - intros t v Hv. specialize (tables_here t). rewrite Hv in tables_here.
    destruct tables_here as (c & Hm & Hs & Ha & _). exists (info_of c). rewrite Hp, Hm. simpl. unfold of_dir.
    rewrite decide_True by done. done.
Qed.

Lemma fresh_table_ok t v c s :
  m !! t = Some (d, c) -> config_ok v c ->
  Receiver.heap s = heap db -> Receiver.table_dir_ (obj s) = Receiver.table_dir_ (recv_of db d) ->
  exists ptr, has_table s t v ptr (table_of t (d, c)).
Proof.
  intros Hm (Hs & Ha & Hsub & Hc) Hh Hd. destruct db_ok as [_ Ht _ _ Hr _].
  destruct (Ht t _ Hm) as (ptr & Hdir & Hheap). exists ptr. split; try done.
  - rewrite Hd, Hr, Hm. simpl. rewrite Hdir. simpl. unfold of_dir. by rewrite decide_True.
  - by rewrite Hh.
Qed.

Lemma recv_dir_inj t1 t2 ptr :
  Receiver.table_dir_ (recv_of db d) !! t1 = Some ptr -> Receiver.table_dir_ (recv_of db d) !! t2 = Some ptr -> t1 = t2.
Proof.
  destruct db_ok as [_ Ht _ _ Hr _]. rewrite !Hr.
  assert (forall t, (m !! t ≫= fun dc => table_dir_ db !! t ≫= of_dir d dc) = Some ptr ->
    exists dc, heap db !! ptr = Some (table_of t dc)) as Hone.
  { intros t. destruct (m !! t) as [dc|] eqn:E; [|done]. simpl. destruct (Ht t dc E) as (p & -> & Hp). simpl.
    unfold of_dir. case_decide; [|done]. intros [= <-]. by exists dc. }
  intros (dc1 & H1)%Hone (dc2 & H2)%Hone. rewrite H1 in H2. injection H2 as Heq. unfold table_of in *. congruence.
Qed.

(** What the results on the threads ask of a propagator and of a receiver. *)
Lemma started_ready hout vout ret db' thrs :
  Start db hout vout = Ok (ret, db', thrs) ->
  (let c := prop_config db d in
   (0 <= pc_my_id_ c /\ is_i32 (pc_my_id_ c)) /\ 0 < pc_nanosec_ c /\ 0 <= node_id_ (pc_downstream_recv_ c) ->
   runs_from (prop_thrinfo c) tables (set_thrinfo (props_of db d) (Some (prop_thrinfo c))) (of_pair thrs d).1.1) /\
  recv_ready tables (of_pair thrs d).2.1 /\
  forall t v, tables !! t = Some v -> exists c ptr,
    m !! t = Some (d, c) /\ has_table (of_pair thrs d).2.1 t v ptr (table_of t (d, c)).
Proof.
  intros Hs. destruct (start_inv m db hout vout ret db' thrs d db_ok Hs) as [Hp Hr].
  destruct (of_pair thrs d) as [[ps prem] [rs rrem]]. simpl in *.
  apply receiver_handshake_frame in Hr as (Hh & Hd & Hrun & _). simpl in Hd.
  assert (forall t v, tables !! t = Some v -> exists c ptr,
    m !! t = Some (d, c) /\ has_table rs t v ptr (table_of t (d, c))) as Htabs.
  { intros t v Hv. specialize (tables_here t). rewrite Hv in tables_here. destruct tables_here as (c & Hm & Hc).
    destruct (fresh_table_ok t v c rs Hm Hc Hh Hd) as (ptr & Hpt). by exists c, ptr. }
  split_and!; [|split|done].
  - intros (Hid & Hn & Hdown). split; [done|]. split; [done|].
    split; [apply Z.leb_le; exact Hdown|]. split; [|eauto]. apply prop_dir_ok.
  - done.
  - intros t v Hv. destruct (Htabs t v Hv) as (c & ptr & _ & Hpt). eauto.
  - rewrite Hd. apply recv_dir_inj.
Qed.
End ready.

(** The value of [k] in the table [t] a receiver thread is given. *)
Definition stored (v : VType) (s : RecvThr) (t k : Z) : option (list byte) :=
  ptr ← Receiver.table_dir_ (obj s) !! t;
  it ← Receiver.heap s !! ptr;
  Some (value_of (n := v_size v) it k).

(** C1. What one node adds, its neighbour has. Two applications create their
    databases, make the same tables in one direction and start; let the threads of
    the first node update its tables in any order, with ticks of the timer in
    between and one at the end, and let the second node, which is downstream, read
    what was sent. Then the first node's propagator ships everything without a
    fault, the second node's receiver takes every block, and in every table that
    applies updates the value of each key is the sum of exactly the deltas the
    first node's threads logged for it, whatever the batching was. *)
Theorem increments_reach_neighbour `{Allocator} `{UnorderedIter} d tables mA mB dbA dbB hA vA hB vB rA rB dbA' dbB' thrA thrB
    es acks :
  db_repr mA dbA -> has_tables d mA tables -> Start dbA hA vA = Ok (rA, dbA', thrA) ->
  db_repr mB dbB -> has_tables d mB tables -> Start dbB hB vB = Ok (rB, dbB', thrB) ->
  let up := prop_config dbA d in
  let down := recv_config dbB d in
  0 <= pc_my_id_ up /\ is_i32 (pc_my_id_ up) -> 0 < pc_nanosec_ up -> 0 <= node_id_ (pc_downstream_recv_ up) ->
  0 < rc_num_expected_propagators_ down -> 0 <= rc_my_id_ down -> rc_my_id_ down <> pc_my_id_ up ->
  Forall local_event es -> evs_ok (prop_thrinfo up) tables (es ++ [Propagator.EvTimer acks]) (of_pair thrA d).1.1 ->
  exists sA sB,
    Propagator.thread_loop (prop_thrinfo up) (es ++ [Propagator.EvTimer acks]) (of_pair thrA d).1.1 = Ok (Propagator.Continue, sA) /\
    Receiver.thread_loop (recv_thrinfo down) (arriving (Propagator.out sA)) (of_pair thrB d).2.1 = Ok (Continue, sB) /\
    forall t v c, tables !! t = Some v -> mB !! t = Some (d, c) -> cfg_apply_updates_ c = true ->
      forall k, stored v sB t k = Some (vsum (VG := v_group v) (deltas_for k (es ≫= received_updates t))).
Proof.
  intros HA HtA HsA HB HtB HsB up down Hid Hn Hdown Hexp Hmy Hne Hev Hok.
  destruct (started_ready mA tables dbA d HA HtA hA vA rA dbA' thrA HsA) as [HrunA _].
  destruct (started_ready mB tables dbB d HB HtB hB vB rB dbB' thrB HsB) as (_ & HreadyB & HtabB).
  specialize (HrunA (conj Hid (conj Hn Hdown))).
  destruct (link_delivers (prop_thrinfo up) (recv_thrinfo down) tables _ _ es acks _ HrunA Hev Hok Hexp Hmy Hne HreadyB)
    as (sA & sB & HlA & HlB & Hval).
  exists sA, sB. split; [done|]. split; [done|]. intros t v c Ht Hm Happ k.
  destruct (HtabB t v Ht) as (c' & ptr & Hm' & Htab). assert (c' = c) as -> by congruence.
  destruct (Hval t v ptr _ Ht Htab Happ) as [Hlen (it' & [Hd' Hh' _ _ _] & Hv)]. unfold stored. rewrite Hd'. simpl. rewrite Hh'. simpl.
  f_equal. rewrite Hv. change (value_of (n := v_size v) (table_of t (d, c)) k) with (zero_bytes (v_size v)).
  apply vplus_zero, Hlen.
Qed.

(** ** Two concrete nodes *)

#[local] Existing Instance gmap_order.

(** Node 2 is upstream of node 6 in the horizontal direction; vertically both are
    alone. Both have one horizontal table of integers, 0. *)
Definition pair_config (my_hid down expected : Z) : DBConfig :=
  mkDBConfig my_hid (mkNodeInfo my_hid "10.0.0.6" "9000" "10.0.0.6" "9001")
    (mkNodeInfo down "10.0.0.6" "9000" "10.0.0.6" "9001") expected
    1 (demo_node_info 1) (demo_node_info (-1)) 0 1000 1000.
Definition pair_requests : list table_request := [mkRequest HPropagator 0 demo_config].
Definition pair_tables : TableSpec := {[ 0 := (HPropagator, demo_config) ]}.
Definition pair_db (my_hid down expected : Z) : QuiltDB :=
  match foldM create pair_requests (set_zmq_ctx (QuiltDB_ctor (pair_config my_hid down expected)) 1) with
  | Ok db => db
  | _ => QuiltDB_ctor (pair_config my_hid down expected)
  end.
Definition from_downstream : Outside := mkOutside [PropInitACK; PropStart] [] [].
Definition from_upstream : Outside := mkOutside [] [NetInit 2] [[NetInitAckAck 2]].

Lemma pair_db_repr my_hid down expected : db_repr pair_tables (pair_db my_hid down expected).
Proof.
  pose proof (creates_refine pair_requests ∅ _ (db_repr_new (pair_config my_hid down expected) 1)) as Hr.
  destruct Hr as (db & Hc & Hr). unfold pair_db. by rewrite Hc.
Qed.

Lemma pair_has_tables : has_tables HPropagator pair_tables demo_tables.
Proof.
  intros t. unfold demo_tables, pair_tables. destruct (decide (t = 0)) as [->|Hne].
  - rewrite lookup_singleton_eq. by exists demo_config.
  - rewrite lookup_singleton_ne by done. intros c. by rewrite lookup_singleton_ne.
Qed.

Definition threads_of (r : res (Z * QuiltDB * (Threads * Threads))) : Threads * Threads :=
  match r with
  | Ok (_, _, t) => t
  | _ => let p := (Propagator.thread_init demo_cfg demo_obj [], []) in
         let q := (Receiver.thread_init Receiver_ctor ∅, []) in ((p, q), (p, q))
  end.
Definition db_of (r : res (Z * QuiltDB * (Threads * Threads))) : QuiltDB :=
  match r with Ok (_, db, _) => db | _ => lone_db end.
Definition up_start := Start (pair_db 2 6 0) from_downstream nothing.
Definition down_start := Start (pair_db 6 (-1) 1) from_upstream nothing.

Lemma started_eta r :
  match r with Ok (z, _, _) => z = 0 | _ => False end -> r = Ok (0, db_of r, threads_of r).
Proof. destruct r as [[[z db] t]| |]; simpl; [by intros ->|done..]. Qed.

Lemma up_started : up_start = Ok (0, db_of up_start, threads_of up_start).
Proof. apply started_eta. vm_compute. reflexivity. Qed.
Lemma down_started : down_start = Ok (0, db_of down_start, threads_of down_start).
Proof. apply started_eta. vm_compute. reflexivity. Qed.

Lemma up_events_ok :
  evs_ok demo_cfg demo_tables (demo_events ++ [Propagator.EvTimer [EMyUpdatesACK]]) (threads_of up_start).1.1.1.
Proof.
  split; [|intros s1 ->%next_turn; split; [|intros s2 ->%next_turn; split; [|done]]].
  - exists int_vtype, (mkRange 0 (-1)). split_and!; try done; vm_compute; done.
  - exists int_vtype, (mkRange 0 0). split_and!; try done; vm_compute; done.
  - split; [|by vm_compute].
    intros t v ups peers Ht Hv Hu Hp. unfold demo_tables in Hv.
    apply lookup_singleton_Some in Hv as [<- <-]. vm_compute in Hu, Hp.
    injection Hu as <-. injection Hp as <-. split; vm_compute; done.
Qed.

(** Two increments of key 7 at the upstream node, by 1 and by 2; the downstream
    node's table then has 3 there. *)
Lemma increments_reach_neighbour_witness :
  exists sA sB, Propagator.thread_loop demo_cfg (demo_events ++ [Propagator.EvTimer [EMyUpdatesACK]]) (threads_of up_start).1.1.1
      = Ok (Propagator.Continue, sA) /\
    Receiver.thread_loop (recv_thrinfo (hrecv_config (pair_db 6 (-1) 1))) (arriving (Propagator.out sA)) (threads_of down_start).1.2.1
      = Ok (Continue, sB) /\
    stored int_vtype sB 0 7 = Some (demo_bytes 3).
Proof.
  destruct (increments_reach_neighbour HPropagator demo_tables pair_tables pair_tables (pair_db 2 6 0) (pair_db 6 (-1) 1)
    from_downstream nothing from_upstream nothing 0 0 (db_of up_start) (db_of down_start)
    (threads_of up_start) (threads_of down_start) demo_events [EMyUpdatesACK]) as (sA & sB & HA & HB & Hval).
  - apply pair_db_repr.
  - exact pair_has_tables.
  - exact up_started.
  - apply pair_db_repr.
  - exact pair_has_tables.
  - exact down_started.
  - vm_compute. repeat split; congruence.
  - vm_compute; reflexivity.
  - vm_compute; congruence.
  - vm_compute; reflexivity.
  - vm_compute; congruence.
  - vm_compute; congruence.
  - repeat constructor.
  - exact up_events_ok.
  - exists sA, sB. split; [exact HA|]. split; [exact HB|].
    rewrite (Hval 0 int_vtype demo_config eq_refl eq_refl eq_refl 7). by vm_compute.
Defined.
