(* ===== verification/RingNode.v ===== *)
(** Rings of started databases: what one lap of a block does to the table of every
    node, and what the next one does. *)
From S2P Require Import Prelude Common MemStruct MemStructSpec Buffer ValueOps Protocol Propagator PropagatorSpec PropagatorTrace PropagatorRun PropagatorProps RingProp InternalTable Receiver ReceiverSpec ReceiverProps ReceiverRun RingRecv System Ring QuiltDB QuiltDBProps Node.

Section nodes.
Context `{Allocator} `{UnorderedIter} (dir : PropRef) (t thr : Z) (v : VType).
Notation n := (v_size v).
Notation logs := (list (Z * list byte)).
Notation vs := (vsum (VG := v_group v)).

(** Node [id] as its application leaves it: a database that was created and given
    tables, with table [t] in direction [dir] - of the values of [v], with [loop],
    [apply_updates] and [forward_updates] set - and started with an upstream node and, if
    [down], a downstream one; then thread [thr] registered. *)
Definition deployed (down : bool) (id : Z) (m : member) : Prop :=
  exists spec tables c db hout vout ret db' thrs db'',
    db_repr spec db /\ has_tables dir spec tables /\ spec !! t = Some (dir, c) /\ tables !! t = Some v /\
    cfg_loop_ c = true /\ cfg_apply_updates_ c = true /\ cfg_forward_updates_ c = true /\
    Start db hout vout = Ok (ret, db', thrs) /\ RegisterThr db' thr = (0, db'') /\
    (let pc := prop_config db dir in
     pc_my_id_ pc = id /\ (0 <= id /\ is_i32 id) /\ 0 < pc_nanosec_ pc /\ (0 <=? node_id_ (pc_downstream_recv_ pc)) = down) /\
    0 < rc_num_expected_propagators_ (recv_config db dir) /\
    m = mkMember (prop_thrinfo (prop_config db dir)) (of_pair thrs dir).1.1
          (recv_thrinfo (recv_config db dir)) (of_pair thrs dir).2.1 (props_of db'').

Lemma registered_both db db' d :
  RegisterThr db thr = (0, db') -> Propagator.state_ (props_of db' d) = Propagator.RUN /\ thr ∈ update_push_sock_ (props_of db' d).
Proof.
  unfold RegisterThr, Propagator.RegisterThr. intros Hr.
  destruct (decide (Propagator.state_ (hpropagator_ db) <> Propagator.RUN)) as [|H1]; [done|].
  destruct (decide (thr ∈ update_push_sock_ (hpropagator_ db))); [done|]. simpl in Hr.
  destruct (decide (Propagator.state_ (vpropagator_ db) <> Propagator.RUN)) as [|H2]; [done|].
  destruct (decide (thr ∈ update_push_sock_ (vpropagator_ db))); [done|]. injection Hr as <-.
  apply dec_stable in H1, H2. destruct d; simpl; split; (done || set_solver).
Qed.

Lemma deployed_fresh down id m :
  deployed down id m -> fresh_node dir t thr v down id m [] /\ forall k, value t v m k = zero_bytes n.
Proof.
  intros (spec & tables & c & db & hout & vout & ret & db' & thrs & db'' & Hdb & Htabs & Hspec & Hv & Hloop & Happ & Hfw & Hs & Hreg &
    (Hid & Hido & Hns & Hds) & Hex & ->).
  destruct (started_ready spec tables db dir Hdb Htabs hout vout ret db' thrs Hs) as (_ & [Hrrun _ _] & Hhas).
  destruct (Hhas t v Hv) as (c' & ptr & Hc' & Hht). assert (c' = c) as -> by congruence.
  pose proof (Htabs t) as Hcfg. rewrite Hv in Hcfg. destruct Hcfg as (c' & Hc'' & Hsz & Hadd & _).
  assert (c' = c) as -> by congruence.
  destruct (start_inv spec db hout vout ret db' thrs dir Hdb Hs) as [Hp Hr].
  destruct (of_pair thrs dir) as [[ps prem] [rs rrem]]. simpl in *. apply receiver_handshake_frame in Hr as (_ & _ & _ & Hmy).
  pose proof (started_holding _ _ ps t v (info_of c) _ _ Hp) as Hh.
  assert (taking dir t v rs (table_of t (dir, c)) []) as Htk.
  { split; try done; [by exists ptr|]. by rewrite Hmy, lookup_empty. }
  set (m := mkMember _ _ _ _ _). split; [split|].
  - destruct (registered_both db' db'' dir Hreg) as [Hrun Hsock]. split; try done. by destruct dir.
  - split; [apply Hh; try done|by exists (table_of t (dir, c))].
    simpl. rewrite (dr_prop _ _ Hdb), Hspec. simpl. unfold of_dir. by rewrite decide_True.
  - intros k. rewrite (taking_value dir t v m _ _ Htk). done.
Qed.

Lemma grown_from_nothing m m' L :
  (forall k, value t v m k = zero_bytes n) -> Forall (update_ok n) L -> grows t v m m' L ->
  forall k, value t v m' k = vs (deltas_for k L).
Proof. intros Hz HL Hg k. rewrite (Hg k), Hz. by apply vplus_zero, length_vsum, deltas_ok. Qed.

(** The blocks of a lap that fits have fewer updates than a sequence number holds. *)
Lemma fits_counts nups nslots k : fits n nups nslots -> (k <= nups)%nat -> is_i64 (Z.of_nat k + 1).
Proof. unfold fits, is_i64. nia. Qed.

Lemma deployed_relays (rs : list (Z * member * logs)) nups nslots :
  Forall (fun r => deployed true r.1.1 r.1.2 /\ Forall (log_ok v) r.2) rs -> fits n nups nslots ->
  (length (concat rs.*2) <= nups)%nat -> Forall (relay_ok dir t thr v) rs.
Proof.
  intros Hrs Hfit. induction Hrs as [|r rs [Hd Hl] _ IH]; intros Hle; [constructor|].
  cbn [fmap list_fmap concat] in Hle. rewrite length_app in Hle. constructor; [|apply IH; lia].
  split; [|split; [done|]].
  - exists []. by apply deployed_fresh.
  - eapply fits_counts; [exact Hfit|lia].
Qed.

Lemma logs_ok (rs : list (Z * member * logs)) j :
  Forall (fun r => deployed true r.1.1 r.1.2 /\ Forall (log_ok v) r.2) rs -> Forall (update_ok n) (concat (take j rs.*2)).
Proof.
  intros Hrs. apply List.Forall_concat, Forall_take, Forall_fmap. eapply List.Forall_impl; [|exact Hrs].
  intros r [_ Hr]. by apply log_update_ok.
Qed.

(** C4. Once around. In a ring of any number of started nodes let the threads of one
    node update their table and its batch be due; let its block go to the next node,
    whose threads have made updates too and whose batch is then due, and so on until a
    block comes back to the first. No thread fails, and then every node's table has what
    was logged by the nodes up to and including it - the first node's, and the last
    one's, what was logged by all - each delta once, the node's own among them, although
    the block that comes back to the first node brings that node's own deltas back
    to it. *)
Theorem lap_delivers id o us (rs : list (Z * member * logs)) :
  deployed true id o -> Forall (log_ok v) us -> us <> [] ->
  Forall (fun r => deployed true r.1.1 r.1.2 /\ Forall (log_ok v) r.2) rs -> NoDup (id :: ((fun r => r.1.1) <$> rs)) ->
  fits n (length us + length (concat rs.*2)) (1 + length rs) ->
  exists o' ms, lap t thr o us (relays rs) = Ok (o', ms) /\ length ms = length rs /\
    (forall k, value t v o' k = vs (deltas_for k (us ++ concat rs.*2))) /\
    forall j m', ms !! j = Some m' ->
      forall k, value t v m' k = vs (deltas_for k (us ++ concat (take (S j) rs.*2))).
Proof.
  intros Ho Hus Hne Hrs Hnd Hfit. destruct (deployed_fresh true id o Ho) as [Hf Hz]. pose proof (log_update_ok v _ Hus) as Huo.
  destruct (lap_runs dir t thr v id o us rs Hf Hus) as (o' & ms & Hlap & Hg & Hlen & Hgs); try done.
  { eapply fits_counts; [exact Hfit|lia]. }
  { eapply deployed_relays; [exact Hrs|exact Hfit|lia]. }
  exists o', ms. split; [done|]. split; [done|]. split.
  - apply (grown_from_nothing o); [done| |done]. apply Forall_app. split; [done|].
    rewrite <- (take_ge rs.*2 (length rs.*2)) by done. by apply logs_ok.
  - intros j m' Hm'. destruct (lookup_lt_is_Some_2 rs j) as [r Hr]; [rewrite <- Hlen; by eapply lookup_lt_Some|].
    pose proof (Hgs j r m' Hr Hm') as Hg'. rewrite Forall_forall in Hrs. destruct (Hrs r) as [Hd _]; [by eapply list_elem_of_lookup_2|].
    destruct (deployed_fresh true _ _ Hd) as [_ Hzr]. apply (grown_from_nothing r.1.2); [done| |done].
    apply Forall_app. split; [done|]. apply logs_ok. by apply Forall_forall.
Qed.

(** C5. Twice around, two nodes. After the first lap the tables agree; but the first
    node, which removed its own range from the block that came back, passed the other
    node's updates to its propagator without their range, which is behind the one it
    removed and no iteration over the ranges finds any more. They go out with that
    node's next batch, and the other node, which recognises its own updates by their
    range only, adds them a second time: its table is ahead of the first node's by
    everything it logged in the first lap. *)
Theorem second_lap_doubles id o us id1 m us1 us2 :
  deployed true id o -> deployed true id1 m -> id <> id1 -> Forall (log_ok v) (us ++ us1 ++ us2) ->
  us <> [] -> us1 <> [] -> us2 <> [] -> fits n (length us + length us1 + length us2) 2 ->
  exists o1 m1 o2 blocks o3 m2, lap t thr o us [(m, us1)] = Ok (o1, [m1]) /\
    work t thr us2 o1 = Ok o2 /\ tick t o2 = Ok (blocks, o3) /\ take_in blocks m1 = Ok m2 /\
    (forall k, value t v o1 k = vs (deltas_for k (us ++ us1)) /\ value t v m1 k = value t v o1 k) /\
    forall k, value t v o3 k = vs (deltas_for k (us ++ us1 ++ us2)) /\
              value t v m2 k = vplus (ValueGroup := v_group v) (value t v o3 k) (vs (deltas_for k us1)).
Proof.
  intros Ho Hm Hid [Hus [Hus1 Hus2]%Forall_app]%Forall_app Hne Hne1 Hne2 Hfit.
  destruct (deployed_fresh true id o Ho) as [Hf Hz]. destruct (deployed_fresh true id1 m Hm) as [Hf1 Hz1].
  pose proof (log_update_ok v _ Hus) as Huo. pose proof (log_update_ok v _ Hus1) as Huo1. pose proof (log_update_ok v _ Hus2) as Huo2.
  destruct (pair_second_lap dir t thr v id o us id1 m us1 us2 Hf Hus)
    as (o1 & m1 & o2 & blocks & o3 & m2 & Hlap & Hw & Ht & Hti & Hg1 & Hg2 & Hg3 & Hg4); try done.
  { eapply fits_counts; [exact Hfit|lia]. }
  { by exists []. }
  { eapply fits_counts; [exact Hfit|lia]. }
  exists o1, m1, o2, blocks, o3, m2. split_and!; try done.
  - intros k. assert (Forall (update_ok n) (us ++ us1)) as H1 by (by apply Forall_app).
    assert (Forall (update_ok n) (us1 ++ us)) as H2 by (by apply Forall_app).
    rewrite (grown_from_nothing o o1 _ Hz H1 Hg1), (grown_from_nothing m m1 _ Hz1 H2 Hg2). split; [done|].
    rewrite !deltas_for_app. apply vsum_perm; [|apply Permutation_app_comm]. apply Forall_app; split; by apply deltas_ok.
  - intros k. assert (Forall (update_ok n) (us ++ us1 ++ us2)) as Hall by (by rewrite !Forall_app).
    assert (Forall (update_ok n) (us1 ++ us ++ us1 ++ us2)) as Hall1 by (by rewrite !Forall_app).
    rewrite (grown_from_nothing o o3 _ Hz Hall Hg3), (grown_from_nothing m m2 _ Hz1 Hall1 Hg4). split; [done|].
    rewrite (deltas_for_app k us1 _), vsum_app by (by apply deltas_ok).
    apply vplus_comm; by apply length_vsum, deltas_ok.
Qed.

(** C6. Lost in a ring of three. After a lap the first node has what all three logged
    and its next tick sends all the others' updates on, but never the third node's range,
    which was behind the one it removed. A block without a range of a node other than the
    reader is not looked at: the second node drops the third one's updates with it, and
    nothing of them is left to send. Whatever the order in which the ranges are visited. *)
Theorem third_node_lost id o us id1 m us1 id2 m' us2 :
  deployed true id o -> deployed true id1 m -> deployed true id2 m' -> NoDup [id; id1; id2] ->
  Forall (log_ok v) (us ++ us1 ++ us2) -> us <> [] -> us1 <> [] -> us2 <> [] ->
  fits n (length us + length us1 + length us2) 3 ->
  exists o1 m1 m2 block o2, lap t thr o us [(m, us1); (m', us2)] = Ok (o1, [m1; m2]) /\
    tick t o1 = Ok ([(t, block)], o2) /\ take_in [(t, block)] m1 = Ok m1 /\
    (forall t', default ∅ (update_store (prop_thr o2) !! t') = ∅) /\
    forall k, value t v o2 k = vs (deltas_for k (us ++ us1 ++ us2)) /\ value t v m1 k = vs (deltas_for k (us ++ us1)).
Proof.
  intros Ho Hm Hm' Hids [Hus [Hus1 Hus2]%Forall_app]%Forall_app Hne Hne1 Hne2 Hfit.
  destruct (deployed_fresh true id o Ho) as [Hf Hz]. destruct (deployed_fresh true id1 m Hm) as [Hf1 Hz1]. destruct (deployed_fresh true id2 m' Hm') as [Hf2 _].
  pose proof (log_update_ok v _ Hus) as Huo. pose proof (log_update_ok v _ Hus1) as Huo1. pose proof (log_update_ok v _ Hus2) as Huo2.
  assert (forall l : logs, (length l <= length us + length us1 + length us2)%nat -> is_i64 (Z.of_nat (length l) + 1)) as Hc
    by (intros l Hl; by eapply fits_counts).
  destruct (triple_home dir t thr v id o us id1 m us1 id2 m' us2 Hf Hus (Hc us ltac:(lia)) Hne (ex_intro _ _ Hf1) Hus1 (Hc us1 ltac:(lia)) Hne1
    (ex_intro _ _ Hf2) Hus2 (Hc us2 ltac:(lia)) Hne2 Hids Hfit)
    as (o1 & m1 & m2 & K' & peers & peers1 & q1 & Hlap & Hmo & Hho & HK & Hlen & Hpe & Hlive & Hm1 & Hh1 & Hg & Hg1).
  destruct (tick_runs dir t thr v id o1 K' [] peers (next_range (first_range us)) [] Hmo Hho HK Hlive)
    as (o2 & b & w & q2 & Ht & _ & Hh2 & Hv2 & Hb & Hw & _).
  { eapply fits_mono; [exact Hfit|lia|]. rewrite <- length_map_to_list. specialize (Hpe (map_to_list peers) ltac:(done)).
    destruct (map_to_list peers) as [|e l]; [simpl; lia|]. destruct (Hpe e l eq_refl) as [_ ->]. simpl. lia. }
  { eapply fits_mono; [exact Hfit|simpl; lia|lia]. }
  assert (own_slot id (next_range (first_range us)) = []) as Hown by (unfold own_slot; rewrite decide_False; [done|]; simpl; lia).
  rewrite Hown, app_nil_r in Hb.
  exists o1, m1, m2, (to_bytes b), o2. split_and!; try done.
  - apply (dropped dir t thr v true id1 m1 _ _ _ _ _ b K' w Hm1 Hh1 Hb). by apply Hpe.
  - destruct Hh2 as [Hh2 _]. intros t'. destruct (decide (t' = t)) as [->|Hn]; [|by apply (hd_only _ _ _ _ _ _ _ _ Hh2)].
    apply map_eq. intros k. by rewrite (hd_ups _ _ _ _ _ _ _ _ Hh2 k), lookup_empty.
  - intros k. assert (Forall (update_ok n) (us ++ us2 ++ us1)) as H1 by (by rewrite !Forall_app).
    assert (Forall (update_ok n) (us1 ++ us)) as H2 by (by apply Forall_app).
    rewrite Hv2, (grown_from_nothing o o1 _ Hz H1 Hg k), (grown_from_nothing m m1 _ Hz1 H2 Hg1 k).
    split; (apply vsum_perm; [by apply deltas_ok|]; unfold deltas_for; apply fmap_Permutation).
    + by rewrite (Permutation_app_comm us2).
    + by rewrite (Permutation_app_comm us1).
Qed.
(** C7. The end of a line. A node without a downstream neighbour cannot keep what it
    is given: it takes in its upstream neighbour's updates - every value is then the sum
    of what was logged - or its own thread's, but its propagator also stores them to be
    sent on, and its next tick goes through the socket that was never created. So
    the last node of every arrangement that is not a ring ends with its first update. *)
Theorem end_of_line_stops id o us id1 m us1 :
  deployed true id o -> deployed false id1 m -> id <> id1 -> Forall (log_ok v) (us ++ us1) -> us <> [] -> us1 <> [] ->
  fits n (length us + length us1) 2 ->
  exists o1 block o2 m1 m1', work t thr us o = Ok o1 /\ tick t o1 = Ok ([(t, block)], o2) /\
    take_in [(t, block)] m = Ok m1 /\ (forall k, value t v m1 k = vs (deltas_for k us)) /\ tick t m1 = Fault NullDeref /\
    work t thr us1 m = Ok m1' /\ (forall k, value t v m1' k = vs (deltas_for k us1)) /\ tick t m1' = Fault NullDeref.
Proof.
  intros Ho Hm Hid [Hus Hus1]%Forall_app Hne Hne1 Hfit. pose proof (log_update_ok v _ Hus) as Huo. pose proof (log_update_ok v _ Hus1) as Huo1.
  destruct (deployed_fresh true id o Ho) as [Hf _]. destruct (deployed_fresh false id1 m Hm) as [Hf1 Hz1]. pose proof Hf1 as [Hm1 Hh1].
  pose proof Hf as [[_ _ Hido _ _ _ _ _] _].
  assert (forall l : logs, (length l <= length us + length us1)%nat -> is_i64 (Z.of_nat (length l) + 1)) as Hc
    by (intros l Hl; by eapply fits_counts).
  assert (forall l : logs, (length l <= length us + length us1)%nat -> is_i64 (Z.of_nat (length l))) as Hc0
    by (intros l Hl; specialize (Hc l Hl); unfold is_i64 in *; lia).
  destruct (set_off dir t thr v id o us Hf Hus (Hc0 us ltac:(lia)) Hne) as (o1 & o2 & b & bm & Hw & Ht & _ & _ & _ & Hb & _).
  { eapply fits_mono; [exact Hfit|lia|lia]. }
  destruct (work_fresh dir t thr v false id1 m us1 [] Hf1 Hus1 (Hc0 us1 ltac:(lia))) as (m1' & Hw1 & Hm1' & Hh1' & Hg1).
  destruct (take_in_foreign dir t thr v false id1 m [] [] ∅ _ [] b us _ Hm1 Hh1 Hb Huo) as (m1 & peers & Hti & Hm2 & Hh2 & Hpe & Hg2).
  { done. }
  { by intros ->%list_elem_of_singleton. }
  { rewrite <- own_entry_some by done. apply own_entry_ok; [done|]. apply Hc. lia. }
  { apply contiguous_new. }
  assert (size peers <= 1)%nat as Hsz.
  { pose proof (merges_empty peers _ Hpe) as Hp. rewrite <- length_map_to_list.
    rewrite (peers_perm peers [(id, first_range us)]); [done|apply NoDup_singleton|apply Hp, NoDup_singleton]. }
  exists o1, (to_bytes b), o2, m1, m1'. split_and!; try done.
  - by apply (grown_from_nothing m).
  - apply (tick_stops dir t thr v id1 m1 _ _ _ _ _ Hm2 Hh2); [done| |]; (eapply fits_mono; [exact Hfit|simpl; lia|lia]).
  - by apply (grown_from_nothing m).
  - apply (tick_stops dir t thr v id1 m1' _ _ _ _ _ Hm1' Hh1'); [done| |];
      (eapply fits_mono; [exact Hfit|lia|rewrite ?map_size_empty; lia]).
Qed.
End nodes.

(** ** Concrete rings *)

#[local] Existing Instance gmap_order.

(** Node [id] between the nodes [up] and [down], which is negative for none; thread 1
    registers. *)
Definition ring_outside (up : Z) : Outside := mkOutside [PropInitACK; PropStart] [NetInit up] [[NetInitAckAck up]].
Definition ring_start (id down up : Z) := Start (pair_db id down 1) (ring_outside up) nothing.
Definition ring_db (id down up : Z) : QuiltDB := (RegisterThr (db_of (ring_start id down up)) 1).2.
Definition ring_node (id down up : Z) : member :=
  mkMember (prop_thrinfo (hprop_config (pair_db id down 1))) (threads_of (ring_start id down up)).1.1.1
    (recv_thrinfo (hrecv_config (pair_db id down 1))) (threads_of (ring_start id down up)).1.2.1 (props_of (ring_db id down up)).

(** What has to be computed. *)
Definition ring_checks (id down up : Z) : Prop :=
  match ring_start id down up with Ok (z, _, _) => z = 0 | _ => False end /\
  (RegisterThr (db_of (ring_start id down up)) 1).1 = 0 /\
  (let pc := prop_config (pair_db id down 1) HPropagator in
   pc_my_id_ pc = id /\ (0 <= id /\ is_i32 id) /\ 0 < pc_nanosec_ pc /\
   (0 <=? node_id_ (pc_downstream_recv_ pc)) = (0 <=? down)) /\
  0 < rc_num_expected_propagators_ (recv_config (pair_db id down 1) HPropagator).

Lemma ring_deployed linked id down up :
  (0 <=? down) = linked -> ring_checks id down up -> deployed HPropagator 0 1 int_vtype linked id (ring_node id down up).
Proof.
  intros <- (Hs%started_eta & Hr & Hpc & Hex). exists pair_tables, demo_tables, demo_config, (pair_db id down 1), (ring_outside up), nothing, 0,
    (db_of (ring_start id down up)), (threads_of (ring_start id down up)), (ring_db id down up).
  split; [apply pair_db_repr|]. split; [exact pair_has_tables|]. do 5 (split; [reflexivity|]). split; [exact Hs|].
  split; [unfold ring_db; rewrite <- Hr; apply surjective_pairing|]. split; [exact Hpc|]. split; [exact Hex|reflexivity].
Qed.

Lemma ring_1_of_2 : ring_checks 1 2 2.
Proof. vm_compute. repeat split; congruence. Qed.
Lemma ring_2_of_2 : ring_checks 2 1 1.
Proof. vm_compute. repeat split; congruence. Qed.
Lemma ring_1_of_3 : ring_checks 1 2 3.
Proof. vm_compute. repeat split; congruence. Qed.
Lemma ring_2_of_3 : ring_checks 2 3 1.
Proof. vm_compute. repeat split; congruence. Qed.
Lemma ring_3_of_3 : ring_checks 3 1 2.
Proof. vm_compute. repeat split; congruence. Qed.
Lemma line_end : ring_checks 2 (-1) 1.
Proof. vm_compute. repeat split; congruence. Qed.

(** An update of key 7. *)
Definition ring_up (d : Z) : Z * list byte := (7, demo_bytes d).

Lemma ring_up_ok d : log_ok int_vtype (ring_up d).
Proof. split; [unfold is_i32; simpl; lia|apply length_i32_bytes]. Qed.

Ltac ring_ups := simpl; repeat first [apply Forall_nil_2 | apply Forall_cons_2; [apply ring_up_ok|]].

(** 1, 10 and 20 logged at the nodes 1, 2 and 3: after the lap 31, 11 and 31. *)
Lemma lap_delivers_witness :
  exists o' m2 m3, lap 0 1 (ring_node 1 2 3) [ring_up 1] [(ring_node 2 3 1, [ring_up 10]); (ring_node 3 1 2, [ring_up 20])] = Ok (o', [m2; m3]) /\
    value 0 int_vtype o' 7 = demo_bytes 31 /\ value 0 int_vtype m2 7 = demo_bytes 11 /\ value 0 int_vtype m3 7 = demo_bytes 31.
Proof.
  destruct (lap_delivers HPropagator 0 1 int_vtype 1 (ring_node 1 2 3) [ring_up 1]
    [(2, ring_node 2 3 1, [ring_up 10]); (3, ring_node 3 1 2, [ring_up 20])]) as (o' & ms & Hlap & Hlen & Ho & Hms).
  - exact (ring_deployed _ _ _ _ eq_refl ring_1_of_3).
  - ring_ups.
  - discriminate.
  - apply Forall_cons. split; [split; [exact (ring_deployed _ _ _ _ eq_refl ring_2_of_3)|ring_ups]|].
    apply Forall_singleton. split; [exact (ring_deployed _ _ _ _ eq_refl ring_3_of_3)|ring_ups].
  - apply NoDup_ListNoDup. repeat constructor; simpl; lia.
  - vm_compute. reflexivity.
  - destruct ms as [|m2 [|m3 [|]]]; try discriminate Hlen. exists o', m2, m3. split; [exact Hlap|].
    rewrite Ho, (Hms 0%nat m2 eq_refl), (Hms 1%nat m3 eq_refl). repeat split; vm_compute; reflexivity.
Defined.

(** 1 and 10 logged at the nodes 1 and 2, then 2 at node 1: node 2 has 23, not 13. *)
Lemma second_lap_doubles_witness :
  exists o1 m1 o2 blocks o3 m2, lap 0 1 (ring_node 1 2 2) [ring_up 1] [(ring_node 2 1 1, [ring_up 10])] = Ok (o1, [m1]) /\
    work 0 1 [ring_up 2] o1 = Ok o2 /\ tick 0 o2 = Ok (blocks, o3) /\ take_in blocks m1 = Ok m2 /\
    value 0 int_vtype o1 7 = demo_bytes 11 /\ value 0 int_vtype m1 7 = demo_bytes 11 /\
    value 0 int_vtype o3 7 = demo_bytes 13 /\ value 0 int_vtype m2 7 = demo_bytes 23.
Proof.
  destruct (second_lap_doubles HPropagator 0 1 int_vtype 1 (ring_node 1 2 2) [ring_up 1] 2 (ring_node 2 1 1) [ring_up 10] [ring_up 2])
    as (o1 & m1 & o2 & blocks & o3 & m2 & Hlap & Hw & Ht & Hti & H1 & H2).
  - exact (ring_deployed _ _ _ _ eq_refl ring_1_of_2).
  - exact (ring_deployed _ _ _ _ eq_refl ring_2_of_2).
  - discriminate.
  - ring_ups.
  - discriminate.
  - discriminate.
  - discriminate.
  - vm_compute. reflexivity.
  - destruct (H1 7) as [Ho1 Hm1]. destruct (H2 7) as [Ho3 Hm2]. exists o1, m1, o2, blocks, o3, m2.
    rewrite Hm1, Hm2, Ho3, Ho1. repeat split; try assumption; vm_compute; reflexivity.
Defined.

(** 1, 10 and 20 again: the 20 of node 3 never reaches node 2. *)
Lemma third_node_lost_witness :
  exists o1 m1 m2 block o2,
    lap 0 1 (ring_node 1 2 3) [ring_up 1] [(ring_node 2 3 1, [ring_up 10]); (ring_node 3 1 2, [ring_up 20])] = Ok (o1, [m1; m2]) /\
    tick 0 o1 = Ok ([(0, block)], o2) /\ take_in [(0, block)] m1 = Ok m1 /\
    value 0 int_vtype o2 7 = demo_bytes 31 /\ value 0 int_vtype m1 7 = demo_bytes 11.
Proof.
  destruct (third_node_lost HPropagator 0 1 int_vtype 1 (ring_node 1 2 3) [ring_up 1] 2 (ring_node 2 3 1) [ring_up 10] 3 (ring_node 3 1 2) [ring_up 20])
    as (o1 & m1 & m2 & block & o2 & Hlap & Ht & Hti & _ & Hv).
  - exact (ring_deployed _ _ _ _ eq_refl ring_1_of_3).
  - exact (ring_deployed _ _ _ _ eq_refl ring_2_of_3).
  - exact (ring_deployed _ _ _ _ eq_refl ring_3_of_3).
  - apply NoDup_ListNoDup. repeat constructor; simpl; lia.
  - ring_ups.
  - discriminate.
  - discriminate.
  - discriminate.
  - vm_compute. reflexivity.
  - destruct (Hv 7) as [Ho Hm]. exists o1, m1, m2, block, o2. rewrite Ho, Hm.
    repeat split; try assumption; vm_compute; reflexivity.
Defined.

(** 1 logged at node 1 and taken in at node 2, which has no downstream neighbour; or 10
    logged at node 2 itself. *)
Lemma end_of_line_stops_witness :
  exists o1 block o2 m1 m1', work 0 1 [ring_up 1] (ring_node 1 2 2) = Ok o1 /\ tick 0 o1 = Ok ([(0, block)], o2) /\
    take_in [(0, block)] (ring_node 2 (-1) 1) = Ok m1 /\ value 0 int_vtype m1 7 = demo_bytes 1 /\ tick 0 m1 = Fault NullDeref /\
    work 0 1 [ring_up 10] (ring_node 2 (-1) 1) = Ok m1' /\ value 0 int_vtype m1' 7 = demo_bytes 10 /\ tick 0 m1' = Fault NullDeref.
Proof.
  destruct (end_of_line_stops HPropagator 0 1 int_vtype 1 (ring_node 1 2 2) [ring_up 1] 2 (ring_node 2 (-1) 1) [ring_up 10])
    as (o1 & block & o2 & m1 & m1' & Hw & Ht & Hti & Hv & Hs & Hw1 & Hv1 & Hs1).
  - exact (ring_deployed _ _ _ _ eq_refl ring_1_of_2).
  - exact (ring_deployed _ _ _ _ eq_refl line_end).
  - discriminate.
  - ring_ups.
  - discriminate.
  - discriminate.
  - vm_compute. reflexivity.
  - exists o1, block, o2, m1, m1'. rewrite Hv, Hv1. repeat split; try assumption; vm_compute; reflexivity.
Defined.
