(* ===== verification/Shutdown.v ===== *)
(** How a cluster shuts down: the threads and the applications of all nodes, in both
    directions, with the sockets between them. A thread takes any message that waits for
    it - at most what 0MQ may deliver, which keeps the order of each connection - and
    one thread or application moves at a time, a turn or a call. Then the specification:
    which event of a shutdown has to wait for which. *)
From S2P Require Import Prelude Common MemStruct ValueOps Protocol Propagator PropagatorTerm InternalTable Receiver System Ring QuiltDB QuiltDBProps Node.

(** ** The cluster *)

(** A direction and a node: its propagator and receiver. *)
Definition Key : Type := PropRef * Z.
#[export] Instance PropRef_eq_dec : EqDecision PropRef.
Proof. solve_decision. Defined.

(** The two threads, whether they have returned, and what waits on their sockets: on
    update_pull_sock and the subscription of the propagator, on internal_recv_pull_sock
    and update_pull_sock of the receiver. *)
Record Pair := mkPair {
  prop : PropThr;
  prop_done : bool;
  recv : RecvThr;
  recv_done : bool;
  to_prop : list PropIn;
  to_sub : list PropRecvMsgType;
  to_recv : list RecvIn;
  to_net : list NetIn
}.

(** The calls of [QuiltDB::ShutDown]. *)
Inductive Call := SignalP (d : PropRef) | SignalR (d : PropRef) | WaitP (d : PropRef) | WaitR (d : PropRef).
#[export] Instance Call_eq_dec : EqDecision Call.
Proof. solve_decision. Defined.
Definition shutdown_calls : list Call :=
  [SignalP HPropagator; SignalR HPropagator; SignalP VPropagator; SignalR VPropagator;
   WaitP HPropagator; WaitR HPropagator; WaitP VPropagator; WaitR VPropagator].

(** [calls]: what is left of each application's call of ShutDown. *)
Record World := mkWorld { pairs : Key -> Pair; calls : Z -> list Call }.

(** ** Where messages go *)

Definition p_internal (o : list Propagator.PropOut) : list RecvIn :=
  o ≫= fun m => match m with
    | Propagator.ToReceiver t b => [InMyUpdates t b]
    | Propagator.ToReceiverTerm => [InRecv EPRInternalTerminate]
    | _ => []
    end.
Definition p_net (o : list Propagator.PropOut) : list NetIn :=
  o ≫= fun m => match m with
    | Propagator.ToDownstreamInit m => [NetInit (pi_node_id m)]
    | Propagator.ToDownstreamInitAckAck m => [NetInitAckAck (piaa_node_id m)]
    | Propagator.ToDownstream m block => [NetBuffer (epub_table_id m) block]
    | Propagator.ToDownstreamTermAck m => [NetTermAck (prta_node_id m)]
    | _ => []
    end.
Definition r_prop (o : list RecvOut) : list PropIn :=
  o ≫= fun m => match m with
    | ToPropTermAck => [InOther EPRecvInternalTerminateACK]
    | ToPropBuffer t b => [InUpdateBuffer t b]
    | _ => []
    end.
Definition r_pair (o : list RecvOut) : list PropagatorMsgType :=
  o ≫= fun m => match m with ToPairInit => [EPRInit] | ToPairAck => [EMyUpdatesACK] | _ => [] end.
Definition r_pub (o : list RecvOut) : list PropRecvMsgType :=
  o ≫= fun m => match m with Publish m => [m] | _ => [] end.

(** ** Steps *)

Inductive Act :=
| App (a : Z)                       (** the next call *)
| Tick (k : Key)                    (** the timer's trigger *)
| Pull (k : Key) (i : nat)          (** the [i]-th message that waits, by socket *)
| Sub (k : Key) (i : nat)
| Internal (k : Key) (i : nat)
| Net (k : Key) (i : nat).

Section cluster.
Context `{Allocator} `{UnorderedIter}.
(** The databases as configured, and the thread of each application that calls. *)
Context (dbs : Z -> QuiltDB) (thr : Z -> Z).

Definition pcfg (k : Key) : PropagatorThrInfo := prop_thrinfo (prop_config (dbs k.2) k.1).
Definition rcfg (k : Key) : ReceiverThrInfo := recv_thrinfo (recv_config (dbs k.2) k.1).
Definition down (k : Key) : Key := (k.1, node_id_ (downstream_recv_ (pcfg k))).

(** A turn of the propagator [k], which leaves [pull] and [sub] waiting. *)
Definition prop_step (k : Key) (e : Propagator.prop_event) (pull : list PropIn) (sub : list PropRecvMsgType) (w : World)
    : res World :=
  let p := pairs w k in
  if prop_done p then Block
  else
    '(fl, s) ← Propagator.turn (pcfg k) e (prop p);
    let o := since (Propagator.out (prop p)) (Propagator.out s) in
    Ok (mkWorld (fun j => let q := pairs w j in
      mkPair (if decide (j = k) then s else prop q) (if decide (j = k) then fl else prop_done q) (recv q) (recv_done q)
        (if decide (j = k) then pull else to_prop q) (if decide (j = k) then sub else to_sub q)
        (to_recv q ++ (if decide (j = k) then p_internal o else []))
        (to_net q ++ (if decide (j = down k) then p_net o else []))) (calls w)).

(** A turn of the receiver [k]; what it publishes reaches every propagator whose
    downstream receiver it is. *)
Definition recv_step (k : Key) (e : recv_event) (internal : list RecvIn) (net : list NetIn) (w : World) : res World :=
  let p := pairs w k in
  if recv_done p then Block
  else
    '(fl, s) ← turn (rcfg k) e (recv p);
    let o := since (out (recv p)) (out s) in
    Ok (mkWorld (fun j => let q := pairs w j in
      mkPair (if decide (j = k) then set_pair_pull (prop q) (pair_pull (prop q) ++ r_pair o) else prop q) (prop_done q)
        (if decide (j = k) then s else recv q) (if decide (j = k) then fl else recv_done q)
        (to_prop q ++ (if decide (j = k) then r_prop o else [])) (to_sub q ++ (if decide (down j = k) then r_pub o else []))
        (if decide (j = k) then internal else to_recv q) (if decide (j = k) then net else to_net q)) (calls w)).

(** One call of ShutDown, which checks the result; [pthread_join] waits for the
    thread. *)
Definition call_step (a : Z) (c : Call) (w : World) : res World :=
  match c with
  | SignalP d =>
      '(ret, o, ms) ← Propagator.SignalTerm (Propagator.obj (prop (pairs w (d, a)))) (thr a);
      CHECK (ret =? 0);;
      Ok (mkWorld (fun j => let q := pairs w j in
        mkPair (if decide (j = (d, a)) then Propagator.set_obj (prop q) o else prop q) (prop_done q) (recv q) (recv_done q)
          (to_prop q ++ (if decide (j = (d, a)) then ms else [])) (to_sub q) (to_recv q) (to_net q)) (calls w))
  | SignalR d =>
      let '(ret, o, ms) := SignalTerm (obj (recv (pairs w (d, a)))) in
      CHECK (ret =? 0);;
      Ok (mkWorld (fun j => let q := pairs w j in
        mkPair (prop q) (prop_done q) (if decide (j = (d, a)) then set_obj (recv q) o else recv q) (recv_done q)
          (to_prop q) (to_sub q) (to_recv q ++ (if decide (j = (d, a)) then ms else [])) (to_net q)) (calls w))
  | WaitP d =>
      ret ← Propagator.WaitTerm (Propagator.obj (prop (pairs w (d, a)))) (prop_done (pairs w (d, a)));
      CHECK (ret =? 0);;
      Ok w
  | WaitR d =>
      ret ← WaitTerm (obj (recv (pairs w (d, a)))) (recv_done (pairs w (d, a)));
      CHECK (ret =? 0);;
      Ok w
  end.

(** [Block]: the act cannot happen now. A turn in which the propagator would have to
    wait for its receiver's EMyUpdatesACK is not cut in two and is [Block] as well. *)
Definition exec (act : Act) (w : World) : res World :=
  match act with
  | App a =>
      match calls w a with
      | [] => Block
      | c :: cs =>
          w' ← call_step a c w;
          Ok (mkWorld (pairs w') (fun b => if decide (b = a) then cs else calls w' b))
      end
  | Tick k =>
      if have_stopped_timer_thr (prop (pairs w k)) then Block
      else prop_step k (Propagator.EvTimer []) (to_prop (pairs w k)) (to_sub (pairs w k)) w
  | Pull k i =>
      match to_prop (pairs w k) !! i with
      | Some m => prop_step k (Propagator.EvPull m) (delete i (to_prop (pairs w k))) (to_sub (pairs w k)) w
      | None => Block
      end
  | Sub k i =>
      match to_sub (pairs w k) !! i with
      | Some m => prop_step k (Propagator.EvSub m) (to_prop (pairs w k)) (delete i (to_sub (pairs w k))) w
      | None => Block
      end
  | Internal k i =>
      match to_recv (pairs w k) !! i with
      | Some m => recv_step k (EvInternal m) (delete i (to_recv (pairs w k))) (to_net (pairs w k)) w
      | None => Block
      end
  | Net k i =>
      match to_net (pairs w k) !! i with
      | Some m => recv_step k (EvNet m) (to_recv (pairs w k)) (delete i (to_net (pairs w k))) w
      | None => Block
      end
  end.
End cluster.

(** ** The order of events *)

(** What happens in a shutdown, at most once each: the application of a node makes a call;
    the propagator takes in the termination message of its application, has stopped its
    timer thread, takes in its receiver's acknowledgement, takes in the termination
    message of the downstream receiver; the receiver takes in the termination message of
    its application and that of its propagator; the downstream receiver takes in the
    propagator's acknowledgement. *)
Inductive Event :=
| Called (a : Z) (c : Call)
| OwnTerm (k : Key)
| TimerStopped (k : Key)
| RecvAcked (k : Key)
| DsTerm (k : Key)
| RecvOwn (k : Key)
| PairTerm (k : Key)
| AckTaken (k : Key).
#[export] Instance Event_eq_dec : EqDecision Event.
Proof. solve_decision. Defined.

Definition previous (c : Call) : list Call :=
  match c with
  | SignalP HPropagator => []
  | SignalR HPropagator => [SignalP HPropagator]
  | SignalP VPropagator => [SignalR HPropagator]
  | SignalR VPropagator => [SignalP VPropagator]
  | WaitP HPropagator => [SignalR VPropagator]
  | WaitR HPropagator => [WaitP HPropagator]
  | WaitP VPropagator => [WaitR HPropagator]
  | WaitR VPropagator => [WaitP VPropagator]
  end.

Section order.
Context (nodes : list Z) (dbs : Z -> QuiltDB).
Notation down := (down dbs).

(** The nodes that have the receiver [k] downstream. *)
Definition ups (k : Key) : list Z := filter (fun a => down (k.1, a) = k) nodes.

(** When a thread returns. *)
Definition prop_returns (k : Key) : list Event := [OwnTerm k; DsTerm k; TimerStopped k; RecvAcked k].
Definition recv_returns (k : Key) : list Event := [RecvOwn k; PairTerm k] ++ ((fun a => AckTaken (k.1, a)) <$> ups k).

(** The events an event waits for. *)
Definition needs (e : Event) : list Event :=
  match e with
  | Called a c =>
      (Called a <$> previous c) ++
      match c with WaitP d => prop_returns (d, a) | WaitR d => recv_returns (d, a) | _ => [] end
  | OwnTerm k => [Called k.2 (SignalP k.1)]
  | TimerStopped k => [OwnTerm k]
  | RecvAcked k => [RecvOwn k; PairTerm k]
  | DsTerm k => [RecvOwn (down k)]
  | RecvOwn k => [Called k.2 (SignalR k.1)]
  | PairTerm k => [OwnTerm k]
  | AckTaken k => [OwnTerm k; DsTerm k]
  end.

(** What has happened in a world. *)
Definition acked (m : gmap Z PeerPropagatorInfo) (q : Z) : bool :=
  match m !! q with Some i => has_replied_termination_ i | None => false end.
Definition happened (w : World) (e : Event) : bool :=
  match e with
  | Called a c => bool_decide (c ∉ calls w a)
  | OwnTerm k => bool_decide (Propagator.state_ (Propagator.obj (prop (pairs w k))) <> Propagator.RUN)
  | TimerStopped k => have_stopped_timer_thr (prop (pairs w k))
  | RecvAcked k => have_stopped_recv_thr (prop (pairs w k))
  | DsTerm k => have_received_ds_term (prop (pairs w k))
  | RecvOwn k => bool_decide (state_ (obj (recv (pairs w k))) <> RUN)
  | PairTerm k => have_received_prop_pair_term (recv (pairs w k)) || have_replied_prop_pair_term (recv (pairs w k))
  | AckTaken k => acked (peer_prop_info (recv (pairs w (down k)))) k.2
  end.
Definition all_happened (w : World) (es : list Event) : bool := forallb (happened w) es.

(** Next in the order. *)
Definition ready (w : World) (e : Event) : bool := negb (happened w e) && all_happened w (needs e).

(** All events of the cluster. *)
Definition events : list Event :=
  nodes ≫= fun a => (Called a <$> shutdown_calls) ++
    ([HPropagator; VPropagator] ≫= fun d =>
       let k := (d, a) in [OwnTerm k; TimerStopped k; RecvAcked k; DsTerm k; RecvOwn k; PairTerm k; AckTaken k]).

(** The event an act brings about: none for a tick before the shutdown has begun. *)
Definition event_of (act : Act) (w : World) : option Event :=
  match act with
  | App a => match calls w a with c :: _ => Some (Called a c) | [] => None end
  | Tick k => if happened w (OwnTerm k) then Some (TimerStopped k) else None
  | Pull k i =>
      match to_prop (pairs w k) !! i with
      | Some (InOther EPInternalTerminate) => Some (OwnTerm k)
      | Some (InOther EPRecvInternalTerminateACK) => Some (RecvAcked k)
      | _ => None
      end
  | Sub k i => match to_sub (pairs w k) !! i with Some EPRTerminate => Some (DsTerm k) | _ => None end
  | Internal k i =>
      match to_recv (pairs w k) !! i with
      | Some (InRecv ERInternalTerminate) => Some (RecvOwn k)
      | Some (InRecv EPRInternalTerminate) => Some (PairTerm k)
      | _ => None
      end
  | Net k i => match to_net (pairs w k) !! i with Some (NetTermAck a) => Some (AckTaken (k.1, a)) | _ => None end
  end.
Definition node_of (act : Act) : Z :=
  match act with App a => a | Tick k | Pull k _ | Sub k _ | Internal k _ | Net k _ => k.2 end.
End order.

(** ** Runs *)

Section runs.
Context `{Allocator} `{UnorderedIter} (nodes : list Z) (dbs : Z -> QuiltDB) (thr : Z -> Z).

(** [n] events happen on the way from [w] to [w']. *)
Inductive runs : nat -> World -> World -> Prop :=
| runs_nil w : runs 0 w w
| runs_act n w1 w2 w3 act :
    runs n w1 w2 -> node_of act ∈ nodes -> exec dbs thr act w2 = Ok w3 ->
    runs (match event_of dbs act w2 with Some _ => S n | None => n end) w1 w3.

(** A cluster in which every node has, in both directions, a batch time, a downstream
    neighbour that is a node, and an upstream one, as many as its receiver expects: in
    each direction rings. *)
Record rings : Prop := {
  ri_nodup : NoDup nodes;
  ri_id a d : a ∈ nodes -> Propagator.my_id_ (pcfg dbs (d, a)) = a;
  ri_time a d : a ∈ nodes -> 0 < nanosec_ (pcfg dbs (d, a));
  ri_down a d : a ∈ nodes -> (down dbs (d, a)).2 ∈ nodes /\ 0 <= (down dbs (d, a)).2;
  ri_up a d : a ∈ nodes -> ups nodes dbs (d, a) <> [];
  ri_expected a d : a ∈ nodes -> num_expected_propagators_ (rcfg dbs (d, a)) = Z.of_nat (length (ups nodes dbs (d, a)))
}.

(** How the threads of a started node are used before the shutdown: the propagator
    handles ticks, its receiver answering, updates and forwarded buffers, while other
    threads than [me] register and deregister. *)
Inductive prop_used (cfg : PropagatorThrInfo) (me : Z) : PropThr -> PropThr -> Prop :=
| pu_start s : prop_used cfg me s s
| pu_turn s1 s2 s3 e :
    prop_used cfg me s1 s2 -> data_event e -> Propagator.turn cfg e s2 = Ok (Propagator.Continue, s3) -> prop_used cfg me s1 s3
| pu_register s1 s2 t o :
    prop_used cfg me s1 s2 -> Propagator.RegisterThr (Propagator.obj s2) t = (0, o) ->
    prop_used cfg me s1 (Propagator.set_obj s2 o)
| pu_deregister s1 s2 t o :
    prop_used cfg me s1 s2 -> t <> me -> Propagator.DeregisterThr (Propagator.obj s2) t = (0, o) ->
    prop_used cfg me s1 (Propagator.set_obj s2 o).

(** The receiver handles batches of its propagator and buffers of the upstream nodes,
    while the application works on the tables. *)
Inductive recv_used (cfg : ReceiverThrInfo) : RecvThr -> RecvThr -> Prop :=
| ru_start s : recv_used cfg s s
| ru_batch s1 s2 s3 t b :
    recv_used cfg s1 s2 -> turn cfg (EvInternal (InMyUpdates t b)) s2 = Ok (Continue, s3) -> recv_used cfg s1 s3
| ru_buffer s1 s2 s3 t block :
    recv_used cfg s1 s2 -> turn cfg (EvNet (NetBuffer t block)) s2 = Ok (Continue, s3) -> recv_used cfg s1 s3
| ru_tables s1 s2 h : recv_used cfg s1 s2 -> recv_used cfg s1 (set_heap s2 h).

(** Every node's database was created, started - the receivers of its two directions
    having heard from their upstream neighbours - and a thread registered, which now calls
    ShutDown. In between the threads may have been used in any way, but now nothing is
    under way any more: no message waits and the propagator has no update pending. *)
Definition started (w : World) : Prop :=
  forall a, a ∈ nodes -> calls w a = shutdown_calls /\
    exists spec hout vout ret db' thrs db'',
      db_repr spec (dbs a) /\ Start (dbs a) hout vout = Ok (ret, db', thrs) /\ RegisterThr db' (thr a) = (0, db'') /\
      forall d, inits (of_pair (hout, vout) d) = NetInit <$> ups nodes dbs (d, a) /\
        (of_pair thrs d).1.2 = [] /\ (of_pair thrs d).2.2 = [] /\
        exists s r, pairs w (d, a) = mkPair s false r false [] [] [] [] /\
          prop_used (pcfg dbs (d, a)) (thr a) (Propagator.set_obj (of_pair thrs d).1.1 (props_of db'' d)) s /\
          (forall t, default ∅ (update_store s !! t) = ∅) /\
          recv_used (rcfg dbs (d, a)) (of_pair thrs d).2.1 r.
End runs.
