(* ===== verification/ShutdownTurn.v ===== *)
(** The turns of the two threads in a shutdown without data: none fails, and what each
    changes and sends. *)
From S2P Require Import Prelude Common MemStruct ValueOps Protocol Propagator PropagatorSpec PropagatorTerm InternalTable Receiver ReceiverTerm System Ring QuiltDB QuiltDBProps Node Shutdown.

(** ** The propagator *)

(** What a turn keeps. *)
Record prop_frame (s s' : PropThr) : Prop := {
  pf_store : store_empty s';
  pf_sock : update_push_sock_ (Propagator.obj s') = update_push_sock_ (Propagator.obj s);
  pf_sig : Propagator.have_signaled_term_ (Propagator.obj s') = Propagator.have_signaled_term_ (Propagator.obj s)
}.

(** The messages of a shutdown, and what they make the propagator send. *)
Definition control_event (e : Propagator.prop_event) : Prop :=
  match e with
  | Propagator.EvTimer acks => acks = []
  | Propagator.EvPull m => m = InOther EPInternalTerminate \/ m = InOther EPRecvInternalTerminateACK
  | Propagator.EvSub m => m = EPRTerminate
  end.
Definition tells_receiver (e : Propagator.prop_event) : list RecvIn :=
  match e with Propagator.EvPull (InOther EPInternalTerminate) => [InRecv EPRInternalTerminate] | _ => [] end.
Definition acks_downstream (id : Z) (e : Propagator.prop_event) (c : ctl) : list NetIn :=
  match e with
  | Propagator.EvPull (InOther EPInternalTerminate) => if c_recv_ds c then [NetTermAck id] else []
  | Propagator.EvSub _ => if bool_decide (c_state c = Propagator.TERM_PREP) then [NetTermAck id] else []
  | _ => []
  end.

Section propagator.
Context `{Allocator} `{UnorderedIter} (cfg : PropagatorThrInfo).

(** The outcome of a turn. *)
Definition prop_result (s : PropThr) (e : Propagator.prop_event) (fl : bool) (s' : PropThr) : Prop :=
  prop_frame s s' /\ (fl, ctl_of s') = ctl_step true true e (ctl_of s) /\
  p_internal (since (Propagator.out s) (Propagator.out s')) = tells_receiver e /\
  p_net (since (Propagator.out s) (Propagator.out s')) = acks_downstream (Propagator.my_id_ cfg) e (ctl_of s).

Lemma prop_result_intro s e fl s' l :
  0 < nanosec_ cfg -> has_downstream cfg = true -> Propagator.turn cfg e s = Ok (fl, s') ->
  prop_frame s s' -> Propagator.out s' = Propagator.out s ++ l -> p_internal l = tells_receiver e ->
  p_net l = acks_downstream (Propagator.my_id_ cfg) e (ctl_of s) -> prop_result s e fl s'.
Proof.
  intros Hn Hd Ht Hf Ho Hi Hnet. apply (turn_control cfg) in Ht. rewrite Hd, (proj2 (Z.ltb_lt _ _) Hn) in Ht.
  unfold prop_result. rewrite Ho, since_app. done.
Qed.

Lemma result_continue s e s' l :
  0 < nanosec_ cfg -> has_downstream cfg = true -> Propagator.turn cfg e s = Ok (Propagator.Continue, s') ->
  prop_frame s s' -> Propagator.out s' = Propagator.out s ++ l -> p_internal l = tells_receiver e ->
  p_net l = acks_downstream (Propagator.my_id_ cfg) e (ctl_of s) ->
  exists fl s', Propagator.turn cfg e s = Ok (fl, s') /\ prop_result s e fl s'.
Proof. intros. eexists _, _. split; [eassumption|]. by eapply prop_result_intro. Qed.

Lemma result_exit s e s1 l :
  0 < nanosec_ cfg -> has_downstream cfg = true -> Propagator.turn cfg e s = Ok (Propagator.exit_if_done s1) ->
  prop_frame s s1 -> Propagator.out s1 = Propagator.out s ++ l -> p_internal l = tells_receiver e ->
  p_net l = acks_downstream (Propagator.my_id_ cfg) e (ctl_of s) ->
  exists fl s', Propagator.turn cfg e s = Ok (fl, s') /\ prop_result s e fl s'.
Proof.
  intros Hn Hd Ht [Hf1 Hf2 Hf3] Ho Hi Hnet. destruct (Propagator.exit_if_done s1) as [fl s'] eqn:E. exists fl, s'. split; [done|].
  unfold Propagator.exit_if_done in E. case_match; injection E as <- <-; by apply (prop_result_intro s e _ _ l).
Qed.

Lemma res_eta {A B} (p : A * B) : ('(fl, s) ← Ok p; Ok (fl, s)) = Ok p.
Proof. by destruct p. Qed.

Lemma prop_turn e s :
  0 < nanosec_ cfg -> has_downstream cfg = true -> store_empty s -> control_event e ->
  (Propagator.state_ (Propagator.obj s) = Propagator.RUN \/ Propagator.state_ (Propagator.obj s) = Propagator.TERM_PREP) ->
  exists fl s', Propagator.turn cfg e s = Ok (fl, s') /\ prop_result s e fl s'.
Proof.
  intros Hn Hd He Hc Hst. destruct e as [acks|m|m]; cbn [control_event] in Hc; [subst acks|destruct Hc as [->| ->]|subst m].
  - assert (forall l, foldM (flush_table cfg) l (Propagator.send (set_pair_pull s (pair_pull s ++ [])) (ToTimer
      (mkTimerCmdMsg (if decide (Propagator.state_ (Propagator.obj s) = Propagator.RUN) then nanosec_ cfg else 0)))) = Ok _) as Hfl
      by (intros; by apply flush_none).
    assert (Propagator.turn cfg (Propagator.EvTimer []) s =
      ('(fl, s) ← Propagator.handle_timer cfg (set_pair_pull s (pair_pull s ++ [])); Ok (fl, s))) as Ht.
    { unfold Propagator.turn, Propagator.loop_turn. rewrite (proj2 (Z.ltb_lt _ _) Hn). simpl.
      by destruct (handle_timer cfg _) as [[]| |]. }
    unfold handle_timer in Ht. cbn [Propagator.obj set_pair_pull] in Ht. rewrite Hfl in Ht. simpl in Ht.
    destruct Hst as [Hst|Hst]; rewrite Hst in Ht; simpl in Ht.
    + eapply result_continue; [done|done|exact Ht|by split|reflexivity|done|done].
    + eapply result_exit; [done|done|rewrite Ht; apply res_eta|by split|
        simpl; by rewrite <- app_assoc|done|done].
  - destruct (have_received_ds_term s) eqn:E.
    + eapply result_continue; [done|done|rewrite turn_pull_eq; simpl; unfold Propagator.handle_internal_terminate, send_downstream|..].
      { simpl. rewrite E, Hd. simpl. rewrite connect_internal_eq. reflexivity. }
      all: try (simpl; rewrite <- app_assoc; reflexivity). 
      all: try done. { by split; [intros t; apply cleared_empty|..]. } simpl. by rewrite E.
    + eapply result_continue; [done|done|rewrite turn_pull_eq; simpl; unfold Propagator.handle_internal_terminate, send_downstream|..].
      { simpl. rewrite E. simpl. rewrite connect_internal_eq. reflexivity. }
      all: try done. { by split; [intros t; apply cleared_empty|..]. } simpl. by rewrite E.
  - eapply result_exit with (l := []); [done|done|rewrite turn_pull_eq; apply res_eta|by split|
      simpl; by rewrite app_nil_r|done|done].
  - destruct Hst as [Hst|Hst].
    + eapply result_continue with (l := []); [done|done|rewrite turn_sub_eq, Hd; simpl; rewrite Hst; reflexivity|by split|
        simpl; by rewrite app_nil_r|done|simpl; by rewrite Hst].
    + eapply result_exit; [done|done|rewrite turn_sub_eq, Hd; simpl; rewrite Hst; simpl; unfold send_downstream; rewrite Hd; simpl|..].
      { apply res_eta. }
      all: try done. simpl. by rewrite Hst.
Qed.
End propagator.

(** What use leaves as it is. *)
Lemma prop_used_kept `{Allocator} `{UnorderedIter} cfg me s s' :
  prop_used cfg me s s' -> Propagator.state_ (Propagator.obj s) = Propagator.RUN -> me ∈ update_push_sock_ (Propagator.obj s) ->
  ctl_of s' = ctl_of s /\ me ∈ update_push_sock_ (Propagator.obj s').
Proof.
  intros Hu Hr Hm. induction Hu as [s|s1 s2 s3 e _ IH He Ht|s1 s2 t o _ IH Hg|s1 s2 t o _ IH Hne Hg]; [done|..];
    destruct (IH Hr Hm) as [Hc Hs]; assert (Propagator.state_ (Propagator.obj s2) = Propagator.RUN) as Hr2
      by (injection Hc as Hst _ _ _ _; congruence).
  - rewrite (data_keeps_sockets _ _ _ _ _ He Ht). split; [|done]. apply turn_control in Ht. rewrite <- Hc.
    destruct e as [acks|[m d|t b|m]|m]; try done; [|by apply (f_equal snd) in Ht..].
    unfold ctl_step in Ht. cbn [c_state ctl_of] in Ht.
    rewrite bool_decide_eq_false_2, andb_false_r in Ht by (rewrite Hr2; done). by apply (f_equal snd) in Ht.
  - unfold Propagator.RegisterThr in Hg. repeat case_decide; try done. injection Hg as <-. split; [exact Hc|]. simpl. set_solver.
  - unfold Propagator.DeregisterThr in Hg. repeat case_decide; try done. injection Hg as <-. split; [exact Hc|]. simpl. set_solver.
Qed.

Definition recv_flags (s : RecvThr) :=
  (obj s, peer_prop_info s, have_received_prop_pair_term s, have_replied_prop_pair_term s).

Lemma buffer_keeps_flags `{UnorderedIter} cfg t block s fl s' :
  handle_update_buffer cfg t block s = Ok (fl, s') -> recv_flags s' = recv_flags s.
Proof.
  unfold handle_update_buffer. intros Hb. inv_bind. case_decide; [by simplify_eq|]. inv_bind. destruct v1 as [[o|] rv]; [|by simplify_eq].
  case_match; [|done]. case_match; [|done]. inv_bind. destruct v1 as [rv' s1]. inv_bind. simplify_eq.
  transitivity (recv_flags s1).
  - unfold deliver in Hv3. inv_bind. destruct v0 as [it' rv2]. repeat case_match; by simplify_eq/=.
  - unfold dedup in Hv2. inv_bind. case_match; [|by simplify_eq]. case_match; [|done]. inv_bind.
    repeat match goal with p : _ * _ |- _ => destruct p end. inv_bind.
    repeat match goal with p : _ * _ |- _ => destruct p end. by simplify_eq.
Qed.

Lemma recv_used_flags `{UnorderedIter} cfg s s' : recv_used cfg s s' -> recv_flags s' = recv_flags s.
Proof.
  induction 1 as [s|s1 s2 s3 t b _ <- Ht|s1 s2 s3 t block _ <- Ht|s1 s2 h _ <-]; [done|..|done].
  - unfold turn, loop_turn in Ht. cbn in Ht. injection Ht as <-. unfold handle_my_updates. case_decide; [|done].
    by destruct (index_ref [] _ _).
  - unfold turn, loop_turn in Ht. destruct (0 <? num_expected_propagators_ cfg); [|by injection Ht as <-].
    simpl in Ht. inv_bind. destruct v0 as [fl s4]. simplify_eq/=. simplify_eq/=. by eapply buffer_keeps_flags.
Qed.

(** The control state by the events that have happened: the application's termination
    message, the downstream receiver's, the timer's end, the receiver's acknowledgement. *)
Definition shape (own ds tm rc : bool) : ctl :=
  mkCtl (if own then if own && (ds && (tm && (rc && true))) then Propagator.TERM else Propagator.TERM_PREP else Propagator.RUN)
    ds (own && ds) tm rc.

(** Each message sets its event, and the thread returns with the last one. *)
Lemma shape_step own ds tm rc :
  (own = false -> tm = false /\ rc = false) -> own && (ds && (tm && (rc && true))) = false ->
  ctl_step true true (Propagator.EvTimer []) (shape own ds tm rc) =
    (own && (ds && ((tm || own) && (rc && true))), shape own ds (tm || own) rc) /\
  (own = false -> ctl_step true true (Propagator.EvPull (InOther EPInternalTerminate)) (shape own ds tm rc) =
    (true && (ds && (tm && (rc && true))), shape true ds tm rc)) /\
  (own = true -> ctl_step true true (Propagator.EvPull (InOther EPRecvInternalTerminateACK)) (shape own ds tm rc) =
    (own && (ds && (tm && (true && true))), shape own ds tm true)) /\
  ctl_step true true (Propagator.EvSub EPRTerminate) (shape own ds tm rc) =
    (own && (true && (tm && (rc && true))), shape own true tm rc).
Proof.
  intros Hc Hd. destruct own; [|destruct (Hc eq_refl) as [-> ->]]; destruct ds; try destruct tm, rc; try done; by split_and!.
Qed.

(** ** The receiver *)

Section receiver.
Context `{UnorderedIter} (cfg : ReceiverThrInfo).

Lemma recv_turn_own s :
  0 < num_expected_propagators_ cfg ->
  exists s', turn cfg (EvInternal (InRecv ERInternalTerminate)) s = Ok (Continue, s') /\
    state_ (obj s') = TERM_SELF /\ have_signaled_term_ (obj s') = have_signaled_term_ (obj s) /\
    peer_prop_info s' = peer_prop_info s /\ have_received_prop_pair_term s' = have_received_prop_pair_term s /\
    have_replied_prop_pair_term s' = have_received_prop_pair_term s || have_replied_prop_pair_term s /\ Receiver.heap s' = Receiver.heap s /\
    since (out s) (out s') = (if have_received_prop_pair_term s then [ToPropTermAck] else []) ++ [Publish EPRTerminate].
Proof.
  intros Hn. unfold turn, loop_turn. cbn [handle_internal mbind res_bind].
  eexists. split; [reflexivity|]. unfold handle_internal_terminate. rewrite (proj2 (Z.ltb_lt _ _) Hn). simpl.
  destruct (have_received_prop_pair_term s) eqn:E; simpl; rewrite E; split_and!; try done; rewrite <- ?app_assoc; by rewrite since_app.
Qed.

Lemma recv_turn_pair_run s :
  state_ (obj s) = RUN -> turn cfg (EvInternal (InRecv EPRInternalTerminate)) s = Ok (Continue, set_received_pair_term s true).
Proof. intros Hs. unfold turn, loop_turn. simpl. unfold handle_pair_terminate. by rewrite Hs. Qed.

Lemma recv_turn_pair s :
  state_ (obj s) = TERM_SELF ->
  turn cfg (EvInternal (InRecv EPRInternalTerminate)) s = Ok (exit_if_done (set_replied_pair_term (send s ToPropTermAck) true)).
Proof.
  intros Hs. unfold turn, loop_turn. simpl. unfold handle_pair_terminate. rewrite Hs. cbn [mbind res_bind].
  by destruct (exit_if_done _).
Qed.

Lemma recv_turn_ack s q :
  0 < num_expected_propagators_ cfg ->
  exists i, has_replied_termination_ i = true /\
    turn cfg (EvNet (NetTermAck q)) s = Ok (exit_if_done (set_peer_prop_info s (<[q := i]> (peer_prop_info s)))).
Proof.
  intros Hn. unfold turn, loop_turn. rewrite (proj2 (Z.ltb_lt _ _) Hn). simpl. unfold handle_terminate_ack.
  exists (mkPeerPropagatorInfo (has_started_ (default PeerPropagatorInfo_ctor (peer_prop_info s !! q))) true).
  split; [done|]. cbn [mbind res_bind]. by destruct (exit_if_done _).
Qed.

(** All upstream nodes have acknowledged. *)
Lemma HasAllPeersAckedTerm_ups m l :
  (forall q, is_Some (m !! q) <-> q ∈ l) -> HasAllPeersAckedTerm m = forallb (acked m) l.
Proof.
  intros Hl. apply Bool.eq_iff_eq_true. rewrite HasAllPeersAckedTerm_iff, forallb_forall. unfold acked. split.
  - intros Ha q Hq%list_elem_of_In%Hl. destruct Hq as [i Hi]. rewrite Hi. by apply (Ha q).
  - intros Ha q i Hi. specialize (Ha q). rewrite Hi in Ha. apply Ha, list_elem_of_In, Hl. by exists i.
Qed.
End receiver.
