(* ===== verification/ShutdownInv.v ===== *)
(** What holds in every world of a shutdown: the state of each thread is given by the
    events that have happened, and a message waits exactly while its event is next in
    the order. *)
From S2P Require Import Prelude Common MemStruct ValueOps Protocol Propagator PropagatorSpec PropagatorTerm InternalTable Receiver ReceiverTerm System Ring QuiltDB QuiltDBProps Node Shutdown ShutdownTurn.

(** ** Events and messages *)

Definition ev_node (e : Event) : Z :=
  match e with
  | Called a _ => a
  | OwnTerm k | TimerStopped k | RecvAcked k | DsTerm k | RecvOwn k | PairTerm k | AckTaken k => k.2
  end.

(** The event of a message, by socket. *)
Definition prop_ev (k : Key) (m : PropIn) : option Event :=
  match m with
  | InOther EPInternalTerminate => Some (OwnTerm k)
  | InOther EPRecvInternalTerminateACK => Some (RecvAcked k)
  | _ => None
  end.
Definition sub_ev (k : Key) (m : PropRecvMsgType) : option Event :=
  match m with EPRTerminate => Some (DsTerm k) | _ => None end.
Definition recv_ev (k : Key) (m : RecvIn) : option Event :=
  match m with
  | InRecv ERInternalTerminate => Some (RecvOwn k)
  | InRecv EPRInternalTerminate => Some (PairTerm k)
  | _ => None
  end.

Section inv.
Context `{Allocator} `{UnorderedIter} (nodes : list Z) (dbs : Z -> QuiltDB) (thr : Z -> Z).
Notation happened := (happened dbs).
Notation all_happened := (all_happened dbs).
Notation needs := (needs nodes dbs).
Notation ready := (ready nodes dbs).
Notation ups := (ups nodes dbs).
Notation down := (down dbs).
Notation recv_returns := (recv_returns nodes dbs).

Definition net_ev (k : Key) (m : NetIn) : option Event :=
  match m with NetTermAck a => if decide (a ∈ ups k) then Some (AckTaken (k.1, a)) else None | _ => None end.

Lemma all_happened_iff w es : all_happened w es = true <-> forall e, e ∈ es -> happened w e = true.
Proof.
  unfold Shutdown.all_happened. rewrite forallb_forall. by setoid_rewrite list_elem_of_In.
Qed.
Lemma ready_iff w e : ready w e = true <-> happened w e = false /\ forall x, x ∈ needs e -> happened w x = true.
Proof. unfold Shutdown.ready. by rewrite andb_true_iff, negb_true_iff, all_happened_iff. Qed.

(** [w'] is [w] after the event. *)
Definition after (w w' : World) (oe : option Event) : Prop :=
  forall x, happened w' x = happened w x || bool_decide (Some x = oe).

Lemma after_other w w' oe x : after w w' oe -> Some x <> oe -> happened w' x = happened w x.
Proof. intros Ha Hx. by rewrite Ha, bool_decide_eq_false_2, orb_false_r. Qed.
Lemma after_this w w' e : after w w' (Some e) -> happened w' e = true.
Proof. intros Ha. by rewrite Ha, bool_decide_eq_true_2, orb_true_r. Qed.
Lemma after_mono w w' oe x : after w w' oe -> happened w x = true -> happened w' x = true.
Proof. intros Ha Hx. by rewrite Ha, Hx. Qed.

Lemma all_after w w' oe es : after w w' oe -> (forall x, x ∈ es -> Some x <> oe) -> all_happened w' es = all_happened w es.
Proof.
  intros Ha He. apply Bool.eq_iff_eq_true. rewrite !all_happened_iff.
  split; intros Hh x Hx; specialize (Hh x Hx); rewrite (after_other w w' oe x Ha (He x Hx)) in *; done.
Qed.
Lemma ready_same w w' oe x : after w w' oe -> Some x <> oe -> (forall y, y ∈ needs x -> Some y <> oe) -> ready w' x = ready w x.
Proof. intros Ha Hx Hn. unfold Shutdown.ready. by rewrite (after_other w w' oe x Ha Hx), (all_after w w' oe _ Ha Hn). Qed.

(** ** What waits on a socket *)

Section waiting.
Context {M : Type} (ev : M -> option Event).

Definition waiting (w : World) (q : list M) : Prop :=
  NoDup q /\ forall m, m ∈ q <-> exists e, ev m = Some e /\ ready w e = true.

Lemma waiting_same w w' q :
  waiting w q -> (forall m x, ev m = Some x -> ready w' x = ready w x) -> waiting w' q.
Proof.
  intros [Hn Hq] Hs. split; [done|]. intros m. rewrite Hq. split; intros (e & He & Hr); exists e; (split; [done|]);
    specialize (Hs m e He); congruence.
Qed.

Lemma waiting_take w w' q i m e :
  waiting w q -> q !! i = Some m -> ev m = Some e -> (forall m', ev m' = Some e -> m' = m) -> after w w' (Some e) ->
  (forall m' x, ev m' = Some x -> x <> e -> ready w' x = ready w x) -> waiting w' (delete i q).
Proof.
  intros [Hn Hq] Hi Hm Hinj Ha Hs. rewrite (delete_take_drop q i). rewrite <- (take_drop_middle q i m Hi) in Hn, Hq.
  apply NoDup_app in Hn as (Hn1 & Hd & [Hm2 Hn2]%NoDup_cons).
  assert (Hout : m ∉ take i q) by (intros Hin; apply (Hd m Hin); left). split.
  - apply NoDup_app. split_and!; [done| |done]. intros x Hx Hx'. apply (Hd x Hx). by right.
  - intros m'. assert (Hm' : m' ∈ take i q ++ drop (S i) q <-> m' ∈ take i q ++ m :: drop (S i) q /\ m' <> m).
    { rewrite !elem_of_app, elem_of_cons. split; [intros [Hx|Hx]; (split; [tauto|]); by intros ->|tauto]. }
    rewrite Hm', Hq. split.
    + intros [(x & Hx & Hr) Hne]. exists x. split; [done|]. rewrite (Hs m' x Hx); [done|]. intros ->. by apply Hne, Hinj.
    + intros (x & Hx & Hr). assert (x <> e) as Hne.
      { intros ->. apply ready_iff in Hr as [Hr _]. by rewrite (after_this w w' e Ha) in Hr. }
      split; [exists x; split; [done|]; by rewrite <- (Hs m' x Hx)|]. intros ->. congruence.
Qed.

Lemma waiting_grow w w' q m e :
  waiting w q -> ev m = Some e -> (forall m', ev m' = Some e -> m' = m) -> ready w e = false ->
  (forall m' x, ev m' = Some x -> x <> e -> ready w' x = ready w x) ->
  waiting w' (q ++ (if ready w' e then [m] else [])).
Proof.
  intros [Hn Hq] Hm Hinj Hnr Hs. assert (m ∉ q) as Hout by (rewrite Hq; intros (x & Hx & Hr); congruence). split.
  - destruct (ready w' e); [|by rewrite app_nil_r]. apply NoDup_app. split_and!; [done| |apply NoDup_singleton].
    intros x Hx ->%list_elem_of_singleton. done.
  - intros m'. rewrite elem_of_app, Hq. split.
    + intros [(x & Hx & Hr)|Hin].
      * exists x. split; [done|]. rewrite (Hs m' x Hx); [done|]. intros ->. congruence.
      * destruct (ready w' e) eqn:E; [|by apply not_elem_of_nil in Hin]. apply list_elem_of_singleton in Hin as ->. by exists e.
    + intros (x & Hx & Hr). destruct (decide (x = e)) as [->|Hne].
      * right. rewrite Hr, (Hinj m' Hx). by apply list_elem_of_singleton.
      * left. exists x. by rewrite <- (Hs m' x Hx).
Qed.
End waiting.

(** ** The invariant *)

(** The propagator [k] in state [s], returned or not. *)
Record prop_ok (w : World) (k : Key) (s : PropThr) (done : bool) : Prop := {
  po_store : store_empty s;
  po_sock : thr k.2 ∈ update_push_sock_ (Propagator.obj s);
  po_sig : happened w (Called k.2 (SignalP k.1)) = true -> Propagator.have_signaled_term_ (Propagator.obj s) = true;
  po_ctl : ctl_of s = shape (happened w (OwnTerm k)) (happened w (DsTerm k)) (happened w (TimerStopped k)) (happened w (RecvAcked k));
  po_done : done = all_happened w (prop_returns k)
}.
Record recv_ok (w : World) (k : Key) (s : RecvThr) (done : bool) : Prop := {
  ro_state : state_ (obj s) = if happened w (RecvOwn k) then if all_happened w (recv_returns k) then TERM else TERM_SELF else RUN;
  ro_replied : have_replied_prop_pair_term s = happened w (RecvOwn k) && happened w (PairTerm k);
  ro_sig : happened w (Called k.2 (SignalR k.1)) = true -> have_signaled_term_ (obj s) = Some true;
  ro_peers q : is_Some (peer_prop_info s !! q) <-> q ∈ ups k;
  ro_done : done = all_happened w (recv_returns k)
}.
Record pair_ok (w : World) (k : Key) (p : Pair) : Prop := {
  pa_prop : prop_ok w k (prop p) (prop_done p);
  pa_recv : recv_ok w k (recv p) (recv_done p);
  pa_to_prop : waiting (prop_ev k) w (to_prop p);
  pa_to_sub : waiting (sub_ev k) w (to_sub p);
  pa_to_recv : waiting (recv_ev k) w (to_recv p);
  pa_to_net : waiting (net_ev k) w (to_net p)
}.
Record inv (w : World) : Prop := {
  in_pairs k : k.2 ∈ nodes -> pair_ok w k (pairs w k);
  in_calls a : a ∈ nodes -> exists n, calls w a = drop n shutdown_calls;
  in_closed e : ev_node e ∈ nodes -> happened w e = true -> all_happened w (needs e) = true
}.

Lemma closed_needs w e x : inv w -> ev_node e ∈ nodes -> x ∈ needs e -> happened w x = false -> happened w e = false.
Proof.
  intros Hi He Hx Hf. destruct (happened w e) eqn:E; [|done]. pose proof (in_closed w Hi e He E) as Hc.
  rewrite all_happened_iff in Hc. rewrite (Hc x Hx) in Hf. done.
Qed.

Lemma closed_after w w' oe :
  inv w -> after w w' oe -> match oe with Some e => ready w e = true | None => True end ->
  forall e, ev_node e ∈ nodes -> happened w' e = true -> all_happened w' (needs e) = true.
Proof.
  intros Hi Ha Hr e He Hh. apply all_happened_iff. intros x Hx. apply (after_mono w w' oe x Ha).
  rewrite Ha in Hh. apply orb_true_iff in Hh as [Hh|<-%bool_decide_eq_true].
  - pose proof (in_closed w Hi e He Hh) as Hc. rewrite all_happened_iff in Hc. by apply Hc.
  - apply ready_iff in Hr as [_ Hr]. by apply Hr.
Qed.

(** ** What an event elsewhere leaves as it is *)

Lemma prop_ok_ext w w' k s s' done oe :
  prop_ok w k s done -> after w w' oe -> (forall x, x ∈ Called k.2 (SignalP k.1) :: prop_returns k -> Some x <> oe) ->
  update_store s' = update_store s -> update_push_sock_ (Propagator.obj s') = update_push_sock_ (Propagator.obj s) ->
  Propagator.have_signaled_term_ (Propagator.obj s') = Propagator.have_signaled_term_ (Propagator.obj s) -> ctl_of s' = ctl_of s ->
  prop_ok w' k s' done.
Proof.
  intros [H1 H2 H3 H4 H5] Ha Hx Hs Hp Hg Hc. assert (Hsame : forall x, x ∈ Called k.2 (SignalP k.1) :: prop_returns k -> happened w' x = happened w x)
    by (intros x Hin; by apply (after_other w w' oe); [|apply Hx]).
  split.
  - intros t. rewrite Hs. apply H1.
  - by rewrite Hp.
  - rewrite Hg, (Hsame (Called _ _)) by left. done.
  - rewrite Hc, H4, !(Hsame (OwnTerm k)), !(Hsame (DsTerm k)), !(Hsame (TimerStopped k)), !(Hsame (RecvAcked k)); [done|..];
      unfold prop_returns; set_solver.
  - rewrite H5. symmetry. apply (all_after w w' oe); [done|]. intros x Hin. apply Hx. by right.
Qed.

Lemma recv_ok_ext w w' k s done oe :
  recv_ok w k s done -> after w w' oe -> (forall x, x ∈ Called k.2 (SignalR k.1) :: recv_returns k -> Some x <> oe) ->
  recv_ok w' k s done.
Proof.
  intros [H1 H2 H3 H4 H5] Ha Hx. assert (Hsame : forall x, x ∈ Called k.2 (SignalR k.1) :: recv_returns k -> happened w' x = happened w x)
    by (intros x Hin; by apply (after_other w w' oe); [|apply Hx]).
  assert (Hall : all_happened w' (recv_returns k) = all_happened w (recv_returns k))
    by (apply (all_after w w' oe); [done|]; intros x Hin; apply Hx; by right).
  assert (happened w' (RecvOwn k) = happened w (RecvOwn k)) as Ho by (apply Hsame; right; left).
  assert (happened w' (PairTerm k) = happened w (PairTerm k)) as Hp by (apply Hsame; right; right; left).
  split; [by rewrite Hall, Ho|by rewrite Ho, Hp| |done|by rewrite Hall]. rewrite (Hsame (Called _ _)) by left. done.
Qed.

(** ** A turn of a propagator *)

Lemma shape_fields s o d t r :
  ctl_of s = shape o d t r ->
  bool_decide (Propagator.state_ (Propagator.obj s) <> Propagator.RUN) = o /\ have_received_ds_term s = d /\
  have_stopped_timer_thr s = t /\ have_stopped_recv_thr s = r.
Proof.
  unfold ctl_of, shape. intros [= Hst Hd _ Ht Hr']. split_and!; try done. rewrite Hst.
  destruct o; [|by apply bool_decide_eq_false_2; auto]. by destruct (_ && _).
Qed.

Lemma after_prop w w' k oe o d t r :
  calls w' = calls w -> (forall j, j <> k -> ctl_of (prop (pairs w' j)) = ctl_of (prop (pairs w j))) ->
  (forall j, recv (pairs w' j) = recv (pairs w j)) -> ctl_of (prop (pairs w' k)) = shape o d t r ->
  (forall x, oe = Some x -> x ∈ prop_returns k) ->
  o = happened w (OwnTerm k) || bool_decide (Some (OwnTerm k) = oe) ->
  d = happened w (DsTerm k) || bool_decide (Some (DsTerm k) = oe) ->
  t = happened w (TimerStopped k) || bool_decide (Some (TimerStopped k) = oe) ->
  r = happened w (RecvAcked k) || bool_decide (Some (RecvAcked k) = oe) -> after w w' oe.
Proof.
  intros Hc Hp Hr Hk Hoe -> -> -> ->. apply shape_fields in Hk as (Ho & Hd & Ht & Hra).
  assert (Hother : forall x, x ∉ prop_returns k -> bool_decide (Some x = oe) = false).
  { intros x Hx. apply bool_decide_eq_false_2. intros E. by apply Hx, Hoe. }
  assert (Hj : forall j, j <> k -> forall x, x ∈ prop_returns j -> x ∉ prop_returns k).
  { intros j Hne x Hx Hx'. unfold prop_returns in *. set_solver. }
  intros x. destruct x as [a c|j|j|j|j|j|j|j]; cbn [Shutdown.happened]; rewrite ?Hr, ?Hc;
    try (rewrite Hother, orb_false_r; [done|unfold prop_returns; set_solver]);
    (destruct (decide (j = k)) as [->|Hne]; [done|]);
    (rewrite Hother, orb_false_r; [|apply (Hj j Hne); unfold prop_returns; set_solver]);
    specialize (Hp j Hne); unfold ctl_of in Hp; injection Hp as Hp1 Hp2 _ Hp3 Hp4; by rewrite ?Hp1, ?Hp2, ?Hp3, ?Hp4.
Qed.

Context (Hrings : rings nodes dbs).

Lemma elem_of_ups k a : a ∈ ups k <-> down (k.1, a) = k /\ a ∈ nodes.
Proof. unfold Shutdown.ups. by rewrite list_elem_of_filter. Qed.
Lemma down_node k : k.2 ∈ nodes -> (down k).2 ∈ nodes.
Proof. destruct k as [d a]. intros Ha. by apply (ri_down _ _ Hrings). Qed.
Lemma in_ups_down k : k.2 ∈ nodes -> k.2 ∈ ups (down k).
Proof. intros Hk. apply elem_of_ups. by destruct k. Qed.

(** The event of a turn: a tick is one after the termination message only. *)
Definition turn_ev (k : Key) (own : bool) (e : Propagator.prop_event) : option Event :=
  match e with
  | Propagator.EvTimer _ => if own then Some (TimerStopped k) else None
  | Propagator.EvPull m => prop_ev k m
  | Propagator.EvSub m => sub_ev k m
  end.

Lemma turn_shape w k e :
  inv w -> k.2 ∈ nodes -> control_event e -> all_happened w (prop_returns k) = false ->
  (forall x, turn_ev k (happened w (OwnTerm k)) e = Some x -> ready w x = true) ->
  exists o d t r,
    ctl_step true true e (shape (happened w (OwnTerm k)) (happened w (DsTerm k)) (happened w (TimerStopped k)) (happened w (RecvAcked k))) =
      (o && (d && (t && (r && true))), shape o d t r) /\
    o = happened w (OwnTerm k) || bool_decide (Some (OwnTerm k) = turn_ev k (happened w (OwnTerm k)) e) /\
    d = happened w (DsTerm k) || bool_decide (Some (DsTerm k) = turn_ev k (happened w (OwnTerm k)) e) /\
    t = happened w (TimerStopped k) || bool_decide (Some (TimerStopped k) = turn_ev k (happened w (OwnTerm k)) e) /\
    r = happened w (RecvAcked k) || bool_decide (Some (RecvAcked k) = turn_ev k (happened w (OwnTerm k)) e).
Proof.
  intros Hi Hk Hc Hd Hready.
  assert (Hpair : happened w (OwnTerm k) = false -> happened w (PairTerm k) = false)
    by (intros Ho; apply (closed_needs w _ (OwnTerm k)); [done|done|left|done]).
  destruct (shape_step (happened w (OwnTerm k)) (happened w (DsTerm k)) (happened w (TimerStopped k)) (happened w (RecvAcked k)))
    as (Htick & Hown & Hack & Hsub); [|exact Hd|].
  { intros Ho. split; [apply (closed_needs w _ (OwnTerm k)); [done|done|left|done]|].
    apply (closed_needs w _ (PairTerm k)); [done|done|right; left|by apply Hpair]. }
  assert (Hno : forall x y : Event, x <> y -> bool_decide (Some x = Some y) = false) by (intros; apply bool_decide_eq_false_2; congruence).
  assert (Hyes : forall x : Event, bool_decide (Some x = Some x) = true) by (intros; by apply bool_decide_eq_true_2).
  assert (Hnone : forall x : Event, bool_decide (Some x = None) = false) by (intros; by apply bool_decide_eq_false_2).
  destruct e as [acks|m|m]; cbn [control_event] in Hc; [subst acks|destruct Hc as [->| ->]|subst m]; cbn [turn_ev prop_ev sub_ev] in *.
  - eexists _, _, _, _. split; [exact Htick|]. destruct (happened w (OwnTerm k)); rewrite ?Hyes, ?Hnone, ?Hno, ?orb_false_r by done; by split_and!.
  - destruct (proj1 (ready_iff w _) (Hready _ eq_refl)) as [Ho _].
    eexists _, _, _, _. split; [exact (Hown Ho)|]. rewrite ?Hyes, ?Hno, ?orb_false_r, ?orb_true_r by done. by split_and!.
  - destruct (proj1 (ready_iff w _) (Hready _ eq_refl)) as [_ Hn]. assert (happened w (OwnTerm k) = true) as Ho.
    { destruct (happened w (OwnTerm k)); [done|]. rewrite Hn in Hpair by (right; left). by discriminate Hpair. }
    eexists _, _, _, _. split; [exact (Hack Ho)|]. rewrite ?Hyes, ?Hno, ?orb_false_r, ?orb_true_r by done. by split_and!.
  - eexists _, _, _, _. split; [exact Hsub|]. rewrite ?Hyes, ?Hno, ?orb_false_r, ?orb_true_r by done. by split_and!.
Qed.

(** A turn of a propagator that has not returned brings about its event, and the
    messages are those of the handlers. *)
Lemma prop_step_spec w k e pull sub :
  inv w -> k.2 ∈ nodes -> control_event e -> prop_done (pairs w k) = false ->
  (forall x, turn_ev k (happened w (OwnTerm k)) e = Some x -> ready w x = true) ->
  exists w' s' fl, prop_step dbs k e pull sub w = Ok w' /\ calls w' = calls w /\
    (forall j, pairs w' j = let q := pairs w j in
      mkPair (if decide (j = k) then s' else prop q) (if decide (j = k) then fl else prop_done q) (recv q) (recv_done q)
        (if decide (j = k) then pull else to_prop q) (if decide (j = k) then sub else to_sub q)
        (to_recv q ++ (if decide (j = k) then tells_receiver e else []))
        (to_net q ++ (if decide (j = down k) then acks_downstream k.2 e (ctl_of (prop (pairs w k))) else []))) /\
    after w w' (turn_ev k (happened w (OwnTerm k)) e) /\ prop_ok w' k s' fl.
Proof.
  intros Hi Hk Hc Hd Hready. destruct (in_pairs w Hi k Hk) as [[Hst Hso Hsi Hctl Hdone] _ _ _ _ _].
  assert (k = (k.1, k.2)) as Hke by by destruct k.
  assert (0 < nanosec_ (pcfg dbs k)) as Hn by (rewrite Hke; by apply (ri_time _ _ Hrings)).
  assert (has_downstream (pcfg dbs k) = true) as Hds
    by (apply Z.leb_le; pose proof (proj2 (ri_down _ _ Hrings k.2 k.1 Hk)); by destruct k).
  assert (Propagator.my_id_ (pcfg dbs k) = k.2) as Hid by (rewrite Hke; by apply (ri_id _ _ Hrings)).
  rewrite Hdone in Hd. destruct (turn_shape w k e Hi Hk Hc Hd Hready) as (o & d & t & r & Hstep & Ho & Hd' & Ht & Hr).
  destruct (prop_turn (pcfg dbs k) e (prop (pairs w k)) Hn Hds Hst Hc) as (fl & s' & Hturn & [Hf1 Hf2 Hf3] & Hs' & Hint & Hnet).
  { apply (f_equal c_state) in Hctl. cbn [ctl_of shape c_state] in Hctl. rewrite Hctl.
    assert (happened w (OwnTerm k) && (happened w (DsTerm k) && (happened w (TimerStopped k) && (happened w (RecvAcked k) && true))) = false)
      as -> by exact Hd. destruct (happened w (OwnTerm k)); auto. }
  rewrite Hctl, Hstep in Hs'. apply pair_equal_spec in Hs' as [Hfl Hctl']. rewrite Hid in Hnet.
  unfold prop_step. rewrite Hdone, Hd, Hturn. cbn [mbind res_bind]. eexists _, s', fl. split; [reflexivity|].
  cbn [calls pairs prop recv]. split; [done|]. split; [intros j; cbn zeta; by rewrite Hint, Hnet|].
  match goal with |- after _ ?w' _ /\ _ => set (w1 := w') end.
  assert (after w w1 (turn_ev k (happened w (OwnTerm k)) e)) as Ha.
  { apply (after_prop w w1 k _ o d t r); try done; unfold w1; cbn [pairs prop].
    - intros j Hne. by rewrite decide_False.
    - cbn zeta. rewrite decide_True by done. exact Hctl'.
    - intros x Hx. destruct e as [acks|m|m]; cbn [control_event] in Hc; [|destruct Hc as [->| ->]|subst m]; cbn [turn_ev prop_ev sub_ev] in Hx;
        [destruct (happened w (OwnTerm k))|..]; simplify_eq; unfold prop_returns; set_solver. }
  split; [exact Ha|]. split; [done|by rewrite Hf2| |..].
  - rewrite Hf3, (after_other w w1 _ _ Ha); [done|].
    destruct e as [acks|m|m]; cbn [control_event] in Hc; [|destruct Hc as [->| ->]|subst m]; cbn [turn_ev prop_ev sub_ev];
      [destruct (happened w (OwnTerm k))|..]; done.
  - rewrite Hctl', !(Ha (OwnTerm k)), (Ha (DsTerm k)), (Ha (TimerStopped k)), (Ha (RecvAcked k)). by rewrite <- Ho, <- Hd', <- Ht, <- Hr.
  - rewrite Hfl. unfold prop_returns, Shutdown.all_happened. cbn [forallb].
    rewrite (Ha (OwnTerm k)), (Ha (DsTerm k)), (Ha (TimerStopped k)), (Ha (RecvAcked k)). by rewrite <- Ho, <- Hd', <- Ht, <- Hr.
Qed.

(** ** The sockets after an event *)

Lemma ready_keep w w' oe x :
  after w w' oe -> Some x <> oe -> Forall (fun y => Some y <> oe) (needs x) -> ready w' x = ready w x.
Proof. intros Ha Hx Hn. rewrite Forall_forall in Hn. by apply (ready_same w w' oe). Qed.

(** What becomes ready was not before. *)
Lemma not_ready w e x : happened w e = false -> e ∈ needs x -> ready w x = false.
Proof.
  intros He Hx. destruct (ready w x) eqn:E; [|done]. apply ready_iff in E as [_ E]. rewrite (E e Hx) in He. done.
Qed.

(** The events that wait on each socket keep their state when [oe] is none of them and
    none they need. *)
Lemma to_prop_keep w w' oe k :
  after w w' oe -> Forall (fun x => Some x <> oe) [OwnTerm k; RecvAcked k; Called k.2 (SignalP k.1); RecvOwn k; PairTerm k] ->
  forall m x, prop_ev k m = Some x -> ready w' x = ready w x.
Proof.
  intros Ha. rewrite !Forall_cons. intros (H1 & H2 & H3 & H4 & H5 & _) m x Hm.
  destruct m as [| |[]]; simplify_eq/=; apply (ready_keep w w' oe _ Ha); try done; by repeat constructor.
Qed.
Lemma to_sub_keep w w' oe k :
  after w w' oe -> Forall (fun x => Some x <> oe) [DsTerm k; RecvOwn (down k)] ->
  forall m x, sub_ev k m = Some x -> ready w' x = ready w x.
Proof.
  intros Ha. rewrite !Forall_cons. intros (H1 & H2 & _) m x Hm.
  destruct m; simplify_eq/=; apply (ready_keep w w' oe _ Ha); try done; by repeat constructor.
Qed.
Lemma to_recv_keep w w' oe k :
  after w w' oe -> Forall (fun x => Some x <> oe) [RecvOwn k; PairTerm k; Called k.2 (SignalR k.1); OwnTerm k] ->
  forall m x, recv_ev k m = Some x -> ready w' x = ready w x.
Proof.
  intros Ha. rewrite !Forall_cons. intros (H1 & H2 & H3 & H4 & _) m x Hm.
  destruct m as [|[]]; simplify_eq/=; apply (ready_keep w w' oe _ Ha); try done; by repeat constructor.
Qed.
Lemma to_net_keep w w' oe k :
  after w w' oe -> (forall a, a ∈ ups k -> Forall (fun x => Some x <> oe) [AckTaken (k.1, a); OwnTerm (k.1, a); DsTerm (k.1, a)]) ->
  forall m x, net_ev k m = Some x -> ready w' x = ready w x.
Proof.
  intros Ha Hf m x Hm. destruct m; simplify_eq/=. case_decide as Hin; simplify_eq/=.
  specialize (Hf _ Hin). rewrite !Forall_cons in Hf. destruct Hf as (H1 & H2 & H3 & _).
  apply (ready_keep w w' oe _ Ha); try done; by repeat constructor.
Qed.

(** ** Turns of the propagator keep the invariant *)

Lemma prop_threads_ok w w' k oe s' fl j :
  inv w -> j.2 ∈ nodes -> after w w' oe -> (forall x, oe = Some x -> x ∈ prop_returns k) -> prop_ok w' k s' fl ->
  prop_ok w' j (if decide (j = k) then s' else prop (pairs w j)) (if decide (j = k) then fl else prop_done (pairs w j)) /\
  recv_ok w' j (recv (pairs w j)) (recv_done (pairs w j)).
Proof.
  intros Hi Hj Ha Hoe Hok. destruct (in_pairs w Hi j Hj) as [Hp Hr _ _ _ _]. split.
  - destruct (decide (j = k)) as [->|Hne]; [done|]. apply (prop_ok_ext w w' j (prop (pairs w j)) _ _ oe); try done.
    intros x Hx Heq. specialize (Hoe x (eq_sym Heq)). unfold prop_returns in *. set_solver.
  - apply (recv_ok_ext w w' j _ _ oe); try done. intros x Hx Heq. specialize (Hoe x (eq_sym Heq)).
    unfold prop_returns, Shutdown.recv_returns in *. set_solver.
Qed.

Ltac keeps := repeat constructor; congruence.

(** Only the sockets of the two pairs the thread sends to need a look. *)
Lemma prop_event_inv w w' k oe s' fl pull sub ti tn :
  inv w -> k.2 ∈ nodes -> calls w' = calls w -> after w w' oe -> prop_ok w' k s' fl ->
  (forall x, oe = Some x -> x ∈ prop_returns k /\ ready w x = true) ->
  (forall j, pairs w' j = let q := pairs w j in
      mkPair (if decide (j = k) then s' else prop q) (if decide (j = k) then fl else prop_done q) (recv q) (recv_done q)
        (if decide (j = k) then pull else to_prop q) (if decide (j = k) then sub else to_sub q)
        (to_recv q ++ (if decide (j = k) then ti else [])) (to_net q ++ (if decide (j = down k) then tn else []))) ->
  waiting (prop_ev k) w' pull -> waiting (sub_ev k) w' sub -> waiting (recv_ev k) w' (to_recv (pairs w k) ++ ti) ->
  waiting (net_ev (down k)) w' (to_net (pairs w (down k)) ++ tn) -> inv w'.
Proof.
  intros Hi Hk Hc Ha Hok Hoe Hp Hq1 Hq2 Hq3 Hq4. split.
  - intros j Hj. destruct (prop_threads_ok w w' k oe s' fl j Hi Hj Ha) as [Hpo Hro]; [by intros x Hx; apply Hoe|done|].
    assert (Hne : j <> k -> forall x, Some x = oe -> x ∈ prop_returns k /\ x ∉ prop_returns j).
    { intros Hne x Hx. destruct (Hoe x (eq_sym Hx)) as [Hin _]. split; [done|]. unfold prop_returns in *. set_solver. }
    rewrite Hp. cbn zeta. destruct (in_pairs w Hi j Hj) as [_ _ H1 H2 H3 H4]. split; cbn [prop prop_done recv recv_done to_prop to_sub to_recv to_net]; try done;
      clear Hp Hpo Hro; case_decide as Hjk; try (subst j; done); rewrite ?app_nil_r.
    + eapply waiting_same; [exact H1|]. apply (to_prop_keep w w' oe j Ha). unfold prop_returns in Hne. repeat constructor; intros Hx; set_solver.
    + eapply waiting_same; [exact H2|]. apply (to_sub_keep w w' oe j Ha). unfold prop_returns in Hne. repeat constructor; intros Hx; set_solver.
    + eapply waiting_same; [exact H3|]. apply (to_recv_keep w w' oe j Ha). unfold prop_returns in Hne. repeat constructor; intros Hx; set_solver.
    + eapply waiting_same; [exact H4|]. apply (to_net_keep w w' oe j Ha). intros a [Hd _]%elem_of_ups.
      assert ((j.1, a) <> k) as Hnk by (intros <-; done). unfold prop_returns in Hoe.
      repeat constructor; intros Hx; destruct (Hoe _ (eq_sym Hx)) as [Hin _]; set_solver.
  - rewrite Hc. apply (in_calls w Hi).
  - apply (closed_after w w' oe Hi Ha). destruct oe; [by apply Hoe|done].
Qed.

Lemma to_prop_same w w' oe k q :
  after w w' oe -> (forall x, oe = Some x -> x ∈ [TimerStopped k; DsTerm k]) -> waiting (prop_ev k) w q -> waiting (prop_ev k) w' q.
Proof.
  intros Ha Hoe Hw. eapply waiting_same; [exact Hw|]. apply (to_prop_keep w w' oe k Ha).
  repeat constructor; intros Hx; symmetry in Hx; apply Hoe in Hx; set_solver.
Qed.
Lemma to_sub_same w w' oe k q :
  after w w' oe -> (forall x, oe = Some x -> x ∈ [TimerStopped k; RecvAcked k; OwnTerm k]) -> waiting (sub_ev k) w q -> waiting (sub_ev k) w' q.
Proof.
  intros Ha Hoe Hw. eapply waiting_same; [exact Hw|]. apply (to_sub_keep w w' oe k Ha).
  repeat constructor; intros Hx; symmetry in Hx; apply Hoe in Hx; set_solver.
Qed.
Lemma to_recv_same w w' oe k q :
  after w w' oe -> (forall x, oe = Some x -> x ∈ [TimerStopped k; RecvAcked k; DsTerm k]) ->
  waiting (recv_ev k) w q -> waiting (recv_ev k) w' (q ++ []).
Proof.
  intros Ha Hoe Hw. rewrite app_nil_r. eapply waiting_same; [exact Hw|]. apply (to_recv_keep w w' oe k Ha).
  repeat constructor; intros Hx; symmetry in Hx; apply Hoe in Hx; set_solver.
Qed.
Lemma to_net_same w w' oe k q :
  after w w' oe -> (forall x, oe = Some x -> x ∈ [TimerStopped k; RecvAcked k]) ->
  waiting (net_ev (down k)) w q -> waiting (net_ev (down k)) w' (q ++ []).
Proof.
  intros Ha Hoe Hw. rewrite app_nil_r. eapply waiting_same; [exact Hw|]. apply (to_net_keep w w' oe _ Ha).
  intros a _. repeat constructor; intros Hx; symmetry in Hx; apply Hoe in Hx; set_solver.
Qed.

Lemma prop_running w k e : inv w -> k.2 ∈ nodes -> e ∈ prop_returns k -> ready w e = true -> prop_done (pairs w k) = false.
Proof.
  intros Hi Hk He Hr. destruct (in_pairs w Hi k Hk) as [[_ _ _ _ ->] _ _ _ _ _].
  destruct (all_happened w (prop_returns k)) eqn:E; [|done]. rewrite all_happened_iff in E.
  apply ready_iff in Hr as [Hr _]. by rewrite (E e He) in Hr.
Qed.

Lemma tick_inv w k :
  inv w -> k.2 ∈ nodes -> have_stopped_timer_thr (prop (pairs w k)) = false -> prop_done (pairs w k) = false ->
  exists w', exec dbs thr (Tick k) w = Ok w' /\ inv w' /\ after w w' (event_of dbs (Tick k) w).
Proof.
  intros Hi Hk Ht Hd. cbn [exec]. rewrite Ht.
  assert (forall x, turn_ev k (happened w (OwnTerm k)) (Propagator.EvTimer []) = Some x -> x = TimerStopped k /\ ready w x = true) as Hev.
  { intros x Hx. cbn [turn_ev] in Hx. destruct (happened w (OwnTerm k)) eqn:Ho; simplify_eq. split; [done|]. apply ready_iff.
    split; [done|]. by intros y ->%list_elem_of_singleton. }
  destruct (prop_step_spec w k (Propagator.EvTimer []) (to_prop (pairs w k)) (to_sub (pairs w k))) as (w' & s' & fl & -> & Hc & Hp & Ha & Hok);
    [done|done|done|done|by intros x Hx; apply Hev|].
  exists w'. split; [done|]. split; [|exact Ha].
  assert (Hin : forall x, turn_ev k (happened w (OwnTerm k)) (Propagator.EvTimer []) = Some x -> x = TimerStopped k) by (intros x Hx; by apply Hev).
  destruct (in_pairs w Hi k Hk) as [_ _ H1 H2 H3 _]. destruct (in_pairs w Hi (down k) (down_node k Hk)) as [_ _ _ _ _ H4].
  eapply (prop_event_inv w w' k _ _ _ _ _ _ _ Hi Hk Hc Ha Hok); [|exact Hp|..].
  - intros x Hx. split; [rewrite (Hin x Hx); unfold prop_returns; set_solver|by apply Hev].
  - apply (to_prop_same w w' _ k _ Ha); [|done]. intros x Hx. rewrite (Hin x Hx). set_solver.
  - apply (to_sub_same w w' _ k _ Ha); [|done]. intros x Hx. rewrite (Hin x Hx). set_solver.
  - apply (to_recv_same w w' _ k _ Ha); [|done]. intros x Hx. rewrite (Hin x Hx). set_solver.
  - apply (to_net_same w w' _ k _ Ha); [|done]. intros x Hx. rewrite (Hin x Hx). set_solver.
Qed.

Lemma pull_ack_inv w k i :
  inv w -> k.2 ∈ nodes -> to_prop (pairs w k) !! i = Some (InOther EPRecvInternalTerminateACK) -> ready w (RecvAcked k) = true ->
  exists w', exec dbs thr (Pull k i) w = Ok w' /\ inv w' /\ after w w' (Some (RecvAcked k)).
Proof.
  intros Hi Hk Hm Hr. assert (RecvAcked k ∈ prop_returns k) as Hin by (unfold prop_returns; set_solver). cbn [exec]. rewrite Hm.
  destruct (prop_step_spec w k (Propagator.EvPull (InOther EPRecvInternalTerminateACK)) (delete i (to_prop (pairs w k))) (to_sub (pairs w k)))
    as (w' & s' & fl & -> & Hc & Hp & Ha & Hok); [done|done|by right|by apply (prop_running w k (RecvAcked k))|by intros x [= <-]|].
  cbn [turn_ev prop_ev] in Ha. exists w'. split; [done|]. split; [|done].
  destruct (in_pairs w Hi k Hk) as [_ _ H1 H2 H3 _]. destruct (in_pairs w Hi (down k) (down_node k Hk)) as [_ _ _ _ _ H4].
  eapply (prop_event_inv w w' k _ _ _ _ _ _ _ Hi Hk Hc Ha Hok); [by intros x [= <-]|exact Hp|..].
  - eapply (waiting_take (prop_ev k) w w'); [exact H1|exact Hm|reflexivity| |exact Ha|].
    + intros m' Hm'. by destruct m' as [| |[]].
    + intros m' x Hx Hne. destruct m' as [| |[]]; simplify_eq/=. apply (ready_keep w w' _ _ Ha); keeps.
  - apply (to_sub_same w w' _ k _ Ha); [|done]. intros x [= <-]. set_solver.
  - apply (to_recv_same w w' _ k _ Ha); [|done]. intros x [= <-]. set_solver.
  - apply (to_net_same w w' _ k _ Ha); [|done]. intros x [= <-]. set_solver.
Qed.

(** The acknowledgement of the downstream receiver goes out with the later of the two
    termination messages. *)
Lemma to_net_acked w w' k e :
  inv w -> k.2 ∈ nodes -> after w w' (Some e) -> e ∈ [OwnTerm k; DsTerm k] -> happened w e = false ->
  waiting (net_ev (down k)) w' (to_net (pairs w (down k)) ++ (if ready w' (AckTaken k) then [NetTermAck k.2] else [])).
Proof.
  intros Hi Hk Ha He Hh. destruct (in_pairs w Hi (down k) (down_node k Hk)) as [_ _ _ _ _ H4].
  assert (k = (k.1, k.2)) as Hke by by destruct k.
  apply (waiting_grow (net_ev (down k)) w w'); [exact H4| | |by apply (not_ready w e)|].
  - cbn [net_ev]. rewrite decide_True by by apply in_ups_down. by destruct k.
  - intros m' Hm'. destruct m'; simplify_eq/=. case_decide; [|done]. destruct k as [d b]. by injection Hm' as ->.
  - intros m' x Hx Hne. destruct m'; simplify_eq/=. case_decide as Hin; simplify_eq/=.
    assert (Hk2 : forall f : Key -> Event, (forall x y, f x = f y -> x = y) -> f (k.1, node) <> f k) by (intros f Hf Heq; by apply Hne; f_equal; apply Hf).
    apply (ready_keep w w' _ _ Ha); [intros [= <-]; set_solver|].
    apply Forall_cons_2; [|apply Forall_cons_2; [|apply Forall_nil_2]]; intros [= Heq]; apply elem_of_cons in He as [He|He%list_elem_of_singleton]; subst e; try done.
    + apply (Hk2 OwnTerm); [by intros ?? [=]|done].
    + apply (Hk2 DsTerm); [by intros ?? [=]|done].
Qed.

(** What a needs b for: after the last of its needs an event is ready. *)
Lemma ready_after w w' e x :
  inv w -> after w w' (Some e) -> ev_node x ∈ nodes -> e ∈ needs x -> happened w e = false -> x <> e ->
  ready w' x = all_happened w' (needs x).
Proof.
  intros Hi Ha Hx He Hh Hne. unfold Shutdown.ready. rewrite (after_other w w' _ x Ha) by congruence.
  by rewrite (closed_needs w x e).
Qed.

Lemma pull_own_inv w k i :
  inv w -> k.2 ∈ nodes -> to_prop (pairs w k) !! i = Some (InOther EPInternalTerminate) -> ready w (OwnTerm k) = true ->
  exists w', exec dbs thr (Pull k i) w = Ok w' /\ inv w' /\ after w w' (Some (OwnTerm k)).
Proof.
  intros Hi Hk Hm Hr. assert (OwnTerm k ∈ prop_returns k) as Hin by (unfold prop_returns; set_solver). cbn [exec]. rewrite Hm.
  destruct (prop_step_spec w k (Propagator.EvPull (InOther EPInternalTerminate)) (delete i (to_prop (pairs w k))) (to_sub (pairs w k)))
    as (w' & s' & fl & -> & Hc & Hp & Ha & Hok); [done|done|by left|by apply (prop_running w k (OwnTerm k))|by intros x [= <-]|].
  cbn [turn_ev prop_ev] in Ha. exists w'. split; [done|]. split; [|done].
  destruct (proj1 (ready_iff w _) Hr) as [Hh _].
  destruct (in_pairs w Hi k Hk) as [_ _ H1 H2 H3 _].
  eapply (prop_event_inv w w' k _ _ _ _ _ _ _ Hi Hk Hc Ha Hok); [by intros x [= <-]|exact Hp|..].
  - eapply (waiting_take (prop_ev k) w w'); [exact H1|exact Hm|reflexivity| |exact Ha|].
    + intros m' Hm'. by destruct m' as [| |[]].
    + intros m' x Hx Hne. destruct m' as [| |[]]; simplify_eq/=. apply (ready_keep w w' _ _ Ha); keeps.
  - apply (to_sub_same w w' _ k _ Ha); [|done]. intros x [= <-]. set_solver.
  - replace (tells_receiver _) with (if ready w' (PairTerm k) then [InRecv EPRInternalTerminate] else []).
    2:{ rewrite (ready_after w w' (OwnTerm k)) by (done || left). unfold Shutdown.all_happened. cbn [Shutdown.needs forallb].
        by rewrite (after_this w w' _ Ha). }
    apply (waiting_grow (recv_ev k) w w'); [exact H3|done|by intros [|[]]|by apply (not_ready w (OwnTerm k)); [|left]|].
    intros m' x Hx Hne. destruct m' as [|[]]; simplify_eq/=. apply (ready_keep w w' _ _ Ha); keeps.
  - replace (acks_downstream _ _ _) with (if ready w' (AckTaken k) then [NetTermAck k.2] else []).
    2:{ rewrite (ready_after w w' (OwnTerm k)) by (done || left). unfold Shutdown.all_happened. cbn [Shutdown.needs forallb].
        rewrite (after_this w w' _ Ha), (after_other w w' _ (DsTerm k) Ha), andb_true_r by done. done. }
    apply (to_net_acked w w' k (OwnTerm k)); try done. left.
Qed.

Lemma sub_inv w k i :
  inv w -> k.2 ∈ nodes -> to_sub (pairs w k) !! i = Some EPRTerminate -> ready w (DsTerm k) = true ->
  exists w', exec dbs thr (Sub k i) w = Ok w' /\ inv w' /\ after w w' (Some (DsTerm k)).
Proof.
  intros Hi Hk Hm Hr. assert (DsTerm k ∈ prop_returns k) as Hin by (unfold prop_returns; set_solver). cbn [exec]. rewrite Hm.
  destruct (prop_step_spec w k (Propagator.EvSub EPRTerminate) (to_prop (pairs w k)) (delete i (to_sub (pairs w k))))
    as (w' & s' & fl & -> & Hc & Hp & Ha & Hok); [done|done|done| |by intros x [= <-]|].
  { by apply (prop_running w k (DsTerm k)). }
  cbn [turn_ev sub_ev] in Ha. exists w'. split; [done|]. split; [|done].
  destruct (proj1 (ready_iff w _) Hr) as [Hh _].
  destruct (in_pairs w Hi k Hk) as [Hprop _ H1 H2 H3 _].
  eapply (prop_event_inv w w' k _ _ _ _ _ _ _ Hi Hk Hc Ha Hok); [by intros x [= <-]|exact Hp|..].
  - apply (to_prop_same w w' _ k _ Ha); [|done]. intros x [= <-]. set_solver.
  - eapply (waiting_take (sub_ev k) w w'); [exact H2|exact Hm|reflexivity|by intros []|exact Ha|].
    intros m' x Hx Hne. by destruct m'; simplify_eq/=.
  - apply (to_recv_same w w' _ k _ Ha); [|done]. intros x [= <-]. set_solver.
  - replace (acks_downstream _ _ _) with (if ready w' (AckTaken k) then [NetTermAck k.2] else []).
    2:{ rewrite (ready_after w w' (DsTerm k)) by (done || (right; left)). unfold Shutdown.all_happened. cbn [Shutdown.needs forallb].
        rewrite (after_this w w' _ Ha), (after_other w w' _ (OwnTerm k) Ha), !andb_true_r by done. cbn [acks_downstream].
        rewrite (po_ctl _ _ _ _ Hprop). cbn [shape c_state]. destruct (happened w (OwnTerm k)) eqn:Ho; [|done].
        rewrite Hh. done. }
    apply (to_net_acked w w' k (DsTerm k)); try done. right. left.
Qed.
End inv.
