(* ===== verification/ShutdownRecv.v ===== *)
(** Turns of the receiver, and calls of the application, keep the invariant of
    [ShutdownInv]. *)
From S2P Require Import Prelude Common MemStruct ValueOps Protocol Propagator PropagatorSpec PropagatorTerm InternalTable Receiver ReceiverTerm System Ring QuiltDB QuiltDBProps Node Shutdown ShutdownTurn ShutdownInv.

Section recv.
Context `{Allocator} `{UnorderedIter} (nodes : list Z) (dbs : Z -> QuiltDB) (thr : Z -> Z) (Hrings : rings nodes dbs).
Notation happened := (happened dbs).
Notation all_happened := (all_happened dbs).
Notation needs := (needs nodes dbs).
Notation ready := (ready nodes dbs).
Notation ups := (ups nodes dbs).
Notation down := (down dbs).
Notation recv_returns := (recv_returns nodes dbs).
Notation net_ev := (net_ev nodes dbs).
Notation after := (after dbs).
Notation waiting ev := (waiting nodes dbs ev).
Notation inv := (inv nodes dbs thr).
Notation recv_ok := (recv_ok nodes dbs).
Notation prop_ok := (prop_ok dbs thr).

(** ** After a turn of the receiver *)

Lemma after_recv w w' k oe :
  calls w' = calls w -> (forall j, ctl_of (prop (pairs w' j)) = ctl_of (prop (pairs w j))) ->
  (forall j, j <> k -> recv (pairs w' j) = recv (pairs w j)) ->
  (forall x, oe = Some x -> x = RecvOwn k \/ x = PairTerm k \/ exists j, x = AckTaken j /\ down j = k) ->
  happened w' (RecvOwn k) = happened w (RecvOwn k) || bool_decide (Some (RecvOwn k) = oe) ->
  happened w' (PairTerm k) = happened w (PairTerm k) || bool_decide (Some (PairTerm k) = oe) ->
  (forall a, acked (peer_prop_info (recv (pairs w' k))) a =
    acked (peer_prop_info (recv (pairs w k))) a || bool_decide (Some (AckTaken (k.1, a)) = oe)) -> after w w' oe.
Proof.
  intros Hc Hp Hr Hoe Ho Hpt Hack.
  assert (Hother : forall x, ~ (x = RecvOwn k \/ x = PairTerm k \/ exists j, x = AckTaken j /\ down j = k) -> bool_decide (Some x = oe) = false).
  { intros x Hx. apply bool_decide_eq_false_2. intros E. by apply Hx, Hoe. }
  intros x. destruct x as [a c|j|j|j|j|j|j|j]; cbn [Shutdown.happened].
  1: rewrite Hc, Hother, orb_false_r; [done|naive_solver].
  1,2,3,4: specialize (Hp j); unfold ctl_of in Hp; injection Hp as Hp1 Hp2 _ Hp3 Hp4; rewrite Hother, orb_false_r by naive_solver;
    by rewrite ?Hp1, ?Hp2, ?Hp3, ?Hp4.
  - destruct (decide (j = k)) as [->|Hne]; [exact Ho|]. rewrite Hother, orb_false_r by naive_solver. by rewrite Hr.
  - destruct (decide (j = k)) as [->|Hne]; [exact Hpt|]. rewrite Hother, orb_false_r by naive_solver. by rewrite Hr.
  - destruct (decide (down j = k)) as [Hd|Hne].
    + rewrite Hd, Hack. assert (j = (k.1, j.2)) as <-; [subst k; by destruct j|done].
    + rewrite Hr by done. rewrite Hother, orb_false_r; [done|]. intros [?|[?|(j' & Heq & Hj')]]; try done. injection Heq as <-. done.
Qed.

Definition recv_event (k : Key) (x : Event) : Prop := x = RecvOwn k \/ x = PairTerm k \/ exists a, x = AckTaken (k.1, a) /\ a ∈ ups k.

Lemma recv_threads_ok w w' k e s' fl j pp :
  inv w -> j.2 ∈ nodes -> after w w' (Some e) -> recv_event k e -> recv_ok w' k s' fl ->
  prop_ok w' j (if decide (j = k) then set_pair_pull (prop (pairs w j)) pp else prop (pairs w j)) (prop_done (pairs w j)) /\
  recv_ok w' j (if decide (j = k) then s' else recv (pairs w j)) (if decide (j = k) then fl else recv_done (pairs w j)).
Proof.
  intros Hi Hj Ha Hoe Hok. destruct (in_pairs _ _ _ w Hi j Hj) as [Hp Hr _ _ _ _]. split.
  - apply (prop_ok_ext dbs thr w w' j (prop (pairs w j)) _ _ (Some e)); try done; try by case_decide.
    intros x Hx [= ->]. unfold recv_event, prop_returns in *. set_solver.
  - destruct (decide (j = k)) as [->|Hne]; [done|]. apply (recv_ok_ext nodes dbs w w' j _ _ (Some e)); try done.
    intros x Hx [= ->]. apply elem_of_cons in Hx as [->|Hx]; [by destruct Hoe as [?|[?|(? & ? & ?)]]|].
    unfold Shutdown.recv_returns in Hx. apply elem_of_app in Hx as [Hx|(a & -> & Hin)%list_elem_of_fmap].
    + destruct Hoe as [->|[->|(a & -> & _)]]; set_solver.
    + destruct Hoe as [?|[?|(b & Heq & Hb)]]; try done. injection Heq as H1 <-. apply Hne.
      apply elem_of_ups in Hb as [Hb _]. apply elem_of_ups in Hin as [Hin _]. by rewrite <- Hb, <- Hin, H1.
Qed.

Lemma recv_event_inv w w' k e s' fl internal net tp ts pp :
  inv w -> k.2 ∈ nodes -> calls w' = calls w -> after w w' (Some e) -> recv_ok w' k s' fl -> recv_event k e -> ready w e = true ->
  (forall j, pairs w' j = let q := pairs w j in
      mkPair (if decide (j = k) then set_pair_pull (prop q) (pp q) else prop q) (prop_done q)
        (if decide (j = k) then s' else recv q) (if decide (j = k) then fl else recv_done q)
        (to_prop q ++ (if decide (j = k) then tp else [])) (to_sub q ++ (if decide (down j = k) then ts else []))
        (if decide (j = k) then internal else to_recv q) (if decide (j = k) then net else to_net q)) ->
  waiting (prop_ev k) w' (to_prop (pairs w k) ++ tp) ->
  (forall j, j.2 ∈ nodes -> down j = k -> waiting (sub_ev j) w' (to_sub (pairs w j) ++ ts)) ->
  waiting (recv_ev k) w' internal -> waiting (net_ev k) w' net -> inv w'.
Proof.
  intros Hi Hk Hc Ha Hok Hoe Hready Hp Hq1 Hq2 Hq3 Hq4. split.
  - intros j Hj. destruct (recv_threads_ok w w' k e s' fl j (pp (pairs w j)) Hi Hj Ha Hoe Hok) as [Hpo Hro].
    rewrite Hp. cbn zeta. destruct (in_pairs _ _ _ w Hi j Hj) as [_ _ H1 H2 H3 H4].
    split; cbn [prop prop_done recv recv_done to_prop to_sub to_recv to_net]; try done;
      clear Hp Hpo Hro; case_decide as Hjk; try (subst j; done); try (by apply Hq2); rewrite ?app_nil_r.
    + eapply waiting_same; [exact H1|]. apply (to_prop_keep nodes dbs w w' _ j Ha).
      repeat constructor; intros [= <-]; destruct Hoe as [?|[?|(? & ? & ?)]]; congruence.
    + eapply waiting_same; [exact H2|]. apply (to_sub_keep nodes dbs w w' _ j Ha).
      repeat constructor; intros [= <-]; destruct Hoe as [?|[?|(? & ? & ?)]]; congruence.
    + eapply waiting_same; [exact H3|]. apply (to_recv_keep nodes dbs w w' _ j Ha).
      repeat constructor; intros [= <-]; destruct Hoe as [?|[?|(? & ? & ?)]]; congruence.
    + eapply waiting_same; [exact H4|]. apply (to_net_keep nodes dbs w w' _ j Ha). intros a [Hd _]%elem_of_ups.
      repeat constructor; intros [= <-]; destruct Hoe as [?|[?|(b & Heq & [Hb _]%elem_of_ups)]]; try done.
      apply Hjk. rewrite <- Hd, <- Hb. by injection Heq as <- <-.
  - rewrite Hc. apply (in_calls _ _ _ w Hi).
  - by apply (closed_after nodes dbs thr w w' _ Hi Ha).
Qed.

(** The threads of a pair that has an event to come. *)
Lemma recv_running w k e : inv w -> k.2 ∈ nodes -> e ∈ recv_returns k -> ready w e = true -> recv_done (pairs w k) = false.
Proof.
  intros Hi Hk He Hr. destruct (in_pairs _ _ _ w Hi k Hk) as [_ [_ _ _ _ ->] _ _ _ _].
  destruct (all_happened w (recv_returns k)) eqn:E; [|done]. rewrite all_happened_iff in E.
  apply ready_iff in Hr as [Hr _]. by rewrite (E e He) in Hr.
Qed.

Lemma expects k : k.2 ∈ nodes -> 0 < num_expected_propagators_ (rcfg dbs k).
Proof.
  intros Hk. pose proof (ri_up _ _ Hrings k.2 k.1 Hk) as Hu. pose proof (ri_expected _ _ Hrings k.2 k.1 Hk) as He.
  assert ((k.1, k.2) = k) as Hke by by destruct k. rewrite Hke in *. rewrite He. destruct (ups k); [done|simpl; lia].
Qed.

(** All have acknowledged when that has happened to each. *)
Lemma acks_happened w k : all_happened w ((fun a => AckTaken (k.1, a)) <$> ups k) = forallb (acked (peer_prop_info (recv (pairs w k)))) (ups k).
Proof.
  apply Bool.eq_iff_eq_true. rewrite all_happened_iff, forallb_forall. split.
  - intros Hh a Hin%list_elem_of_In. specialize (Hh (AckTaken (k.1, a))). cbn [Shutdown.happened] in Hh.
    apply elem_of_ups in Hin as Hd. destruct Hd as [Hd _]. rewrite Hd in Hh. apply Hh, list_elem_of_fmap. eauto.
  - intros Hh x (a & -> & Hin)%list_elem_of_fmap. cbn [Shutdown.happened]. apply elem_of_ups in Hin as Hd. destruct Hd as [Hd _].
    rewrite Hd. by apply Hh, list_elem_of_In.
Qed.

Lemma returns_happened w k :
  all_happened w (recv_returns k) =
    happened w (RecvOwn k) && (happened w (PairTerm k) && forallb (acked (peer_prop_info (recv (pairs w k)))) (ups k)).
Proof. rewrite <- acks_happened. done. Qed.

Ltac keeps := repeat constructor; congruence.
Ltac goal_decide := match goal with |- context [decide ?P] => destruct (decide P) end.

(** The acknowledgement to the propagator goes out with the later of the two messages
    of this node. *)
Lemma to_prop_acked w w' k e :
  inv w -> k.2 ∈ nodes -> after w w' (Some e) -> e ∈ [RecvOwn k; PairTerm k] -> happened w e = false ->
  waiting (prop_ev k) w' (to_prop (pairs w k) ++ (if ready w' (RecvAcked k) then [InOther EPRecvInternalTerminateACK] else [])).
Proof.
  intros Hi Hk Ha He Hh. destruct (in_pairs _ _ _ w Hi k Hk) as [_ _ H1 _ _ _].
  apply (waiting_grow nodes dbs (prop_ev k) w w'); [exact H1|done|by intros [| |[]]|by apply (not_ready nodes dbs w e)|].
  intros m' x Hx Hne. destruct m' as [| |[]]; simplify_eq/=. apply (ready_keep nodes dbs w w' _ _ Ha); [intros [= <-]; set_solver|].
  repeat constructor; intros [= <-]; set_solver.
Qed.

(** A receiver that has heard from its application only. *)
Lemma not_all_acked w k : inv w -> k.2 ∈ nodes -> happened w (RecvOwn k) = false -> forallb (acked (peer_prop_info (recv (pairs w k)))) (ups k) = false.
Proof.
  intros Hi Hk Ho. rewrite <- acks_happened. destruct (all_happened w _) eqn:E; [|done]. rewrite all_happened_iff in E.
  pose proof (ri_up _ _ Hrings k.2 k.1 Hk) as Hu. assert ((k.1, k.2) = k) as Hke by by destruct k. rewrite Hke in Hu.
  destruct (ups k) as [|a l] eqn:Eu; [done|]. assert (a ∈ ups k) as [Hd Ha]%elem_of_ups by (rewrite Eu; left).
  specialize (E (AckTaken (k.1, a)) ltac:(left)).
  assert (happened w (DsTerm (k.1, a)) = false) as Hds
    by (apply (closed_needs nodes dbs thr w _ (RecvOwn k)); [done|done|cbn [Shutdown.needs]; rewrite Hd; left|done]).
  rewrite (closed_needs nodes dbs thr w _ (DsTerm (k.1, a))) in E; [done|done|done|right; left|done].
Qed.

Lemma own_inv w k i :
  inv w -> k.2 ∈ nodes -> to_recv (pairs w k) !! i = Some (InRecv ERInternalTerminate) -> ready w (RecvOwn k) = true ->
  exists w', exec dbs thr (Internal k i) w = Ok w' /\ inv w' /\ after w w' (Some (RecvOwn k)).
Proof.
  intros Hi Hk Hm Hr. assert (recv_done (pairs w k) = false) as Hdone by (apply (recv_running w k (RecvOwn k)); try done; left).
  destruct (proj1 (ready_iff nodes dbs w _) Hr) as [Hh Hsig]. destruct (in_pairs _ _ _ w Hi k Hk) as [_ [Hst Hrep Hsg Hpe _] _ _ H3 H4].
  cbn [exec]. rewrite Hm. unfold recv_step. rewrite Hdone.
  destruct (recv_turn_own (rcfg dbs k) (recv (pairs w k)) (expects k Hk)) as (s' & Ht & Hs1 & Hs2 & Hs3 & Hs4 & Hs5 & _ & Ho).
  rewrite Ht. cbn [mbind res_bind]. rewrite Ho. eexists. split; [reflexivity|].
  match goal with |- inv ?w' /\ _ => set (w1 := w') end.
  rewrite Hh in Hrep. simpl in Hrep. rewrite Hrep, orb_false_r in Hs5.
  assert (Hrk : recv (pairs w1 k) = s') by (unfold w1; cbn [pairs recv]; cbn zeta; by rewrite decide_True).
  assert (Hpt : happened w1 (PairTerm k) = happened w (PairTerm k)).
  { cbn [Shutdown.happened]. rewrite Hrk, Hs4, Hs5, Hrep. by rewrite orb_diag, orb_false_r. }
  assert (after w w1 (Some (RecvOwn k))) as Ha.
  { apply (after_recv w w1 k); try done.
    - intros j. unfold w1. cbn [pairs prop]. cbn zeta. by goal_decide.
    - intros j Hne. unfold w1. cbn [pairs recv]. cbn zeta. by rewrite decide_False.
    - intros x [= <-]. by left.
    - rewrite (bool_decide_eq_true_2 (Some _ = _)), orb_true_r by done. cbn [Shutdown.happened]. rewrite Hrk. apply bool_decide_eq_true_2. by rewrite Hs1.
    - by rewrite Hpt, (bool_decide_eq_false_2 (Some _ = _)), orb_false_r by done.
    - intros a. rewrite Hrk, Hs3. by rewrite (bool_decide_eq_false_2 (Some _ = _)), orb_false_r by done. }
  split; [|exact Ha].
  assert (Hall : all_happened w1 (recv_returns k) = false).
  { rewrite returns_happened, Hrk, Hs3, (not_all_acked w k Hi Hk Hh). by rewrite !andb_false_r. }
  eapply (recv_event_inv w w1 k (RecvOwn k) s' Continue _ _ _ _ (fun q => pair_pull (prop q) ++ r_pair _) Hi Hk eq_refl Ha); [|by left|done|reflexivity|..].
  - split; [| | |by rewrite Hs3|done].
    + by rewrite (after_this _ _ _ _ Ha), Hall.
    + rewrite Hs5, (after_this _ _ _ _ Ha), Hpt. cbn [Shutdown.happened]. by rewrite Hrep, orb_false_r.
    + rewrite Hs2, (after_other _ _ _ _ _ Ha) by done. exact Hsg.
  - replace (r_prop _) with (if ready w1 (RecvAcked k) then [InOther EPRecvInternalTerminateACK] else []).
    2:{ rewrite (ready_after nodes dbs thr w w1 (RecvOwn k)) by (done || left). unfold Shutdown.all_happened. cbn [Shutdown.needs forallb].
        rewrite (after_this _ _ _ _ Ha), Hpt. cbn [Shutdown.happened]. rewrite Hrep, orb_false_r, andb_true_r.
        by destruct (have_received_prop_pair_term (recv (pairs w k))). }
    apply (to_prop_acked w w1 k (RecvOwn k)); try done. left.
  - intros j Hj Hd. destruct (in_pairs _ _ _ w Hi j Hj) as [_ _ _ H2 _ _].
    replace (r_pub _) with (if ready w1 (DsTerm j) then [EPRTerminate] else []).
    2:{ rewrite (ready_after nodes dbs thr w w1 (RecvOwn k)); try done; [|cbn [Shutdown.needs]; rewrite Hd; left]. unfold Shutdown.all_happened.
        cbn [Shutdown.needs forallb]. rewrite Hd, (after_this _ _ _ _ Ha). by destruct (have_received_prop_pair_term (recv (pairs w k))). }
    apply (waiting_grow nodes dbs (sub_ev j) w w1); [exact H2|done|by intros []| |].
    + apply (not_ready nodes dbs w (RecvOwn k)); [done|]. cbn [Shutdown.needs]. rewrite Hd. left.
    + intros m' x Hx Hne. by destruct m'; simplify_eq/=.
  - eapply (waiting_take nodes dbs (recv_ev k) w w1); [exact H3|exact Hm|reflexivity|by intros [|[]]|exact Ha|].
    intros m' x Hx Hne. destruct m' as [|[]]; simplify_eq/=. apply (ready_keep nodes dbs w w1 _ _ Ha); keeps.
  - eapply waiting_same; [exact H4|]. apply (to_net_keep nodes dbs w w1 _ k Ha). intros a _. keeps.
Qed.

(** What the check for the end changes. *)
Lemma exit_fields s fl s' :
  exit_if_done s = (fl, s') ->
  fl = HasAllPeersAckedTerm (peer_prop_info s) && have_replied_prop_pair_term s /\
  state_ (obj s') = (if fl then TERM else state_ (obj s)) /\ have_signaled_term_ (obj s') = have_signaled_term_ (obj s) /\
  peer_prop_info s' = peer_prop_info s /\ have_received_prop_pair_term s' = have_received_prop_pair_term s /\
  have_replied_prop_pair_term s' = have_replied_prop_pair_term s /\ out s' = out s.
Proof. unfold exit_if_done. case_match eqn:E; intros [= <- <-]; by rewrite ?E. Qed.

(** The state of a thread that has checked for its end. *)
Lemma checked_recv_ok w w' k e s s1 fl s' :
  recv_ok w k s false -> after w w' (Some e) -> e <> Called k.2 (SignalR k.1) -> exit_if_done s1 = (fl, s') -> recv (pairs w' k) = s' ->
  happened w' (RecvOwn k) = true -> state_ (obj s1) = TERM_SELF -> have_signaled_term_ (obj s1) = have_signaled_term_ (obj s) ->
  (forall q, is_Some (peer_prop_info s1 !! q) <-> q ∈ ups k) -> have_replied_prop_pair_term s1 = happened w' (PairTerm k) ->
  recv_ok w' k s' fl.
Proof.
  intros [_ _ Hsg _ _] Ha He Hex Hrk Ho Hst Hsig Hpe Hrep. apply exit_fields in Hex as (-> & Hst' & Hsig' & Hpe' & _ & Hrep' & _).
  assert (all_happened w' (recv_returns k) = HasAllPeersAckedTerm (peer_prop_info s1) && have_replied_prop_pair_term s1) as Hall.
  { rewrite returns_happened, Ho, Hrk, Hpe', (HasAllPeersAckedTerm_ups _ (ups k) Hpe), Hrep. cbn [andb]. apply andb_comm. }
  split.
  - by rewrite Ho, Hall, Hst', Hst.
  - by rewrite Hrep', Hrep, Ho.
  - rewrite Hsig', Hsig, (after_other _ _ _ _ _ Ha) by congruence. exact Hsg.
  - by rewrite Hpe'.
  - by rewrite Hall.
Qed.

Lemma pair_inv w k i :
  inv w -> k.2 ∈ nodes -> to_recv (pairs w k) !! i = Some (InRecv EPRInternalTerminate) -> ready w (PairTerm k) = true ->
  exists w', exec dbs thr (Internal k i) w = Ok w' /\ inv w' /\ after w w' (Some (PairTerm k)).
Proof.
  intros Hi Hk Hm Hr. assert (recv_done (pairs w k) = false) as Hdone by (apply (recv_running w k (PairTerm k)); try done; right; left).
  destruct (proj1 (ready_iff nodes dbs w _) Hr) as [Hh _]. destruct (in_pairs _ _ _ w Hi k Hk) as [_ Hok _ _ H3 H4].
  rewrite Hdone in Hok. pose proof Hh as Hh2. cbn [Shutdown.happened] in Hh2. apply orb_false_iff in Hh2 as [Hrc Hrp].
  assert (exists s1 fl s' l, turn (rcfg dbs k) (EvInternal (InRecv EPRInternalTerminate)) (recv (pairs w k)) = Ok (fl, s') /\
    out s' = out (recv (pairs w k)) ++ l /\ l = (if happened w (RecvOwn k) then [ToPropTermAck] else []) /\
    peer_prop_info s' = peer_prop_info (recv (pairs w k)) /\ bool_decide (state_ (obj s') <> RUN) = happened w (RecvOwn k) /\
    have_received_prop_pair_term s' || have_replied_prop_pair_term s' = true /\
    if happened w (RecvOwn k)
    then exit_if_done s1 = (fl, s') /\ state_ (obj s1) = TERM_SELF /\ have_signaled_term_ (obj s1) = have_signaled_term_ (obj (recv (pairs w k))) /\
      peer_prop_info s1 = peer_prop_info (recv (pairs w k)) /\ have_replied_prop_pair_term s1 = true
    else fl = Continue /\ s' = set_received_pair_term (recv (pairs w k)) true) as (s1 & fl & s' & l & Ht & Ho & -> & Hpe & Hst & Hpt & Hcase).
  { destruct Hok as [Hst _ _ _ Hd]. rewrite <- Hd in Hst. destruct (happened w (RecvOwn k)) eqn:Hown.
    - rewrite (recv_turn_pair _ _ Hst). set (s1 := set_replied_pair_term _ true). destruct (exit_if_done s1) as [fl s'] eqn:E.
      pose proof (exit_fields _ _ _ E) as (_ & Hs1 & _ & Hs3 & Hs4 & Hs5 & Hs6). exists s1, fl, s', [ToPropTermAck]. split_and!; try done.
      + apply bool_decide_eq_true_2. rewrite Hs1. destruct fl; [done|]. unfold s1. simpl. by rewrite Hst.
      + by rewrite Hs5, orb_true_r.
    - rewrite (recv_turn_pair_run _ _ Hst). eexists (recv (pairs w k)), Continue, _, []. split; [reflexivity|]. split_and!; try done.
      simpl. by rewrite app_nil_r. }
  cbn [exec]. rewrite Hm. unfold recv_step. rewrite Hdone, Ht. cbn [mbind res_bind]. rewrite Ho, since_app. eexists. split; [reflexivity|].
  match goal with |- inv ?w' /\ _ => set (w1 := w') end.
  assert (Hrk : recv (pairs w1 k) = s') by (unfold w1; cbn [pairs recv]; cbn zeta; by rewrite decide_True).
  assert (after w w1 (Some (PairTerm k))) as Ha.
  { apply (after_recv w w1 k); try done.
    - intros j. unfold w1. cbn [pairs prop]. cbn zeta. by goal_decide.
    - intros j Hne. unfold w1. cbn [pairs recv]. cbn zeta. by rewrite decide_False.
    - intros x [= <-]. right. by left.
    - rewrite (bool_decide_eq_false_2 (Some _ = _)), orb_false_r by done. rewrite <- Hst. cbn [Shutdown.happened]. by rewrite Hrk.
    - rewrite (bool_decide_eq_true_2 (Some _ = _)), orb_true_r by done. cbn [Shutdown.happened]. by rewrite Hrk.
    - intros a. rewrite Hrk, Hpe. by rewrite (bool_decide_eq_false_2 (Some _ = _)), orb_false_r by done. }
  split; [|exact Ha].
  assert (Hown : happened w1 (RecvOwn k) = happened w (RecvOwn k)) by by apply (after_other _ _ _ _ _ Ha).
  eapply (recv_event_inv w w1 k (PairTerm k) s' fl _ _ _ _ (fun q => pair_pull (prop q) ++ r_pair _) Hi Hk eq_refl Ha); [|right; by left|done|reflexivity|..].
  - destruct (happened w (RecvOwn k)) eqn:E.
    + destruct Hcase as (Hex & Hc1 & Hc2 & Hc3 & Hc4).
      apply (checked_recv_ok w w1 k (PairTerm k) _ s1 fl s' Hok Ha); try done; [by rewrite Hc3; apply (ro_peers _ _ _ _ _ _ Hok)|].
      by rewrite (after_this _ _ _ _ Ha).
    + destruct Hcase as [-> ->]. destruct Hok as [Hs1 Hs2 Hs3 Hs4 Hs5]. rewrite E in Hs1, Hs2.
      split; [by rewrite Hown|by rewrite Hown| |done|].
      * rewrite (after_other _ _ _ _ _ Ha) by done. exact Hs3.
      * by rewrite returns_happened, Hown.
  - replace (r_prop _) with (if ready w1 (RecvAcked k) then [InOther EPRecvInternalTerminateACK] else []).
    2:{ rewrite (ready_after nodes dbs thr w w1 (PairTerm k)) by (done || (right; left)). unfold Shutdown.all_happened. cbn [Shutdown.needs forallb].
        rewrite (after_this _ _ _ _ Ha), Hown. by destruct (happened w (RecvOwn k)). }
    apply (to_prop_acked w w1 k (PairTerm k)); try done. right. left.
  - intros j Hj Hd. destruct (in_pairs _ _ _ w Hi j Hj) as [_ _ _ H2 _ _].
    replace (r_pub _) with (@nil PropRecvMsgType) by (by destruct (happened w (RecvOwn k))). rewrite app_nil_r.
    eapply waiting_same; [exact H2|]. apply (to_sub_keep nodes dbs w w1 _ j Ha). keeps.
  - eapply (waiting_take nodes dbs (recv_ev k) w w1); [exact H3|exact Hm|reflexivity|by intros [|[]]|exact Ha|].
    intros m' x Hx Hne. destruct m' as [|[]]; simplify_eq/=. apply (ready_keep nodes dbs w w1 _ _ Ha); keeps.
  - eapply waiting_same; [exact H4|]. apply (to_net_keep nodes dbs w w1 _ k Ha). intros a _. keeps.
Qed.

Lemma acked_insert m q i x : has_replied_termination_ i = true -> acked (<[q := i]> m) x = acked m x || bool_decide (x = q).
Proof.
  intros Hi. unfold acked. destruct (decide (x = q)) as [->|Hne].
  - by rewrite lookup_insert_eq, bool_decide_eq_true_2, orb_true_r.
  - by rewrite lookup_insert_ne, bool_decide_eq_false_2, orb_false_r.
Qed.

Lemma ack_inv w k i a :
  inv w -> k.2 ∈ nodes -> a ∈ ups k -> to_net (pairs w k) !! i = Some (NetTermAck a) -> ready w (AckTaken (k.1, a)) = true ->
  exists w', exec dbs thr (Net k i) w = Ok w' /\ inv w' /\ after w w' (Some (AckTaken (k.1, a))).
Proof.
  intros Hi Hk Hin Hm Hr. apply elem_of_ups in Hin as Hd. destruct Hd as [Hd Han].
  assert (AckTaken (k.1, a) ∈ recv_returns k) as Hret by (unfold Shutdown.recv_returns; apply elem_of_app; right; apply list_elem_of_fmap; eauto).
  assert (recv_done (pairs w k) = false) as Hdone by by apply (recv_running w k (AckTaken (k.1, a))).
  destruct (proj1 (ready_iff nodes dbs w _) Hr) as [Hh Hn]. destruct (in_pairs _ _ _ w Hi k Hk) as [_ Hok H1 _ H3 H4].
  assert (happened w (RecvOwn k) = true) as Hown.
  { destruct (happened w (RecvOwn k)) eqn:E; [done|].
    assert (happened w (DsTerm (k.1, a)) = true) as Hds by (apply Hn; right; left).
    rewrite (closed_needs nodes dbs thr w (DsTerm (k.1, a)) (RecvOwn k)) in Hds; try done. cbn [Shutdown.needs]. rewrite Hd. left. }
  cbn [exec]. rewrite Hm. unfold recv_step. rewrite Hdone.
  destruct (recv_turn_ack (rcfg dbs k) (recv (pairs w k)) a (expects k Hk)) as (pi & Hpi & ->). cbn [mbind res_bind].
  set (s1 := set_peer_prop_info _ _). destruct (exit_if_done s1) as [fl s'] eqn:E.
  pose proof (exit_fields _ _ _ E) as (_ & Hs1 & _ & Hs3 & Hs4 & Hs5 & Hs6).
  assert (since (out (recv (pairs w k))) (out s') = []) as -> by (rewrite Hs6; unfold s1, since; simpl; by rewrite drop_all).
  eexists. split; [reflexivity|]. match goal with |- inv ?w' /\ _ => set (w1 := w') end.
  assert (Hrk : recv (pairs w1 k) = s') by (unfold w1; cbn [pairs recv]; cbn zeta; by rewrite decide_True).
  assert (state_ (obj s1) = TERM_SELF) as Hself.
  { unfold s1. simpl. destruct Hok as [Hst _ _ _ Hdn]. by rewrite Hst, <- Hdn, Hdone, Hown. }
  assert (after w w1 (Some (AckTaken (k.1, a)))) as Ha.
  { apply (after_recv w w1 k); try done.
    - intros j. unfold w1. cbn [pairs prop]. cbn zeta. by goal_decide.
    - intros j Hne. unfold w1. cbn [pairs recv]. cbn zeta. by rewrite decide_False.
    - intros x [= <-]. right. right. by exists (k.1, a).
    - rewrite (bool_decide_eq_false_2 (Some _ = _)), orb_false_r, Hown by done. cbn [Shutdown.happened]. rewrite Hrk.
      apply bool_decide_eq_true_2. rewrite Hs1. destruct fl; [done|]. by rewrite Hself.
    - rewrite (bool_decide_eq_false_2 (Some _ = _)), orb_false_r by done. cbn [Shutdown.happened]. by rewrite Hrk, Hs4, Hs5.
    - intros x. rewrite Hrk, Hs3. unfold s1. simpl. rewrite acked_insert by done. f_equal. apply bool_decide_ext. split; [by intros ->|by intros [=]]. }
  split; [|exact Ha].
  eapply (recv_event_inv w w1 k _ s' fl _ _ _ _ (fun q => pair_pull (prop q) ++ r_pair _) Hi Hk eq_refl Ha); [|right; right; by exists a|done|reflexivity|..].
  - rewrite Hdone in Hok. apply (checked_recv_ok w w1 k (AckTaken (k.1, a)) _ s1 fl s' Hok Ha); try done.
    + by rewrite (after_other _ _ _ _ _ Ha).
    + intros q. unfold s1. simpl. rewrite lookup_insert_is_Some', <- (ro_peers _ _ _ _ _ _ Hok q). split; [|by right].
      intros [<-|?]; [|done]. by apply (ro_peers _ _ _ _ _ _ Hok).
    + unfold s1. cbn [have_replied_prop_pair_term set_peer_prop_info]. rewrite (ro_replied _ _ _ _ _ _ Hok), Hown, (after_other _ _ _ _ _ Ha) by done. done.
  - rewrite app_nil_r. eapply waiting_same; [exact H1|]. apply (to_prop_keep nodes dbs w w1 _ k Ha). keeps.
  - intros j Hj Hdj. destruct (in_pairs _ _ _ w Hi j Hj) as [_ _ _ H2 _ _]. rewrite app_nil_r.
    eapply waiting_same; [exact H2|]. apply (to_sub_keep nodes dbs w w1 _ j Ha). keeps.
  - eapply waiting_same; [exact H3|]. apply (to_recv_keep nodes dbs w w1 _ k Ha). keeps.
  - eapply (waiting_take nodes dbs (net_ev k) w w1); [exact H4|exact Hm| | |exact Ha|].
    + cbn [ShutdownInv.net_ev]. by rewrite decide_True.
    + intros m' Hm'. destruct m'; simplify_eq/=. by case_decide; simplify_eq.
    + intros m' x Hx Hne. destruct m'; simplify_eq/=. case_decide; simplify_eq. apply (ready_keep nodes dbs w w1 _ _ Ha); keeps.
Qed.

(** ** Calls of the application *)

Lemma after_call w w' a c cs :
  (exists n, calls w a = drop n shutdown_calls) -> calls w a = c :: cs -> (forall b, calls w' b = if decide (b = a) then cs else calls w b) ->
  (forall j, ctl_of (prop (pairs w' j)) = ctl_of (prop (pairs w j))) ->
  (forall j, state_ (obj (recv (pairs w' j))) = state_ (obj (recv (pairs w j))) /\
    peer_prop_info (recv (pairs w' j)) = peer_prop_info (recv (pairs w j)) /\
    have_received_prop_pair_term (recv (pairs w' j)) = have_received_prop_pair_term (recv (pairs w j)) /\
    have_replied_prop_pair_term (recv (pairs w' j)) = have_replied_prop_pair_term (recv (pairs w j))) ->
  after w w' (Some (Called a c)).
Proof.
  intros [n Hn] Hc Hc' Hp Hr x. destruct x as [b c'|j|j|j|j|j|j|j]; cbn [Shutdown.happened].
  - rewrite Hc'. destruct (decide (b = a)) as [->|Hne].
    + rewrite Hc. assert (NoDup (c :: cs)) as [Hc2 _]%NoDup_cons.
      { rewrite <- Hc, Hn. apply (bool_decide_unpack _). do 9 (destruct n; [vm_compute; exact I|]). by vm_compute. }
      destruct (decide (c' = c)) as [->|Hne].
      * rewrite (bool_decide_eq_true_2 (Some _ = _)), orb_true_r by done. by apply bool_decide_eq_true_2.
      * rewrite (bool_decide_eq_false_2 (Some _ = _)), orb_false_r by congruence. apply bool_decide_ext. set_solver.
    + rewrite (bool_decide_eq_false_2 (Some _ = _)), orb_false_r by congruence. done.
  - rewrite (bool_decide_eq_false_2 (Some _ = _)), orb_false_r by done. specialize (Hp j). unfold ctl_of in Hp. by injection Hp as ->.
  - rewrite (bool_decide_eq_false_2 (Some _ = _)), orb_false_r by done. specialize (Hp j). unfold ctl_of in Hp. congruence.
  - rewrite (bool_decide_eq_false_2 (Some _ = _)), orb_false_r by done. specialize (Hp j). unfold ctl_of in Hp. congruence.
  - rewrite (bool_decide_eq_false_2 (Some _ = _)), orb_false_r by done. specialize (Hp j). unfold ctl_of in Hp. congruence.
  - rewrite (bool_decide_eq_false_2 (Some _ = _)), orb_false_r by done. destruct (Hr j) as (-> & _). done.
  - rewrite (bool_decide_eq_false_2 (Some _ = _)), orb_false_r by done. by destruct (Hr j) as (_ & _ & -> & ->).
  - rewrite (bool_decide_eq_false_2 (Some _ = _)), orb_false_r by done. by destruct (Hr (down j)) as (_ & -> & _).
Qed.

(** The next call: those before it were made, a wait comes after its signal. *)
Lemma next_call n c cs :
  drop n shutdown_calls = c :: cs ->
  cs = drop (S n) shutdown_calls /\ (forall p, p ∈ previous c -> p ∉ c :: cs) /\ c ∈ shutdown_calls /\
  match c with WaitP d => SignalP d ∉ c :: cs | WaitR d => SignalR d ∉ c :: cs | _ => True end.
Proof.
  unfold shutdown_calls at 1. intros Hd. do 8 (destruct n; [simpl in Hd; injection Hd as <- <-; split; [reflexivity|];
    (split; [intros p Hp; simpl in Hp; try (apply list_elem_of_singleton in Hp as ->); try (by apply not_elem_of_nil in Hp); by apply (bool_decide_unpack _)|]);
    (split; [by apply (bool_decide_unpack _)|]); first [done|by apply (bool_decide_unpack _)]|]). by destruct n.
Qed.

Lemma call_inv w w' a c cs n :
  inv w -> a ∈ nodes -> drop n shutdown_calls = c :: cs -> calls w a = c :: cs -> ready w (Called a c) = true ->
  (forall b, calls w' b = if decide (b = a) then cs else calls w b) -> after w w' (Some (Called a c)) ->
  (forall j, j.2 ∈ nodes -> pair_ok nodes dbs thr w' j (pairs w' j)) -> inv w'.
Proof.
  intros Hi Ha Hn Hc Hr Hc' Haf Hp. split; [done| |by apply (closed_after nodes dbs thr w w' _ Hi Haf)].
  intros b Hb. rewrite Hc'. case_decide; [|by apply (in_calls _ _ _ w Hi)]. exists (S n). by apply next_call in Hn as [-> _].
Qed.

(** A pair the call does not touch. *)
Lemma untouched w w' a c j :
  inv w -> j.2 ∈ nodes -> after w w' (Some (Called a c)) -> pairs w' j = pairs w j ->
  c <> SignalP j.1 \/ a <> j.2 -> c <> SignalR j.1 \/ a <> j.2 -> pair_ok nodes dbs thr w' j (pairs w' j).
Proof.
  intros Hi Hj Ha -> Hp Hr. destruct (in_pairs _ _ _ w Hi j Hj) as [Hpo Hro H1 H2 H3 H4]. split.
  - apply (prop_ok_ext dbs thr w w' j (prop (pairs w j)) _ _ (Some (Called a c))); try done. intros x Hx [= ->].
    apply elem_of_cons in Hx as [[= -> ->]|Hx]; [naive_solver|]. unfold prop_returns in Hx. set_solver.
  - apply (recv_ok_ext nodes dbs w w' j _ _ (Some (Called a c))); try done. intros x Hx [= ->].
    apply elem_of_cons in Hx as [[= -> ->]|Hx]; [naive_solver|]. unfold Shutdown.recv_returns in Hx. set_solver.
  - eapply waiting_same; [exact H1|]. apply (to_prop_keep nodes dbs w w' _ j Ha). repeat constructor; try congruence. intros [= <- <-]. naive_solver.
  - eapply waiting_same; [exact H2|]. apply (to_sub_keep nodes dbs w w' _ j Ha). keeps.
  - eapply waiting_same; [exact H3|]. apply (to_recv_keep nodes dbs w w' _ j Ha). repeat constructor; try congruence. intros [= <- <-]. naive_solver.
  - eapply waiting_same; [exact H4|]. apply (to_net_keep nodes dbs w w' _ j Ha). intros b _. keeps.
Qed.

Lemma signal_prop_inv w a d cs n :
  inv w -> a ∈ nodes -> drop n shutdown_calls = SignalP d :: cs -> calls w a = SignalP d :: cs -> ready w (Called a (SignalP d)) = true ->
  exists w', exec dbs thr (App a) w = Ok w' /\ inv w' /\ after w w' (Some (Called a (SignalP d))).
Proof.
  intros Hi Ha Hn Hc Hr. set (k := (d, a)). assert (Hk : k.2 ∈ nodes) by done. destruct (proj1 (ready_iff nodes dbs w _) Hr) as [Hh _].
  destruct (in_pairs _ _ _ w Hi k Hk) as [[Hst Hso Hsi Hctl Hdn] Hro H1 H2 H3 H4].
  assert (happened w (OwnTerm k) = false) as Hown by (apply (closed_needs nodes dbs thr w _ (Called a (SignalP d))); try done; left).
  assert (Propagator.state_ (Propagator.obj (prop (pairs w k))) = Propagator.RUN) as Hrun.
  { apply (f_equal c_state) in Hctl. cbn [ctl_of shape c_state] in Hctl. by rewrite Hown in Hctl. }
  cbn [exec]. rewrite Hc. cbn [call_step]. change (d, a) with k. unfold Propagator.SignalTerm. rewrite Hrun.
  rewrite (decide_False (P := Propagator.RUN <> _)) by auto. rewrite (decide_False (P := thr a ∉ _)) by auto. cbn [mbind res_bind CHECK Z.eqb]. eexists. split; [reflexivity|].
  match goal with |- inv ?w' /\ _ => set (w1 := w') end.
  assert (after w w1 (Some (Called a (SignalP d)))) as Haf.
  { apply (after_call w w1 a (SignalP d) cs); [exists n; congruence|done|done| |done].
    intros j. unfold w1. cbn [pairs prop]. cbn zeta. goal_decide; [subst j|]; done. }
  split; [|exact Haf]. apply (call_inv w w1 a (SignalP d) cs n); try done. intros j Hj. destruct (decide (j = k)) as [->|Hne].
  - assert (pairs w1 k = let p := pairs w k in
      mkPair (Propagator.set_obj (prop p) (set_have_signaled_term (Propagator.obj (prop p)) true)) (prop_done p) (recv p) (recv_done p)
        (to_prop p ++ [InOther EPInternalTerminate]) (to_sub p) (to_recv p) (to_net p)) as ->.
    { unfold w1. cbn [pairs]. cbn zeta. by rewrite !decide_True by done. }
    cbn zeta. split; cbn [prop prop_done recv recv_done to_prop to_sub to_recv to_net].
    + split; [done|done| |..].
      * done.
      * rewrite !(after_other _ _ _ _ (OwnTerm k) Haf), !(after_other _ _ _ _ (DsTerm k) Haf), !(after_other _ _ _ _ (TimerStopped k) Haf), !(after_other _ _ _ _ (RecvAcked k) Haf) by done. exact Hctl.
      * rewrite Hdn. symmetry. apply (all_after dbs w w1 _ _ Haf). intros x Hx [= ->]. unfold prop_returns in Hx. set_solver.
    + apply (recv_ok_ext nodes dbs w w1 k _ _ _ Hro Haf). intros x Hx [= ->]. unfold Shutdown.recv_returns in Hx. set_solver.
    + replace [InOther EPInternalTerminate] with (if ready w1 (OwnTerm k) then [InOther EPInternalTerminate] else []).
      2:{ rewrite (ready_after nodes dbs thr w w1 (Called a (SignalP d))) by (done || left). unfold Shutdown.all_happened. cbn [Shutdown.needs forallb].
          by rewrite (after_this _ _ _ _ Haf : happened w1 (Called k.2 (SignalP k.1)) = true). }
      apply (waiting_grow nodes dbs (prop_ev k) w w1); [exact H1|done|by intros [| |[]]|by apply (not_ready nodes dbs w (Called a (SignalP d))); [|left]|].
      intros m' x Hx Hne. destruct m' as [| |[]]; simplify_eq/=. apply (ready_keep nodes dbs w w1 _ _ Haf); keeps.
    + eapply waiting_same; [exact H2|]. apply (to_sub_keep nodes dbs w w1 _ k Haf). keeps.
    + eapply waiting_same; [exact H3|]. apply (to_recv_keep nodes dbs w w1 _ k Haf). keeps.
    + eapply waiting_same; [exact H4|]. apply (to_net_keep nodes dbs w w1 _ k Haf). intros b _. keeps.
  - apply (untouched w w1 a (SignalP d)); try done.
    + unfold w1. cbn [pairs]. cbn zeta. rewrite !decide_False by done. rewrite app_nil_r. by destruct (pairs w j).
    + destruct (decide (a = j.2)) as [->|]; [|by right]. left. intros [= ->]. apply Hne. by destruct j.
    + by left.
Qed.

Lemma signal_recv_inv w a d cs n :
  inv w -> a ∈ nodes -> drop n shutdown_calls = SignalR d :: cs -> calls w a = SignalR d :: cs -> ready w (Called a (SignalR d)) = true ->
  exists w', exec dbs thr (App a) w = Ok w' /\ inv w' /\ after w w' (Some (Called a (SignalR d))).
Proof.
  intros Hi Ha Hn Hc Hr. set (k := (d, a)). assert (Hk : k.2 ∈ nodes) by done. destruct (proj1 (ready_iff nodes dbs w _) Hr) as [Hh _].
  destruct (in_pairs _ _ _ w Hi k Hk) as [Hpo [Hst Hrep Hsg Hpe Hdn] H1 H2 H3 H4].
  assert (happened w (RecvOwn k) = false) as Hown by (apply (closed_needs nodes dbs thr w _ (Called a (SignalR d))); try done; left).
  assert (state_ (obj (recv (pairs w k))) = RUN) as Hrun by by rewrite Hst, Hown.
  cbn [exec]. rewrite Hc. cbn [call_step]. change (d, a) with k. unfold SignalTerm. rewrite Hrun.
  rewrite (decide_False (P := RUN <> _)) by auto. cbn [mbind res_bind CHECK Z.eqb]. eexists. split; [reflexivity|].
  match goal with |- inv ?w' /\ _ => set (w1 := w') end.
  assert (after w w1 (Some (Called a (SignalR d)))) as Haf.
  { apply (after_call w w1 a (SignalR d) cs); [exists n; congruence|done|done|done|].
    intros j. unfold w1. cbn [pairs recv]. cbn zeta. goal_decide; [subst j|]; by rewrite ?Hrun. }
  split; [|exact Haf]. apply (call_inv w w1 a (SignalR d) cs n); try done. intros j Hj. destruct (decide (j = k)) as [->|Hne].
  - assert (pairs w1 k = let p := pairs w k in
      mkPair (prop p) (prop_done p) (set_obj (recv p) (mkRecvObj RUN (thrinfo_ (obj (recv p))) (Some true) (Receiver.table_dir_ (obj (recv p))))) (recv_done p)
        (to_prop p) (to_sub p) (to_recv p ++ [InRecv ERInternalTerminate]) (to_net p)) as ->.
    { unfold w1. cbn [pairs]. cbn zeta. rewrite !decide_True by done. done. }
    cbn zeta. split; cbn [prop prop_done recv recv_done to_prop to_sub to_recv to_net].
    + apply (prop_ok_ext dbs thr w w1 k (prop (pairs w k)) _ _ _ Hpo Haf); try done. intros x Hx [= ->]. unfold prop_returns in Hx. set_solver.
    + assert (all_happened w1 (recv_returns k) = all_happened w (recv_returns k)) as Hall.
      { apply (all_after dbs w w1 _ _ Haf). intros x Hx [= ->]. unfold Shutdown.recv_returns in Hx. set_solver. }
      split; [|by rewrite !(after_other _ _ _ _ _ Haf) by done|done|done|by rewrite Hall].
      cbn [set_obj obj state_]. by rewrite (after_other _ _ _ _ (RecvOwn k) Haf), Hown by done.
    + eapply waiting_same; [exact H1|]. apply (to_prop_keep nodes dbs w w1 _ k Haf). keeps.
    + eapply waiting_same; [exact H2|]. apply (to_sub_keep nodes dbs w w1 _ k Haf). keeps.
    + replace [InRecv ERInternalTerminate] with (if ready w1 (RecvOwn k) then [InRecv ERInternalTerminate] else []).
      2:{ rewrite (ready_after nodes dbs thr w w1 (Called a (SignalR d))) by (done || left). unfold Shutdown.all_happened. cbn [Shutdown.needs forallb].
          by rewrite (after_this _ _ _ _ Haf : happened w1 (Called k.2 (SignalR k.1)) = true). }
      apply (waiting_grow nodes dbs (recv_ev k) w w1); [exact H3|done|by intros [|[]]|by apply (not_ready nodes dbs w (Called a (SignalR d))); [|left]|].
      intros m' x Hx Hne. destruct m' as [|[]]; simplify_eq/=. apply (ready_keep nodes dbs w w1 _ _ Haf); keeps.
    + eapply waiting_same; [exact H4|]. apply (to_net_keep nodes dbs w w1 _ k Haf). intros b _. keeps.
  - apply (untouched w w1 a (SignalR d)); try done.
    + unfold w1. cbn [pairs]. cbn zeta. rewrite !decide_False by done. rewrite app_nil_r. by destruct (pairs w j).
    + by left.
    + destruct (decide (a = j.2)) as [->|]; [|by right]. left. intros [= ->]. apply Hne. by destruct j.
Qed.

(** A wait returns when the thread has. *)
Lemma wait_inv w a c cs n :
  inv w -> a ∈ nodes -> drop n shutdown_calls = c :: cs -> calls w a = c :: cs ->
  match c with WaitP _ | WaitR _ => True | _ => False end ->
  if ready w (Called a c)
  then exists w', exec dbs thr (App a) w = Ok w' /\ inv w' /\ after w w' (Some (Called a c))
  else exec dbs thr (App a) w = Block.
Proof.
  intros Hi Ha Hn Hc Hw. pose proof (next_call n c cs Hn) as (_ & Hprev & _ & Hsig).
  assert (Hok : ready w (Called a c) = true -> let w' := mkWorld (pairs w) (fun b => if decide (b = a) then cs else calls w b) in
    inv w' /\ after w w' (Some (Called a c))).
  { intros Hr w'. assert (after w w' (Some (Called a c))) as Haf by (apply (after_call w w' a c cs); [exists n; congruence|done..]).
    split; [|done]. apply (call_inv w w' a c cs n); try done. intros j Hj. by apply (untouched w w' a c); destruct c; auto. }
  assert (Hready : ready w (Called a c) = match c with WaitP d => all_happened w (prop_returns (d, a)) | WaitR d => all_happened w (recv_returns (d, a)) | _ => true end).
  { unfold Shutdown.ready, Shutdown.all_happened. cbn [Shutdown.needs]. rewrite forallb_app.
    assert (happened w (Called a c) = false) as -> by (apply bool_decide_eq_false_2; rewrite Hc; intros Hx; by apply Hx; left).
    assert (forallb (happened w) (Called a <$> previous c) = true) as ->.
    { apply forallb_forall. intros x Hx%list_elem_of_In. apply list_elem_of_fmap in Hx as (p & -> & Hp).
      apply bool_decide_eq_true_2. rewrite Hc. by apply Hprev. }
    by destruct c. }
  cbn [exec]. rewrite Hc. destruct c as [| |d|d]; try done; cbn [call_step];
    destruct (in_pairs _ _ _ w Hi (d, a) Ha) as [[_ _ Hsp Hctl Hdn] [Hst _ Hsr _ Hdr] _ _ _ _].
  - assert (Propagator.have_signaled_term_ (Propagator.obj (prop (pairs w (d, a)))) = true) as Hs.
    { apply Hsp, bool_decide_eq_true_2. simpl. by rewrite Hc. }
    assert (Propagator.state_ (Propagator.obj (prop (pairs w (d, a)))) <> Propagator.INIT) as Hini.
    { apply (f_equal c_state) in Hctl. cbn [ctl_of shape c_state] in Hctl. rewrite Hctl. by repeat case_match. }
    unfold Propagator.WaitTerm. rewrite decide_False by exact Hini. rewrite Hs, Hdn, <- Hready.
    destruct (ready w (Called a (WaitP d))) eqn:E; [|done]. simpl. eexists. split; [reflexivity|]. by apply Hok.
  - assert (have_signaled_term_ (obj (recv (pairs w (d, a)))) = Some true) as Hs.
    { apply Hsr, bool_decide_eq_true_2. simpl. by rewrite Hc. }
    assert (state_ (obj (recv (pairs w (d, a)))) <> INIT) as Hini by (rewrite Hst; by repeat case_match).
    unfold WaitTerm. rewrite decide_False by exact Hini. rewrite Hs, Hdr, <- Hready.
    destruct (ready w (Called a (WaitR d))) eqn:E; [|done]. simpl. eexists. split; [reflexivity|]. by apply Hok.
Qed.
End recv.
