(* ===== verification/ShutdownProps.v ===== *)
(** The shutdown of a cluster: it implements the order of events, so it always comes to
    its end, after the same number of events in every interleaving, and nobody leaves
    before its neighbours have begun. *)
From S2P Require Import Prelude Common MemStruct ValueOps Protocol Propagator PropagatorSpec PropagatorProps PropagatorTerm InternalTable Receiver ReceiverTerm System Ring QuiltDB QuiltDBProps Node RingNode Shutdown ShutdownTurn ShutdownInv ShutdownRecv.

(** ** The started cluster *)

Lemma announced_lookup ids : forall m q,
  announced ids m !! q = if decide (q ∈ ids) then Some (mkPeerPropagatorInfo true false) else m !! q.
Proof.
  induction ids as [|id ids IH]; intros m q; [by rewrite decide_False by apply not_elem_of_nil|].
  cbn [announced fold_left]. change (fold_left _ ids ?x) with (announced ids x). rewrite IH.
  destruct (decide (q ∈ ids)) as [Hin|Hout]; [by rewrite decide_True by by right|].
  destruct (decide (q = id)) as [->|Hne]; [rewrite decide_True by left; by rewrite lookup_insert_eq|].
  rewrite decide_False by set_solver. by rewrite lookup_insert_ne.
Qed.

Section props.
Context `{Allocator} `{UnorderedIter} (nodes : list Z) (dbs : Z -> QuiltDB) (thr : Z -> Z) (Hrings : rings nodes dbs).
Notation happened := (happened dbs).
Notation all_happened := (all_happened dbs).
Notation needs := (needs nodes dbs).
Notation ready := (ready nodes dbs).
Notation ups := (ups nodes dbs).
Notation down := (down dbs).
Notation events := (events nodes).
Notation inv := (inv nodes dbs thr).
Notation after := (after dbs).

(** What a pair starts from. *)
Lemma started_pair w a d :
  started nodes dbs thr w -> a ∈ nodes ->
  let p := pairs w (d, a) in
  store_empty (prop p) /\ thr a ∈ update_push_sock_ (Propagator.obj (prop p)) /\ ctl_of (prop p) = shape false false false false /\
  prop_done p = false /\ state_ (obj (recv p)) = RUN /\ have_received_prop_pair_term (recv p) = false /\
  have_replied_prop_pair_term (recv p) = false /\ recv_done p = false /\
  (forall q, peer_prop_info (recv p) !! q = if decide (q ∈ ups (d, a)) then Some (mkPeerPropagatorInfo true false) else None) /\
  to_prop p = [] /\ to_sub p = [] /\ to_recv p = [] /\ to_net p = [].
Proof.
  intros Hs Ha. destruct (Hs a Ha) as (_ & spec & hout & vout & ret & db' & thrs & db'' & Hdb & Hst & Hreg & Hd).
  destruct (Hd d) as (Hin & Hsub & Hnet & s & r & -> & Hpu & Hse & Hru). cbn [prop prop_done recv recv_done to_prop to_sub to_recv to_net].
  destruct (start_inv spec (dbs a) hout vout ret db' thrs d Hdb Hst) as [Hp Hr].
  destruct (registered_both (thr a) db' db'' d Hreg) as [Hrun Hsock].
  destruct (of_pair thrs d) as [[ps prem] [rs rrem]]. cbn [fst snd] in *. subst prem rrem.
  apply (prop_used_kept _ _ _ _ Hpu) in Hsock as [Hc Hsock]; [|done]. apply recv_used_flags in Hru.
  apply handshake_flags in Hp as [_ Hf].
  rewrite Hin in Hr. apply handshake_completes_iff in Hr as (m & _ & ->); [|apply (ri_expected _ _ Hrings a d Ha)|apply (ri_up _ _ Hrings a d Ha)].
  unfold recv_flags in Hru. injection Hru as Ho Hpi Hf1 Hf2. simpl in Ho, Hpi, Hf1, Hf2.
  cbn zeta. split_and!; try done.
  - rewrite Hc. unfold shape, ctl_of in *. simpl. rewrite Hrun. unfold ctl_after in Hf. simpl in Hf. injection Hf as _ -> -> -> ->.
    rewrite !andb_false_r, orb_false_r. f_equal. unfold has_downstream.
    rewrite (proj2 (Z.leb_le _ _)); [done|]. apply (ri_down _ _ Hrings a d Ha).
  - by rewrite Ho.
  - intros q. rewrite Hpi. by rewrite announced_lookup.
Qed.

Lemma started_nothing w e : started nodes dbs thr w -> ev_node e ∈ nodes -> happened w e = false.
Proof.
  intros Hs He. destruct e as [a c|[d a]|[d a]|[d a]|[d a]|[d a]|[d a]|[d a]]; cbn [ev_node] in He; simpl in He; cbn [Shutdown.happened].
  - destruct (Hs a He) as [-> _]. apply bool_decide_eq_false_2. intros Hx. apply Hx. by destruct c as [[]|[]|[]|[]]; apply (bool_decide_unpack _).
  - destruct (started_pair w a d Hs He) as (_ & _ & Hc & _). apply shape_fields in Hc as [Hx _]. exact Hx.
  - destruct (started_pair w a d Hs He) as (_ & _ & Hc & _). by apply shape_fields in Hc as (_ & _ & -> & _).
  - destruct (started_pair w a d Hs He) as (_ & _ & Hc & _). by apply shape_fields in Hc as (_ & _ & _ & ->).
  - destruct (started_pair w a d Hs He) as (_ & _ & Hc & _). by apply shape_fields in Hc as (_ & -> & _).
  - destruct (started_pair w a d Hs He) as (_ & _ & _ & _ & -> & _). by apply bool_decide_eq_false_2; auto.
  - by destruct (started_pair w a d Hs He) as (_ & _ & _ & _ & _ & -> & -> & _).
  - pose proof (down_node nodes dbs Hrings (d, a) He) as Hd. destruct (down (d, a)) as [d' b]. simpl in Hd.
    destruct (started_pair w b d' Hs Hd) as (_ & _ & _ & _ & _ & _ & _ & _ & Hp & _). unfold acked. rewrite Hp. by case_decide.
Qed.

(** Only the first calls can be made. *)
Lemma nothing_ready w e x : started nodes dbs thr w -> x ∈ needs e -> ev_node x ∈ nodes -> ready w e = false.
Proof.
  intros Hs Hx Hn. destruct (ready w e) eqn:E; [|done]. apply ready_iff in E as [_ E].
  specialize (E x Hx). by rewrite (started_nothing w x Hs Hn) in E.
Qed.

Lemma inv_started w : started nodes dbs thr w -> inv w.
Proof.
  intros Hs. assert (Hno : forall {M} (ev : M -> option Event), (forall m e, ev m = Some e -> ready w e = false) -> waiting nodes dbs ev w []).
  { intros M ev Hev. split; [constructor|]. intros m. split; [intros Hm; by apply not_elem_of_nil in Hm|].
    intros (e & He & Hr). by rewrite (Hev m e He) in Hr. }
  split.
  - intros [d a] Ha. simpl in Ha. destruct (started_pair w a d Hs Ha) as (H1 & H2 & H3 & H4 & H5 & H6 & H7 & H8 & H9 & H10 & H11 & H12 & H13).
    assert (Hn : forall e, ev_node e ∈ nodes -> happened w e = false) by (intros; by apply started_nothing).
    pose proof (down_node nodes dbs Hrings (d, a) Ha) as Hdn.
    assert (HP : all_happened w (prop_returns (d, a)) = false) by (unfold Shutdown.all_happened; cbn [prop_returns forallb]; by rewrite Hn).
    assert (HR : all_happened w (recv_returns nodes dbs (d, a)) = false) by (unfold Shutdown.all_happened; cbn [recv_returns forallb app]; by rewrite Hn).
    split.
    + split; [done|done|by rewrite Hn| |by rewrite HP]. by rewrite H3, !Hn.
    + split; [by rewrite Hn|by rewrite !Hn|by rewrite Hn| |by rewrite HR]. intros q. rewrite H9. case_decide; [|by split; [intros []|]].
      split; [done|by eexists].
    + rewrite H10. apply Hno. intros [| |[]] e [= <-]; [apply (nothing_ready w _ (Called a (SignalP d)))|apply (nothing_ready w _ (RecvOwn (d, a)))]; try done; left.
    + rewrite H11. apply Hno. intros [] e [= <-]. apply (nothing_ready w _ (RecvOwn (down (d, a)))); try done. left.
    + rewrite H12. apply Hno. intros [|[]] e [= <-]; [apply (nothing_ready w _ (Called a (SignalR d)))|apply (nothing_ready w _ (OwnTerm (d, a)))]; try done; left.
    + rewrite H13. apply Hno. intros m e He. destruct m; simplify_eq/=. case_decide as Hin; simplify_eq. apply elem_of_ups in Hin as [_ Hin].
      apply (nothing_ready w _ (OwnTerm (d, node))); try done. left.
  - intros a Ha. destruct (Hs a Ha) as [-> _]. by exists O.
  - intros e He Hh. by rewrite (started_nothing w e Hs He) in Hh.
Qed.

(** ** One step *)

(** Every act that is not [Block] does what its event says, and only once it is next. *)
Lemma act_ok w act :
  inv w -> node_of act ∈ nodes ->
  (exec dbs thr act w = Block /\ forall e, event_of dbs act w = Some e -> ready w e = false) \/
  exists w', exec dbs thr act w = Ok w' /\ inv w' /\ after w w' (event_of dbs act w) /\
    forall e, event_of dbs act w = Some e -> ready w e = true /\ ev_node e ∈ nodes.
Proof.
  intros Hi Hn. destruct act as [a|k|k i|k i|k i|k i]; cbn [node_of] in Hn; cbn [event_of].
  - destruct (in_calls _ _ _ w Hi a Hn) as [n Hd]. destruct (calls w a) as [|c cs] eqn:Hc; [left; cbn [exec]; by rewrite Hc|].
    symmetry in Hd. assert (Hr : match c with SignalP _ | SignalR _ => ready w (Called a c) = true | _ => True end).
    { pose proof (next_call n c cs Hd) as (_ & Hprev & _ & _). destruct c; try done; apply ready_iff;
        (split; [apply bool_decide_eq_false_2; rewrite Hc; intros Hx; apply Hx; left|]);
        intros x Hx; apply elem_of_app in Hx as [(p & -> & Hp)%list_elem_of_fmap|Hx]; try (by apply not_elem_of_nil in Hx);
        apply bool_decide_eq_true_2; rewrite Hc; by apply Hprev. }
    destruct c as [d|d|d|d].
    + right. destruct (signal_prop_inv nodes dbs thr Hrings w a d cs n Hi Hn Hd Hc Hr) as (w' & He & Hi' & Ha). exists w'. split_and!; try done. by intros e [= <-].
    + right. destruct (signal_recv_inv nodes dbs thr Hrings w a d cs n Hi Hn Hd Hc Hr) as (w' & He & Hi' & Ha). exists w'. split_and!; try done. by intros e [= <-].
    + pose proof (wait_inv nodes dbs thr Hrings w a _ cs n Hi Hn Hd Hc I) as Hw. destruct (ready w (Called a (WaitP d))) eqn:E; [|left; split; [done|]; by intros e [= <-]].
      right. destruct Hw as (w' & He & Hi' & Ha). exists w'. split_and!; try done. by intros e [= <-].
    + pose proof (wait_inv nodes dbs thr Hrings w a _ cs n Hi Hn Hd Hc I) as Hw. destruct (ready w (Called a (WaitR d))) eqn:E; [|left; split; [done|]; by intros e [= <-]].
      right. destruct Hw as (w' & He & Hi' & Ha). exists w'. split_and!; try done. by intros e [= <-].
  - destruct (have_stopped_timer_thr (prop (pairs w k))) eqn:Ht.
    { left. cbn [exec]. rewrite Ht. split; [done|]. intros e Hev. destruct (happened w (OwnTerm k)); simplify_eq.
      unfold Shutdown.ready. cbn [Shutdown.happened]. by rewrite Ht. }
    right.
    assert (prop_done (pairs w k) = false) as Hd.
    { destruct (in_pairs _ _ _ w Hi k Hn) as [[_ _ _ _ ->] _ _ _ _ _]. destruct (all_happened w (prop_returns k)) eqn:E; [|done].
      rewrite all_happened_iff in E. specialize (E (TimerStopped k)). cbn [Shutdown.happened] in E. rewrite E in Ht; [done|unfold prop_returns; set_solver]. }
    destruct (tick_inv nodes dbs thr Hrings w k Hi Hn Ht Hd) as (w' & He & Hi' & Ha). exists w'. split_and!; try done.
    intros e Hev. cbn [event_of] in Hev. destruct (happened w (OwnTerm k)) eqn:Ho; simplify_eq. split; [|done]. apply ready_iff.
    split; [done|]. by intros y ->%list_elem_of_singleton.
  - destruct (to_prop (pairs w k) !! i) as [m|] eqn:Hm; [|left; cbn [exec]; by rewrite Hm]. right.
    destruct (in_pairs _ _ _ w Hi k Hn) as [_ _ [_ Hq] _ _ _]. destruct (proj1 (Hq m)) as (e & He & Hr); [by eapply list_elem_of_lookup_2|].
    destruct m as [| |[]]; simplify_eq/=.
    + destruct (pull_own_inv nodes dbs thr Hrings w k i Hi Hn Hm Hr) as (w' & Hx & Hi' & Ha). exists w'. split_and!; try done. by intros e [= <-].
    + destruct (pull_ack_inv nodes dbs thr Hrings w k i Hi Hn Hm Hr) as (w' & Hx & Hi' & Ha). exists w'. split_and!; try done. by intros e [= <-].
  - destruct (to_sub (pairs w k) !! i) as [m|] eqn:Hm; [|left; cbn [exec]; by rewrite Hm]. right.
    destruct (in_pairs _ _ _ w Hi k Hn) as [_ _ _ [_ Hq] _ _]. destruct (proj1 (Hq m)) as (e & He & Hr); [by eapply list_elem_of_lookup_2|].
    destruct m; simplify_eq/=.
    destruct (sub_inv nodes dbs thr Hrings w k i Hi Hn Hm Hr) as (w' & Hx & Hi' & Ha). exists w'. split_and!; try done. by intros e [= <-].
  - destruct (to_recv (pairs w k) !! i) as [m|] eqn:Hm; [|left; cbn [exec]; by rewrite Hm]. right.
    destruct (in_pairs _ _ _ w Hi k Hn) as [_ _ _ _ [_ Hq] _]. destruct (proj1 (Hq m)) as (e & He & Hr); [by eapply list_elem_of_lookup_2|].
    destruct m as [|[]]; simplify_eq/=.
    + destruct (own_inv nodes dbs thr Hrings w k i Hi Hn Hm Hr) as (w' & Hx & Hi' & Ha). exists w'. split_and!; try done. by intros e [= <-].
    + destruct (pair_inv nodes dbs thr Hrings w k i Hi Hn Hm Hr) as (w' & Hx & Hi' & Ha). exists w'. split_and!; try done. by intros e [= <-].
  - destruct (to_net (pairs w k) !! i) as [m|] eqn:Hm; [|left; cbn [exec]; by rewrite Hm]. right.
    destruct (in_pairs _ _ _ w Hi k Hn) as [_ _ _ _ _ [_ Hq]]. destruct (proj1 (Hq m)) as (e & He & Hr); [by eapply list_elem_of_lookup_2|].
    destruct m as [| | |q|]; simplify_eq/=. case_decide as Hin; simplify_eq.
    destruct (ack_inv nodes dbs thr Hrings w k i q Hi Hn Hin Hm Hr) as (w' & Hx & Hi' & Ha). exists w'. split_and!; try done.
    apply elem_of_ups in Hin as [_ Hin]. by intros e [= <-].
Qed.

Lemma run_ok w n w' : started nodes dbs thr w -> runs nodes dbs thr n w w' -> inv w'.
Proof.
  intros Hs Hr. induction Hr as [w|n w1 w2 w3 act _ IH Hn He]; [by apply inv_started|].
  destruct (act_ok w2 act (IH Hs) Hn) as [[Hb _]|(w' & He' & Hi & _)]; congruence.
Qed.

(** ** The events of the cluster *)

Lemma elem_of_order_events e : e ∈ events <-> ev_node e ∈ nodes.
Proof.
  unfold Shutdown.events. rewrite list_elem_of_bind. split.
  - intros (a & [(c & -> & _)%list_elem_of_fmap|(d & Hin & _)%list_elem_of_bind]%elem_of_app & Ha); [done|].
    repeat (apply elem_of_cons in Hin as [->|Hin]; [done|]). by apply not_elem_of_nil in Hin.
  - intros He. exists (ev_node e). split; [|done]. apply elem_of_app.
    destruct e as [a c|[d a]|[d a]|[d a]|[d a]|[d a]|[d a]|[d a]]; cbn [ev_node snd];
      [left; apply list_elem_of_fmap; exists c; split; [done|]; by destruct c as [[]|[]|[]|[]]; apply (bool_decide_unpack _)|right..];
      apply list_elem_of_bind; exists d; (split; [set_solver|]); by destruct d; set_solver.
Qed.

Lemma needs_nodes e x : ev_node e ∈ nodes -> x ∈ needs e -> ev_node x ∈ nodes.
Proof.
  intros He Hx. destruct e as [a c|k|k|k|k|k|k|k]; cbn [ev_node] in He; cbn [Shutdown.needs] in Hx.
  - apply elem_of_app in Hx as [(p & -> & _)%list_elem_of_fmap|Hx]; [done|]. destruct c as [d|d|d|d]; try (by apply not_elem_of_nil in Hx).
    + unfold prop_returns in Hx. repeat (apply elem_of_cons in Hx as [->|Hx]; [done|]). by apply not_elem_of_nil in Hx.
    + unfold recv_returns in Hx. apply elem_of_app in Hx as [Hx|(u & -> & [_ Hu]%elem_of_ups)%list_elem_of_fmap]; [|done].
      repeat (apply elem_of_cons in Hx as [->|Hx]; [done|]). by apply not_elem_of_nil in Hx.
  - apply list_elem_of_singleton in Hx as ->. done.
  - apply list_elem_of_singleton in Hx as ->. done.
  - repeat (apply elem_of_cons in Hx as [->|Hx]; [done|]). by apply not_elem_of_nil in Hx.
  - apply list_elem_of_singleton in Hx as ->. by apply (down_node nodes dbs Hrings).
  - apply list_elem_of_singleton in Hx as ->. done.
  - apply list_elem_of_singleton in Hx as ->. done.
  - repeat (apply elem_of_cons in Hx as [->|Hx]; [done|]). by apply not_elem_of_nil in Hx.
Qed.

(** The order has no cycle. *)
Definition rank (e : Event) : nat :=
  match e with
  | Called _ (SignalP HPropagator) => 0
  | Called _ (SignalR HPropagator) => 1
  | Called _ (SignalP VPropagator) => 2
  | Called _ (SignalR VPropagator) => 3
  | OwnTerm _ | RecvOwn _ => 4
  | TimerStopped _ | PairTerm _ | DsTerm _ => 5
  | RecvAcked _ | AckTaken _ => 6
  | Called _ (WaitP HPropagator) => 7
  | Called _ (WaitR HPropagator) => 8
  | Called _ (WaitP VPropagator) => 9
  | Called _ (WaitR VPropagator) => 10
  end.

Lemma needs_rank e x : x ∈ needs e -> (rank x < rank e)%nat.
Proof.
  intros Hx. destruct e as [a c|k|k|k|k|k|k|k]; cbn [Shutdown.needs] in Hx.
  2,6: apply list_elem_of_singleton in Hx as ->; destruct k as [[] ?]; simpl; lia.
  2,4,5: apply list_elem_of_singleton in Hx as ->; simpl; lia.
  2,3: repeat (apply elem_of_cons in Hx as [->|Hx]; [simpl; lia|]); by apply not_elem_of_nil in Hx.
  apply elem_of_app in Hx as [(p & -> & Hp)%list_elem_of_fmap|Hx].
  - destruct c as [[]|[]|[]|[]]; simpl in Hp; try (by apply not_elem_of_nil in Hp); apply list_elem_of_singleton in Hp as ->; simpl; lia.
  - destruct c as [d|d|d|d]; try (by apply not_elem_of_nil in Hx).
    + unfold prop_returns in Hx. repeat (apply elem_of_cons in Hx as [->|Hx]; [by destruct d; simpl; lia|]). by apply not_elem_of_nil in Hx.
    + unfold recv_returns in Hx. apply elem_of_app in Hx as [Hx|(u & -> & _)%list_elem_of_fmap]; [|destruct d; simpl; lia].
      repeat (apply elem_of_cons in Hx as [->|Hx]; [by destruct d; simpl; lia|]). by apply not_elem_of_nil in Hx.
Qed.

(** While something has not happened, something is next. *)
Lemma some_ready w e : happened w e = false -> ev_node e ∈ nodes -> exists x, ev_node x ∈ nodes /\ ready w x = true.
Proof.
  remember (rank e) as n eqn:Hn. revert e Hn. induction (lt_wf n) as [n _ IH]. intros e -> Hh He.
  destruct (all_happened w (needs e)) eqn:E.
  - exists e. split; [done|]. unfold Shutdown.ready. by rewrite Hh, E.
  - apply not_true_iff_false in E. rewrite all_happened_iff in E.
    assert (exists x, x ∈ needs e /\ happened w x = false) as (x & Hx & Hf).
    { clear -E. induction (needs e) as [|y l IHl]; [destruct E; intros x Hx; by apply not_elem_of_nil in Hx|].
      destruct (happened w y) eqn:Hy; [|exists y; split; [left|done]].
      destruct IHl as (x & Hx & Hf); [|exists x; split; [by right|done]]. intros Hl. apply E. by intros x [->|Hx]%elem_of_cons; [|apply Hl]. }
    apply (IH (rank x) (needs_rank e x Hx) x eq_refl Hf). by apply (needs_nodes e).
Qed.

(** ** What is next can happen *)

Lemma head_call n c : c ∈ drop n shutdown_calls -> (forall p, p ∈ previous c -> p ∉ drop n shutdown_calls) -> exists cs, drop n shutdown_calls = c :: cs.
Proof.
  intros Hc Hp. do 8 (destruct n; [unfold shutdown_calls in *; cbn [drop] in *;
    repeat (apply elem_of_cons in Hc as [->|Hc]; [first [by eexists|exfalso; eapply Hp; [left|set_solver]]|]); by apply not_elem_of_nil in Hc|]).
  destruct n; by apply not_elem_of_nil in Hc.
Qed.

Lemma ready_event w e : inv w -> ev_node e ∈ nodes -> ready w e = true -> exists act, node_of act ∈ nodes /\ event_of dbs act w = Some e.
Proof.
  intros Hi He Hr. assert (Hq : forall {M} (ev : M -> option Event) q m, waiting nodes dbs ev w q -> ev m = Some e -> exists i, q !! i = Some m).
  { intros M ev q m [_ Hw] Hm. apply list_elem_of_lookup, Hw. by exists e. }
  destruct e as [a c|k|k|k|k|k|k|k]; cbn [ev_node] in He; try (destruct (in_pairs _ _ _ w Hi k He) as [_ _ H1 H2 H3 _]).
  - apply ready_iff in Hr as [Hh Hn]. destruct (in_calls _ _ _ w Hi a He) as [n Hd].
    apply bool_decide_eq_false in Hh. apply dec_stable in Hh.
    destruct (head_call n c) as [cs Hcs]; [by rewrite <- Hd| |].
    { intros p Hp. rewrite <- Hd. assert (happened w (Called a p) = true) as Hpr; [|exact (bool_decide_eq_true_1 _ Hpr)].
      apply Hn. cbn [Shutdown.needs]. apply elem_of_app. left. apply list_elem_of_fmap. eauto. }
    exists (App a). split; [done|]. cbn [event_of]. by rewrite Hd, Hcs.
  - destruct (Hq _ _ _ (InOther EPInternalTerminate) H1 eq_refl) as [i Hm]. exists (Pull k i). split; [done|]. cbn [event_of]. by rewrite Hm.
  - exists (Tick k). split; [done|]. cbn [event_of]. apply ready_iff in Hr as [_ Hn]. by rewrite Hn by left.
  - destruct (Hq _ _ _ (InOther EPRecvInternalTerminateACK) H1 eq_refl) as [i Hm]. exists (Pull k i). split; [done|]. cbn [event_of]. by rewrite Hm.
  - destruct (Hq _ _ _ EPRTerminate H2 eq_refl) as [i Hm]. exists (Sub k i). split; [done|]. cbn [event_of]. by rewrite Hm.
  - destruct (Hq _ _ _ (InRecv ERInternalTerminate) H3 eq_refl) as [i Hm]. exists (Internal k i). split; [done|]. cbn [event_of]. by rewrite Hm.
  - destruct (Hq _ _ _ (InRecv EPRInternalTerminate) H3 eq_refl) as [i Hm]. exists (Internal k i). split; [done|]. cbn [event_of]. by rewrite Hm.
  - pose proof (down_node nodes dbs Hrings k He) as Hd. destruct (in_pairs _ _ _ w Hi (down k) Hd) as [_ _ _ _ _ H4].
    destruct (Hq _ _ _ (NetTermAck k.2) H4) as [i Hm].
    { cbn [ShutdownInv.net_ev]. rewrite decide_True by by apply in_ups_down. by destruct k. }
    exists (Net (down k) i). split; [done|]. cbn [event_of]. rewrite Hm. by destruct k.
Qed.

Lemma ready_acts w e : inv w -> ev_node e ∈ nodes -> ready w e = true ->
  exists act w', node_of act ∈ nodes /\ event_of dbs act w = Some e /\ exec dbs thr act w = Ok w'.
Proof.
  intros Hi He Hr. destruct (ready_event w e Hi He Hr) as (act & Hn & Hev).
  destruct (act_ok w act Hi Hn) as [[_ Hb]|(w' & Hx & _)]; [|eauto]. by rewrite (Hb e Hev) in Hr.
Qed.

(** ** Counting *)

Lemma count_down {A} `{EqDecision A} (f g : A -> bool) l e :
  NoDup l -> e ∈ l -> f e = false -> (forall x, g x = f x || bool_decide (x = e)) ->
  S (length (filter (fun x => g x = false) l)) = length (filter (fun x => f x = false) l).
Proof.
  intros Hn He Hf Hg.
  assert (Hsame : forall k : list A, e ∉ k -> filter (fun x => g x = false) k = filter (fun x => f x = false) k).
  { induction k as [|x k IH]; intros Hk; [done|]. apply not_elem_of_cons in Hk as [Hne Hk]. rewrite !filter_cons, IH by done.
    by rewrite Hg, bool_decide_eq_false_2, orb_false_r by congruence. }
  apply list_elem_of_split in He as (l1 & l2 & ->). apply NoDup_app in Hn as (_ & Hd & [Hm _]%NoDup_cons).
  rewrite !filter_app, !filter_cons, !(Hsame l1), !(Hsame l2); [|done|intros Hin; apply (Hd e Hin); left].
  rewrite (decide_True (P := f e = false)) by done. rewrite decide_False by (rewrite Hg, bool_decide_eq_true_2, orb_true_r by done; done).
  rewrite !length_app. simpl. lia.
Qed.

Lemma events_NoDup : NoDup events.
Proof.
  pose proof (ri_nodup _ _ Hrings) as Hn. unfold Shutdown.events.
  assert (Hb : forall l, NoDup l -> NoDup (l ≫= fun a => (Called a <$> shutdown_calls) ++ ([HPropagator; VPropagator] ≫= fun d =>
    let k := (d, a) in [OwnTerm k; TimerStopped k; RecvAcked k; DsTerm k; RecvOwn k; PairTerm k; AckTaken k]))); [|by apply Hb].
  clear. induction l as [|a l IH]; intros Hn; [constructor|]. apply NoDup_cons in Hn as [Ha Hn]. rewrite bind_cons. apply NoDup_app. split_and!; [| |by apply IH].
  - cbn. repeat (apply NoDup_cons; split; [intros Hin; repeat (apply elem_of_cons in Hin as [Hin|Hin]; [congruence|]); by apply not_elem_of_nil in Hin|]). constructor.
  - intros e He (b & Hb & Hbl)%list_elem_of_bind. apply Ha.
    assert (Hnode : forall c, e ∈ (Called c <$> shutdown_calls) ++ ([HPropagator; VPropagator] ≫= fun d =>
      let k := (d, c) in [OwnTerm k; TimerStopped k; RecvAcked k; DsTerm k; RecvOwn k; PairTerm k; AckTaken k]) -> ev_node e = c).
    { intros c. cbn. intros Hc. repeat (apply elem_of_cons in Hc as [->|Hc]; [done|]). by apply not_elem_of_nil in Hc. }
    by rewrite <- (Hnode a He), (Hnode b Hb).
Qed.

Lemma length_events : length events = (22 * length nodes)%nat.
Proof.
  unfold Shutdown.events. clear. induction nodes as [|a l IH]; [done|]. rewrite bind_cons, length_app, IH. cbn. lia.
Qed.

(** How many events are still to come. *)
Definition pending (w : World) : nat := length (filter (fun e => happened w e = false) events).

Lemma pending_started w : started nodes dbs thr w -> pending w = (22 * length nodes)%nat.
Proof.
  intros Hs. rewrite <- length_events. unfold pending. f_equal.
  assert (Hl : forall l : list Event, (forall e, e ∈ l -> happened w e = false) -> filter (fun e => happened w e = false) l = l).
  { induction l as [|e l IH]; intros Hl; [done|]. rewrite filter_cons, decide_True by (apply Hl; left). f_equal. apply IH. intros x Hx. apply Hl. by right. }
  apply Hl. intros e He. by apply (started_nothing w e Hs), elem_of_order_events.
Qed.

Lemma pending_after w w' oe :
  after w w' oe -> match oe with Some e => ready w e = true /\ ev_node e ∈ nodes | None => True end ->
  (match oe with Some _ => S (pending w') | None => pending w' end) = pending w.
Proof.
  intros Ha Hoe. destruct oe as [e|].
  - destruct Hoe as [[Hh _]%ready_iff He]. apply (count_down (happened w) (happened w') events e); [apply events_NoDup|by apply elem_of_order_events|done|].
    intros x. rewrite Ha. f_equal. apply bool_decide_ext. split; [by intros [=]|by intros ->].
  - unfold pending. f_equal. apply list_filter_iff. intros x. rewrite Ha, bool_decide_eq_false_2, orb_false_r by done. done.
Qed.

Lemma run_pending w n w' : started nodes dbs thr w -> runs nodes dbs thr n w w' -> (n + pending w' = 22 * length nodes)%nat.
Proof.
  intros Hs Hr. induction Hr as [w|n w1 w2 w3 act Hrun IH Hn He]; [by apply pending_started|]. specialize (IH Hs).
  destruct (act_ok w2 act (run_ok w1 n w2 Hs Hrun) Hn) as [[Hb _]|(w' & He' & _ & Ha & Hev)]; [congruence|].
  assert (w' = w3) as -> by congruence. pose proof (pending_after w2 w3 _ Ha) as Hp.
  destruct (event_of dbs act w2) as [e|]; [specialize (Hp (Hev e eq_refl))|specialize (Hp I)]; lia.
Qed.

Lemma happened_needs w e x : inv w -> ev_node e ∈ nodes -> happened w e = true -> x ∈ needs e -> happened w x = true.
Proof. intros Hi He Hh Hx. pose proof (in_closed _ _ _ w Hi e He Hh) as Hc. rewrite all_happened_iff in Hc. by apply Hc. Qed.

(** When everything has happened. *)
Lemma all_over w a d :
  inv w -> (forall e, ev_node e ∈ nodes -> happened w e = true) -> a ∈ nodes ->
  let p := pairs w (d, a) in
  prop_done p = true /\ Propagator.state_ (Propagator.obj (prop p)) = Propagator.TERM /\ recv_done p = true /\ state_ (obj (recv p)) = TERM /\
  to_prop p = [] /\ to_sub p = [] /\ to_recv p = [] /\ to_net p = [].
Proof.
  intros Hi Hall Ha. destruct (in_pairs _ _ _ w Hi (d, a) Ha) as [[_ _ _ Hctl Hdn] [Hst _ _ _ Hdr] H1 H2 H3 H4]. cbn zeta.
  assert (all_happened w (prop_returns (d, a)) = true) as HP.
  { apply all_happened_iff. intros e He. apply Hall. unfold prop_returns in He. set_solver. }
  assert (all_happened w (recv_returns nodes dbs (d, a)) = true) as HR.
  { apply all_happened_iff. intros e He. apply Hall. unfold recv_returns in He.
    apply elem_of_app in He as [He|(u & -> & [_ Hu]%elem_of_ups)%list_elem_of_fmap]; [set_solver|done]. }
  assert (Hq : forall {M} (ev : M -> option Event) q, waiting nodes dbs ev w q -> (forall m e, ev m = Some e -> ev_node e ∈ nodes) -> q = []).
  { intros M ev q [_ Hw] Hev. destruct q as [|m q]; [done|]. destruct (proj1 (Hw m)) as (e & He & Hr); [left|].
    apply ready_iff in Hr as [Hr _]. by rewrite Hall in Hr by by apply (Hev m). }
  split_and!.
  - by rewrite Hdn.
  - apply (f_equal c_state) in Hctl. cbn [ctl_of shape c_state] in Hctl. rewrite Hctl, !Hall by done. done.
  - by rewrite Hdr.
  - by rewrite Hst, Hall, HR.
  - apply (Hq _ _ _ H1). by intros [| |[]] e [= <-].
  - apply (Hq _ _ _ H2). by intros [] e [= <-].
  - apply (Hq _ _ _ H3). by intros [|[]] e [= <-].
  - apply (Hq _ _ _ H4). intros m e He. destruct m; simplify_eq/=. case_decide as Hin; simplify_eq. by apply elem_of_ups in Hin as [_ Hin].
Qed.

Lemma pending_zero w : pending w = 0%nat -> forall e, ev_node e ∈ nodes -> happened w e = true.
Proof.
  intros Hp e He. destruct (happened w e) eqn:E; [done|]. exfalso.
  assert (e ∈ filter (fun e => happened w e = false) events) as Hin by (apply list_elem_of_filter; by rewrite elem_of_order_events).
  apply nil_length_inv in Hp. rewrite Hp in Hin. by apply not_elem_of_nil in Hin.
Qed.

Lemma pending_more w : pending w <> 0%nat -> exists e, ev_node e ∈ nodes /\ happened w e = false.
Proof.
  unfold pending. intros Hp. destruct (filter _ events) as [|e l] eqn:E; [done|].
  assert (e ∈ filter (fun e => happened w e = false) events) as [Hh He]%list_elem_of_filter by (rewrite E; left).
  exists e. by rewrite <- elem_of_order_events.
Qed.

(** ** Results *)

(** C10. The order is what the cluster implements. Let every node of a cluster of rings
    have started and been used in any way, with nothing under way any more, and let the
    application threads call ShutDown, at any time and each node on its own. In every
    world that can then be reached no call and no turn of a thread fails, a thread or an application can move exactly if the event its move brings about
    is next in the order - it has not happened, and all events it waits for have - and
    what it changes is that this event has happened. And whatever is next can happen:
    its message is there and its thread has not returned. *)
Theorem shutdown_follows_order w0 n w :
  started nodes dbs thr w0 -> runs nodes dbs thr n w0 w ->
  (forall act, node_of act ∈ nodes ->
    match exec dbs thr act w with
    | Ok w' => (forall x, happened w' x = happened w x || bool_decide (Some x = event_of dbs act w)) /\
        forall e, event_of dbs act w = Some e -> ready w e = true
    | Block => forall e, event_of dbs act w = Some e -> ready w e = false
    | Fault _ => False
    end) /\
  (forall e, e ∈ events -> ready w e = true ->
    exists act w', node_of act ∈ nodes /\ event_of dbs act w = Some e /\ exec dbs thr act w = Ok w').
Proof.
  intros Hs Hr. pose proof (run_ok w0 n w Hs Hr) as Hi. split.
  - intros act Hn. destruct (act_ok w act Hi Hn) as [[-> Hb]|(w' & -> & _ & Ha & Hev)]; [done|].
    split; [exact Ha|]. intros e He. by apply Hev.
  - intros e He%elem_of_order_events Hready. by apply ready_acts.
Qed.

(** C8. A cluster of rings shuts down. The nodes have started and been used in any way,
    what they sent has arrived, and each calls ShutDown; then, in whatever order
    threads and applications move and messages are taken, 22 events per node happen and no
    more: as long as there are fewer, some thread or application can bring about another,
    and after so many every call of ShutDown has returned, all threads have returned from
    their loops in state TERM, and no message is left. (Apart from events only ticks
    happen, at nodes whose propagator has not yet taken in its termination message.) *)
Theorem cluster_shuts_down w0 n w :
  started nodes dbs thr w0 -> runs nodes dbs thr n w0 w ->
  (n <= 22 * length nodes)%nat /\
  ((n < 22 * length nodes)%nat -> exists act w', node_of act ∈ nodes /\ exec dbs thr act w = Ok w' /\ runs nodes dbs thr (S n) w0 w') /\
  (n = (22 * length nodes)%nat -> forall a, a ∈ nodes -> calls w a = [] /\ forall d,
    let p := pairs w (d, a) in
    prop_done p = true /\ Propagator.state_ (Propagator.obj (prop p)) = Propagator.TERM /\ recv_done p = true /\ state_ (obj (recv p)) = TERM /\
    to_prop p = [] /\ to_sub p = [] /\ to_recv p = [] /\ to_net p = []).
Proof.
  intros Hs Hr. pose proof (run_ok w0 n w Hs Hr) as Hi. pose proof (run_pending w0 n w Hs Hr) as Hp. split_and!; [lia| |].
  - intros Hlt. destruct (pending_more w ltac:(lia)) as (e & He & Hh). destruct (some_ready w e Hh He) as (x & Hx & Hready).
    destruct (ready_acts w x Hi Hx Hready) as (act & w' & Hn & Hev & Hex). exists act, w'. split_and!; try done.
    pose proof (runs_act nodes dbs thr n w0 w w' act Hr Hn Hex) as Hrun. by rewrite Hev in Hrun.
  - intros Hn a Ha. pose proof (pending_zero w ltac:(lia)) as Hall. split; [|intros d; by apply all_over].
    destruct (in_calls _ _ _ w Hi a Ha) as [m Hm]. destruct (calls w a) as [|c cs] eqn:Hc; [done|]. exfalso.
    specialize (Hall (Called a c) Ha). apply bool_decide_eq_true in Hall. apply Hall. rewrite Hc. left.
Qed.

(** C9. Nobody leaves first, in the same clusters. When a node's call of ShutDown has got past the wait for
    its propagator, its downstream neighbour has called ShutDown; past the wait for its
    receiver, all its upstream neighbours have: a node whose neighbour does not shut down
    waits for ever. *)
Theorem shutdown_waits_for_neighbours w0 n w a d :
  started nodes dbs thr w0 -> runs nodes dbs thr n w0 w -> a ∈ nodes ->
  (WaitP d ∉ calls w a -> prop_done (pairs w (d, a)) = true /\ SignalR d ∉ calls w (down (d, a)).2) /\
  (WaitR d ∉ calls w a -> recv_done (pairs w (d, a)) = true /\ forall u, u ∈ ups (d, a) -> SignalP d ∉ calls w u).
Proof.
  intros Hs Hr Ha. pose proof (run_ok w0 n w Hs Hr) as Hi.
  pose proof (down_node nodes dbs Hrings (d, a) Ha) as Hd.
  assert (Hneed : forall c x, c ∉ calls w a -> x ∈ needs (Called a c) -> happened w x = true).
  { intros c x Hc Hx. apply (happened_needs w (Called a c)); [done|done|by apply bool_decide_eq_true_2|done]. }
  destruct (in_pairs _ _ _ w Hi (d, a) Ha) as [[_ _ _ _ Hdn] [_ _ _ _ Hdr] _ _ _ _]. split; intros Hc; (split; [|]).
  - rewrite Hdn. apply all_happened_iff. intros x Hx. apply (Hneed _ _ Hc). apply elem_of_app. by right.
  - assert (happened w (DsTerm (d, a)) = true) as H1 by (apply (Hneed _ _ Hc); apply elem_of_app; right; right; left).
    assert (happened w (RecvOwn (down (d, a))) = true) as H2 by (apply (happened_needs w (DsTerm (d, a)) _ Hi Ha H1); left).
    assert (happened w (Called (down (d, a)).2 (SignalR d)) = true) as H3 by (apply (happened_needs w (RecvOwn (down (d, a))) _ Hi Hd H2); left).
    exact (bool_decide_eq_true_1 _ H3).
  - rewrite Hdr. apply all_happened_iff. intros x Hx. apply (Hneed _ _ Hc). apply elem_of_app. by right.
  - intros u Hu. pose proof Hu as [_ Hun]%elem_of_ups.
    assert (happened w (AckTaken (d, u)) = true) as H1.
    { apply (Hneed _ _ Hc). apply elem_of_app. right. apply elem_of_app. right. apply list_elem_of_fmap. eauto. }
    assert (happened w (OwnTerm (d, u)) = true) as H2 by (apply (happened_needs w (AckTaken (d, u)) _ Hi Hun H1); left).
    assert (happened w (Called u (SignalP d)) = true) as H3 by (apply (happened_needs w (OwnTerm (d, u)) _ Hi Hun H2); left).
    exact (bool_decide_eq_true_1 _ H3).
Qed.
End props.

(** ** Two nodes *)

#[local] Existing Instance gmap_order.

(** Nodes 1 and 2 are each other's neighbours in both directions and have one horizontal
    table; thread 7 registers. *)
Definition torus_config (a : Z) : DBConfig :=
  mkDBConfig a (demo_node_info a) (demo_node_info (3 - a)) 1 a (demo_node_info a) (demo_node_info (3 - a)) 1 1000 1000.
Definition torus_db (a : Z) : QuiltDB :=
  match foldM create pair_requests (set_zmq_ctx (QuiltDB_ctor (torus_config a)) 1) with
  | Ok db => db
  | _ => QuiltDB_ctor (torus_config a)
  end.
Definition torus_start (a : Z) := Start (torus_db a) (ring_outside (3 - a)) (ring_outside (3 - a)).
Definition prop_at_start (k : Key) : PropThr :=
  let db'' := (RegisterThr (db_of (torus_start k.2)) 7).2 in
  Propagator.set_obj (of_pair (threads_of (torus_start k.2)) k.1).1.1 (props_of db'' k.1).
Definition recv_at_start (k : Key) : RecvThr := (of_pair (threads_of (torus_start k.2)) k.1).2.1.

(** Then an update is logged at node 1, shipped, delivered to node 2, shipped on and
    taken in by node 1 again. *)
Definition prop_turns (k : Key) (es : list Propagator.prop_event) (s : PropThr) : PropThr :=
  match Propagator.thread_loop (pcfg torus_db k) es s with Ok (_, s) => s | _ => s end.
Definition recv_turns (k : Key) (es : list Receiver.recv_event) (s : RecvThr) : RecvThr :=
  match thread_loop (rcfg torus_db k) es s with Ok (_, s) => s | _ => s end.

Definition prop_1 : PropThr :=
  prop_turns (HPropagator, 1) [demo_log Byte.x01; Propagator.EvTimer [EMyUpdatesACK]] (prop_at_start (HPropagator, 1)).
Definition out_1 : list Propagator.PropOut := since (Propagator.out (prop_at_start (HPropagator, 1))) (Propagator.out prop_1).
Definition recv_2 : RecvThr :=
  recv_turns (HPropagator, 2) (EvNet <$> p_net out_1) (recv_at_start (HPropagator, 2)).
Definition forwarded_2 : list PropIn := r_prop (since (out (recv_at_start (HPropagator, 2))) (out recv_2)).
Definition prop_2 : PropThr :=
  prop_turns (HPropagator, 2) ((Propagator.EvPull <$> forwarded_2) ++ [Propagator.EvTimer []]) (prop_at_start (HPropagator, 2)).
Definition out_2 : list Propagator.PropOut := since (Propagator.out (prop_at_start (HPropagator, 2))) (Propagator.out prop_2).
Definition recv_1 : RecvThr :=
  recv_turns (HPropagator, 1) ((EvInternal <$> p_internal out_1) ++ (EvNet <$> p_net out_2)) (recv_at_start (HPropagator, 1)).

Definition torus_pair (k : Key) : Pair :=
  let p := match k.1 with HPropagator => if decide (k.2 = 1) then prop_1 else prop_2 | VPropagator => prop_at_start k end in
  let r := match k.1 with HPropagator => if decide (k.2 = 1) then recv_1 else recv_2 | VPropagator => recv_at_start k end in
  mkPair p false r false [] [] [] [].
Definition torus : World := mkWorld torus_pair (fun _ => shutdown_calls).
Definition seven (_ : Z) : Z := 7.

Example torus_was_used : length (p_net out_1) = 1%nat /\ length forwarded_2 = 1%nat /\ length (p_net out_2) = 1%nat.
Proof. by vm_compute. Qed.

Lemma prop_turns_used k me es : forall s1 s2,
  prop_used (pcfg torus_db k) me s1 s2 -> Forall data_event es ->
  match Propagator.thread_loop (pcfg torus_db k) es s2 with Ok (fl, _) => fl = false | _ => False end ->
  prop_used (pcfg torus_db k) me s1 (prop_turns k es s2).
Proof.
  intros s1 s2 Hu Hd Hl. unfold prop_turns. destruct (Propagator.thread_loop _ es s2) as [[fl s]| |] eqn:E; [|done..]. subst fl.
  revert s2 Hu E. induction Hd as [|e es He _ IH]; intros s2 Hu E; simpl in E; [by simplify_eq|].
  inv_bind. destruct v as [[] s3]; [done|]. apply (IH s3); [|done]. by eapply pu_turn.
Qed.

Definition recv_data (e : Receiver.recv_event) : Prop :=
  match e with EvInternal (InMyUpdates _ _) | EvNet (NetBuffer _ _) => True | _ => False end.
Lemma recv_turns_used k es : forall s1 s2,
  recv_used (rcfg torus_db k) s1 s2 -> Forall recv_data es ->
  match thread_loop (rcfg torus_db k) es s2 with Ok (fl, _) => fl = false | _ => False end ->
  recv_used (rcfg torus_db k) s1 (recv_turns k es s2).
Proof.
  intros s1 s2 Hu Hd Hl. unfold recv_turns. destruct (thread_loop _ es s2) as [[fl s]| |] eqn:E; [|done..]. subst fl.
  revert s2 Hu E. induction Hd as [|e es He _ IH]; intros s2 Hu E; simpl in E; [by simplify_eq|].
  inv_bind. destruct v as [[] s3]; [done|]. apply (IH s3); [|done].
  destruct e as [[t b|]|[]]; try done; [by eapply ru_batch|by eapply ru_buffer].
Qed.

Lemma torus_db_repr a : db_repr pair_tables (torus_db a).
Proof.
  destruct (creates_refine pair_requests ∅ _ (db_repr_new (torus_config a) 1)) as (db & Hc & Hr). unfold torus_db. by rewrite Hc.
Qed.

Lemma all_empty_lookup (m : gmap Z (gmap Z (list byte))) t :
  forallb (fun p : Z * gmap Z (list byte) => bool_decide (p.2 = ∅)) (map_to_list m) = true -> default ∅ (m !! t) = (∅ : gmap Z (list byte)).
Proof.
  rewrite forallb_forall. intros Hm. destruct (m !! t) as [x|] eqn:E; [|done]. apply elem_of_map_to_list in E.
  apply list_elem_of_In, Hm, bool_decide_eq_true in E. exact E.
Qed.

Lemma torus_rings : rings [1; 2] torus_db.
Proof.
  assert (Hn : forall a, a ∈ [1; 2] -> a = 1 \/ a = 2) by (intros a Ha; set_solver).
  split.
  - by apply (bool_decide_unpack _).
  - intros a [] [-> | ->]%Hn; reflexivity.
  - intros a [] [-> | ->]%Hn; reflexivity.
  - intros a [] [-> | ->]%Hn; (split; [by apply (bool_decide_unpack _)|vm_compute; congruence]).
  - intros a [] [-> | ->]%Hn; vm_compute; discriminate.
  - intros a [] [-> | ->]%Hn; reflexivity.
Qed.

Lemma torus_used k : k.2 = 1 \/ k.2 = 2 ->
  prop_used (pcfg torus_db k) 7 (prop_at_start k) (prop (torus_pair k)) /\ recv_used (rcfg torus_db k) (recv_at_start k) (recv (torus_pair k)).
Proof.
  intros Hk. destruct k as [[] a]; [|split; constructor]. simpl in Hk. destruct Hk as [-> | ->]; split.
  - change (prop (torus_pair (HPropagator, 1))) with prop_1.
    apply prop_turns_used; [constructor|by repeat constructor|by vm_compute].
  - change (recv (torus_pair (HPropagator, 1))) with recv_1.
    apply recv_turns_used; [constructor|vm_compute; by repeat constructor|by vm_compute].
  - change (prop (torus_pair (HPropagator, 2))) with prop_2.
    apply prop_turns_used; [constructor|vm_compute; by repeat constructor|by vm_compute].
  - change (recv (torus_pair (HPropagator, 2))) with recv_2.
    apply recv_turns_used; [constructor|vm_compute; by repeat constructor|by vm_compute].
Qed.

Lemma torus_started : started [1; 2] torus_db seven torus.
Proof.
  intros a Ha. assert (a = 1 \/ a = 2) as Hn by set_solver. split; [reflexivity|].
  exists pair_tables, (ring_outside (3 - a)), (ring_outside (3 - a)), 0, (db_of (torus_start a)), (threads_of (torus_start a)),
    (RegisterThr (db_of (torus_start a)) 7).2.
  split; [apply torus_db_repr|]. split; [apply started_eta; by destruct Hn as [-> | ->]; vm_compute|].
  assert ((RegisterThr (db_of (torus_start a)) 7).1 = 0) as Hr by (by destruct Hn as [-> | ->]; vm_compute).
  split; [change (seven a) with 7; rewrite <- Hr; apply surjective_pairing|]. clear Hr.
  intros d. assert (Hd : d = HPropagator \/ d = VPropagator) by (destruct d; auto).
  split; [by destruct Hn as [-> | ->], Hd as [-> | ->]; vm_compute|].
  split; [by destruct Hn as [-> | ->], Hd as [-> | ->]; vm_compute|].
  split; [by destruct Hn as [-> | ->], Hd as [-> | ->]; vm_compute|].
  exists (prop (torus_pair (d, a))), (recv (torus_pair (d, a))). destruct (torus_used (d, a) Hn) as [Hp Hr].
  split; [reflexivity|]. split; [exact Hp|]. split; [|exact Hr].
  intros t. apply (all_empty_lookup (update_store (prop (torus_pair (d, a))))).
  by destruct Hn as [-> | ->], Hd as [-> | ->]; vm_compute.
Qed.

(** A schedule: the first of the acts that brings an event about, [n] times. *)
Definition candidates : list Act :=
  [1; 2] ≫= fun a => App a :: ([HPropagator; VPropagator] ≫= fun d =>
    let k := (d, a) in [Tick k; Pull k 0; Sub k 0; Internal k 0; Net k 0]).
Fixpoint first_event (l : list Act) (w : World) : option World :=
  match l with
  | [] => None
  | act :: l =>
      match event_of torus_db act w, exec torus_db seven act w with
      | Some _, Ok w' => Some w'
      | _, _ => first_event l w
      end
  end.
Fixpoint schedule (n : nat) (w : World) : option World :=
  match n with
  | O => Some w
  | S n => w' ← schedule n w; first_event candidates w'
  end.

Lemma first_event_runs l n w0 w w' :
  (forall act, act ∈ l -> node_of act ∈ [1; 2]) -> runs [1; 2] torus_db seven n w0 w -> first_event l w = Some w' ->
  runs [1; 2] torus_db seven (S n) w0 w'.
Proof.
  intros Hl Hr. induction l as [|act l IH]; [done|]. cbn [first_event].
  assert (Hrest : first_event l w = Some w' -> runs [1; 2] torus_db seven (S n) w0 w') by (apply IH; intros x Hx; apply Hl; by right).
  destruct (event_of torus_db act w) as [e|] eqn:He; [|done]. destruct (exec torus_db seven act w) as [w1| |] eqn:Hx; [|done..].
  intros [= <-]. pose proof (runs_act [1; 2] torus_db seven n w0 w w1 act Hr (Hl act ltac:(left)) Hx) as Hrun. by rewrite He in Hrun.
Qed.

Lemma candidates_nodes act : act ∈ candidates -> node_of act ∈ [1; 2].
Proof.
  unfold candidates. intros Hin. cbn in Hin.
  repeat (apply elem_of_cons in Hin as [->|Hin]; [simpl; set_solver|]). by apply not_elem_of_nil in Hin.
Qed.

Lemma schedule_runs n : forall w0 w, schedule n w0 = Some w -> runs [1; 2] torus_db seven n w0 w.
Proof.
  induction n as [|n IH]; intros w0 w Hs; cbn [schedule] in Hs; [injection Hs as <-; constructor|].
  apply bind_Some in Hs as (w1 & E & Hs). apply (first_event_runs candidates n w0 w1); [exact candidates_nodes|by apply IH|exact Hs].
Qed.

Definition torus_after (n : nat) : World := default torus (schedule n torus).

Lemma torus_after_runs n : bool_decide (is_Some (schedule n torus)) = true -> runs [1; 2] torus_db seven n torus (torus_after n).
Proof.
  intros Hn. apply bool_decide_eq_true in Hn. revert Hn. unfold torus_after. generalize torus. intros w0 [w Hw]. rewrite Hw. by apply schedule_runs.
Qed.

(** At the start the first call of node 1 can be made, and to look for a message where none
    waits is no failure. *)
Lemma shutdown_follows_order_witness :
  (exists act w', node_of act ∈ [1; 2] /\ event_of torus_db act torus = Some (Called 1 (SignalP HPropagator)) /\
    exec torus_db seven act torus = Ok w') /\
  match exec torus_db seven (Pull (HPropagator, 1) 0) torus with Fault _ => False | _ => True end.
Proof.
  destruct (shutdown_follows_order [1; 2] torus_db seven torus_rings torus 0 torus torus_started (runs_nil _ _ _ torus)) as [Hact Hev]. split.
  - apply Hev; [vm_compute; left|vm_compute; reflexivity].
  - specialize (Hact (Pull (HPropagator, 1) 0)). destruct (exec torus_db seven (Pull (HPropagator, 1) 0) torus);
      [exact I|apply Hact; vm_compute; left|exact I].
Defined.

(** After 44 events everything is over. *)
Lemma cluster_shuts_down_witness :
  calls (torus_after 44) 1 = [] /\ prop_done (pairs (torus_after 44) (VPropagator, 2)) = true.
Proof.
  destruct (cluster_shuts_down [1; 2] torus_db seven torus_rings torus 44 (torus_after 44) torus_started) as (_ & _ & Hend).
  - apply torus_after_runs. vm_compute. reflexivity.
  - split; [apply (Hend eq_refl 1); vm_compute; left|]. destruct (Hend eq_refl 2) as [_ Hd]; [vm_compute; right; left|].
    apply (Hd VPropagator).
Defined.

Lemma shutdown_waits_for_neighbours_witness :
  recv_done (pairs (torus_after 44) (HPropagator, 1)) = true /\ SignalP HPropagator ∉ calls (torus_after 44) 2.
Proof.
  destruct (shutdown_waits_for_neighbours [1; 2] torus_db seven torus_rings torus 44 (torus_after 44) 1 HPropagator torus_started) as [_ Hw].
  - apply torus_after_runs. vm_compute. reflexivity.
  - vm_compute. left.
  - destruct Hw as [Hd Hu]; [apply (bool_decide_unpack _); vm_compute; reflexivity|]. split; [exact Hd|].
    apply Hu. vm_compute. left.
Defined.
