(* ===== verification/Startup.v ===== *)
(** The start-up of a cluster: what [QuiltDB::Start], [Propagator::Start],
    [Receiver::Start] and the threads they create do with semaphores, sockets and the
    handshake, as programs of instructions that run interleaved on every node, from
    include/quiltdb.cpp, comm/propagator.cpp and comm/receiver.cpp. *)
From S2P Require Import Prelude Common Protocol Propagator InternalTable Receiver QuiltDB Node.
From stdpp Require Import functions pretty strings.
#[global] Open Scope Z_scope.

(** ** Threads and instructions *)

(** The threads of one process; the main thread is the application's. *)
Inductive thread := Main | Prop_thr (d : PropRef) | Recv_thr (d : PropRef) | Timer_thr (d : PropRef).
(** [sync_sem] of [QuiltDB::Start], [internal_sync_sem] of [Propagator::Start]. *)
Inductive sem := SyncSem | InternalSem (d : PropRef).

(** The calls that can wait, fail, or let another thread go on. End points are the
    strings passed to 0MQ; both subscriptions and publications carry group 1. *)
Inductive instr :=
| Bind (endp : string)                  (** inproc *)
| Connect (endp : string)               (** inproc *)
| BindTcp (endp : string)
| ConnectTcp (endp : string)
| Subscribe (endp : string)             (** connect and setsockopt of a SUB socket *)
| Spawn (t : thread)                    (** pthread_create *)
| Post (s : sem)
| Wait (s : sem)
| SendEPRInit (endp : string)
| RecvEPRInit (endp : string)
| SendPropInit (endp : string) (node : Z)
| RecvInitAck                           (** on [term_sub_sock] *)
| SendInitAckAck (endp : string) (node : Z)
| RecvPropStart                         (** the loop of step 4 *)
| CollectInits (endp : string) (n : nat)  (** the loop of step 1 *)
| AckLoop (pull push : string) (n : nat)  (** the loop of steps 2 and 3 *)
| PublishStart (endp : string)
| SetRun                                (** state_ = RUN *)
| NeedRun (t : thread).                 (** returns -1 unless state_ is RUN *)

#[export] Instance PropRef_eq_dec : EqDecision PropRef.
Proof. solve_decision. Defined.
#[export] Instance thread_eq_dec : EqDecision thread.
Proof. solve_decision. Defined.
#[export] Instance sem_eq_dec : EqDecision sem.
Proof. solve_decision. Defined.
#[export] Instance instr_eq_dec : EqDecision instr.
Proof. solve_decision. Defined.

(** ** The programs *)

(** A process: its database and the thread ids its kernel gives the two propagator
    threads. *)
Record process := mkProcess { database : QuiltDB; gettid : PropRef -> Z }.

Definition timer_trigger_endp (tid : Z) : string := "inproc://propagator." +:+ pretty tid +:+ ".timer.trigger".
Definition timer_cmd_endp (tid : Z) : string := "inproc://propagator." +:+ pretty tid +:+ ".timer.cmd".

Section programs.
Context (pr : process).

Definition Propagator_Start (d : PropRef) : list instr := [Spawn (Prop_thr d); Wait (InternalSem d)].
Definition Receiver_Start (d : PropRef) : list instr := [Spawn (Recv_thr d)].
Definition QuiltDB_Start : list instr :=
  Propagator_Start HPropagator ++ Receiver_Start HPropagator ++
  Propagator_Start VPropagator ++ Receiver_Start VPropagator ++
  [Wait SyncSem; Wait SyncSem; Wait SyncSem; Wait SyncSem].

(** What the application calls next, and what [ShutDown] does first. *)
Definition Propagator_RegisterThr (d : PropRef) : list instr :=
  [NeedRun (Prop_thr d); Connect (pc_update_pull_endp_ (prop_config (database pr) d))].
Definition Receiver_SignalTerm (d : PropRef) : list instr :=
  [NeedRun (Recv_thr d); Connect (rc_internal_recv_pull_endp_ (recv_config (database pr) d))].
Definition main_code : list instr :=
  QuiltDB_Start ++
  Propagator_RegisterThr HPropagator ++ Propagator_RegisterThr VPropagator ++
  [NeedRun (Prop_thr HPropagator)] ++ Receiver_SignalTerm HPropagator ++
  [NeedRun (Prop_thr VPropagator)] ++ Receiver_SignalTerm VPropagator.

(** [PropagatorThrMain]: sockets, handshakes, then what it binds for its timer and
    the earliest it connects to its paired receiver. *)
Definition prop_sockets (d : PropRef) : list instr :=
  let c := prop_config (database pr) d in
  (if has_downstream (prop_thrinfo c) then
     [ConnectTcp (tcp_update_endp (pc_downstream_recv_ c)); Subscribe (tcp_term_endp (pc_downstream_recv_ c))]
   else []) ++
  [Bind (pc_update_pull_endp_ c); Bind (pc_internal_pair_r2p_endp_ c); Post (InternalSem d)].
Definition prop_handshake (d : PropRef) : list instr :=
  let c := prop_config (database pr) d in
  [RecvEPRInit (pc_internal_pair_r2p_endp_ c)] ++
  (if has_downstream (prop_thrinfo c) then
     [SendPropInit (tcp_update_endp (pc_downstream_recv_ c)) (pc_my_id_ c); RecvInitAck;
      SendInitAckAck (tcp_update_endp (pc_downstream_recv_ c)) (pc_my_id_ c); RecvPropStart]
   else []).
Definition prop_loop_sockets (d : PropRef) : list instr :=
  let c := prop_config (database pr) d in
  [SetRun; Post SyncSem] ++
  (if 0 <? pc_nanosec_ c then
     [Bind (timer_trigger_endp (gettid pr d)); Bind (timer_cmd_endp (gettid pr d)); Spawn (Timer_thr d)]
   else []) ++
  [Connect (pc_internal_pair_p2r_endp_ c)].
Definition prop_code (d : PropRef) : list instr := prop_sockets d ++ prop_handshake d ++ prop_loop_sockets d.

(** [ReceiverThrMain], in the same way. *)
Definition recv_sockets (d : PropRef) : list instr :=
  let c := recv_config (database pr) d in
  (if 0 <? rc_num_expected_propagators_ c then
     [BindTcp (tcp_update_endp (rc_my_info_ c)); BindTcp (tcp_term_endp (rc_my_info_ c))]
   else []) ++
  [Bind (rc_internal_recv_pull_endp_ c); Connect (rc_internal_pair_recv_push_endp_ c); Connect (rc_update_push_endp_ c)].
Definition recv_handshake (d : PropRef) : list instr :=
  let c := recv_config (database pr) d in
  let n := Z.to_nat (rc_num_expected_propagators_ c) in
  [SendEPRInit (rc_internal_pair_recv_push_endp_ c)] ++
  (if 0 <? rc_num_expected_propagators_ c then
     [CollectInits (tcp_update_endp (rc_my_info_ c)) n;
      AckLoop (tcp_update_endp (rc_my_info_ c)) (tcp_term_endp (rc_my_info_ c)) n;
      PublishStart (tcp_term_endp (rc_my_info_ c))]
   else []).
Definition recv_code (d : PropRef) : list instr := recv_sockets d ++ recv_handshake d ++ [SetRun; Post SyncSem].

(** The first round of [TimerHandler]. *)
Definition timer_code (d : PropRef) : list instr :=
  [Connect (timer_trigger_endp (gettid pr d)); Connect (timer_cmd_endp (gettid pr d))].

Definition code_of (t : thread) : list instr :=
  match t with
  | Main => main_code
  | Prop_thr d => prop_code d
  | Recv_thr d => recv_code d
  | Timer_thr d => timer_code d
  end.
End programs.

(** ** The machine *)

#[global] Notation cluster := (list process).
(** A thread of a node. *)
#[global] Notation tid := (nat * thread)%type.

Definition program (cl : cluster) (t : tid) : list instr :=
  match cl !! t.1 with Some pr => code_of pr t.2 | None => [] end.

(** What every thread has done and has still to do; the locals of the receivers'
    loops; the messages in the network. Semaphores, bound end points, started threads
    and the pair sockets' queues follow from what was done. *)
Record world := mkWorld {
  executed : tid -> list instr;
  remaining : tid -> list instr;
  num_props : tid -> nat;             (** the counter of the receiver's loops *)
  reading : tid -> bool;              (** in the do-while of step 3 *)
  inbox : string -> list NetIn;       (** of the PULL socket bound to the end point *)
  subscribed : tid -> bool;           (** the subscription has reached the publisher *)
  subq : tid -> list PropRecvMsgType  (** of the thread's SUB socket *)
}.

Definition initial (cl : cluster) : world :=
  mkWorld (fun _ => []) (program cl) (fun _ => O) (fun _ => false) (fun _ => []) (fun _ => false) (fun _ => []).

Definition threads : list thread :=
  [Main; Prop_thr HPropagator; Recv_thr HPropagator; Timer_thr HPropagator;
   Prop_thr VPropagator; Recv_thr VPropagator; Timer_thr VPropagator].

(** What the threads of node [n] have done, and those of all nodes. *)
Definition events (w : world) (n : nat) : list instr := concat (map (fun th => executed w (n, th)) threads).
Definition all_events (cl : cluster) (w : world) : list instr := concat (map (events w) (seq 0 (length cl))).
Definition times (i : instr) (l : list instr) : nat := length (filter (i =.) l).

Definition live (w : world) (t : tid) : bool :=
  match t.2 with Main => true | th => bool_decide (Spawn th ∈ events w t.1) end.

(** The thread is done with its next instruction. *)
Definition advance (w : world) (t : tid) : world :=
  match remaining w t with
  | [] => w
  | i :: rest =>
      mkWorld (<[t := executed w t ++ [i]]> (executed w)) (<[t := rest]> (remaining w))
        (<[t := O]> (num_props w)) (<[t := false]> (reading w)) (inbox w) (subscribed w) (subq w)
  end.
Definition set_inbox (w : world) (endp : string) (q : list NetIn) : world :=
  mkWorld (executed w) (remaining w) (num_props w) (reading w) (<[endp := q]> (inbox w)) (subscribed w) (subq w).
Definition set_subq (w : world) (t : tid) (q : list PropRecvMsgType) : world :=
  mkWorld (executed w) (remaining w) (num_props w) (reading w) (inbox w) (subscribed w) (<[t := q]> (subq w)).
Definition set_loop (w : world) (t : tid) (k : nat) (b : bool) : world :=
  mkWorld (executed w) (remaining w) (<[t := k]> (num_props w)) (<[t := b]> (reading w))
    (inbox w) (subscribed w) (subq w).
Definition set_subscribed (w : world) (t : tid) : world :=
  mkWorld (executed w) (remaining w) (num_props w) (reading w) (inbox w) (<[t := true]> (subscribed w)) (subq w).

(** A PUB socket sends to the subscriptions it knows of and drops the rest. *)
Definition publish (w : world) (endp : string) (m : PropRecvMsgType) : world :=
  mkWorld (executed w) (remaining w) (num_props w) (reading w) (inbox w) (subscribed w)
    (fun t => if subscribed w t && bool_decide (Subscribe endp ∈ executed w t) then subq w t ++ [m] else subq w t).

(** One more turn of a loop over [n] messages: the last one ends the instruction. *)
Definition count_one (w : world) (t : tid) (n : nat) (b : bool) : world :=
  if decide (S (num_props w t) = n) then advance w t else set_loop w t (S (num_props w t)) b.

(** What the next instruction of a thread does: it [Goes], it [Waits] for another
    thread, or it [Fails] - 0MQ reports an error, a CHECK does not hold, or the call
    returns -1. *)
Inductive outcome := Goes (w : world) | Waits | Fails.

(** [PropInitMsg] and the other messages of its size. *)
Definition init_sized (m : NetIn) : bool :=
  match m with NetInit _ | NetInitAckAck _ | NetTermAck _ => true | NetBuffer _ _ | NetOther _ => false end.

Definition exec (cl : cluster) (w : world) (t : tid) : outcome :=
  if negb (live w t) then Waits
  else
    match remaining w t with
    | [] => Waits
    | i :: _ =>
        let next := advance w t in
        let es := events w t.1 in
        match i with
        | Bind e => if decide (Bind e ∈ es) then Fails else Goes next
        | Connect e => if decide (Bind e ∈ es) then Goes next else Fails
        | BindTcp e => if decide (BindTcp e ∈ all_events cl w) then Fails else Goes next
        | ConnectTcp _ | Subscribe _ | Spawn _ | Post _ | SendEPRInit _ | SetRun => Goes next
        | Wait s => if (times (Wait s) es <? times (Post s) es)%nat then Goes next else Waits
        | RecvEPRInit e => if (times (RecvEPRInit e) es <? times (SendEPRInit e) es)%nat then Goes next else Waits
        | SendPropInit e node => Goes (set_inbox next e (inbox w e ++ [NetInit node]))
        | SendInitAckAck e node => Goes (set_inbox next e (inbox w e ++ [NetInitAckAck node]))
        | RecvInitAck =>
            match subq w t with
            | [] => Waits
            | m :: q => if decide (m = PropInitACK) then Goes (set_subq next t q) else Fails
            end
        | RecvPropStart =>
            match subq w t with
            | [] => Waits
            | m :: q => Goes (set_subq (if decide (m = PropStart) then next else w) t q)
            end
        | CollectInits e n =>
            match inbox w e with
            | [] => Waits
            | m :: q => if init_sized m then Goes (set_inbox (count_one w t n false) e q) else Fails
            end
        | AckLoop pull push n =>
            if reading w t then
              match inbox w pull with
              | [] => Goes (set_loop w t (num_props w t) false)
              | NetInitAckAck _ :: q => Goes (set_inbox (count_one w t n true) pull q)
              | _ => Fails
              end
            else Goes (set_loop (publish w push PropInitACK) t (num_props w t) true)
        | PublishStart e => Goes (publish next e PropStart)
        | NeedRun th => if decide (SetRun ∈ executed w (t.1, th)) then Goes next else Fails
        end
    end.

(** A thread runs its next instruction, or a subscription arrives. *)
Inductive step (cl : cluster) (w : world) : world -> Prop :=
| step_thread t w' : exec cl w t = Goes w' -> step cl w w'
| step_subscribe t e :
    Subscribe e ∈ executed w t -> BindTcp e ∈ all_events cl w -> subscribed w t = false ->
    step cl w (set_subscribed w t).

Inductive reachable (cl : cluster) : world -> Prop :=
| reach_init : reachable cl (initial cl)
| reach_step w w' : reachable cl w -> step cl w w' -> reachable cl w'.

(** A schedule in which the listed threads run and the marked subscriptions arrive. *)
Inductive turn := Run (t : tid) | Arrive (t : tid).
Definition take_turn (cl : cluster) (w : world) (u : turn) : option world :=
  match u with
  | Run t => match exec cl w t with Goes w' => Some w' | _ => None end
  | Arrive t =>
      if subscribed w t then None
      else if existsb (fun i => match i with Subscribe e => bool_decide (BindTcp e ∈ all_events cl w) | _ => false end)
                (executed w t)
      then Some (set_subscribed w t) else None
  end.

Fixpoint run_turns (cl : cluster) (w : world) (us : list turn) : option world :=
  match us with [] => Some w | u :: us => w' ← take_turn cl w u; run_turns cl w' us end.

(** A ring of three nodes in the horizontal direction; vertically each is alone. The
    last node's receiver expects [n] propagators. *)
Definition ring_node (i : Z) : NodeInfo :=
  mkNodeInfo i ("10.0.0." +:+ pretty i) "9000" ("10.0.0." +:+ pretty i) "9001".
Definition ring_process (i down n : Z) : process :=
  mkProcess (QuiltDB_ctor (mkDBConfig i (ring_node i) (ring_node down) n 0 (ring_node (-1)) (ring_node (-1)) 0 1000 1000))
    (fun d => match d with HPropagator => 100 + i | VPropagator => 200 + i end).
Definition ring (n : Z) : cluster := [ring_process 1 2 1; ring_process 2 3 1; ring_process 3 1 n].
