(* ===== verification/StartupSafety.v ===== *)
(** The order of start-up: in every interleaving an inproc end point is bound once and
    before any thread connects to it, and the threads are in [RUN] when the
    application's first calls need them to be. *)
From S2P Require Import Prelude Common Protocol Propagator InternalTable Receiver QuiltDB Node Startup.
From stdpp Require Import functions pretty strings.
#[global] Open Scope Z_scope.

(** ** Order within a program *)

Lemma times_app i l1 l2 : times i (l1 ++ l2) = (times i l1 + times i l2)%nat.
Proof. unfold times. by rewrite filter_app, length_app. Qed.

Lemma times_nil i : times i [] = O.
Proof. done. Qed.

Lemma times_cons i j l : times i (j :: l) = ((if decide (i = j) then 1 else 0) + times i l)%nat.
Proof. unfold times. rewrite filter_cons. by case_decide. Qed.

Lemma times_elem i l : i ∈ l <-> (0 < times i l)%nat.
Proof.
  unfold times. split.
  - intros Hin. destruct (filter (i =.) l) eqn:E; [|simpl; lia].
    assert (Hf : i ∈ filter (i =.) l) by (by apply list_elem_of_filter). rewrite E in Hf. by apply not_elem_of_nil in Hf.
  - intros Hlt. destruct (filter (i =.) l) as [|j l'] eqn:E; [simpl in Hlt; lia|].
    assert (Hf : j ∈ filter (i =.) l) by (rewrite E; left). apply list_elem_of_filter in Hf as [-> ?]. done.
Qed.

Lemma times_none i l : i ∉ l -> times i l = O.
Proof. rewrite times_elem. lia. Qed.

(** [b] is never done before [a]. *)
Definition before (a b : instr) (l : list instr) : Prop := forall p q, l = p ++ q -> b ∈ p -> a ∈ p.

Lemma before_here a b l : before a b (a :: l).
Proof. intros [|x p] q Heq Hin; [by apply elem_of_nil in Hin|]. injection Heq as -> ->. left. Qed.

Lemma before_skip a b x l : b <> x -> before a b l -> before a b (x :: l).
Proof.
  intros Hne Hb [|y p] q Heq Hin; [by apply elem_of_nil in Hin|]. injection Heq as -> ->.
  apply elem_of_cons in Hin as [->|Hin]; [done|]. right. by apply (Hb p q).
Qed.

Lemma before_absent a b l : b ∉ l -> before a b l.
Proof. intros Hno p q -> Hin. destruct Hno. apply elem_of_app. by left. Qed.

Ltac order :=
  repeat (rewrite <- ?app_assoc; simpl; match goal with
  | |- before _ _ ((if ?b then _ else _) ++ _) => destruct b
  | |- before _ _ (if ?b then _ else _) => destruct b
  | |- before ?a _ (?a :: _) => apply before_here
  | |- before _ _ (_ :: _) => apply before_skip; [discriminate|]
  | |- before _ _ [] => apply before_absent, not_elem_of_nil
  end).

(** ** What a step changes *)

Lemma advance_fields w t i rest :
  remaining w t = i :: rest ->
  executed (advance w t) = <[t := executed w t ++ [i]]> (executed w) /\
  remaining (advance w t) = <[t := rest]> (remaining w) /\
  num_props (advance w t) = <[t := O]> (num_props w) /\ reading (advance w t) = <[t := false]> (reading w) /\
  inbox (advance w t) = inbox w /\ subscribed (advance w t) = subscribed w /\ subq (advance w t) = subq w.
Proof. unfold advance. by intros ->. Qed.

(** Either a thread finishes its next instruction or nobody does. *)
Definition moved (w w' : world) (t : tid) : Prop :=
  executed w' = executed (advance w t) /\ remaining w' = remaining (advance w t).
Definition stayed (w w' : world) : Prop := executed w' = executed w /\ remaining w' = remaining w.

Lemma exec_live cl w t w' :
  exec cl w t = Goes w' -> live w t = true /\ exists i rest, remaining w t = i :: rest.
Proof. unfold exec. destruct (live w t), (remaining w t); simpl; naive_solver. Qed.

Lemma count_one_cases w t n b : moved w (count_one w t n b) t \/ stayed w (count_one w t n b).
Proof. unfold count_one. case_decide; [by left|by right]. Qed.

Lemma exec_moves cl w t w' : exec cl w t = Goes w' -> moved w w' t \/ stayed w w'.
Proof.
  unfold exec. destruct (live w t), (remaining w t) as [|i rest] eqn:Hr; try done. cbn [negb].
  pose proof (count_one_cases w t) as Hc.
  destruct i; intros He; repeat case_match; simplify_eq;
    first [by left | by right | destruct (Hc n false) as [[? ?]|[? ?]]; [left|right]; by split
          | destruct (Hc n true) as [[? ?]|[? ?]]; [left|right]; by split].
Qed.

Lemma step_moves cl w w' :
  step cl w w' -> stayed w w' \/ exists t, exec cl w t = Goes w' /\ moved w w' t.
Proof.
  intros [t w1 He|t e _ _ _]; [|by left]. destruct (exec_moves _ _ _ _ He); [right; by exists t|by left].
Qed.

Lemma executed_advance w t t' :
  executed (advance w t) t' =
    if decide (t = t') then executed w t ++ take 1 (remaining w t) else executed w t'.
Proof.
  unfold advance. destruct (remaining w t) as [|i rest] eqn:Hr; simpl.
  - case_decide; subst; by rewrite ?app_nil_r.
  - unfold insert, fn_insert. by case_decide.
Qed.

Lemma remaining_advance w t t' :
  remaining (advance w t) t' = if decide (t = t') then drop 1 (remaining w t) else remaining w t'.
Proof.
  unfold advance. destruct (remaining w t) as [|i rest] eqn:Hr; simpl.
  - case_decide; by subst.
  - unfold insert, fn_insert. case_decide; by rewrite ?drop_0.
Qed.

Lemma step_executed cl w w' t : step cl w w' -> executed w t `prefix_of` executed w' t.
Proof.
  intros Hs. destruct (step_moves _ _ _ Hs) as [[-> _]|(t1 & _ & -> & _)]; [done|].
  rewrite executed_advance. case_decide; subst; [by apply prefix_app_r|done].
Qed.

Lemma elem_of_prefix' {A} (x : A) l1 l2 : l1 `prefix_of` l2 -> x ∈ l1 -> x ∈ l2.
Proof. intros [k ->] Hin. apply elem_of_app. by left. Qed.

(** ** Events *)

Lemma thread_in th : th ∈ threads.
Proof. unfold threads. destruct th as [|[]|[]|[]]; set_solver. Qed.

Lemma elem_of_events i w n : i ∈ events w n <-> exists th, i ∈ executed w (n, th).
Proof.
  unfold events. rewrite list_elem_of_In, in_concat. split.
  - intros (l & Hl & Hi). apply in_map_iff in Hl as (th & <- & _). exists th. by apply list_elem_of_In.
  - intros (th & Hi). exists (executed w (n, th)). rewrite in_map_iff. split; [|by apply list_elem_of_In].
    exists th. split; [done|]. apply list_elem_of_In, thread_in.
Qed.

Lemma elem_of_all_events cl i w : i ∈ all_events cl w <-> exists n, (n < length cl)%nat /\ i ∈ events w n.
Proof.
  unfold all_events. rewrite list_elem_of_In, in_concat. split.
  - intros (l & Hl & Hi). apply in_map_iff in Hl as (n & <- & Hn). exists n.
    apply in_seq in Hn. split; [lia|by apply list_elem_of_In].
  - intros (n & Hn & Hi). exists (events w n). rewrite in_map_iff. split; [|by apply list_elem_of_In].
    exists n. split; [done|]. apply in_seq. lia.
Qed.

Lemma step_events cl w w' n i : step cl w w' -> i ∈ events w n -> i ∈ events w' n.
Proof.
  rewrite !elem_of_events. intros Hs (th & Hi). exists th. eapply elem_of_prefix'; [by eapply step_executed|done].
Qed.

Lemma times_events i w n :
  times i (events w n) = sum_list (map (fun th => times i (executed w (n, th))) threads).
Proof. unfold events, threads. cbn [map concat]. rewrite !times_app, times_nil. cbn [map sum_list sum_list_with]. simpl. lia. Qed.

Lemma step_live cl w w' t : step cl w w' -> live w t = true -> live w' t = true.
Proof.
  unfold live. destruct t as [n [|d|d|d]]; simpl; intros Hs; rewrite ?bool_decide_eq_true;
    eauto using step_events.
Qed.

(** ** What holds in every reachable world *)

Section reachable.
Context {cl : cluster}.

Lemma program_split w t : reachable cl w -> executed w t ++ remaining w t = program cl t.
Proof.
  induction 1 as [|w w' Hr IH Hs]; [done|].
  destruct (step_moves _ _ _ Hs) as [[-> ->]|(t1 & _ & -> & ->)]; [done|].
  rewrite executed_advance, remaining_advance. case_decide; subst; [|done].
  rewrite <- app_assoc. by rewrite take_drop.
Qed.

Lemma executed_program w t i : reachable cl w -> i ∈ executed w t -> i ∈ program cl t.
Proof. intros Hr Hi. rewrite <- (program_split w t Hr). apply elem_of_app. by left. Qed.

Lemma times_program w t i : reachable cl w -> (times i (executed w t) <= times i (program cl t))%nat.
Proof. intros Hr. rewrite <- (program_split w t Hr), times_app. lia. Qed.

Lemma next_program w t i rest : reachable cl w -> remaining w t = i :: rest -> i ∈ program cl t.
Proof. intros Hr Hi. rewrite <- (program_split w t Hr), Hi. apply elem_of_app. right. left. Qed.

(** Only started threads run. *)
Lemma executed_live w t : reachable cl w -> executed w t <> [] -> live w t = true.
Proof.
  induction 1 as [|w w' Hr IH Hs]; [done|]. intros Hne.
  destruct (step_moves _ _ _ Hs) as [[He _]|(t1 & Hx & He & _)].
  - rewrite He in Hne. eapply step_live; eauto.
  - rewrite He, executed_advance in Hne. eapply step_live; [done|].
    case_decide; subst; [|auto]. by apply exec_live in Hx as [? _].
Qed.

(** [a] comes first in the program, so it was done first. *)
Lemma done_before w t a b : reachable cl w -> before a b (program cl t) -> b ∈ executed w t -> a ∈ executed w t.
Proof. intros Hr Hb. apply (Hb _ (remaining w t)). symmetry. by apply program_split. Qed.

Lemma next_before w t a b rest :
  reachable cl w -> before a b (program cl t) -> a <> b -> remaining w t = b :: rest -> a ∈ executed w t.
Proof.
  intros Hr Hb Hne Hrem. assert (Hin : a ∈ executed w t ++ [b]).
  { apply (Hb _ rest); [|set_solver]. rewrite <- app_assoc. cbn [app]. rewrite <- Hrem. symmetry. by apply program_split. }
  apply elem_of_app in Hin as [?|Hin]; [done|]. by apply list_elem_of_singleton in Hin.
Qed.

(** A semaphore is not taken more often than posted, a message not read more often
    than sent. *)
Lemma times_advance w t n i :
  times i (events (advance w t) n) =
    (times i (events w n) + if decide (t.1 = n) then times i (take 1 (remaining w t)) else 0)%nat.
Proof.
  rewrite !times_events. unfold threads. cbn [map sum_list_with sum_list]. rewrite !executed_advance.
  destruct t as [m th]. simpl. destruct (decide (m = n)) as [->|Hne].
  - destruct th as [|[]|[]|[]]; repeat case_decide; simplify_eq; rewrite ?times_app; lia.
  - repeat case_decide; simplify_eq; lia.
Qed.

Lemma events_same w w' n : executed w' = executed w -> events w' n = events w n.
Proof. unfold events. by intros ->. Qed.

Lemma step_times w w' n i :
  step cl w w' ->
  times i (events w' n) = times i (events w n) \/
  exists t rest, exec cl w t = Goes w' /\ t.1 = n /\ remaining w t = i :: rest /\
    times i (events w' n) = S (times i (events w n)).
Proof.
  intros Hs. destruct (step_moves _ _ _ Hs) as [[He _]|(t & Hx & He & _)].
  { left. by rewrite (events_same w w'). }
  rewrite (events_same (advance w t) w') by done. rewrite times_advance.
  destruct (exec_live _ _ _ _ Hx) as (_ & j & rest & Hrem). rewrite Hrem.
  replace (take 1 (j :: rest)) with [j] by done. rewrite times_cons.
  repeat case_decide; subst; rewrite ?times_nil; try (left; lia).
  right. exists t, rest. repeat split; try done. lia.
Qed.

Lemma step_times_le w w' n i : step cl w w' -> (times i (events w n) <= times i (events w' n))%nat.
Proof. intros Hs. destruct (step_times w w' n i Hs) as [->|(? & ? & ? & ? & ? & ->)]; lia. Qed.

Lemma waits_posted w n s : reachable cl w -> (times (Wait s) (events w n) <= times (Post s) (events w n))%nat.
Proof.
  induction 1 as [|w w' Hr IH Hs]; [by rewrite !times_events|].
  pose proof (step_times_le w w' n (Post s) Hs).
  destruct (step_times w w' n (Wait s) Hs) as [->|(t & rest & Hx & <- & Hrem & ->)]; [lia|].
  revert Hx. unfold exec. rewrite Hrem. destruct (negb _); [done|]. case_match eqn:Hlt; [|done].
  intros _. apply Nat.ltb_lt in Hlt. lia.
Qed.

Lemma inits_sent w n e :
  reachable cl w -> (times (RecvEPRInit e) (events w n) <= times (SendEPRInit e) (events w n))%nat.
Proof.
  induction 1 as [|w w' Hr IH Hs]; [by rewrite !times_events|].
  pose proof (step_times_le w w' n (SendEPRInit e) Hs).
  destruct (step_times w w' n (RecvEPRInit e) Hs) as [->|(t & rest & Hx & <- & Hrem & ->)]; [lia|].
  revert Hx. unfold exec. rewrite Hrem. destruct (negb _); [done|]. case_match eqn:Hlt; [|done].
  intros _. apply Nat.ltb_lt in Hlt. lia.
Qed.
End reachable.

(** ** Which thread does what *)

Ltac unfold_code :=
  unfold main_code, QuiltDB_Start, Propagator_Start, Receiver_Start, Propagator_RegisterThr, Receiver_SignalTerm,
    prop_code, prop_sockets, prop_handshake, prop_loop_sockets, recv_code, recv_sockets, recv_handshake, timer_code.
(** [_ : i ∈ code_of pr th]: the position of [i] in the program. *)
Ltac in_code H :=
  revert H; unfold_code; simpl;
  repeat match goal with |- context [if ?b then _ else _] => destruct b end; simpl; rewrite ?elem_of_cons, ?elem_of_nil; intros H;
  repeat match type of H with _ \/ _ => destruct H as [H|H] end; try done; simplify_eq.

Section programs.
Context (pr : process).

Lemma spawn_code t th : Spawn t ∈ code_of pr th ->
  match t with Timer_thr d => th = Prop_thr d | _ => th = Main end.
Proof. destruct th as [|d|d|d]; simpl; intros H; in_code H; done. Qed.

Lemma internal_sem_code d th : Post (InternalSem d) ∈ code_of pr th -> th = Prop_thr d.
Proof. destruct th as [|d'|d'|d']; simpl; intros H; in_code H; done. Qed.

Lemma wait_code s th : Wait s ∈ code_of pr th -> th = Main.
Proof. destruct th as [|d'|d'|d']; simpl; intros H; in_code H; done. Qed.

Lemma eprinit_code e th : SendEPRInit e ∈ code_of pr th -> exists d, th = Recv_thr d.
Proof. destruct th as [|d'|d'|d']; simpl; intros H; in_code H; eauto. Qed.

(** The programs' order, from the top of each function down. *)
Lemma spawned_before_wait d : before (Spawn (Prop_thr d)) (Wait (InternalSem d)) (code_of pr Main).
Proof. destruct d; simpl; unfold_code; order. Qed.
Lemma waited_before_recv d : before (Wait (InternalSem d)) (Spawn (Recv_thr d)) (code_of pr Main).
Proof. destruct d; simpl; unfold_code; order. Qed.
Lemma update_bound_before_post d :
  before (Bind (pc_update_pull_endp_ (prop_config (database pr) d))) (Post (InternalSem d)) (code_of pr (Prop_thr d)).
Proof. simpl; unfold_code; order. Qed.
Lemma pair_bound_before_post d :
  before (Bind (pc_internal_pair_r2p_endp_ (prop_config (database pr) d))) (Post (InternalSem d)) (code_of pr (Prop_thr d)).
Proof. simpl; unfold_code; order. Qed.
End programs.

(** ** End points *)

(** The constants pair the threads of one direction. *)
Lemma wired_pair db d : rc_internal_pair_recv_push_endp_ (recv_config db d) = pc_internal_pair_r2p_endp_ (prop_config db d).
Proof. by destruct d. Qed.
Lemma wired_update db d : rc_update_push_endp_ (recv_config db d) = pc_update_pull_endp_ (prop_config db d).
Proof. by destruct d. Qed.
Lemma wired_recv db d : pc_internal_pair_p2r_endp_ (prop_config db d) = rc_internal_recv_pull_endp_ (recv_config db d).
Proof. by destruct d. Qed.

Lemma append_list s1 s2 : String.list_ascii_of_string (s1 +:+ s2) = String.list_ascii_of_string s1 ++ String.list_ascii_of_string s2.
Proof. induction s1 as [|c s1 IH]; [done|]. simpl. by rewrite IH. Qed.
Lemma list_ascii_inj s1 s2 : String.list_ascii_of_string s1 = String.list_ascii_of_string s2 -> s1 = s2.
Proof. intros H. rewrite <- (String.string_of_list_ascii_of_string s1), H. apply String.string_of_list_ascii_of_string. Qed.

Lemma append_inj_r s1 s2 t : s1 +:+ t = s2 +:+ t -> s1 = s2.
Proof. intros H%(f_equal String.list_ascii_of_string). rewrite !append_list in H. apply app_inv_tail in H. by apply list_ascii_inj. Qed.
Lemma append_inj_l s1 s2 t : t +:+ s1 = t +:+ s2 -> s1 = s2.
Proof. intros H%(f_equal String.list_ascii_of_string). rewrite !append_list in H. apply app_inv_head in H. by apply list_ascii_inj. Qed.

Lemma timer_trigger_inj a b : timer_trigger_endp a = timer_trigger_endp b -> a = b.
Proof. unfold timer_trigger_endp. intros H%append_inj_l%append_inj_r. by apply (inj pretty). Qed.
Lemma timer_cmd_inj a b : timer_cmd_endp a = timer_cmd_endp b -> a = b.
Proof. unfold timer_cmd_endp. intros H%append_inj_l%append_inj_r. by apply (inj pretty). Qed.
Lemma timer_trigger_cmd a b : timer_trigger_endp a <> timer_cmd_endp b.
Proof.
  unfold timer_trigger_endp, timer_cmd_endp. intros H%append_inj_l%(f_equal String.list_ascii_of_string).
  rewrite !append_list in H. simpl in H. apply (f_equal last) in H.
  rewrite !last_app in H. done.
Qed.

(** The ids of two threads of one process differ. *)
Definition tids_differ (pr : process) : Prop := gettid pr HPropagator <> gettid pr VPropagator.

Ltac endpoints :=
  repeat match goal with
  | H : timer_trigger_endp _ = timer_trigger_endp _ |- _ => apply timer_trigger_inj in H
  | H : timer_cmd_endp _ = timer_cmd_endp _ |- _ => apply timer_cmd_inj in H
  | H : timer_trigger_endp _ = timer_cmd_endp _ |- _ => by apply timer_trigger_cmd in H
  | H : timer_cmd_endp _ = timer_trigger_endp _ |- _ => by apply eq_sym, timer_trigger_cmd in H
  end; try done; try congruence.

(** Who binds what. *)
Variant binder (pr : process) : thread -> string -> Prop :=
| binds_update d : binder pr (Prop_thr d) (pc_update_pull_endp_ (prop_config (database pr) d))
| binds_pair d : binder pr (Prop_thr d) (pc_internal_pair_r2p_endp_ (prop_config (database pr) d))
| binds_trigger d : binder pr (Prop_thr d) (timer_trigger_endp (gettid pr d))
| binds_cmd d : binder pr (Prop_thr d) (timer_cmd_endp (gettid pr d))
| binds_recv d : binder pr (Recv_thr d) (rc_internal_recv_pull_endp_ (recv_config (database pr) d)).

Lemma bind_code pr e th : Bind e ∈ code_of pr th -> binder pr th e.
Proof. destruct th as [|d|d|d]; simpl; intros H; in_code H; constructor. Qed.

Lemma binder_unique pr e1 e2 th1 th2 :
  tids_differ pr -> binder pr th1 e1 -> binder pr th2 e2 -> e1 = e2 -> th1 = th2.
Proof.
  unfold tids_differ. intros Ht [d1|d1|d1|d1|d1] [d2|d2|d2|d2|d2]; destruct d1, d2; try done;
    intros Heq; endpoints.
Qed.

Lemma bind_owner pr e th1 th2 :
  tids_differ pr -> Bind e ∈ code_of pr th1 -> Bind e ∈ code_of pr th2 -> th1 = th2.
Proof. intros Ht H1%bind_code H2%bind_code. by eapply binder_unique. Qed.

Definition binds_in (l : list instr) : list string := omap (fun i => match i with Bind e => Some e | _ => None end) l.

Lemma binds_in_elem e l : e ∈ binds_in l <-> Bind e ∈ l.
Proof.
  unfold binds_in. rewrite list_elem_of_omap. split.
  - intros (i & Hi & He). by destruct i; simplify_eq.
  - intros Hi. by exists (Bind e).
Qed.

Lemma binds_nodup pr th : NoDup (binds_in (code_of pr th)).
Proof.
  assert (Hd : forall d, NoDup [pc_update_pull_endp_ (prop_config (database pr) d);
    pc_internal_pair_r2p_endp_ (prop_config (database pr) d); timer_trigger_endp (gettid pr d); timer_cmd_endp (gettid pr d)]).
  { intros []; repeat (apply NoDup_cons; split); try apply NoDup_nil_2;
      rewrite ?elem_of_cons, ?elem_of_nil; intros Hin; destruct_or? Hin; try done; endpoints. }
  destruct th as [|d|d|d]; simpl; unfold_code.
  - apply NoDup_nil_2.
  - specialize (Hd d). destruct (has_downstream _), (0 <? _); simpl; try apply Hd;
      by apply (NoDup_app [_; _] [_; _]) in Hd as (? & _).
  - destruct (0 <? _); simpl; apply NoDup_singleton.
  - apply NoDup_nil_2.
Qed.

Lemma bind_once pr p e rest th : code_of pr th = p ++ Bind e :: rest -> Bind e ∉ p.
Proof.
  intros Heq Hin. pose proof (binds_nodup pr th) as Hnd. rewrite Heq in Hnd. unfold binds_in in Hnd.
  rewrite omap_app in Hnd. apply NoDup_app in Hnd as (_ & Hnd & _). eapply Hnd; [by apply binds_in_elem|left].
Qed.


(** Who connects to what. *)
Variant connecter (pr : process) : thread -> string -> Prop :=
| connects_register d : connecter pr Main (pc_update_pull_endp_ (prop_config (database pr) d))
| connects_signal d : connecter pr Main (rc_internal_recv_pull_endp_ (recv_config (database pr) d))
| connects_p2r d : connecter pr (Prop_thr d) (pc_internal_pair_p2r_endp_ (prop_config (database pr) d))
| connects_r2p d : connecter pr (Recv_thr d) (rc_internal_pair_recv_push_endp_ (recv_config (database pr) d))
| connects_update d : connecter pr (Recv_thr d) (rc_update_push_endp_ (recv_config (database pr) d))
| connects_trigger d : connecter pr (Timer_thr d) (timer_trigger_endp (gettid pr d))
| connects_cmd d : connecter pr (Timer_thr d) (timer_cmd_endp (gettid pr d)).

Lemma connect_code pr e th : Connect e ∈ code_of pr th -> connecter pr th e.
Proof.
  destruct th as [|d|d|d]; simpl; intros H; in_code H;
    first [by constructor | by apply (connects_register pr HPropagator) | by apply (connects_register pr VPropagator)
          | by apply (connects_signal pr HPropagator) | by apply (connects_signal pr VPropagator)].
Qed.

(** ** Readiness *)

Section ready.
Context {cl : cluster}.

(** What an instruction waits for, or checks, holds for good once it was done. *)
Lemma event_guard n i (P : world -> Prop) w :
  (forall w w', step cl w w' -> P w -> P w') ->
  (forall w t w' rest, reachable cl w -> t.1 = n -> remaining w t = i :: rest -> exec cl w t = Goes w' -> P w) ->
  reachable cl w -> i ∈ events w n -> P w.
Proof.
  intros Hmono Hguard. induction 1 as [|w w' Hr IH Hs].
  - rewrite elem_of_events. intros (th & Hin). by apply elem_of_nil in Hin.
  - rewrite times_elem. destruct (step_times w w' n i Hs) as [->|(t & rest & Hx & Hn & Hrem & _)]; intros Hin.
    + eapply Hmono; [done|]. by apply IH, times_elem.
    + eapply Hmono; [done|]. by eapply Hguard.
Qed.

Lemma run_checked w n th : reachable cl w -> NeedRun th ∈ events w n -> SetRun ∈ executed w (n, th).
Proof.
  intros Hr. apply (event_guard n (NeedRun th) (fun w => SetRun ∈ executed w (n, th))); [| |done].
  - intros w1 w2 Hs. by apply elem_of_prefix', (step_executed _ _ _ _ Hs).
  - intros w1 t w2 rest _ <- Hrem. unfold exec. rewrite Hrem. destruct (negb _); [done|]. by case_decide.
Qed.

Context {pr : process} {n : nat} (Hn : cl !! n = Some pr).

Lemma program_here th : program cl (n, th) = code_of pr th.
Proof. unfold program. simpl. by rewrite Hn. Qed.

Lemma event_own w i : reachable cl w -> i ∈ events w n -> exists th, i ∈ executed w (n, th) /\ i ∈ code_of pr th.
Proof.
  intros Hr (th & Hi)%elem_of_events. exists th. split; [done|]. rewrite <- program_here. by eapply executed_program.
Qed.

Lemma live_spawned w th : live w (n, th) = true -> th = Main \/ Spawn th ∈ events w n.
Proof. unfold live. destruct th; simpl; rewrite ?bool_decide_eq_true; auto. Qed.

Lemma here_before w th a b : reachable cl w -> before a b (code_of pr th) -> b ∈ executed w (n, th) -> a ∈ executed w (n, th).
Proof. intros Hr. rewrite <- program_here. by apply done_before. Qed.

Lemma internal_posted w d :
  reachable cl w -> Wait (InternalSem d) ∈ executed w (n, Main) -> Post (InternalSem d) ∈ executed w (n, Prop_thr d).
Proof.
  intros Hr Hw. pose proof (waits_posted w n (InternalSem d) Hr) as Hle.
  assert (Hin : Wait (InternalSem d) ∈ events w n) by (apply elem_of_events; by exists Main).
  apply times_elem in Hin. destruct (event_own w (Post (InternalSem d)) Hr) as (th & Hex & Hcode).
  { apply times_elem. lia. }
  by apply internal_sem_code in Hcode as ->.
Qed.

(** A receiver thread runs after its propagator thread has bound both end points. *)
Lemma recv_live w d : reachable cl w -> live w (n, Recv_thr d) = true -> Post (InternalSem d) ∈ executed w (n, Prop_thr d).
Proof.
  intros Hr [?|Hs]%live_spawned; [done|].
  destruct (event_own _ _ Hr Hs) as (th & Hex & Hcode). apply spawn_code in Hcode as ->.
  apply internal_posted; [done|]. eapply here_before; [done|apply waited_before_recv|done].
Qed.

Lemma executed_events w th i : i ∈ executed w (n, th) -> i ∈ events w n.
Proof. intros Hi. apply elem_of_events. by exists th. Qed.

Lemma here_run w th b :
  reachable cl w -> NeedRun th ∈ executed w (n, Main) -> before b SetRun (code_of pr th) -> b ∈ events w n.
Proof.
  intros Hr Hx Hb. apply executed_events, run_checked in Hx; [|done]. by eapply executed_events, here_before.
Qed.

Lemma first_message w d :
  reachable cl w -> RecvEPRInit (pc_internal_pair_r2p_endp_ (prop_config (database pr) d)) ∈ executed w (n, Prop_thr d) ->
  Bind (rc_internal_recv_pull_endp_ (recv_config (database pr) d)) ∈ events w n.
Proof.
  intros Hr Hx. apply executed_events, times_elem in Hx.
  pose proof (inits_sent w n (pc_internal_pair_r2p_endp_ (prop_config (database pr) d)) Hr) as Hle.
  destruct (event_own w _ Hr (proj2 (times_elem _ _) (Nat.lt_le_trans _ _ _ Hx Hle))) as (th & Hex & Hcode).
  destruct (eprinit_code _ _ _ Hcode) as [d' ->].
  assert (d' = d) as -> by (simpl in Hcode; in_code Hcode; by destruct d, d').
  eapply executed_events, here_before; [done| |exact Hex]. simpl; unfold_code; order.
Qed.

Lemma timer_live w d : reachable cl w -> live w (n, Timer_thr d) = true -> Spawn (Timer_thr d) ∈ executed w (n, Prop_thr d).
Proof.
  intros Hr [?|Hs]%live_spawned; [done|].
  destruct (event_own _ _ Hr Hs) as (th & Hex & Hcode). by apply spawn_code in Hcode as ->.
Qed.

(** The end point of a connect. *)
Lemma connect_ready w th e rest :
  reachable cl w -> live w (n, th) = true -> remaining w (n, th) = Connect e :: rest -> Bind e ∈ events w n.
Proof.
  intros Hr Hl Hrem.
  assert (Hc : Connect e ∈ code_of pr th) by (rewrite <- program_here; by eapply next_program).
  assert (Hprev : forall a, before a (Connect e) (code_of pr th) -> a <> Connect e -> a ∈ executed w (n, th)).
  { intros a Hb Hne. eapply next_before; [done|by rewrite program_here|done|done]. }
  destruct (connect_code _ _ _ Hc) as [d|d|d|d|d|d|d].
  - apply (here_run w (Prop_thr d)); [done|apply Hprev; [destruct d; simpl; unfold_code; order|done]|simpl; unfold_code; order].
  - apply (here_run w (Recv_thr d)); [done|apply Hprev; [destruct d; simpl; unfold_code; order|done]|simpl; unfold_code; order].
  - (* after the receiver's first message *)
    rewrite wired_recv. apply (first_message w d); [done|]. apply Hprev; [simpl; unfold_code; order|done].
  - pose proof (recv_live w d Hr Hl) as Hp. rewrite wired_pair.
    eapply executed_events, here_before; [done|apply pair_bound_before_post|exact Hp].
  - pose proof (recv_live w d Hr Hl) as Hp. rewrite wired_update.
    eapply executed_events, here_before; [done|apply update_bound_before_post|exact Hp].
  - eapply executed_events, here_before; [done| |by apply timer_live]. simpl; unfold_code; order.
  - eapply executed_events, here_before; [done| |by apply timer_live]. simpl; unfold_code; order.
Qed.

(** The end point of a bind. *)
Lemma bind_fresh w th e rest :
  tids_differ pr -> reachable cl w -> remaining w (n, th) = Bind e :: rest -> Bind e ∉ events w n.
Proof.
  intros Ht Hr Hrem Hin. destruct (event_own _ _ Hr Hin) as (th' & Hex & Hcode).
  pose proof (program_split w (n, th) Hr) as Hs. rewrite program_here, Hrem in Hs.
  assert (th' = th) as ->.
  { eapply bind_owner; [done|done|]. rewrite <- Hs. apply elem_of_app. right. left. }
  by eapply bind_once.
Qed.

(** [QuiltDB::Start] has returned. *)
Lemma prefix_until {A} (b : A) l1 l2 p q : b ∉ l1 -> p ++ b :: q = l1 ++ l2 -> l1 `prefix_of` p.
Proof.
  revert p. induction l1 as [|x l1 IH]; intros p Hb Heq; [apply prefix_nil|].
  rewrite not_elem_of_cons in Hb. destruct Hb as [Hne Hb].
  destruct p as [|y p]; injection Heq as -> Heq; [done|]. apply prefix_cons, IH; done.
Qed.

Lemma post_sync_code th : (times (Post SyncSem) (code_of pr th) <= match th with Main | Timer_thr _ => 0 | _ => 1 end)%nat.
Proof.
  destruct th as [|d|d|d]; simpl; unfold_code;
    repeat match goal with |- context [if ?b then _ else _] => destruct b end; vm_compute; lia.
Qed.

Lemma all_posted w th :
  reachable cl w -> QuiltDB_Start `prefix_of` executed w (n, Main) ->
  match th with Prop_thr _ | Recv_thr _ => Post SyncSem ∈ executed w (n, th) | _ => True end.
Proof.
  intros Hr [k Hk]. pose proof (waits_posted w n SyncSem Hr) as Hle.
  rewrite !times_events in Hle. unfold threads in Hle. simpl in Hle. rewrite Hk, times_app in Hle.
  assert (Hc : forall th, (times (Post SyncSem) (executed w (n, th)) <= match th with Main | Timer_thr _ => 0 | _ => 1 end)%nat).
  { intros th'. pose proof (times_program w (n, th') (Post SyncSem) Hr). rewrite program_here in H.
    pose proof (post_sync_code th'). lia. }
  pose proof (Hc Main) as H0. rewrite Hk in H0.
  pose proof (Hc (Prop_thr HPropagator)). pose proof (Hc (Recv_thr HPropagator)). pose proof (Hc (Timer_thr HPropagator)).
  pose proof (Hc (Prop_thr VPropagator)). pose proof (Hc (Recv_thr VPropagator)). pose proof (Hc (Timer_thr VPropagator)).
  assert (times (Wait SyncSem) QuiltDB_Start = 4%nat) by reflexivity. clear Hc. cbn match in *.
  destruct th as [|[]|[]|[]]; try done; apply times_elem; lia.
Qed.

Lemma need_run w th th' rest :
  reachable cl w -> remaining w (n, th) = NeedRun th' :: rest -> SetRun ∈ executed w (n, th').
Proof.
  intros Hr Hrem. assert (Hc : NeedRun th' ∈ code_of pr th) by (rewrite <- program_here; by eapply next_program).
  assert (th = Main /\ match th' with Prop_thr _ | Recv_thr _ => True | _ => False end) as [-> Hth].
  { destruct th as [|d|d|d]; simpl in Hc; in_code Hc; done. }
  assert (Hp : QuiltDB_Start `prefix_of` executed w (n, Main)).
  { pose proof (program_split w (n, Main) Hr) as Hs. rewrite program_here, Hrem in Hs.
    eapply prefix_until; [|exact Hs]. intros Hin. in_code Hin. }
  pose proof (all_posted w th' Hr Hp) as Hpost.
  destruct th' as [|d|d|d]; try done; (eapply here_before; [done| |exact Hpost]); simpl; unfold_code; order.
Qed.
End ready.

(** The calls that only concern threads of the same process. *)
Definition local_call (i : instr) : bool :=
  match i with Bind _ | Connect _ | NeedRun _ => true | _ => false end.

Lemma local_call_goes cl w t i rest :
  Forall tids_differ cl -> reachable cl w -> remaining w t = i :: rest -> live w t = true -> local_call i = true ->
  exec cl w t = Goes (advance w t).
Proof.
  intros Hall Hr Hrem Hl Hi. destruct t as [n th].
  pose proof (next_program w _ _ _ Hr Hrem) as Hn. unfold program in Hn. simpl in Hn.
  destruct (cl !! n) as [pr|] eqn:Hpr; [|by apply elem_of_nil in Hn].
  pose proof (Forall_lookup_1 _ _ _ _ Hall Hpr) as Ht.
  unfold exec. rewrite Hl, Hrem. cbn [negb fst]. destruct i; try done.
  - rewrite decide_False; [done|]. by eapply bind_fresh.
  - rewrite decide_True; [done|]. by eapply connect_ready.
  - rewrite decide_True; [done|]. by eapply need_run.
Qed.

(** Schedules reach reachable worlds. *)
Lemma take_turn_step cl w u w' : take_turn cl w u = Some w' -> step cl w w'.
Proof.
  destruct u as [t|t]; simpl.
  - destruct (exec cl w t) as [w1| |] eqn:He; try done. intros [= <-]. by eapply step_thread.
  - destruct (subscribed w t) eqn:Hs; [done|]. destruct (existsb _ _) eqn:He; [|done]. intros [= <-].
    apply existsb_exists in He as (i & Hi & Hb). destruct i; try done. apply bool_decide_eq_true in Hb.
    eapply step_subscribe; [by apply list_elem_of_In|done|done].
Qed.

Lemma run_reachable cl us : forall w,
  reachable cl w -> match run_turns cl w us with Some _ => true | None => false end = true ->
  reachable cl (default w (run_turns cl w us)).
Proof.
  induction us as [|u us IH]; intros w Hr; simpl; [done|].
  destruct (take_turn cl w u) as [w'|] eqn:Ht; simpl; [|done]. intros Hs.
  assert (Hr' : reachable cl w') by (eapply reach_step; [done|by eapply take_turn_step]).
  specialize (IH w' Hr' Hs). by destruct (run_turns cl w' us).
Qed.

Lemma ring_tids n : Forall tids_differ (ring n).
Proof. by repeat constructor. Qed.

(** The first node of the ring up to its horizontal receiver's first connect. *)
Definition first_turns : list turn :=
  Run (0%nat, Main) :: replicate 5 (Run (0%nat, Prop_thr HPropagator)) ++
  [Run (0%nat, Main); Run (0%nat, Main)] ++ replicate 3 (Run (0%nat, Recv_thr HPropagator)).
Definition first_world : world := default (initial (ring 1)) (run_turns (ring 1) (initial (ring 1)) first_turns).
Lemma first_reachable : reachable (ring 1) first_world.
Proof. apply run_reachable; [constructor|]. vm_compute. reflexivity. Qed.

(** C16. Start-up order. In every interleaving of the threads of any cluster - whatever
    its addresses and expected numbers of propagators - a thread about to bind an inproc
    end point finds it free, a thread about to connect to one finds it bound, and the
    application's first calls find the threads they need in [RUN]: none of these calls
    fails. The only assumption is that the kernel gives a process's two propagator
    threads different ids, which their timers' end points are named after. *)
Theorem inproc_ready cl w t i rest :
  Forall tids_differ cl -> reachable cl w -> remaining w t = i :: rest -> live w t = true -> local_call i = true ->
  exec cl w t = Goes (advance w t).
Proof. apply local_call_goes. Qed.

Lemma inproc_ready_witness :
  remaining first_world (0%nat, Recv_thr HPropagator) =
    Connect KHINTERNAL_PAIR_RECV_PUSH_ENDP :: tail (remaining first_world (0%nat, Recv_thr HPropagator)) /\
  exec (ring 1) first_world (0%nat, Recv_thr HPropagator) = Goes (advance first_world (0%nat, Recv_thr HPropagator)).
Proof.
  split; [vm_compute; reflexivity|].
  apply (inproc_ready (ring 1) first_world _ (Connect KHINTERNAL_PAIR_RECV_PUSH_ENDP)
    (tail (remaining first_world (0%nat, Recv_thr HPropagator)))).
  - apply ring_tids.
  - apply first_reachable.
  - vm_compute. reflexivity.
  - vm_compute. reflexivity.
  - reflexivity.
Defined.
