(* ===== verification/StartupLive.v ===== *)
(** The start-up handshake across a cluster: what the messages in flight mean for the
    threads at both ends, that no thread of a cluster whose configurations fit together
    ever fails, and that such a cluster can always complete its start-up. *)
From S2P Require Import Prelude Common Protocol Propagator InternalTable Receiver QuiltDB Node Startup StartupSafety.
From stdpp Require Import functions pretty strings.
#[global] Open Scope Z_scope.

(** ** The wiring of a cluster *)

(** The addresses a propagator thread pushes to and subscribes to, and those a receiver
    thread binds, with the number of propagators it expects. *)
Definition downstream_of (cl : cluster) (t : tid) : option (string * string) :=
  match cl !! t.1, t.2 with
  | Some pr, Prop_thr d =>
      let c := prop_config (database pr) d in
      if has_downstream (prop_thrinfo c)
      then Some (tcp_update_endp (pc_downstream_recv_ c), tcp_term_endp (pc_downstream_recv_ c)) else None
  | _, _ => None
  end.
Definition upstream_of (cl : cluster) (t : tid) : option (string * string * nat) :=
  match cl !! t.1, t.2 with
  | Some pr, Recv_thr d =>
      let c := recv_config (database pr) d in
      if 0 <? rc_num_expected_propagators_ c
      then Some (tcp_update_endp (rc_my_info_ c), tcp_term_endp (rc_my_info_ c), Z.to_nat (rc_num_expected_propagators_ c))
      else None
  | _, _ => None
  end.

Definition tids (cl : cluster) : list tid := n ← seq 0 (length cl); (fun th => (n, th)) <$> threads.
(** The propagator threads that push to an address. *)
Definition feeders (cl : cluster) (pull : string) : list tid :=
  filter (fun t => fst <$> downstream_of cl t = Some pull) (tids cl).
Definition receivers (cl : cluster) : list (string * string * nat) := omap (upstream_of cl) (tids cl).

(** The addresses fit together: every downstream address is some receiver's, no address
    is bound twice, and no receiver hears from more propagators than it expects. *)
Record addresses_fit (cl : cluster) : Prop := {
  af_tids : Forall tids_differ cl;
  af_room : Forall (fun r => (length (feeders cl r.1.1) <= r.2)%nat) (receivers cl);
  af_downstream : Forall (fun d => d ∈ (fst <$> receivers cl)) (omap (downstream_of cl) (tids cl));
  af_addresses : NoDup (r ← receivers cl; [r.1.1; r.1.2])
}.
(** In a complete cluster every receiver hears from as many as it expects. *)
Record well_configured (cl : cluster) : Prop := {
  wc_fit : addresses_fit cl;
  wc_expected : Forall (fun r => r.2 = length (feeders cl r.1.1)) (receivers cl)
}.

Lemma tids_nodup cl : NoDup (tids cl).
Proof.
  unfold tids. generalize (NoDup_seq 0 (length cl)). generalize (seq 0 (length cl)).
  induction l as [|n l IH]; [intros; apply NoDup_nil_2|]. intros [Hn Hl]%NoDup_cons.
  rewrite bind_cons. apply NoDup_app. split_and!; [|..].
  - apply (NoDup_fmap_2 _). unfold threads. apply (bool_decide_eq_true_1 _). reflexivity.
  - intros t (th & -> & _)%list_elem_of_fmap (m & Hm & Hl2)%list_elem_of_bind.
    apply list_elem_of_fmap in Hm as (th' & Heq & _). by simplify_eq.
  - by apply IH.
Qed.

Lemma elem_of_tids cl n th : (n < length cl)%nat -> (n, th) ∈ tids cl.
Proof.
  intros Hn. unfold tids. apply list_elem_of_bind. exists n. split.
  - apply list_elem_of_fmap. exists th. split; [done|]. apply thread_in.
  - apply elem_of_seq. lia.
Qed.

Lemma downstream_tid cl t d : downstream_of cl t = Some d -> t ∈ tids cl.
Proof.
  unfold downstream_of. destruct t as [n th], (cl !! n) eqn:E; simpl; rewrite E; [|done].
  intros _. apply elem_of_tids. by eapply lookup_lt_Some.
Qed.
Lemma upstream_tid cl t d : upstream_of cl t = Some d -> t ∈ tids cl.
Proof.
  unfold upstream_of. destruct t as [n th], (cl !! n) eqn:E; simpl; rewrite E; [|done].
  intros _. apply elem_of_tids. by eapply lookup_lt_Some.
Qed.

Lemma elem_of_feeders cl pull t : t ∈ feeders cl pull <-> exists push, downstream_of cl t = Some (pull, push).
Proof.
  unfold feeders. rewrite list_elem_of_filter. split.
  - intros [Hd _]. destruct (downstream_of cl t) as [[a b]|]; simpl in Hd; [|done]. simplify_eq. by exists b.
  - intros [push Hd]. rewrite Hd. split; [done|]. by eapply downstream_tid.
Qed.

Lemma feeders_nodup cl pull : NoDup (feeders cl pull).
Proof. apply NoDup_filter, tids_nodup. Qed.

(** ** The phases of the handshake *)

Variant phase := PInit | PAck | PAckAck | PStart | PCollect | PAckLoop | PPublish.
Definition phase_of (i : instr) : option phase :=
  match i with
  | SendPropInit _ _ => Some PInit
  | RecvInitAck => Some PAck
  | SendInitAckAck _ _ => Some PAckAck
  | RecvPropStart => Some PStart
  | CollectInits _ _ => Some PCollect
  | AckLoop _ _ _ => Some PAckLoop
  | PublishStart _ => Some PPublish
  | _ => None
  end.
(** How many of them a thread has behind it. *)
Definition stage (w : world) (t : tid) : nat := length (omap phase_of (executed w t)).

Definition phases (cl : cluster) (t : tid) : list phase :=
  match downstream_of cl t, upstream_of cl t with
  | Some _, _ => [PInit; PAck; PAckAck; PStart]
  | None, Some _ => [PCollect; PAckLoop; PPublish]
  | None, None => []
  end.

Lemma program_phases cl t : omap phase_of (program cl t) = phases cl t.
Proof.
  unfold program, phases, downstream_of, upstream_of. destruct t as [n th]. simpl.
  destruct (cl !! n) as [pr|]; [|done]. destruct th as [|d|d|d]; simpl; try done.
  - unfold prop_code, prop_sockets, prop_handshake, prop_loop_sockets.
    destruct (has_downstream _), (0 <? _); done.
  - unfold recv_code, recv_sockets, recv_handshake. destruct (0 <? _); done.
Qed.

(** The addresses in the programs. *)
Lemma program_shape cl t i :
  i ∈ program cl t ->
  match i with
  | SendPropInit a _ | SendInitAckAck a _ => exists b, downstream_of cl t = Some (a, b)
  | Subscribe b => exists a, downstream_of cl t = Some (a, b)
  | CollectInits a n => exists b, upstream_of cl t = Some (a, b, n)
  | AckLoop a b n => upstream_of cl t = Some (a, b, n)
  | PublishStart b => exists a n, upstream_of cl t = Some (a, b, n)
  | BindTcp e => exists a b n, upstream_of cl t = Some (a, b, n) /\ (e = a \/ e = b)
  | RecvInitAck | RecvPropStart => is_Some (downstream_of cl t)
  | _ => True
  end.
Proof.
  unfold program, downstream_of, upstream_of. destruct t as [n th]. simpl.
  destruct (cl !! n) as [pr|]; [|intros Hi; by apply elem_of_nil in Hi].
  destruct th as [|d|d|d]; simpl; intros Hi; in_code Hi; eauto 10.
Qed.

Lemma omap_bind_disjoint {A B C} (f : A -> option B) (g : B -> list C) l x y u v e :
  NoDup (omap f l ≫= g) -> x ∈ l -> y ∈ l -> f x = Some u -> f y = Some v -> e ∈ g u -> e ∈ g v -> x = y.
Proof.
  induction l as [|z l IH]; intros Hnd Hx Hy Hu Hv Heu Hev; [by apply elem_of_nil in Hx|].
  simpl in Hnd. assert (Hl : NoDup (omap f l ≫= g)).
  { destruct (f z); [|done]. rewrite bind_cons in Hnd. by apply NoDup_app in Hnd as (_ & _ & ?). }
  assert (Hin : forall y v, y ∈ l -> f y = Some v -> e ∈ g v -> e ∈ omap f l ≫= g).
  { intros y' v' Hy' Hv' He. apply list_elem_of_bind. exists v'. split; [done|]. apply list_elem_of_omap. by exists y'. }
  apply elem_of_cons in Hx as [->|Hx], Hy as [->|Hy]; try done; [| |by eapply IH].
  - rewrite Hu, bind_cons in Hnd. apply NoDup_app in Hnd as (_ & Hd & _). destruct (Hd e Heu); eauto.
  - rewrite Hv, bind_cons in Hnd. apply NoDup_app in Hnd as (_ & Hd & _). destruct (Hd e Hev); eauto.
Qed.

Lemma upstream_positive cl r a b n : upstream_of cl r = Some (a, b, n) -> (0 < n)%nat.
Proof.
  unfold upstream_of. destruct r as [m th]. simpl. destruct (cl !! m), th; try done.
  destruct (0 <? _) eqn:E; [|done]. apply Z.ltb_lt in E. intros [= _ _ <-]. lia.
Qed.

Lemma not_both cl t : is_Some (downstream_of cl t) -> is_Some (upstream_of cl t) -> False.
Proof.
  unfold downstream_of, upstream_of. destruct t as [n th]. simpl.
  destruct (cl !! n), th; intros [? ?] [? ?]; done.
Qed.

Lemma upstream_receivers cl r u : upstream_of cl r = Some u -> u ∈ receivers cl.
Proof. intros Hu. apply list_elem_of_omap. exists r. split; [by eapply upstream_tid|done]. Qed.

Section wired.
Context {cl : cluster} (Hwc : addresses_fit cl).

Lemma expected_count r a b n : upstream_of cl r = Some (a, b, n) -> (length (feeders cl a) <= n)%nat.
Proof. intros Hu. by apply (proj1 (Forall_forall _ _) (af_room _ Hwc) _ (upstream_receivers _ _ _ Hu)). Qed.

Lemma downstream_receiver p a b : downstream_of cl p = Some (a, b) -> exists r n, upstream_of cl r = Some (a, b, n).
Proof.
  intros Hd. pose proof (af_downstream _ Hwc) as Hf. rewrite Forall_forall in Hf.
  destruct (proj1 (list_elem_of_fmap _ _ _) (Hf (a, b) (proj2 (list_elem_of_omap _ _ _)
    (ex_intro _ p (conj (downstream_tid _ _ _ Hd) Hd))))) as ([[a' b'] n] & Heq & Hin).
  simpl in Heq. simplify_eq. apply list_elem_of_omap in Hin as (r & _ & Hr). by exists r, n.
Qed.

Lemma upstream_unique r1 r2 a1 b1 n1 a2 b2 n2 e :
  upstream_of cl r1 = Some (a1, b1, n1) -> upstream_of cl r2 = Some (a2, b2, n2) ->
  e = a1 \/ e = b1 -> e = a2 \/ e = b2 -> r1 = r2.
Proof.
  intros H1 H2 He1 He2. pose proof (af_addresses _ Hwc) as Hnd.
  eapply (omap_bind_disjoint _ _ _ r1 r2 _ _ e Hnd); try done.
  - by eapply upstream_tid.
  - by eapply upstream_tid.
  - set_solver.
  - set_solver.
Qed.

Lemma addresses_differ r a b n : upstream_of cl r = Some (a, b, n) -> a <> b.
Proof.
  intros Hu. pose proof (af_addresses _ Hwc) as Hnd.
  destruct (list_elem_of_split _ _ (upstream_receivers _ _ _ Hu)) as (l1 & l2 & Hl).
  rewrite Hl, bind_app, bind_cons in Hnd. apply NoDup_app in Hnd as (_ & _ & Hnd).
  apply NoDup_app in Hnd as (Hnd & _). simpl in Hnd. apply NoDup_cons in Hnd as [Hni _].
  intros ->. apply Hni. left.
Qed.

(** The two ends of a connection have the same update address exactly when they have
    the same control address. *)
Lemma same_connection p a b r a' b' n :
  downstream_of cl p = Some (a, b) -> upstream_of cl r = Some (a', b', n) -> a = a' \/ b = b' -> a = a' /\ b = b'.
Proof.
  intros Hd Hu Hor. destruct (downstream_receiver _ _ _ Hd) as (r' & n' & Hu').
  assert (r' = r) as ->.
  { destruct Hor as [->| ->]; [eapply (upstream_unique _ _ _ _ _ _ _ _ a')|eapply (upstream_unique _ _ _ _ _ _ _ _ b')];
      eauto. }
  rewrite Hu in Hu'. by simplify_eq.
Qed.
End wired.

(** ** Stages and steps *)

Section stages.
Context {cl : cluster}.

Lemma phases_split w t : reachable cl w -> omap phase_of (executed w t) ++ omap phase_of (remaining w t) = phases cl t.
Proof. intros Hr. by rewrite <- omap_app, (program_split w t Hr), program_phases. Qed.

Lemma next_phase w t i rest k :
  reachable cl w -> remaining w t = i :: rest -> phase_of i = Some k -> phases cl t !! stage w t = Some k.
Proof.
  intros Hr Hrem Hk. rewrite <- (phases_split w t Hr), Hrem. simpl. rewrite Hk. unfold stage.
  by rewrite lookup_app_r, Nat.sub_diag by done.
Qed.

Lemma stage_le w t : reachable cl w -> (stage w t <= length (phases cl t))%nat.
Proof. intros Hr. rewrite <- (phases_split w t Hr), length_app. unfold stage. lia. Qed.

Lemma next_shape w t i rest :
  reachable cl w -> remaining w t = i :: rest -> i ∈ program cl t.
Proof. apply next_program. Qed.

Lemma stage_advance w t t' i rest :
  remaining w t = i :: rest ->
  stage (advance w t) t' =
    if decide (t = t') then (stage w t + match phase_of i with Some _ => 1 | None => 0 end)%nat else stage w t'.
Proof.
  intros Hrem. unfold stage. rewrite executed_advance, Hrem. case_decide; [|done]. subst.
  rewrite omap_app, length_app. simpl. destruct (phase_of i); simpl; lia.
Qed.
End stages.

(** How many propagators of an address are past stage [k]. *)
Definition past (cl : cluster) (w : world) (a : string) (k : nat) : nat :=
  length (filter (fun t => (k <= stage w t)%nat) (feeders cl a)).

Lemma past_le cl w a k : (past cl w a k <= length (feeders cl a))%nat.
Proof. apply length_filter. Qed.

Lemma filter_length_all {A} (P : A -> Prop) `{forall x, Decision (P x)} l :
  length (filter P l) = length l -> forall x, x ∈ l -> P x.
Proof.
  induction l as [|y l IH]; intros Hl x Hx; [by apply elem_of_nil in Hx|].
  rewrite filter_cons in Hl. pose proof (length_filter P l). case_decide; [|simpl in Hl; lia].
  simpl in Hl. apply elem_of_cons in Hx as [->|Hx]; [done|]. apply IH; [lia|done].
Qed.

Lemma past_all cl w a k p : past cl w a k = length (feeders cl a) -> p ∈ feeders cl a -> (k <= stage w p)%nat.
Proof. intros Hl. by apply (filter_length_all _ _ Hl). Qed.

Lemma past_some cl w a k p : p ∈ feeders cl a -> (k <= stage w p)%nat -> (0 < past cl w a k)%nat.
Proof.
  intros Hp Hk. unfold past. destruct (filter _ _) eqn:E; [|simpl; lia].
  assert (Hin : p ∈ filter (fun t => (k <= stage w t)%nat) (feeders cl a)) by (by apply list_elem_of_filter).
  rewrite E in Hin. by apply elem_of_nil in Hin.
Qed.

Lemma past_ex cl w a k : (0 < past cl w a k)%nat -> exists p, p ∈ feeders cl a /\ (k <= stage w p)%nat.
Proof.
  unfold past. destruct (filter _ _) as [|p l] eqn:E; simpl; [lia|]. intros _. exists p.
  assert (Hin : p ∈ p :: l) by left. rewrite <- E in Hin. apply list_elem_of_filter in Hin. tauto.
Qed.

Lemma past_missing cl w a k :
  (past cl w a k < length (feeders cl a))%nat -> exists p, p ∈ feeders cl a /\ (stage w p < k)%nat.
Proof.
  unfold past. induction (feeders cl a) as [|p l IH]; simpl; [lia|]. rewrite filter_cons.
  case_decide; simpl; intros Hlt.
  - destruct IH as (q & Hq & Hk); [lia|]. exists q. split; [by right|done].
  - exists p. split; [left|lia].
Qed.

Lemma filter_length_insert {A} (P Q : A -> Prop) `{forall x, Decision (P x)} `{forall x, Decision (Q x)} l x :
  NoDup l -> x ∈ l -> ~ P x -> Q x -> (forall y, y <> x -> P y <-> Q y) -> length (filter Q l) = S (length (filter P l)).
Proof.
  intros Hnd Hx HP HQ Hiff. apply list_elem_of_split in Hx as (l1 & l2 & ->).
  apply NoDup_app in Hnd as (_ & Hd & Hnd). apply NoDup_cons in Hnd as [Hn2 _].
  assert (Hn1 : x ∉ l1) by (intros Hx1; apply (Hd x Hx1); left).
  rewrite !filter_app, !filter_cons, !length_app. destruct (decide (P x)), (decide (Q x)); try done. simpl.
  assert (Hsame : forall l, x ∉ l -> length (filter Q l) = length (filter P l)).
  { intros l Hni. induction l as [|y l IH]; [done|].
    apply not_elem_of_cons in Hni as [Hne Hni]. rewrite !filter_cons.
    destruct (decide (P y)), (decide (Q y)); rewrite ?IH; auto; naive_solver. }
  rewrite !Hsame by done. lia.
Qed.

Lemma past_step cl w w' a k p :
  p ∈ feeders cl a -> stage w p = k -> stage w' p = S k -> (forall t, t <> p -> stage w' t = stage w t) ->
  past cl w' a (S k) = S (past cl w a (S k)).
Proof.
  intros Hp Hk Hk' Hne. unfold past.
  apply (filter_length_insert _ _ _ p); [apply feeders_nodup|done|lia|lia|].
  intros y Hy. by rewrite Hne.
Qed.

Lemma past_same cl w w' a k : (forall t, t ∈ feeders cl a -> (k <= stage w t <-> k <= stage w' t)%nat) -> past cl w' a k = past cl w a k.
Proof.
  unfold past. intros Hiff. f_equal. induction (feeders cl a) as [|p l IH]; [done|].
  rewrite !filter_cons. rewrite IH by (intros t Ht; apply Hiff; by right).
  pose proof (Hiff p ltac:(left)). destruct (decide (k <= stage w p)%nat), (decide (k <= stage w' p)%nat); first [done|tauto].
Qed.

Lemma past_move cl w w' a j k p :
  stage w p = k -> stage w' p = S k -> (forall t, t <> p -> stage w' t = stage w t) ->
  past cl w' a j = (past cl w a j + if decide (j = S k /\ p ∈ feeders cl a) then 1 else 0)%nat.
Proof.
  intros Hk Hk' Hne. case_decide as Hd.
  - destruct Hd as [-> Hp]. rewrite (past_step _ w w' _ _ p); done || lia.
  - rewrite Nat.add_0_r. apply past_same. intros t Ht. destruct (decide (t = p)) as [->|Hn]; [|by rewrite Hne].
    assert (j <> S k) by tauto. lia.
Qed.

(** ** The messages in flight *)

Definition is_init (m : NetIn) : bool := match m with NetInit _ => true | _ => false end.
Definition is_ackack (m : NetIn) : bool := match m with NetInitAckAck _ => true | _ => false end.
Definition inits (q : list NetIn) : nat := length (filter (fun m => is_init m = true) q).
Definition ackacks (q : list NetIn) : nat := length (filter (fun m => is_ackack m = true) q).

Lemma inits_app q1 q2 : inits (q1 ++ q2) = (inits q1 + inits q2)%nat.
Proof. unfold inits. by rewrite filter_app, length_app. Qed.
Lemma ackacks_app q1 q2 : ackacks (q1 ++ q2) = (ackacks q1 + ackacks q2)%nat.
Proof. unfold ackacks. by rewrite filter_app, length_app. Qed.
Lemma inits_cons m q : inits (m :: q) = ((if is_init m then 1 else 0) + inits q)%nat.
Proof. unfold inits. rewrite filter_cons. by destruct m. Qed.
Lemma ackacks_cons m q : ackacks (m :: q) = ((if is_ackack m then 1 else 0) + ackacks q)%nat.
Proof. unfold ackacks. rewrite filter_cons. by destruct m. Qed.

(** Where the receivers' counters are. *)
Definition counters_ok (w : world) : Prop := forall t,
  match remaining w t with
  | CollectInits _ n :: _ | AckLoop _ _ n :: _ => (num_props w t < n)%nat
  | _ => num_props w t = O
  end.

(** How many of its propagators' PropInits and replies a receiver has read. *)
Definition got_inits (w : world) (r : tid) (n : nat) : nat := if decide (1 <= stage w r)%nat then n else num_props w r.
Definition got_acks (w : world) (r : tid) (n : nat) : nat :=
  if decide (2 <= stage w r)%nat then n else if decide (1 <= stage w r)%nat then num_props w r else O.

Record net_inv (cl : cluster) (w : world) : Prop := {
  ni_inits r a b n : upstream_of cl r = Some (a, b, n) ->
    (inits (inbox w a) + got_inits w r n)%nat = past cl w a 1;
  ni_acks r a b n : upstream_of cl r = Some (a, b, n) ->
    (ackacks (inbox w a) + got_acks w r n)%nat = past cl w a 3;
  ni_inbox a : Forall (fun m => is_init m || is_ackack m = true) (inbox w a);
  ni_ack p r a b n : downstream_of cl p = Some (a, b) -> upstream_of cl r = Some (a, b, n) ->
    PropInitACK ∈ subq w p \/ (2 <= stage w p)%nat -> (1 <= stage w r)%nat;
  ni_start p r a b n : downstream_of cl p = Some (a, b) -> upstream_of cl r = Some (a, b, n) ->
    PropStart ∈ subq w p -> (2 <= stage w r)%nat;
  ni_started p r a b n : downstream_of cl p = Some (a, b) -> upstream_of cl r = Some (a, b, n) ->
    (3 <= stage w r)%nat -> (4 <= stage w p)%nat \/ PropStart ∈ subq w p;
  ni_sub p : is_Some (downstream_of cl p) -> subq w p <> [] \/ (2 <= stage w p)%nat -> subscribed w p = true;
  ni_subq p : Forall (fun m => m = PropInitACK \/ m = PropStart) (subq w p)
}.

Section counters.
Context {cl : cluster}.

(** After an instruction the counter is 0, and a loop has at least one turn. *)
Lemma counters_advance w t :
  reachable cl w -> counters_ok w -> counters_ok (advance w t).
Proof.
  intros Hr Hc t'. rewrite remaining_advance. specialize (Hc t').
  destruct (remaining w t) as [|i rest] eqn:Hrem.
  { unfold advance. rewrite Hrem. case_decide; subst; [|done]. by rewrite Hrem in Hc. }
  destruct (advance_fields w t i rest Hrem) as (_ & _ & -> & _).
  case_decide as Ht.
  - subst t'. rewrite fn_lookup_insert. simpl. destruct rest as [|j rest]; [done|].
    assert (Hj : j ∈ program cl t).
    { rewrite <- (program_split w t Hr), Hrem. set_solver. }
    apply program_shape in Hj. destruct j; try done.
    + destruct Hj as [b Hj]. by eapply upstream_positive.
    + by eapply upstream_positive.
  - by rewrite fn_lookup_insert_ne.
Qed.

Lemma counters_loop w t k b :
  counters_ok w -> match remaining w t with CollectInits _ n :: _ | AckLoop _ _ n :: _ => (k < n)%nat | _ => False end ->
  counters_ok (set_loop w t k b).
Proof.
  intros Hc Hk t'. specialize (Hc t'). simpl. destruct (decide (t = t')) as [<-|Hne].
  - rewrite fn_lookup_insert. by destruct (remaining w t) as [|[] ?].
  - by rewrite fn_lookup_insert_ne.
Qed.

Lemma counters_hold w : reachable cl w -> counters_ok w.
Proof.
  induction 1 as [|w w' Hr IH Hs].
  - intros t. simpl. destruct (program cl t) as [|i l] eqn:E; [done|].
    assert (Hi : i ∈ program cl t) by (rewrite E; left). apply program_shape in Hi.
    destruct i; try done; [destruct Hi as [b Hi]|]; by eapply upstream_positive.
  - destruct Hs as [t w' He|t e _ _ _]; [|exact IH]. pose proof (IH t) as Ht.
    assert (Hone : forall n b, match remaining w t with CollectInits _ m :: _ | AckLoop _ _ m :: _ => n = m | _ => False end ->
      counters_ok (count_one w t n b)).
    { intros n b Hn. unfold count_one. case_decide; [by apply counters_advance|]. apply counters_loop; [done|].
      destruct (remaining w t) as [|[] ?]; try done; subst; lia. }
    pose proof (counters_advance w t Hr IH) as Hadv.
    revert He. unfold exec. destruct (negb _); [done|]. destruct (remaining w t) as [|i rest] eqn:Hrem; [done|].
    destruct i; intros He; repeat case_match; simplify_eq; try exact Hadv; try exact IH.
    + by apply (Hone n false).
    + apply counters_loop; [done|]. rewrite Hrem. lia.
    + by apply (Hone n true).
    + apply counters_loop; [exact IH|]. simpl. rewrite Hrem. lia.
Qed.
End counters.

(** ** They mean the same after every step *)

Lemma net_frame cl w w' :
  (forall t, stage w' t = stage w t) -> (forall t, num_props w' t = num_props w t) -> inbox w' = inbox w ->
  subq w' = subq w -> (forall t, subscribed w t = true -> subscribed w' t = true) ->
  net_inv cl w -> net_inv cl w'.
Proof.
  intros Hst Hnum Hin Hq Hsub Hi.
  assert (Hpast : forall a k, past cl w' a k = past cl w a k) by (intros a k; apply past_same; intros t _; by rewrite Hst).
  constructor; unfold got_inits, got_acks; intros; rewrite ?Hst, ?Hnum, ?Hin, ?Hpast in *; try rewrite Hq in *.
  - by eapply (ni_inits _ _ Hi).
  - by eapply (ni_acks _ _ Hi).
  - apply (ni_inbox _ _ Hi).
  - by eapply (ni_ack _ _ Hi).
  - by eapply (ni_start _ _ Hi).
  - by eapply (ni_started _ _ Hi).
  - by apply Hsub, (ni_sub _ _ Hi).
  - apply (ni_subq _ _ Hi).
Qed.

Section moves.
Context {cl : cluster} (Hwc : addresses_fit cl) {w : world} (Hr : reachable cl w) (Hi : net_inv cl w).

Lemma sender_counter p i rest :
  remaining w p = i :: rest -> match i with CollectInits _ _ | AckLoop _ _ _ => False | _ => True end -> num_props w p = O.
Proof. intros Hrem Hns. pose proof (counters_hold w Hr p) as Hc. rewrite Hrem in Hc. by destruct i. Qed.

(** What an instruction that is not part of the handshake leaves alone. *)
Lemma num_props_advance t i rest :
  remaining w t = i :: rest -> match i with CollectInits _ _ | AckLoop _ _ _ => False | _ => True end ->
  forall t', num_props (advance w t) t' = num_props w t'.
Proof.
  intros Hrem Hns t'. destruct (advance_fields w t i rest Hrem) as (_ & _ & -> & _).
  destruct (decide (t = t')) as [<-|Hne]; [|by rewrite fn_lookup_insert_ne].
  rewrite fn_lookup_insert. symmetry. by eapply sender_counter.
Qed.

Lemma net_plain t i rest : remaining w t = i :: rest -> phase_of i = None -> net_inv cl (advance w t).
Proof.
  intros Hrem Hk. destruct (advance_fields w t i rest Hrem) as (_ & _ & _ & _ & Hin & Hsub & Hq).
  apply (net_frame cl w); [| |done|done| |done].
  - intros t'. rewrite (stage_advance w t t' i rest Hrem), Hk. case_decide; subst; lia.
  - eapply num_props_advance; [done|]. by destruct i.
  - by rewrite Hsub.
Qed.

(** The stages around one step of thread [t] from stage [k]. *)
Lemma stage_at t i rest k : remaining w t = i :: rest -> phase_of i = Some k -> phases cl t !! stage w t = Some k.
Proof. by apply next_phase. Qed.

Lemma stage_next t i rest k :
  remaining w t = i :: rest -> phase_of i = Some k ->
  stage (advance w t) t = S (stage w t) /\ forall t', t' <> t -> stage (advance w t) t' = stage w t'.
Proof.
  intros Hrem Hk. split; [|intros t' Hne]; rewrite (stage_advance w t _ i rest Hrem), ?Hk.
  - rewrite decide_True by done. lia.
  - by rewrite decide_False.
Qed.

Lemma sender_phases p a b : downstream_of cl p = Some (a, b) -> phases cl p = [PInit; PAck; PAckAck; PStart].
Proof. intros Hd. unfold phases. by rewrite Hd. Qed.
Lemma receiver_phases r u : upstream_of cl r = Some u -> phases cl r = [PCollect; PAckLoop; PPublish].
Proof.
  intros Hu. unfold phases. destruct (downstream_of cl r) eqn:E; [|by rewrite Hu].
  destruct (not_both cl r); by eexists.
Qed.

Lemma sender_not_receiver p r a b u : downstream_of cl p = Some (a, b) -> upstream_of cl r = Some u -> r <> p.
Proof. intros Hd Hu ->. destruct (not_both cl p); by eexists. Qed.

Lemma receiver_not_feeder r u a : upstream_of cl r = Some u -> r ∉ feeders cl a.
Proof. intros Hu [b Hd]%elem_of_feeders. destruct (not_both cl r); by eexists. Qed.

Lemma sender_feeds p a b a' : downstream_of cl p = Some (a, b) -> p ∈ feeders cl a' <-> a' = a.
Proof. intros Hd. rewrite elem_of_feeders, Hd. split; [intros [b' [= -> ->]]; done|intros ->; by exists b]. Qed.

(** A propagator goes from stage [k] to the next: the first and the third send, the
    second and the fourth read. *)
Lemma net_sender p a b w' :
  downstream_of cl p = Some (a, b) ->
  stage w' p = S (stage w p) -> (forall t, t <> p -> stage w' t = stage w t) ->
  (forall t, num_props w' t = num_props w t) -> subscribed w' = subscribed w ->
  (forall a', a' <> a -> inbox w' a' = inbox w a') ->
  inits (inbox w' a) = (inits (inbox w a) + if decide (stage w p = 0)%nat then 1 else 0)%nat ->
  ackacks (inbox w' a) = (ackacks (inbox w a) + if decide (stage w p = 2)%nat then 1 else 0)%nat ->
  Forall (fun m => is_init m || is_ackack m = true) (inbox w' a) ->
  (forall t, t <> p -> subq w' t = subq w t) -> (forall m, m ∈ subq w' p -> m ∈ subq w p) ->
  (stage w p = 1%nat -> PropInitACK ∈ subq w p) ->
  (stage w p <> 3%nat -> PropStart ∈ subq w p -> PropStart ∈ subq w' p) ->
  net_inv cl w'.
Proof.
  intros Hd Hst Hne Hnum Hsub Hinb Hinits Hacks Hok Hq Hqp Hack Hstart.
  pose proof (fun a' j => past_move cl w w' a' j _ p eq_refl Hst Hne) as Hpast.
  pose proof (sender_feeds p a b) as Hf.
  constructor; intros *.
  - intros Hu. pose proof (ni_inits _ _ Hi _ _ _ _ Hu). unfold got_inits in *.
    rewrite Hpast, (Hne r), Hnum by (by eapply sender_not_receiver). pose proof (Hf a0 Hd).
    destruct (decide (a0 = a)) as [->|Hna]; [rewrite Hinits|rewrite Hinb by done]; repeat case_decide; try lia; naive_solver lia.
  - intros Hu. pose proof (ni_acks _ _ Hi _ _ _ _ Hu). unfold got_acks in *.
    rewrite Hpast, (Hne r), Hnum by (by eapply sender_not_receiver). pose proof (Hf a0 Hd).
    destruct (decide (a0 = a)) as [->|Hna]; [rewrite Hacks|rewrite Hinb by done]; repeat case_decide; try lia; naive_solver lia.
  - destruct (decide (a0 = a)) as [->|Hna]; [done|]. rewrite Hinb by done. apply (ni_inbox _ _ Hi).
  - intros Hp Hu. rewrite (Hne r) by (by eapply sender_not_receiver).
    destruct (decide (p0 = p)) as [->|Hnp]; [|rewrite Hq, Hne by done; by eapply (ni_ack _ _ Hi)].
    intros Hor. eapply (ni_ack _ _ Hi); [done|done|]. destruct Hor as [Hor|Hor]; [by left; apply Hqp|].
    rewrite Hst in Hor. destruct (decide (stage w p = 1%nat)) as [H1|]; [left; auto|right; lia].
  - intros Hp Hu. rewrite (Hne r) by (by eapply sender_not_receiver).
    destruct (decide (p0 = p)) as [->|Hnp]; [|rewrite Hq by done; by eapply (ni_start _ _ Hi)].
    intros Hin. eapply (ni_start _ _ Hi); [done|done|by apply Hqp].
  - intros Hp Hu. rewrite (Hne r) by (by eapply sender_not_receiver).
    destruct (decide (p0 = p)) as [->|Hnp]; [|rewrite Hq, Hne by done; by eapply (ni_started _ _ Hi)].
    intros H3. destruct (ni_started _ _ Hi _ _ _ _ _ Hp Hu H3) as [H4|H4]; [left; lia|].
    destruct (decide (stage w p = 3%nat)); [left; lia|right; auto].
  - intros Hp. rewrite Hsub. destruct (decide (p0 = p)) as [->|Hnp].
    + intros Hor. apply (ni_sub _ _ Hi); [done|]. rewrite Hst in Hor.
      destruct Hor as [Hor|Hor]; [|destruct (decide (stage w p = 1%nat)) as [H1|]; [|right; lia]].
      * left. destruct (subq w' p) as [|m l]; [done|]. intros Hnil. specialize (Hqp m ltac:(left)).
        rewrite Hnil in Hqp. by apply elem_of_nil in Hqp.
      * left. intros Hnil. specialize (Hack H1). rewrite Hnil in Hack. by apply elem_of_nil in Hack.
    + rewrite Hq, Hne by done. by apply (ni_sub _ _ Hi).
  - destruct (decide (p0 = p)) as [->|Hnp]; [|rewrite Hq by done; apply (ni_subq _ _ Hi)].
    apply Forall_forall. intros m Hm%Hqp. pose proof (ni_subq _ _ Hi p) as Hf'. rewrite Forall_forall in Hf'. auto.
Qed.

Ltac by_sender := by eapply not_eq_sym, sender_not_receiver.

(** A receiver reads from its PULL socket or publishes [l]. *)
Lemma net_receiver r a b n w' l :
  upstream_of cl r = Some (a, b, n) ->
  (stage w r <= stage w' r)%nat -> (forall t, t <> r -> stage w' t = stage w t) ->
  (forall t, t <> r -> num_props w' t = num_props w t) -> subscribed w' = subscribed w ->
  (forall a', a' <> a -> inbox w' a' = inbox w a') -> (forall m, m ∈ inbox w' a -> m ∈ inbox w a) ->
  (inits (inbox w' a) + got_inits w' r n = inits (inbox w a) + got_inits w r n)%nat ->
  (ackacks (inbox w' a) + got_acks w' r n = ackacks (inbox w a) + got_acks w r n)%nat ->
  (forall p, subq w' p = subq w p ++ if subscribed w p && bool_decide (Subscribe b ∈ executed w p) then l else []) ->
  (forall m, m ∈ l -> m = PropInitACK /\ (1 <= stage w' r)%nat \/ m = PropStart /\ (2 <= stage w' r)%nat) ->
  ((3 <= stage w' r)%nat -> (3 <= stage w r)%nat \/
     PropStart ∈ l /\ forall p, downstream_of cl p = Some (a, b) -> subscribed w p = true /\ Subscribe b ∈ executed w p) ->
  net_inv cl w'.
Proof.
  intros Hu Hle Hst Hnum Hsub Hinb Hok Hinits Hacks Hq Hl H3.
  assert (Hpast : forall a' j, past cl w' a' j = past cl w a' j).
  { intros a' j. apply past_same. intros t Ht. rewrite Hst; [done|].
    intros ->. by eapply (receiver_not_feeder r _ a'). }
  assert (Hlater : forall r', (stage w r' <= stage w' r')%nat).
  { intros r'. destruct (decide (r' = r)) as [->|Hn]; [done|]. by rewrite Hst. }
  assert (Hsame : forall r' a' b' n', upstream_of cl r' = Some (a', b', n') -> r' <> r -> inbox w' a' = inbox w a').
  { intros r' a' b' n' Hu' Hn. apply Hinb. intros ->. apply Hn.
    eapply (upstream_unique Hwc _ _ _ _ _ _ _ _ a); eauto. }
  assert (Hnew : forall p m a' b' r' n', downstream_of cl p = Some (a', b') -> upstream_of cl r' = Some (a', b', n') ->
    m ∈ subq w' p -> m ∈ subq w p \/ m ∈ l /\ r' = r).
  { intros p m a' b' r' n' Hp Hu' Hm. rewrite Hq in Hm. apply elem_of_app in Hm as [Hm|Hm]; [by left|].
    destruct (subscribed w p); simpl in Hm; [|by apply elem_of_nil in Hm].
    case_bool_decide as He; [|by apply elem_of_nil in Hm]. right. split; [done|].
    apply (executed_program _ _ _ Hr), program_shape in He as [a'' He]. rewrite Hp in He. simplify_eq.
    eapply (upstream_unique Hwc _ _ _ _ _ _ _ _ b); eauto. }
  constructor; intros *.
  - intros Hu'. rewrite Hpast, <- (ni_inits _ _ Hi _ _ _ _ Hu').
    destruct (decide (r0 = r)) as [->|Hn]; [rewrite Hu in Hu'; simplify_eq; done|].
    unfold got_inits. by rewrite Hst, Hnum, (Hsame r0 a0 b0 n0) by done.
  - intros Hu'. rewrite Hpast, <- (ni_acks _ _ Hi _ _ _ _ Hu').
    destruct (decide (r0 = r)) as [->|Hn]; [rewrite Hu in Hu'; simplify_eq; done|].
    unfold got_acks. by rewrite Hst, Hnum, (Hsame r0 a0 b0 n0) by done.
  - pose proof (ni_inbox _ _ Hi a0) as Hf. destruct (decide (a0 = a)) as [->|Hn]; [|by rewrite Hinb].
    rewrite Forall_forall in *. auto.
  - intros Hp Hu' Hor. destruct Hor as [Hm|Hm].
    + destruct (Hnew _ _ _ _ _ _ Hp Hu' Hm) as [Hm'|[Hm' ->]]; [|destruct (Hl _ Hm') as [[_ ?]|[? _]]; done].
      etrans; [|apply Hlater]. eapply (ni_ack _ _ Hi); eauto.
    + etrans; [|apply Hlater]. rewrite Hst in Hm by by_sender.
      eapply (ni_ack _ _ Hi); eauto.
  - intros Hp Hu' Hm. destruct (Hnew _ _ _ _ _ _ Hp Hu' Hm) as [Hm'|[Hm' ->]].
    + etrans; [|apply Hlater]. eapply (ni_start _ _ Hi); eauto.
    + destruct (Hl _ Hm') as [[? _]|[_ ?]]; done.
  - intros Hp Hu' Hm. rewrite (Hst p) by by_sender. rewrite Hq.
    assert (Hold : (3 <= stage w r0)%nat -> (4 <= stage w p)%nat \/ PropStart ∈ subq w p ++
      (if subscribed w p && bool_decide (Subscribe b ∈ executed w p) then l else [])).
    { intros Hm'. destruct (ni_started _ _ Hi _ _ _ _ _ Hp Hu' Hm') as [?|?]; [by left|right; apply elem_of_app; by left]. }
    destruct (decide (r0 = r)) as [->|Hn]; [|apply Hold; by rewrite Hst in Hm].
    destruct (H3 Hm) as [?|[Hin Hall]]; [by apply Hold|]. right. rewrite Hu in Hu'. simplify_eq.
    destruct (Hall p Hp) as [-> ?]. rewrite bool_decide_true by done. simpl. apply elem_of_app. by right.
  - intros Hp. rewrite Hsub, Hq. destruct (subscribed w p) eqn:Hs; simpl; [done|]. rewrite app_nil_r.
    destruct (decide (p = r)) as [->|Hn]; [destruct (not_both cl r); [done|by eexists]|].
    rewrite Hst by done. intros Hor. rewrite <- Hs. by apply (ni_sub _ _ Hi).
  - rewrite Hq. apply Forall_app. split; [apply (ni_subq _ _ Hi)|].
    destruct (_ && _); [|apply Forall_nil; done]. apply Forall_forall. intros m Hm. destruct (Hl _ Hm) as [[? _]|[? _]]; auto.
Qed.

(** What the messages a thread finds are. *)
Lemma inbox_head a m q : inbox w a = m :: q -> is_init m = true \/ is_ackack m = true.
Proof.
  intros Hq. pose proof (ni_inbox _ _ Hi a) as Hf. rewrite Hq in Hf.
  apply Forall_cons in Hf as [Hm _]. by apply orb_true_iff.
Qed.

Lemma collect_head r a b n m q :
  upstream_of cl r = Some (a, b, n) -> stage w r = O -> inbox w a = m :: q -> is_init m = true /\ is_ackack m = false.
Proof.
  intros Hu Hst Hq. destruct (is_ackack m) eqn:Hm; [|destruct (inbox_head _ _ _ Hq); split; congruence].
  pose proof (ni_acks _ _ Hi _ _ _ _ Hu) as Hc. unfold got_acks in Hc.
  rewrite Hq, ackacks_cons, Hm, Hst in Hc. simpl in Hc.
  destruct (past_ex cl w a 3) as (p & [b' Hp]%elem_of_feeders & Hp3); [lia|].
  assert (b' = b) as -> by (symmetry; by destruct (same_connection Hwc p a b' r a b n Hp Hu (or_introl eq_refl))).
  pose proof (ni_ack _ _ Hi _ _ _ _ _ Hp Hu) as Ha. lia.
Qed.

Lemma loop_head r a b n m q :
  upstream_of cl r = Some (a, b, n) -> (1 <= stage w r)%nat -> inbox w a = m :: q -> is_init m = false /\ is_ackack m = true.
Proof.
  intros Hu Hst Hq. destruct (is_init m) eqn:Hm; [|destruct (inbox_head _ _ _ Hq); split; congruence].
  pose proof (ni_inits _ _ Hi _ _ _ _ Hu) as Hc. unfold got_inits in Hc.
  rewrite Hq, inits_cons, Hm, decide_True in Hc by done.
  pose proof (past_le cl w a 1). pose proof (expected_count Hwc _ _ _ _ Hu). lia.
Qed.

(** A receiver that has all replies has all its propagators waiting for PropStart. *)
Lemma loop_done r a b n p :
  upstream_of cl r = Some (a, b, n) -> (2 <= stage w r)%nat -> downstream_of cl p = Some (a, b) -> (3 <= stage w p)%nat.
Proof.
  intros Hu Hst Hp. pose proof (ni_acks _ _ Hi _ _ _ _ Hu) as Hc. unfold got_acks in Hc.
  rewrite decide_True in Hc by done. pose proof (past_le cl w a 3). pose proof (expected_count Hwc _ _ _ _ Hu).
  apply (past_all cl w a 3); [lia|]. apply elem_of_feeders. by exists b.
Qed.

Lemma ack_head p m q : is_Some (downstream_of cl p) -> stage w p = 1%nat -> subq w p = m :: q -> m = PropInitACK.
Proof.
  intros [[a b] Hp] Hst Hq. pose proof (ni_subq _ _ Hi p) as Hf. rewrite Hq in Hf.
  apply Forall_cons in Hf as [[?| ->] _]; [done|].
  destruct (downstream_receiver Hwc _ _ _ Hp) as (r & n & Hu).
  assert (H2 : (2 <= stage w r)%nat).
  { eapply (ni_start _ _ Hi); [done|done|]. rewrite Hq. left. }
  pose proof (loop_done _ _ _ _ _ Hu H2 Hp). lia.
Qed.

(** The position of a thread about to run an instruction of the handshake. *)
Lemma sender_stage p i rest k a b :
  remaining w p = i :: rest -> phase_of i = Some k -> downstream_of cl p = Some (a, b) ->
  [PInit; PAck; PAckAck; PStart] !! stage w p = Some k.
Proof. intros Hrem Hk Hd. rewrite <- (sender_phases p a b Hd). by eapply next_phase. Qed.

Lemma receiver_stage r i rest k u :
  remaining w r = i :: rest -> phase_of i = Some k -> upstream_of cl r = Some u ->
  [PCollect; PAckLoop; PPublish] !! stage w r = Some k.
Proof. intros Hrem Hk Hu. rewrite <- (receiver_phases r u Hu). by eapply next_phase. Qed.
End moves.

(** A propagator subscribes before the handshake. *)
Lemma subscribed_early {cl} w p a b :
  reachable cl w -> downstream_of cl p = Some (a, b) -> (1 <= stage w p)%nat -> Subscribe b ∈ executed w p.
Proof.
  intros Hr Hd Hst.
  assert (Hex : exists i, i ∈ executed w p /\ phase_of i <> None).
  { unfold stage in Hst. destruct (omap phase_of (executed w p)) as [|k l] eqn:E; [simpl in Hst; lia|].
    assert (Hk : k ∈ omap phase_of (executed w p)) by (rewrite E; left).
    apply list_elem_of_omap in Hk as (i & Hi & Hk). exists i. by rewrite Hk. }
  destruct Hex as (i & Hi & Hk). eapply (done_before w p (Subscribe b) i Hr); [|done].
  unfold downstream_of in Hd. unfold program. destruct p as [n th]. simpl in *.
  destruct (cl !! n) as [pr|]; [|done]. destruct th as [|d|d|d]; try done.
  simpl. unfold prop_code, prop_sockets. destruct (has_downstream _); [|done]. simplify_eq. simpl.
  destruct i; try done; order.
Qed.

(** An address is bound by one receiver, once. *)
Lemma bind_tcp_fresh {cl} w t e rest :
  addresses_fit cl -> reachable cl w -> remaining w t = BindTcp e :: rest -> BindTcp e ∈ all_events cl w -> False.
Proof.
  intros Hwc Hr Hrem (n & _ & (th & Hex)%elem_of_events)%elem_of_all_events.
  pose proof (program_shape _ _ _ (next_program w t _ rest Hr Hrem)) as (a & b & k & Hu & He).
  pose proof (program_shape _ _ _ (executed_program _ _ _ Hr Hex)) as (a' & b' & k' & Hu' & He').
  assert (t = (n, th)) as -> by (eapply (upstream_unique Hwc); eauto).
  pose proof (addresses_differ Hwc _ _ _ _ Hu) as Hne.
  pose proof (program_split w (n, th) Hr) as Hs. rewrite Hrem in Hs.
  assert (Ht : (times (BindTcp e) (program cl (n, th)) <= 1)%nat).
  { clear - Hu Hne He. unfold upstream_of in Hu. unfold program. simpl in *. destruct (cl !! n) as [pr|]; [|done].
    destruct th as [|d|d|d]; try done. simpl. unfold recv_code, recv_sockets, recv_handshake.
    destruct (0 <? _); [|done]. simplify_eq. simpl. rewrite !times_cons, times_nil.
    repeat case_decide; try congruence; lia. }
  rewrite <- Hs, times_app, times_cons, decide_True in Ht by done. apply times_elem in Hex. lia.
Qed.

Section handshake.
Context {cl : cluster} (Hwc : addresses_fit cl).

Ltac stages :=
  match goal with
  | H : [_; _; _; _] !! ?s = Some _ |- _ => destruct s as [|[|[|[|?]]]] eqn:?; simpl in H; try discriminate H; clear H
  | H : [_; _; _] !! ?s = Some _ |- _ => destruct s as [|[|[|?]]] eqn:?; simpl in H; try discriminate H; clear H
  end.

Lemma net_send w p i rest a b k endp q :
  reachable cl w -> net_inv cl w -> remaining w p = i :: rest -> downstream_of cl p = Some (a, b) ->
  phase_of i = Some k -> k = PInit /\ q = [NetInit endp] \/ k = PAckAck /\ q = [NetInitAckAck endp] ->
  net_inv cl (set_inbox (advance w p) a (inbox w a ++ q)).
Proof.
  intros Hr Hi Hrem Hd Hk Hq.
  destruct (stage_next p i rest k Hrem Hk) as [Hst Hne].
  destruct (advance_fields w p i rest Hrem) as (_ & _ & _ & _ & Hin & Hsub & Hsq).
  pose proof (sender_stage Hr p i rest k a b Hrem Hk Hd) as Hs.
  eapply (net_sender Hi p a b); try done.
  - intros t. simpl. eapply (num_props_advance Hr); [done|].
    destruct Hq as [[-> _]|[-> _]]; by destruct i.
  - intros a' Ha. simpl. rewrite Hin. by rewrite fn_lookup_insert_ne.
  - simpl. rewrite fn_lookup_insert, inits_app. destruct Hq as [[-> ->]|[-> ->]]; stages; done.
  - simpl. rewrite fn_lookup_insert, ackacks_app. destruct Hq as [[-> ->]|[-> ->]]; stages; done.
  - simpl. rewrite fn_lookup_insert. apply Forall_app. split; [apply (ni_inbox _ _ Hi)|].
    destruct Hq as [[_ ->]|[_ ->]]; by apply Forall_singleton.
  - intros t _. simpl. by rewrite Hsq.
  - intros m. simpl. by rewrite Hsq.
  - intros H1. destruct Hq as [[-> _]|[-> _]]; stages; done.
  - intros _. simpl. by rewrite Hsq.
Qed.

Lemma net_recv w p i rest k m q :
  reachable cl w -> net_inv cl w -> remaining w p = i :: rest -> is_Some (downstream_of cl p) ->
  phase_of i = Some k -> subq w p = m :: q -> k = PAck /\ m = PropInitACK \/ k = PStart /\ m = PropStart ->
  net_inv cl (set_subq (advance w p) p q).
Proof.
  intros Hr Hi Hrem [[a b] Hd] Hk Hsq Hkm.
  destruct (stage_next p i rest k Hrem Hk) as [Hst Hne].
  destruct (advance_fields w p i rest Hrem) as (_ & _ & _ & _ & Hin & Hsub & Hq).
  pose proof (sender_stage Hr p i rest k a b Hrem Hk Hd) as Hs.
  eapply (net_sender Hi p a b); try done.
  - intros t. simpl. eapply (num_props_advance Hr); [done|].
    destruct Hkm as [[-> _]|[-> _]]; by destruct i.
  - intros a' _. simpl. by rewrite Hin.
  - simpl. rewrite Hin. destruct Hkm as [[-> ->]|[-> ->]]; stages; simpl; lia.
  - simpl. rewrite Hin. destruct Hkm as [[-> ->]|[-> ->]]; stages; simpl; lia.
  - simpl. rewrite Hin. apply (ni_inbox _ _ Hi).
  - intros t Ht. simpl. by rewrite fn_lookup_insert_ne, Hq by done.
  - intros m' Hm. simpl in Hm. rewrite fn_lookup_insert in Hm. rewrite Hsq. by right.
  - intros H1. rewrite Hsq. destruct Hkm as [[-> ->]|[-> ->]]; [left|]. stages; done.
  - intros H3. simpl. rewrite fn_lookup_insert, Hsq, elem_of_cons.
    destruct Hkm as [[-> ->]|[-> ->]]; [intros [?|?]; done|]. stages; done.
Qed.

(** A PropInitACK that comes after the first one is skipped. *)
Lemma net_skip w p m q :
  net_inv cl w -> subq w p = m :: q -> m <> PropStart -> (2 <= stage w p)%nat -> is_Some (downstream_of cl p) ->
  net_inv cl (set_subq w p q).
Proof.
  intros Hi Hsq Hm Hst Hd.
  assert (Hin : forall t m', m' ∈ subq (set_subq w p q) t -> m' ∈ subq w t).
  { intros t m'. simpl. destruct (decide (p = t)) as [<-|Hn]; [|by rewrite fn_lookup_insert_ne].
    rewrite fn_lookup_insert, Hsq. by right. }
  constructor; intros *; try apply Hi.
  - intros Hp Hu [Hor|Hor]; eapply (ni_ack _ _ Hi); eauto.
  - intros Hp Hu Hor. eapply (ni_start _ _ Hi); eauto.
  - intros Hp Hu Hor. destruct (ni_started _ _ Hi _ _ _ _ _ Hp Hu Hor) as [H4|H4]; [by left|right].
    simpl. destruct (decide (p = p0)) as [<-|Hn]; [|by rewrite fn_lookup_insert_ne].
    rewrite fn_lookup_insert. rewrite Hsq in H4. by apply elem_of_cons in H4 as [?|?].
  - intros Hp. simpl. destruct (decide (p = p0)) as [<-|Hn].
    + intros _. apply (ni_sub _ _ Hi); [done|by right].
    + rewrite fn_lookup_insert_ne by done. by apply (ni_sub _ _ Hi).
  - pose proof (ni_subq _ _ Hi p0) as Hf. rewrite Forall_forall in *. eauto.
Qed.

(** A turn of the loop of step 1, and of the do-while of step 3. *)
Lemma count_one_fields w r n b i rest :
  remaining w r = i :: rest ->
  inbox (count_one w r n b) = inbox w /\ subscribed (count_one w r n b) = subscribed w /\
  subq (count_one w r n b) = subq w /\
  (forall t, t <> r -> num_props (count_one w r n b) t = num_props w t).
Proof.
  intros Hrem. destruct (advance_fields w r i rest Hrem) as (_ & _ & Hn & _ & Hin & Hsub & Hq).
  unfold count_one. case_decide; simpl; rewrite ?Hin, ?Hsub, ?Hq, ?Hn; split_and!; try done;
    intros t Ht; by rewrite fn_lookup_insert_ne.
Qed.

Lemma count_one_stage w r n b i rest k :
  remaining w r = i :: rest -> phase_of i = Some k ->
  (forall t, t <> r -> stage (count_one w r n b) t = stage w t) /\
  (S (num_props w r) = n -> stage (count_one w r n b) r = S (stage w r) /\ num_props (count_one w r n b) r = O) /\
  (S (num_props w r) <> n -> stage (count_one w r n b) r = stage w r /\ num_props (count_one w r n b) r = S (num_props w r)).
Proof.
  intros Hrem Hk. destruct (stage_next r i rest k Hrem Hk) as [Hst Hne].
  destruct (advance_fields w r i rest Hrem) as (_ & _ & Hn & _).
  unfold count_one. case_decide; [rewrite Hn|simpl]; rewrite fn_lookup_insert; split_and!; try done.
Qed.

Lemma net_read w r i rest k a b n m q bl :
  reachable cl w -> net_inv cl w -> remaining w r = i :: rest -> upstream_of cl r = Some (a, b, n) ->
  phase_of i = Some k -> inbox w a = m :: q ->
  i = CollectInits a n \/ i = AckLoop a b n ->
  net_inv cl (set_inbox (count_one w r n bl) a q).
Proof.
  intros Hr Hi Hrem Hu Hk Hin Hik.
  destruct (count_one_fields w r n bl i rest Hrem) as (Hinb & Hsub & Hq & Hnum).
  destruct (count_one_stage w r n bl i rest k Hrem Hk) as (Hne & Hlast & Hmore).
  pose proof (receiver_stage Hr r i rest k _ Hrem Hk Hu) as Hs.
  pose proof (counters_hold w Hr r) as Hc.
  assert (Hlt : (num_props w r < n)%nat) by (rewrite Hrem in Hc; by destruct Hik as [-> | ->]). clear Hc.
  assert (Hm : (stage w r = 0%nat /\ is_init m = true /\ is_ackack m = false) \/
               (stage w r = 1%nat /\ is_init m = false /\ is_ackack m = true)).
  { destruct Hik as [-> | ->]; simpl in Hk; injection Hk as <-; [left|right].
    - assert (H0 : stage w r = 0%nat) by (stages; done). split; [done|]. by eapply (collect_head Hwc Hi).
    - assert (H0 : stage w r = 1%nat) by (stages; done). split; [done|]. eapply (loop_head Hwc Hi); [done| |done]. lia. }
  assert (Hstep : stage (count_one w r n bl) r = stage w r /\ num_props (count_one w r n bl) r = S (num_props w r) \/
    S (num_props w r) = n /\ stage (count_one w r n bl) r = S (stage w r) /\ num_props (count_one w r n bl) r = O).
  { destruct (decide (S (num_props w r) = n)) as [Hn|Hn]; [right|left]; auto. }
  eapply (net_receiver Hwc Hr Hi r a b n _ []); try done.
  - change (stage w r <= stage (count_one w r n bl) r)%nat. lia.
  - intros a' Ha. simpl. by rewrite fn_lookup_insert_ne, Hinb.
  - intros m'. simpl. rewrite fn_lookup_insert, Hin. by right.
  - unfold got_inits. simpl. rewrite fn_lookup_insert, Hin, inits_cons.
    change (stage (set_inbox (count_one w r n bl) a q) r) with (stage (count_one w r n bl) r).
    destruct Hm as [(Hs0 & -> & _)|(Hs0 & -> & _)], Hstep as [(-> & ->)|(Hn & -> & ->)]; rewrite ?Hs0; repeat case_decide; lia.
  - unfold got_acks. simpl. rewrite fn_lookup_insert, Hin, ackacks_cons.
    change (stage (set_inbox (count_one w r n bl) a q) r) with (stage (count_one w r n bl) r).
    destruct Hm as [(Hs0 & _ & ->)|(Hs0 & _ & ->)], Hstep as [(-> & ->)|(Hn & -> & ->)]; rewrite ?Hs0; repeat case_decide; lia.
  - intros p. simpl. rewrite Hq. destruct (_ && _); by rewrite app_nil_r.
  - intros m' Hm'. by apply elem_of_nil in Hm'.
  - intros H3. left. change (3 <= stage (count_one w r n bl) r)%nat in H3. lia.
Qed.

Lemma net_ack_send w r rest a b n :
  reachable cl w -> net_inv cl w -> remaining w r = AckLoop a b n :: rest -> upstream_of cl r = Some (a, b, n) ->
  net_inv cl (set_loop (publish w b PropInitACK) r (num_props w r) true).
Proof.
  intros Hr Hi Hrem Hu.
  pose proof (receiver_stage Hr r _ rest PAckLoop _ Hrem eq_refl Hu) as Hs. stages.
  assert (Hnum : forall t, num_props (set_loop (publish w b PropInitACK) r (num_props w r) true) t = num_props w t).
  { intros t. simpl. destruct (decide (r = t)) as [<-|?]; by rewrite ?fn_lookup_insert, ?fn_lookup_insert_ne. }
  eapply (net_receiver Hwc Hr Hi r a b n _ [PropInitACK]); try done.
  - unfold got_inits. by rewrite Hnum.
  - unfold got_acks. by rewrite Hnum.
  - intros p. simpl. destruct (_ && _); by rewrite ?app_nil_r.
  - intros m ->%list_elem_of_singleton. left. split; [done|]. change (1 <= stage w r)%nat. lia.
  - by left.
Qed.

Lemma net_publish w r rest a b n :
  reachable cl w -> net_inv cl w -> remaining w r = PublishStart b :: rest -> upstream_of cl r = Some (a, b, n) ->
  net_inv cl (publish (advance w r) b PropStart).
Proof.
  intros Hr Hi Hrem Hu.
  pose proof (receiver_stage Hr r _ rest PPublish _ Hrem eq_refl Hu) as Hs. stages.
  destruct (stage_next r _ rest PPublish Hrem eq_refl) as [Hst Hne].
  destruct (advance_fields w r _ rest Hrem) as (Hex & _ & Hn & _ & Hin & Hsub & Hq).
  pose proof (num_props_advance Hr r _ rest Hrem I) as Hnum.
  assert (Hst2 : stage (publish (advance w r) b PropStart) r = 3%nat) by (change (stage (advance w r) r = 3%nat); lia).
  eapply (net_receiver Hwc Hr Hi r a b n _ [PropStart]); try done.
  - rewrite Hst2. lia.
  - intros t _. apply Hnum.
  - intros a' _. simpl. by rewrite Hin.
  - simpl. by rewrite Hin.
  - unfold got_inits. rewrite Hst2. simpl. rewrite Hin. repeat case_decide; lia.
  - unfold got_acks. rewrite Hst2. simpl. rewrite Hin. repeat case_decide; lia.
  - intros p. simpl. rewrite Hsub, Hq. destruct (subscribed w p); simpl; [|by rewrite app_nil_r].
    rewrite (bool_decide_ext (Subscribe b ∈ executed (advance w r) p) (Subscribe b ∈ executed w p)).
    { case_bool_decide; by rewrite ?app_nil_r. }
    destruct (decide (p = r)) as [->|Hp].
    + split; intros Hx.
      * rewrite Hex, fn_lookup_insert in Hx. apply elem_of_app in Hx as [?|Hx]; [done|].
        by apply list_elem_of_singleton in Hx.
      * rewrite Hex, fn_lookup_insert. apply elem_of_app. by left.
    + by rewrite Hex, fn_lookup_insert_ne by done.
  - intros m ->%list_elem_of_singleton. right. split; [done|]. lia.
  - intros _. right. split; [left|]. intros p Hp.
    assert (H3 : (3 <= stage w p)%nat) by (eapply (loop_done Hwc Hi); [done| |done]; lia).
    split; [apply (ni_sub _ _ Hi); [by eexists|right; lia]|].
    eapply subscribed_early; [done|done|lia].
Qed.

Lemma net_step w w' : reachable cl w -> net_inv cl w -> step cl w w' -> net_inv cl w'.
Proof.
  intros Hr Hi [t w1 He|t e _ _ _].
  2: { apply (net_frame cl w); try done. intros t'. simpl. destruct (decide (t = t')) as [<-|?];
       by rewrite ?fn_lookup_insert, ?fn_lookup_insert_ne. }
  revert He. unfold exec. destruct (negb _); [done|]. destruct (remaining w t) as [|i rest] eqn:Hrem; [done|].
  pose proof (program_shape cl t i (next_program w t i rest Hr Hrem)) as Hsh.
  pose proof (net_plain Hr Hi t i rest Hrem) as Hplain.
  destruct i; intros He; try (repeat case_match; simplify_eq; by apply Hplain).
  - (* SendPropInit *) simplify_eq. destruct Hsh as [b Hd]. eapply net_send; eauto.
  - (* RecvInitAck *) destruct (subq w t) as [|m q] eqn:Hq; [done|]. case_decide; [|done]. simplify_eq.
    eapply net_recv; eauto.
  - (* SendInitAckAck *) simplify_eq. destruct Hsh as [b Hd]. eapply net_send; eauto.
  - (* RecvPropStart *) destruct (subq w t) as [|m q] eqn:Hq; [done|]. case_decide as Hm; simplify_eq.
    + eapply net_recv; eauto.
    + destruct Hsh as [[a b] Hd]. eapply net_skip; [done|done|done| |by eexists].
      pose proof (sender_stage Hr t _ rest PStart a b Hrem eq_refl Hd). stages. lia.
  - (* CollectInits *) destruct Hsh as [b Hu]. destruct (inbox w endp) as [|m q] eqn:Hin; [done|].
    destruct (init_sized m); [|done]. simplify_eq. eapply net_read; eauto.
  - (* AckLoop *) destruct (reading w t).
    + destruct (inbox w pull) as [|[] q] eqn:Hin; simplify_eq.
      * apply (net_frame cl w); try done. intros t'. simpl.
        destruct (decide (t = t')) as [<-|?]; by rewrite ?fn_lookup_insert, ?fn_lookup_insert_ne.
      * eapply net_read; eauto.
    + simplify_eq. eapply net_ack_send; eauto.
  - (* PublishStart *) simplify_eq. destruct Hsh as (a & n & Hu). eapply net_publish; eauto.
Qed.

Lemma net_holds w : reachable cl w -> net_inv cl w.
Proof.
  induction 1 as [|w w' Hr IH Hs]; [|by eapply net_step].
  assert (H0 : forall a k, past cl (initial cl) a (S k) = O).
  { intros a k. unfold past. induction (feeders cl a) as [|p l IH]; [done|]. rewrite filter_cons.
    case_decide as Hk; [unfold stage in Hk; simpl in Hk; lia|done]. }
  constructor; simpl; intros.
  - by rewrite H0.
  - by rewrite H0.
  - apply Forall_nil; done.
  - destruct H2 as [H2|H2]; [by apply elem_of_nil in H2|unfold stage in H2; simpl in H2; lia].
  - by apply elem_of_nil in H2.
  - unfold stage in H2; simpl in H2; lia.
  - destruct H1 as [H1|H1]; [done|unfold stage in H1; simpl in H1; lia].
  - apply Forall_nil; done.
Qed.

(** No call fails: every thread that has a next instruction goes on or waits. *)
Lemma never_fails w t : reachable cl w -> exec cl w t <> Fails.
Proof.
  intros Hr. pose proof (net_holds w Hr) as Hi. unfold exec. destruct (negb _) eqn:Hl; [done|].
  apply negb_false_iff in Hl. destruct (remaining w t) as [|i rest] eqn:Hrem; [done|].
  pose proof (program_shape cl t i (next_program w t i rest Hr Hrem)) as Hsh.
  pose proof (local_call_goes cl w t i rest (af_tids _ Hwc) Hr Hrem Hl) as Hloc.
  unfold exec in Hloc. rewrite Hl, Hrem in Hloc.
  destruct i; try (specialize (Hloc eq_refl); cbn [negb] in Hloc; rewrite Hloc; done); try done;
    try (by destruct (_ <? _)%nat).
  - (* BindTcp *) case_decide as Hb; [|done]. exfalso. by eapply bind_tcp_fresh.
  - (* RecvInitAck *) destruct (subq w t) as [|m q] eqn:Hq; [done|]. case_decide as Hm; [done|]. destruct Hm.
    destruct Hsh as [[a b] Hd]. pose proof (sender_stage Hr t _ rest PAck a b Hrem eq_refl Hd). stages.
    apply (ack_head Hwc Hi t m q); [by eexists|done|done].
  - (* RecvPropStart *) by destruct (subq w t).
  - (* CollectInits *) destruct (inbox w endp) as [|m q] eqn:Hin; [done|]. destruct Hsh as [b Hu].
    pose proof (receiver_stage Hr t _ rest PCollect _ Hrem eq_refl Hu). stages.
    destruct (collect_head Hwc Hi _ _ _ _ _ _ Hu ltac:(done) Hin) as [Hm _]. by destruct m.
  - (* AckLoop *) destruct (reading w t); [|done].
    destruct (inbox w pull) as [|m q] eqn:Hin; [done|].
    pose proof (receiver_stage Hr t _ rest PAckLoop _ Hrem eq_refl Hsh). stages.
    destruct (loop_head Hwc Hi _ _ _ _ _ _ Hsh ltac:(lia) Hin) as [_ Hm]. by destruct m.
Qed.
End handshake.
