(* ===== verification/StartupProgress.v ===== *)
(** A cluster whose configurations fit together completes its start-up: from every
    world it can reach, some continuation brings every thread to the end of its
    program. The receivers' repeated acknowledgements are the only turns that change
    nothing; everything else uses up a weight. *)
From S2P Require Import Prelude Common Protocol Propagator InternalTable Receiver QuiltDB Node Startup StartupSafety StartupLive.
From stdpp Require Import functions pretty strings relations.
#[global] Open Scope Z_scope.

(** ** The weight *)

Section weight.
Context (cl : cluster).

Definition expected (t : tid) : nat := match upstream_of cl t with Some (_, _, n) => n | None => O end.
Definition thread_weight (w : world) (t : tid) : nat :=
  (length (remaining w t) * S (expected t) + (expected t - num_props w t) + if subscribed w t then 0 else 1)%nat.
Definition weight (w : world) : nat := sum_list_with (thread_weight w) (tids cl).

Lemma sum_le {A} (f g : A -> nat) l : (forall y, f y <= g y)%nat -> (sum_list_with f l <= sum_list_with g l)%nat.
Proof. intros H. induction l as [|y l IH]; simpl; [lia|]. specialize (H y). lia. Qed.

Lemma sum_lt {A} (f g : A -> nat) l x :
  x ∈ l -> (f x < g x)%nat -> (forall y, f y <= g y)%nat -> (sum_list_with f l < sum_list_with g l)%nat.
Proof.
  intros Hx Hlt Hle. induction l as [|y l IH]; [by apply elem_of_nil in Hx|]. simpl.
  pose proof (sum_le f g l Hle). specialize (Hle y). apply elem_of_cons in Hx as [->|Hx]; [lia|].
  specialize (IH Hx). lia.
Qed.

Lemma weight_lt w w' t :
  t ∈ tids cl -> (thread_weight w' t < thread_weight w t)%nat -> (forall t', t' <> t -> thread_weight w' t' = thread_weight w t') ->
  (weight w' < weight w)%nat.
Proof.
  intros Ht Hlt Hne. eapply sum_lt; [done|done|]. intros y.
  destruct (decide (y = t)) as [->|Hn]; [lia|]. rewrite Hne by done. lia.
Qed.

Lemma running_tid w t i rest : reachable cl w -> remaining w t = i :: rest -> t ∈ tids cl.
Proof.
  intros Hr Hrem. pose proof (next_program _ _ _ _ Hr Hrem) as Hi. unfold program in Hi.
  destruct t as [n th]. simpl in Hi. destruct (cl !! n) eqn:E; [|by apply elem_of_nil in Hi].
  apply elem_of_tids. by eapply lookup_lt_Some.
Qed.

(** The parts of a world the weight looks at. *)
Lemma weight_same w w' :
  (forall t, remaining w' t = remaining w t) -> (forall t, num_props w' t = num_props w t) ->
  subscribed w' = subscribed w -> weight w' = weight w.
Proof.
  intros Hrem Hnum Hsub. unfold weight. induction (tids cl) as [|t l IH]; [done|]. simpl. rewrite IH.
  unfold thread_weight. by rewrite Hrem, Hnum, Hsub.
Qed.

Lemma weight_advance w w' t i rest :
  reachable cl w -> remaining w t = i :: rest -> remaining w' = remaining (advance w t) ->
  num_props w' = num_props (advance w t) -> subscribed w' = subscribed w -> (weight w' < weight w)%nat.
Proof.
  intros Hr Hrem H1 H2 H3. destruct (advance_fields w t i rest Hrem) as (_ & Hadv & Hnum & _).
  apply (weight_lt _ _ t); [by eapply running_tid| |].
  - unfold thread_weight. rewrite H1, H2, H3, Hadv, Hnum, !fn_lookup_insert, Hrem. simpl. lia.
  - intros t' Hn. unfold thread_weight. by rewrite H1, H2, H3, Hadv, Hnum, !fn_lookup_insert_ne by done.
Qed.

Lemma weight_count w w' t i rest n b :
  reachable cl w -> remaining w t = i :: rest -> expected t = n -> (num_props w t < n)%nat ->
  remaining w' = remaining (count_one w t n b) -> num_props w' = num_props (count_one w t n b) ->
  subscribed w' = subscribed w -> (weight w' < weight w)%nat.
Proof.
  intros Hr Hrem He Hlt. unfold count_one. case_decide; intros H1 H2 H3; [by eapply weight_advance|].
  apply (weight_lt _ _ t); [by eapply running_tid| |].
  - unfold thread_weight. rewrite H1, H2, H3. simpl. rewrite fn_lookup_insert. lia.
  - intros t' Hn. unfold thread_weight. rewrite H1, H2, H3. simpl. by rewrite fn_lookup_insert_ne.
Qed.

Lemma weight_subscribe w t : t ∈ tids cl -> subscribed w t = false -> (weight (set_subscribed w t) < weight w)%nat.
Proof.
  intros Ht Hs. apply (weight_lt _ _ t); [done| |].
  - unfold thread_weight. simpl. rewrite fn_lookup_insert, Hs. lia.
  - intros t' Hn. unfold thread_weight. simpl. by rewrite fn_lookup_insert_ne.
Qed.

(** ** Worlds in which no single instruction makes progress *)

Definition improves (w : world) (t : tid) : Prop :=
  match exec cl w t with Goes w' => (weight w' < weight w)%nat | _ => False end.
#[export] Instance improves_dec w t : Decision (improves w t).
Proof. unfold improves. destruct (exec cl w t); apply _. Defined.
Definition stuck (w : world) : Prop := Forall (fun t => ~ improves w t) (tids cl).

(** What the next instruction of a running thread waits for there. *)
Definition waiting (w : world) (t : tid) (i : instr) : Prop :=
  match i with
  | Wait s => (times (Post s) (events w t.1) <= times (Wait s) (events w t.1))%nat
  | RecvEPRInit e => (times (SendEPRInit e) (events w t.1) <= times (RecvEPRInit e) (events w t.1))%nat
  | RecvInitAck => subq w t = []
  | RecvPropStart => True
  | CollectInits a _ => inbox w a = []
  | AckLoop a _ _ => reading w t = false \/ inbox w a = []
  | _ => False
  end.
End weight.

Section progress.
Context {cl : cluster} (Hwell : well_configured cl) {w : world} (Hr : reachable cl w) (Hstuck : stuck cl w).
Local Notation Hwc := (wc_fit _ Hwell).

Lemma expected_all r a b n : upstream_of cl r = Some (a, b, n) -> n = length (feeders cl a).
Proof. intros Hu. by apply (proj1 (Forall_forall _ _) (wc_expected _ Hwell) _ (upstream_receivers _ _ _ Hu)). Qed.

Lemma stuck_waiting t i rest : remaining w t = i :: rest -> live w t = true -> waiting w t i.
Proof.
  intros Hrem Hl. pose proof (never_fails Hwc w t Hr) as Hnf.
  pose proof (proj1 (Forall_forall _ _) Hstuck t (running_tid cl w t i rest Hr Hrem)) as Hno.
  pose proof (program_shape cl t i (next_program w t i rest Hr Hrem)) as Hsh.
  pose proof (counters_hold w Hr t) as Hc. rewrite Hrem in Hc.
  unfold improves in Hno. unfold exec in *. rewrite Hl, Hrem in *. cbn [negb] in *.
  assert (Hadv : forall w', remaining w' = remaining (advance w t) -> num_props w' = num_props (advance w t) ->
    subscribed w' = subscribed w -> ~ (weight cl w' < weight cl w)%nat -> False).
  { intros w' H1 H2 H3 H4. apply H4. by eapply weight_advance. }
  assert (Hsub : subscribed (advance w t) = subscribed w) by (by destruct (advance_fields w t i rest Hrem) as (_ & _ & _ & _ & _ & ? & _)).
  destruct i; simpl; try exact I; try (exfalso; eapply Hadv; [..|exact Hno]; done);
    try (case_decide; [|done]; exfalso; eapply Hadv; [..|exact Hno]; done);
    try (case_decide; [done|]; exfalso; eapply Hadv; [..|exact Hno]; done);
    try (destruct (_ <? _)%nat eqn:Hlt; [exfalso; eapply Hadv; [..|exact Hno]; done|apply Nat.ltb_ge in Hlt; lia]).
  - destruct (subq w t) as [|m q]; [done|]. case_decide; [|done]. exfalso; eapply Hadv; [..|exact Hno]; done.
  - destruct Hsh as [b Hu]. destruct (inbox w endp) as [|m q]; [done|]. destruct (init_sized m); [|done].
    exfalso. apply Hno. eapply (weight_count cl w _ t _ rest n false); try done.
    + unfold expected. by rewrite Hu.
    + simpl. unfold count_one. case_decide; [done|done].
  - destruct (reading w t); [|by left]. destruct (inbox w pull) as [|[] q]; try done; [by right|].
    exfalso. apply Hno. eapply (weight_count cl w _ t _ rest n true); try done.
    + unfold expected. by rewrite Hsh.
    + simpl. unfold count_one. case_decide; [done|done].
Qed.

(** A part of a program without waits is behind a running thread. *)
Definition may_wait (i : instr) : bool :=
  match i with
  | Wait _ | RecvEPRInit _ | RecvInitAck | RecvPropStart | CollectInits _ _ | AckLoop _ _ _ => true
  | _ => false
  end.

Lemma waiting_may_wait t i : waiting w t i -> may_wait i = true.
Proof. by destruct i. Qed.

Lemma stuck_past t l1 l2 :
  live w t = true -> program cl t = l1 ++ l2 -> (forall i, i ∈ l1 -> may_wait i = false) -> l1 `prefix_of` executed w t.
Proof.
  intros Hl Hp Hno. pose proof (program_split w t Hr) as Hs. rewrite Hp in Hs.
  destruct (remaining w t) as [|i rest] eqn:Hrem.
  - rewrite app_nil_r in Hs. rewrite Hs. by apply prefix_app_r.
  - eapply prefix_until; [|exact Hs]. intros Hi. specialize (Hno i Hi).
    rewrite (waiting_may_wait t i) in Hno; [done|]. by eapply stuck_waiting.
Qed.

(** [Propagator::Start] returns: the thread has posted. *)
Lemma prop_posts n pr d :
  cl !! n = Some pr -> live w (n, Prop_thr d) = true -> prop_sockets pr d `prefix_of` executed w (n, Prop_thr d).
Proof.
  intros Hn Hl. apply (stuck_past _ _ (prop_handshake pr d ++ prop_loop_sockets pr d) Hl).
  - unfold program. simpl. by rewrite Hn.
  - unfold prop_sockets. intros i. destruct (has_downstream _); set_solver.
Qed.

Lemma wait_internal_once pr d th : (times (Wait (InternalSem d)) (code_of pr th) <= match th with Main => 1 | _ => 0 end)%nat.
Proof.
  destruct th as [|d'|d'|d']; [destruct d; vm_compute; lia|..]; rewrite times_none; try lia; intros Hi%wait_code; done.
Qed.

Lemma events_own_only n pr i th :
  cl !! n = Some pr -> (forall th', th' <> th -> i ∉ code_of pr th') -> times i (events w n) = times i (executed w (n, th)).
Proof.
  intros Hn Hno. assert (H0 : forall th', th' <> th -> times i (executed w (n, th')) = O).
  { intros th' Hne. apply times_none. intros Hi. apply (Hno th' Hne).
    rewrite <- (program_here Hn). by eapply executed_program. }
  rewrite times_events. unfold threads. simpl.
  pose proof (H0 Main). pose proof (H0 (Prop_thr HPropagator)). pose proof (H0 (Recv_thr HPropagator)).
  pose proof (H0 (Timer_thr HPropagator)). pose proof (H0 (Prop_thr VPropagator)).
  pose proof (H0 (Recv_thr VPropagator)). pose proof (H0 (Timer_thr VPropagator)). clear H0.
  destruct th as [|[]|[]|[]]; repeat match goal with H : _ <> _ -> _ |- _ => specialize (H ltac:(done)) end; lia.
Qed.

(** The instruction a thread is at was not done. *)
Lemma next_once t i rest m :
  remaining w t = i :: rest -> (times i (program cl t) <= S m)%nat -> (times i (executed w t) <= m)%nat.
Proof.
  intros Hrem Ht. pose proof (program_split w t Hr) as Hs. rewrite <- Hs, Hrem, times_app, times_cons, decide_True in Ht by done.
  lia.
Qed.

Lemma main_not_internal n pr d rest : cl !! n = Some pr -> remaining w (n, Main) <> Wait (InternalSem d) :: rest.
Proof.
  intros Hn Hrem. pose proof (stuck_waiting _ _ _ Hrem eq_refl) as Hw. simpl in Hw.
  assert (Hs : Spawn (Prop_thr d) ∈ executed w (n, Main)).
  { apply (next_before w (n, Main) _ (Wait (InternalSem d)) rest Hr); [|done|done]. rewrite (program_here Hn). apply spawned_before_wait. }
  assert (Hl : live w (n, Prop_thr d) = true).
  { unfold live. simpl. apply bool_decide_eq_true. by eapply executed_events. }
  assert (Hp : Post (InternalSem d) ∈ events w n).
  { apply (executed_events _ (Prop_thr d)). eapply elem_of_prefix'; [by eapply prop_posts|].
    unfold prop_sockets. set_solver. }
  apply times_elem in Hp. rewrite (events_own_only n pr (Wait (InternalSem d)) Main Hn) in Hw.
  - assert (times (Wait (InternalSem d)) (executed w (n, Main)) <= 0)%nat; [|lia].
    eapply next_once; [done|]. rewrite (program_here Hn). apply (wait_internal_once pr d Main).
  - intros th Hne Hi%wait_code. done.
Qed.

(** So every thread [QuiltDB::Start] creates has been created. *)
Definition spawns : list instr :=
  [Spawn (Prop_thr HPropagator); Wait (InternalSem HPropagator); Spawn (Recv_thr HPropagator);
   Spawn (Prop_thr VPropagator); Wait (InternalSem VPropagator); Spawn (Recv_thr VPropagator)].

Lemma main_spawned n pr : cl !! n = Some pr -> spawns `prefix_of` executed w (n, Main).
Proof.
  intros Hn. pose proof (program_split w (n, Main) Hr) as Hs. rewrite (program_here Hn) in Hs.
  change (code_of pr Main) with (spawns ++ [Wait SyncSem; Wait SyncSem; Wait SyncSem; Wait SyncSem] ++
    drop 10 (code_of pr Main)) in Hs.
  destruct (remaining w (n, Main)) as [|i rest] eqn:Hrem.
  - rewrite app_nil_r in Hs. rewrite Hs. by apply prefix_app_r.
  - eapply prefix_until; [|exact Hs]. intros Hi.
    pose proof (stuck_waiting _ _ _ Hrem eq_refl) as Hw%waiting_may_wait.
    unfold spawns in Hi. rewrite !elem_of_cons, elem_of_nil in Hi. destruct_or? Hi; subst; try done;
      by eapply main_not_internal.
Qed.

Lemma all_live n pr th : cl !! n = Some pr -> match th with Prop_thr _ | Recv_thr _ => live w (n, th) = true | _ => True end.
Proof.
  intros Hn. pose proof (main_spawned n pr Hn) as Hp.
  assert (Hs : forall th, Spawn th ∈ spawns -> bool_decide (Spawn th ∈ events w n) = true).
  { intros th' Hi. apply bool_decide_eq_true. eapply executed_events, elem_of_prefix'; done. }
  unfold spawns in Hs. destruct th as [|[]|[]|[]]; try done; unfold live; simpl; apply Hs; set_solver.
Qed.

Lemma recv_sends n pr d :
  cl !! n = Some pr ->
  recv_sockets pr d ++ [SendEPRInit (rc_internal_pair_recv_push_endp_ (recv_config (database pr) d))] `prefix_of` executed w (n, Recv_thr d).
Proof.
  intros Hn. eapply (stuck_past _ _ _ (all_live n pr (Recv_thr d) Hn)).
  - unfold program. simpl. rewrite Hn. simpl. unfold recv_code, recv_handshake. rewrite <- !app_assoc. reflexivity.
  - unfold recv_sockets. intros i. destruct (0 <? _); set_solver.
Qed.

Lemma eprinit_once pr d th :
  (times (RecvEPRInit (pc_internal_pair_r2p_endp_ (prop_config (database pr) d))) (code_of pr th) <=
   if decide (th = Prop_thr d) then 1 else 0)%nat.
Proof.
  destruct th as [|[]|[]|[]], d; simpl; unfold_code;
    repeat match goal with |- context [if has_downstream ?b then _ else _] => destruct (has_downstream b)
      | |- context [if ?a <? ?b then _ else _] => destruct (a <? b) end; vm_compute; lia.
Qed.

(** No propagator waits for its paired receiver. *)
Lemma prop_not_internal n pr d e rest : cl !! n = Some pr -> remaining w (n, Prop_thr d) <> RecvEPRInit e :: rest.
Proof.
  intros Hn Hrem. pose proof (stuck_waiting _ _ _ Hrem (all_live n pr (Prop_thr d) Hn)) as Hw. simpl in Hw.
  pose proof (next_program w _ _ _ Hr Hrem) as Hi. rewrite (program_here Hn) in Hi. simpl in Hi.
  assert (e = pc_internal_pair_r2p_endp_ (prop_config (database pr) d)) as -> by (in_code Hi; done).
  assert (Hs : SendEPRInit (pc_internal_pair_r2p_endp_ (prop_config (database pr) d)) ∈ events w n).
  { rewrite <- wired_pair. eapply (executed_events _ (Recv_thr d)), elem_of_prefix'; [by apply recv_sends|].
    apply elem_of_app. right. left. }
  apply times_elem in Hs.
  rewrite (events_own_only n pr (RecvEPRInit (pc_internal_pair_r2p_endp_ (prop_config (database pr) d))) (Prop_thr d) Hn) in Hw.
  - assert (times (RecvEPRInit (pc_internal_pair_r2p_endp_ (prop_config (database pr) d))) (executed w (n, Prop_thr d)) <= 0)%nat; [|lia].
    eapply next_once; [done|]. rewrite (program_here Hn).
    pose proof (eprinit_once pr d (Prop_thr d)) as Ho. by rewrite decide_True in Ho.
  - intros th Hne Hin. pose proof (eprinit_once pr d th) as Ho. rewrite decide_False in Ho by done.
    apply times_elem in Hin. lia.
Qed.

(** ** The external handshake *)

Lemma downstream_prop p d : downstream_of cl p = Some d -> exists n pr dir, p = (n, Prop_thr dir) /\ cl !! n = Some pr.
Proof.
  unfold downstream_of. destruct p as [n th]. simpl. destruct (cl !! n) as [pr|] eqn:E, th; try done. eauto.
Qed.
Lemma upstream_recv r u : upstream_of cl r = Some u -> exists n pr dir, r = (n, Recv_thr dir) /\ cl !! n = Some pr.
Proof.
  unfold upstream_of. destruct r as [n th]. simpl. destruct (cl !! n) as [pr|] eqn:E, th; try done. eauto.
Qed.

Lemma ended_stage t : remaining w t = [] -> stage w t = length (phases cl t).
Proof. intros Hrem. rewrite <- (phases_split w t Hr), Hrem. simpl. by rewrite app_nil_r. Qed.

(** A propagator is at one of its two receives from downstream, or at its end. *)
Lemma prop_cases n pr d :
  cl !! n = Some pr -> remaining w (n, Prop_thr d) = [] \/
  exists i rest, remaining w (n, Prop_thr d) = i :: rest /\ (i = RecvInitAck /\ subq w (n, Prop_thr d) = [] \/ i = RecvPropStart).
Proof.
  intros Hn. destruct (remaining w (n, Prop_thr d)) as [|i rest] eqn:Hrem; [by left|right].
  exists i, rest. split; [done|].
  pose proof (stuck_waiting _ _ _ Hrem (all_live n pr (Prop_thr d) Hn)) as Hw.
  pose proof (next_program w _ _ _ Hr Hrem) as Hi. rewrite (program_here Hn) in Hi. simpl in Hi.
  destruct i; try done; try (exfalso; in_code Hi; done); auto.
  exfalso. by eapply prop_not_internal.
Qed.

Lemma sender_cases p a b :
  downstream_of cl p = Some (a, b) ->
  (exists rest, remaining w p = RecvInitAck :: rest) /\ stage w p = 1%nat /\ subq w p = [] \/
  (exists rest, remaining w p = RecvPropStart :: rest) /\ stage w p = 3%nat \/
  remaining w p = [] /\ stage w p = 4%nat.
Proof.
  intros Hd. destruct (downstream_prop p _ Hd) as (n & pr & d & -> & Hn).
  destruct (prop_cases n pr d Hn) as [Hrem|(i & rest & Hrem & Hi)].
  - right. right. split; [done|]. rewrite ended_stage by done. by erewrite sender_phases.
  - destruct Hi as [[-> Hq]| ->].
    + left. pose proof (sender_stage Hr _ _ rest PAck a b Hrem eq_refl Hd) as Hs.
      destruct (stage w (n, Prop_thr d)) as [|[|[|[|?]]]]; simpl in Hs; try discriminate. eauto.
    + right. left. pose proof (sender_stage Hr _ _ rest PStart a b Hrem eq_refl Hd) as Hs.
      destruct (stage w (n, Prop_thr d)) as [|[|[|[|?]]]]; simpl in Hs; try discriminate. eauto.
Qed.

(** A receiver is at the loop of step 3 or at its end. *)
Lemma recv_cases n pr d :
  cl !! n = Some pr -> remaining w (n, Recv_thr d) = [] \/
  exists a b k rest, remaining w (n, Recv_thr d) = AckLoop a b k :: rest /\ (reading w (n, Recv_thr d) = false \/ inbox w a = []).
Proof.
  intros Hn. destruct (remaining w (n, Recv_thr d)) as [|i rest] eqn:Hrem; [by left|right].
  pose proof (stuck_waiting _ _ _ Hrem (all_live n pr (Recv_thr d) Hn)) as Hw.
  pose proof (next_program w _ _ _ Hr Hrem) as Hi.
  pose proof (program_shape cl _ _ Hi) as Hsh. rewrite (program_here Hn) in Hi. simpl in Hi.
  destruct i; try done; try (exfalso; in_code Hi; done); [|by eauto 10].
  exfalso. simpl in Hw. destruct Hsh as [b Hu].
  pose proof (net_holds Hwc w Hr) as Hinv. pose proof (ni_inits _ _ Hinv _ _ _ _ Hu) as Hc.
  pose proof (receiver_stage Hr _ _ rest PCollect _ Hrem eq_refl Hu) as Hs.
  pose proof (counters_hold w Hr (n, Recv_thr d)) as Hcnt. rewrite Hrem in Hcnt.
  destruct (stage w (n, Recv_thr d)) as [|[|[|?]]] eqn:Hst; simpl in Hs; try discriminate.
  unfold got_inits in Hc. rewrite Hst, Hw, decide_False in Hc by lia. change (inits []) with O in Hc.
  pose proof (expected_all _ _ _ _ Hu) as He.
  destruct (past_missing cl w endp 1) as (p & [b' Hp]%elem_of_feeders & Hlt); [lia|].
  destruct (sender_cases p endp b' Hp) as [(_ & ? & _)|[(_ & ?)|(_ & ?)]]; lia.
Qed.

(** With no receiver in its loop and no propagator before PropStart, all is done. *)
Definition at_loop (t : tid) : bool := match remaining w t with AckLoop _ _ _ :: _ => true | _ => false end.
Definition at_start (t : tid) : bool := match remaining w t with RecvPropStart :: _ => true | _ => false end.

Lemma recv_ended n pr d : cl !! n = Some pr -> at_loop (n, Recv_thr d) = false -> remaining w (n, Recv_thr d) = [].
Proof.
  intros Hn Ha. destruct (recv_cases n pr d Hn) as [?|(a & b & k & rest & Hrem & _)]; [done|].
  unfold at_loop in Ha. by rewrite Hrem in Ha.
Qed.

Lemma sender_ended p a b :
  (forall t, at_loop t = false) -> (forall t, at_start t = false) -> downstream_of cl p = Some (a, b) -> remaining w p = [].
Proof.
  intros Ha Hs Hd. destruct (sender_cases p a b Hd) as [(_ & Hst & _)|[([rest Hrem] & _)|(? & _)]]; [| |done].
  - destruct (downstream_receiver Hwc _ _ _ Hd) as (r & k & Hu). destruct (upstream_recv r _ Hu) as (n & pr & d & -> & Hn).
    pose proof (recv_ended n pr d Hn (Ha _)) as He. apply ended_stage in He.
    erewrite receiver_phases in He by done. simpl in He.
    pose proof (loop_done Hwc (net_holds Hwc w Hr) _ _ _ _ _ Hu ltac:(lia) Hd). lia.
  - specialize (Hs p). unfold at_start in Hs. by rewrite Hrem in Hs.
Qed.

Lemma prop_ended n pr d :
  (forall t, at_loop t = false) -> (forall t, at_start t = false) -> cl !! n = Some pr -> remaining w (n, Prop_thr d) = [].
Proof.
  intros Ha Hs Hn. destruct (prop_cases n pr d Hn) as [?|(i & rest & Hrem & Hi)]; [done|].
  assert (Hd : is_Some (downstream_of cl (n, Prop_thr d))).
  { pose proof (program_shape _ _ _ (next_program w _ _ _ Hr Hrem)) as Hsh. by destruct Hi as [[-> _]| ->]. }
  destruct Hd as [[a b] Hd]. by eapply sender_ended.
Qed.

Lemma post_sync_done n pr th :
  cl !! n = Some pr -> remaining w (n, th) = [] -> match th with Prop_thr _ | Recv_thr _ => (1 <= times (Post SyncSem) (executed w (n, th)))%nat | _ => True end.
Proof.
  intros Hn Hrem. pose proof (program_split w (n, th) Hr) as Hs. rewrite Hrem, app_nil_r, (program_here Hn) in Hs.
  rewrite Hs. destruct th as [|d|d|d]; try done; simpl; unfold prop_code, prop_loop_sockets, recv_code;
    rewrite !times_app; change (times (Post SyncSem) [SetRun; Post SyncSem]) with 1%nat; lia.
Qed.

Lemma wait_sync_code : times (Wait SyncSem) QuiltDB_Start = 4%nat.
Proof. reflexivity. Qed.

Lemma main_ended n pr :
  (forall t, at_loop t = false) -> (forall t, at_start t = false) -> cl !! n = Some pr -> remaining w (n, Main) = [].
Proof.
  intros Ha Hs Hn. destruct (remaining w (n, Main)) as [|i rest] eqn:Hrem; [done|exfalso].
  pose proof (stuck_waiting _ _ _ Hrem eq_refl) as Hw.
  pose proof (next_program w _ _ _ Hr Hrem) as Hi. rewrite (program_here Hn) in Hi. simpl in Hi.
  assert (Hsync : i = Wait SyncSem \/ exists d, i = Wait (InternalSem d)).
  { in_code Hi; try done; eauto. }
  destruct Hsync as [->|[d ->]]; [|by eapply main_not_internal]. simpl in Hw.
  rewrite (events_own_only n pr (Wait SyncSem) Main Hn) in Hw by (intros th Hne Hin%wait_code; done).
  assert (Hlt : (times (Wait SyncSem) (executed w (n, Main)) <= 3)%nat).
  { eapply next_once; [done|]. rewrite (program_here Hn). unfold code_of, main_code. rewrite times_app, wait_sync_code. vm_compute. lia. }
  rewrite times_events in Hw. unfold threads in Hw. simpl in Hw.
  pose proof (fun th => post_sync_done n pr th Hn) as Hp.
  pose proof (Hp _ (prop_ended n pr HPropagator Ha Hs Hn)). pose proof (Hp _ (prop_ended n pr VPropagator Ha Hs Hn)).
  pose proof (Hp _ (recv_ended n pr HPropagator Hn (Ha _))). pose proof (Hp _ (recv_ended n pr VPropagator Hn (Ha _))).
  simpl in *. lia.
Qed.

Lemma all_ended t :
  (forall t, at_loop t = false) -> (forall t, at_start t = false) -> live w t = true -> remaining w t = [].
Proof.
  intros Ha Hs Hl. destruct t as [n th]. destruct (cl !! n) as [pr|] eqn:Hn.
  - destruct th as [|d|d|d]; [by eapply main_ended|by eapply prop_ended|by eapply recv_ended|].
    pose proof (stuck_past (n, Timer_thr d) (timer_code pr d) [] Hl) as Hp.
    pose proof (program_split w (n, Timer_thr d) Hr) as Hsp. rewrite (program_here Hn) in *. simpl in *.
    destruct Hp as [k Hk]; [done|unfold timer_code; set_solver|].
    apply (f_equal length) in Hsp. rewrite length_app, Hk, length_app in Hsp.
    destruct (remaining w (n, Timer_thr d)); [done|simpl in Hsp; lia].
  - pose proof (program_split w (n, th) Hr) as Hsp. unfold program in Hsp. simpl in Hsp. rewrite Hn in Hsp.
    by apply app_eq_nil in Hsp as [_ ?].
Qed.
End progress.

(** ** Progress *)

Section complete.
Context {cl : cluster} (Hwell : well_configured cl).
Local Notation Hwc := (wc_fit _ Hwell).

(** The same world up to a receiver's position in its loop. *)
Lemma exec_send w r a b n rest :
  remaining w r = AckLoop a b n :: rest -> live w r = true -> reading w r = false ->
  exec cl w r = Goes (set_loop (publish w b PropInitACK) r (num_props w r) true).
Proof. intros Hrem Hl Hread. unfold exec. by rewrite Hl, Hrem, Hread. Qed.

Lemma exec_miss w r a b n rest :
  remaining w r = AckLoop a b n :: rest -> live w r = true -> reading w r = true -> inbox w a = [] ->
  exec cl w r = Goes (set_loop w r (num_props w r) false).
Proof. intros Hrem Hl Hread Hin. unfold exec. by rewrite Hl, Hrem, Hread, Hin. Qed.

Lemma loop_num w r (k : nat) b t : k = num_props w r -> num_props (set_loop w r k b) t = num_props w t.
Proof. intros ->. simpl. destruct (decide (r = t)) as [<-|?]; by rewrite ?fn_lookup_insert, ?fn_lookup_insert_ne. Qed.

Definition smaller (w : world) : Prop := exists w', rtc (step cl) w w' /\ (weight cl w' < weight cl w)%nat.

(** A reply has arrived: the receiver reads it in its next round. *)
Lemma loop_reads w r a b n rest m q :
  reachable cl w -> remaining w r = AckLoop a b n :: rest -> live w r = true -> reading w r = false ->
  inbox w a = m :: q -> smaller w.
Proof.
  intros Hr Hrem Hl Hread Hin.
  pose proof (program_shape _ _ _ (next_program w _ _ _ Hr Hrem)) as Hu. simpl in Hu.
  pose proof (receiver_stage Hr _ _ rest PAckLoop _ Hrem eq_refl Hu) as Hs.
  destruct (loop_head Hwc (net_holds Hwc w Hr) _ _ _ _ _ _ Hu ltac:(destruct (stage w r); [done|lia]) Hin) as [_ Hm].
  pose proof (counters_hold w Hr r) as Hcnt. rewrite Hrem in Hcnt.
  set (w1 := set_loop (publish w b PropInitACK) r (num_props w r) true).
  assert (Hs1 : step cl w w1) by (eapply step_thread, exec_send; done).
  assert (Hr1 : reachable cl w1) by (by eapply reach_step).
  assert (Hw1 : weight cl w1 = weight cl w) by (apply weight_same; [done|intros t; by apply (loop_num (publish w b PropInitACK))|done]).
  assert (Hx : exec cl w1 r = Goes (set_inbox (count_one w1 r n true) a q)).
  { unfold exec. rewrite (step_live cl w w1 r Hs1 Hl). change (remaining w1 r) with (remaining w r).
    rewrite Hrem. cbn [negb]. change (inbox w1 a) with (inbox w a). rewrite Hin.
    assert (reading w1 r = true) as -> by (simpl; by rewrite fn_lookup_insert). by destruct m. }
  exists (set_inbox (count_one w1 r n true) a q). split.
  - eapply rtc_l; [exact Hs1|]. eapply rtc_l; [|done]. by eapply step_thread.
  - rewrite <- Hw1. eapply (weight_count cl w1 _ r _ rest n true); try done.
    + unfold expected. by rewrite Hu.
    + change (num_props w1 r) with (num_props (set_loop (publish w b PropInitACK) r (num_props w r) true) r).
      by rewrite loop_num.
    + simpl. by destruct (count_one_fields w1 r n true _ rest Hrem) as (_ & -> & _).
Qed.

(** A propagator waits for its acknowledgement: the next round reaches it. *)
Lemma loop_acks w r a b n rest p rest' :
  reachable cl w -> remaining w r = AckLoop a b n :: rest -> live w r = true -> reading w r = false ->
  downstream_of cl p = Some (a, b) -> remaining w p = RecvInitAck :: rest' -> live w p = true -> subq w p = [] ->
  subscribed w p = true -> Subscribe b ∈ executed w p -> smaller w.
Proof.
  intros Hr Hrem Hl Hread Hd Hremp Hlp Hq Hsub Hs.
  set (w1 := set_loop (publish w b PropInitACK) r (num_props w r) true).
  assert (Hs1 : step cl w w1) by (eapply step_thread, exec_send; done).
  assert (Hw1 : weight cl w1 = weight cl w) by (apply weight_same; [done|intros t; by apply (loop_num (publish w b PropInitACK))|done]).
  assert (Hq1 : subq w1 p = [PropInitACK]).
  { simpl. by rewrite Hsub, bool_decide_true, Hq by done. }
  assert (Hx : exec cl w1 p = Goes (set_subq (advance w1 p) p [])).
  { unfold exec. rewrite (step_live cl w w1 p Hs1 Hlp). change (remaining w1 p) with (remaining w p).
    rewrite Hremp. cbn [negb]. by rewrite Hq1. }
  exists (set_subq (advance w1 p) p []). split.
  - eapply rtc_l; [exact Hs1|]. eapply rtc_l; [|done]. by eapply step_thread.
  - rewrite <- Hw1. eapply (weight_advance cl w1 _ p RecvInitAck rest'); try done.
    + by eapply reach_step.
    + by destruct (advance_fields w1 p RecvInitAck rest' Hremp) as (_ & _ & _ & _ & _ & Hx1 & _).
Qed.

(** Acknowledgements before PropStart are skipped. *)
Lemma start_reads q : forall w p a b rest,
  reachable cl w -> remaining w p = RecvPropStart :: rest -> live w p = true -> downstream_of cl p = Some (a, b) ->
  subq w p = q -> PropStart ∈ q -> smaller w.
Proof.
  induction q as [|m q IH]; intros w p a b rest Hr Hrem Hl Hd Hq Hin; [by apply elem_of_nil in Hin|].
  destruct (decide (m = PropStart)) as [->|Hm].
  - assert (Hx : exec cl w p = Goes (set_subq (advance w p) p q)).
    { unfold exec. rewrite Hl, Hrem. cbn [negb]. by rewrite Hq. }
    exists (set_subq (advance w p) p q). split; [by eapply rtc_once, step_thread|].
    eapply (weight_advance cl w _ p _ rest); try done.
    by destruct (advance_fields w p _ rest Hrem) as (_ & _ & _ & _ & _ & Hx1 & _).
  - assert (Hx : exec cl w p = Goes (set_subq w p q)).
    { unfold exec. rewrite Hl, Hrem. cbn [negb]. rewrite Hq. by rewrite decide_False. }
    destruct (IH (set_subq w p q) p a b rest) as (w' & Hsteps & Hlt); try done.
    + eapply reach_step; [done|by eapply step_thread].
    + simpl. by rewrite fn_lookup_insert.
    + by apply elem_of_cons in Hin as [?|?].
    + exists w'. split; [eapply rtc_l; [by eapply step_thread|done]|].
      by rewrite <- (weight_same cl w (set_subq w p q)).
Qed.

(** A receiver in its loop gets a reply, or brings a propagator to send one. *)
Lemma loop_progress w r a b n rest :
  reachable cl w -> stuck cl w -> remaining w r = AckLoop a b n :: rest -> smaller w.
Proof.
  intros Hr Hst Hrem.
  pose proof (program_shape _ _ _ (next_program w _ _ _ Hr Hrem)) as Hu. simpl in Hu.
  destruct (upstream_recv r _ Hu) as (m & pr & d & -> & Hn).
  pose proof (all_live Hwell Hr Hst m pr (Recv_thr d) Hn) as Hl. simpl in Hl.
  destruct (inbox w a) as [|msg q] eqn:Hin.
  2: { pose proof (stuck_waiting Hwell Hr Hst _ _ _ Hrem Hl) as [Hread|Hnil]; [by eapply loop_reads|by rewrite Hnil in Hin]. }
  pose proof (net_holds Hwc w Hr) as Hi. pose proof (ni_acks _ _ Hi _ _ _ _ Hu) as Hc.
  pose proof (receiver_stage Hr _ _ rest PAckLoop _ Hrem eq_refl Hu) as Hs.
  assert (Hs1 : stage w (m, Recv_thr d) = 1%nat).
  { destruct (stage w (m, Recv_thr d)) as [|[|[|?]]]; simpl in Hs; try discriminate. done. }
  pose proof (counters_hold w Hr (m, Recv_thr d)) as Hcnt. rewrite Hrem in Hcnt.
  unfold got_acks in Hc. rewrite Hs1, Hin in Hc. simpl in Hc.
  pose proof (expected_all Hwell _ _ _ _ Hu) as He. change (ackacks []) with O in Hc.
  destruct (past_missing cl w a 3) as (p & [b' Hp]%elem_of_feeders & Hlt); [lia|].
  assert (b' = b) as -> by (symmetry; by destruct (same_connection Hwc p a b' _ a b n Hp Hu (or_introl eq_refl))).
  destruct (sender_cases Hwell Hr Hst p a b Hp) as [([rest' Hremp] & Hsp & Hq)|[(_ & ?)|(_ & ?)]]; [|lia|lia].
  destruct (downstream_prop p _ Hp) as (mp & prp & dp & -> & Hnp).
  pose proof (all_live Hwell Hr Hst mp prp (Prop_thr dp) Hnp) as Hlp. simpl in Hlp.
  pose proof (subscribed_early w _ a b Hr Hp ltac:(lia)) as Hsub.
  destruct (subscribed w (mp, Prop_thr dp)) eqn:Hsd.
  - destruct (reading w (m, Recv_thr d)) eqn:Hread; [|by eapply loop_acks].
    pose proof (exec_miss w _ a b n rest Hrem Hl Hread Hin) as Hx.
    set (w0 := set_loop w (m, Recv_thr d) (num_props w (m, Recv_thr d)) false) in *.
    assert (Hstep : step cl w w0) by (by eapply step_thread).
    destruct (loop_acks w0 (m, Recv_thr d) a b n rest (mp, Prop_thr dp) rest') as (w' & Hsteps & Hw); try done.
    + by eapply reach_step.
    + simpl. by rewrite fn_lookup_insert.
    + exists w'. split; [by eapply rtc_l|]. rewrite <- (weight_same cl w w0); [done|done| |done].
      intros t. by apply loop_num.
  - exists (set_subscribed w (mp, Prop_thr dp)). split.
    + apply rtc_once. eapply (step_subscribe cl w _ b); [done| |done].
      apply elem_of_all_events. exists m. split; [by eapply lookup_lt_Some|].
      eapply (executed_events _ (Recv_thr d)), elem_of_prefix'; [by apply (recv_sends Hwell Hr Hst)|].
      clear - Hu Hn. unfold upstream_of in Hu. simpl in Hu. rewrite Hn in Hu. unfold recv_sockets.
      destruct (0 <? _); [|done]. simplify_eq. set_solver.
    + apply weight_subscribe; [|done]. by eapply downstream_tid.
Qed.

Definition finished (w : world) : Prop := forall t, live w t = true -> remaining w t = [].

Lemma no_head (f : world -> tid -> bool) w :
  (forall t, remaining w t = [] -> f w t = false) -> reachable cl w ->
  Forall (fun t => f w t = false) (tids cl) -> forall t, f w t = false.
Proof.
  intros Hnil Hr Hf t. destruct (remaining w t) as [|i rest] eqn:Hrem; [auto|].
  apply (proj1 (Forall_forall _ _) Hf). by eapply running_tid.
Qed.

Lemma progress w : reachable cl w -> smaller w \/ finished w.
Proof.
  intros Hr. destruct (decide (Exists (fun t => improves cl w t) (tids cl))) as [Hex|Hno].
  { left. apply Exists_exists in Hex as (t & _ & Him). unfold improves in Him.
    destruct (exec cl w t) as [w'| |] eqn:Hx; try done. exists w'. split; [|done]. by eapply rtc_once, step_thread. }
  assert (Hst : stuck cl w).
  { apply Forall_forall. intros t Ht Him. apply Hno, Exists_exists. by exists t. }
  destruct (decide (Exists (fun t => at_loop (w := w) t = true) (tids cl))) as [Hex|Hnl].
  { left. apply Exists_exists in Hex as (r & _ & Ha). unfold at_loop in Ha.
    destruct (remaining w r) as [|[] rest] eqn:Hrem; try done. by eapply loop_progress. }
  destruct (decide (Exists (fun t => at_start (w := w) t = true) (tids cl))) as [Hex|Hns].
  - left. apply Exists_exists in Hex as (p & _ & Ha). unfold at_start in Ha.
    destruct (remaining w p) as [|[] rest] eqn:Hrem; try done.
    pose proof (program_shape _ _ _ (next_program w _ _ _ Hr Hrem)) as [[a b] Hp].
    destruct (downstream_receiver Hwc _ _ _ Hp) as (r & n & Hu).
    destruct (upstream_recv r _ Hu) as (m & pr & d & -> & Hn).
    destruct (downstream_prop p _ Hp) as (mp & prp & dp & -> & Hnp).
    pose proof (all_live Hwell Hr Hst mp prp (Prop_thr dp) Hnp) as Hlp. simpl in Hlp.
    destruct (recv_cases Hwell Hr Hst m pr d Hn) as [He|(a' & b' & k & rest' & Hremr & _)].
    + apply (ended_stage Hr) in He. erewrite receiver_phases in He by done. simpl in He.
      destruct (ni_started _ _ (net_holds Hwc w Hr) _ _ _ _ _ Hp Hu ltac:(lia)) as [H4|Hin].
      * pose proof (sender_stage Hr _ _ rest PStart a b Hrem eq_refl Hp) as Hs.
        destruct (stage w (mp, Prop_thr dp)) as [|[|[|[|?]]]]; simpl in Hs; try discriminate. lia.
      * by eapply (start_reads _ w).
    + destruct Hnl. apply Exists_exists. exists (m, Recv_thr d). split; [by eapply running_tid|]. unfold at_loop. by rewrite Hremr.
  - right. intros t. apply (all_ended Hwell Hr Hst).
    + apply (no_head (fun w t => at_loop (w := w) t)); [intros u Hu; unfold at_loop; by rewrite Hu|done|].
      apply Forall_forall. intros u Hu. apply not_true_iff_false. intros Ha. apply Hnl, Exists_exists. by exists u.
    + apply (no_head (fun w t => at_start (w := w) t)); [intros u Hu; unfold at_start; by rewrite Hu|done|].
      apply Forall_forall. intros u Hu. apply not_true_iff_false. intros Ha. apply Hns, Exists_exists. by exists u.
Qed.

Lemma reachable_rtc w w' : reachable cl w -> rtc (step cl) w w' -> reachable cl w'.
Proof. intros Hr. induction 1 as [|w w1 w' Hs _ IH]; [done|]. apply IH. by eapply reach_step. Qed.

Lemma can_finish w : reachable cl w -> exists w', rtc (step cl) w w' /\ finished w'.
Proof.
  remember (weight cl w) as k eqn:Hk. revert w Hk. induction (lt_wf k) as [k _ IH]. intros w -> Hr.
  destruct (progress w Hr) as [(w1 & Hs & Hlt)|Hf]; [|by exists w].
  destruct (IH _ Hlt w1 eq_refl) as (w' & Hs' & Hf); [by eapply reachable_rtc|]. exists w'. split; [by etrans|done].
Qed.
End complete.

Lemma post_after_run pr th : before SetRun (Post SyncSem) (code_of pr th).
Proof. destruct th as [|d|d|d]; simpl; unfold_code; order. Qed.

Lemma ring_fits n : 1 <= n <= 2 -> addresses_fit (ring n).
Proof.
  intros Hn. assert (n = 1 \/ n = 2) as [-> | ->] by lia;
    (split; [apply ring_tids|..]; apply (bool_decide_eq_true_1 _); vm_compute; reflexivity).
Qed.

(** C15. Start-up completes. In a cluster whose configurations fit together - every
    downstream address is the address of one receiver, and every receiver expects as
    many propagators as push to it; rings included - no call of any thread fails in any
    interleaving, no deadlock is reachable, and from every reachable world there is a
    continuation in which [QuiltDB::Start] returns on every node with the four threads
    in [RUN]. Publications to subscriptions that have not arrived yet are lost, as 0MQ
    says; the receivers' repeated acknowledgements make up for it. *)
Theorem startup_completes cl w :
  well_configured cl -> reachable cl w ->
  (forall t, exec cl w t <> Fails) /\
  exists w', rtc (step cl) w w' /\ forall n pr, cl !! n = Some pr ->
    QuiltDB_Start `prefix_of` executed w' (n, Main) /\
    forall d, SetRun ∈ executed w' (n, Prop_thr d) /\ SetRun ∈ executed w' (n, Recv_thr d).
Proof.
  intros Hwell Hr. split; [intros t; by apply (never_fails (wc_fit _ Hwell))|].
  destruct (can_finish Hwell w Hr) as (w' & Hs & Hf). exists w'. split; [done|]. intros n pr Hn.
  pose proof (reachable_rtc w w' Hr Hs) as Hr'.
  assert (Hp : QuiltDB_Start `prefix_of` executed w' (n, Main)).
  { pose proof (program_split w' (n, Main) Hr') as Hsp. rewrite (Hf (n, Main) eq_refl), app_nil_r, (program_here Hn) in Hsp.
    rewrite Hsp. by apply prefix_app_r. }
  split; [done|]. intros d. split; (eapply (here_before Hn); [done|apply post_after_run|]).
  - by apply (all_posted Hn w' (Prop_thr d)).
  - by apply (all_posted Hn w' (Recv_thr d)).
Qed.

Lemma startup_completes_witness :
  (forall t, exec (ring 1) first_world t <> Fails) /\
  exists w', rtc (step (ring 1)) first_world w' /\ forall n pr, ring 1 !! n = Some pr ->
    QuiltDB_Start `prefix_of` executed w' (n, Main) /\
    forall d, SetRun ∈ executed w' (n, Prop_thr d) /\ SetRun ∈ executed w' (n, Recv_thr d).
Proof.
  apply (startup_completes (ring 1) first_world).
  - split; [by apply ring_fits|]. apply (bool_decide_eq_true_1 _). vm_compute. reflexivity.
  - apply first_reachable.
Defined.

(** C29. A missing propagator. If a receiver expects more propagators than are
    configured to push to it, [QuiltDB::Start] never returns on its node, however long
    the cluster runs, and no call reports the mistake. *)
Theorem missing_propagator_blocks cl w n d a b k :
  addresses_fit cl -> upstream_of cl (n, Recv_thr d) = Some (a, b, k) -> (length (feeders cl a) < k)%nat ->
  reachable cl w ->
  ~ (QuiltDB_Start `prefix_of` executed w (n, Main)) /\ forall t, exec cl w t <> Fails.
Proof.
  intros Hwc Hu Hlt Hr. split; [|intros t; by apply (never_fails Hwc)]. intros Hp.
  destruct (upstream_recv _ _ Hu) as (m & pr & d' & [= <- <-] & Hn).
  pose proof (all_posted Hn w (Recv_thr d) Hr Hp) as Hpost. simpl in Hpost.
  pose proof (net_holds Hwc w Hr) as Hi. pose proof (ni_inits _ _ Hi _ _ _ _ Hu) as Hc.
  unfold got_inits in Hc. pose proof (past_le cl w a 1). case_decide as Hst; [lia|]. destruct Hst.
  assert (Hcol : CollectInits a k ∈ executed w (n, Recv_thr d)).
  { eapply (here_before Hn); [done| |exact Hpost]. clear - Hu Hn.
    unfold upstream_of in Hu. simpl in Hu. rewrite Hn in Hu. simpl. unfold recv_code, recv_sockets, recv_handshake.
    destruct (0 <? _); [|done]. simplify_eq. simpl. order. }
  unfold stage. destruct (omap phase_of (executed w (n, Recv_thr d))) as [|ph l] eqn:E; [|simpl; lia].
  assert (Hin : PCollect ∈ omap phase_of (executed w (n, Recv_thr d))).
  { apply list_elem_of_omap. by exists (CollectInits a k). }
  rewrite E in Hin. by apply elem_of_nil in Hin.
Qed.

Lemma missing_propagator_blocks_witness :
  ~ (QuiltDB_Start `prefix_of` executed (initial (ring 2)) (2%nat, Main)) /\
  forall t, exec (ring 2) (initial (ring 2)) t <> Fails.
Proof.
  apply (missing_propagator_blocks (ring 2) (initial (ring 2)) 2 HPropagator "tcp://10.0.0.3:9000" "tcp://10.0.0.3:9001" 2).
  - by apply ring_fits.
  - vm_compute. reflexivity.
  - apply (bool_decide_eq_true_1 _). vm_compute. reflexivity.
  - constructor.
Defined.
