(* ===== verification/HelloWorld.v ===== *)
(** The helloworld application, apps/helloworld/helloworld.cpp: its configuration,
    its table, and the main thread from the command line flags to its return. *)
From S2P Require Import Prelude Common ValueOps MemStruct Protocol Propagator InternalTable Receiver Stream ConfigParser QuiltDB.

(** ** Configuration *)

(** An [int32_t] member that may never have been assigned. *)
Definition assigned (o : option Z) : res Z := match o with Some z => Ok z | None => Fault Uninitialised end.

(** The database configuration, and the id of the horizontal downstream node. The
    return code of [LoadConfigFile] is not looked at. *)
Definition read_config `{Yaml} (config_file : string) (myhid myvid : Z) : res (DBConfig * Z) :=
  '(_, config_parser) ← LoadConfigFile ConfigParser_ctor config_file;
  let my_hconfig := GetNodeInfo config_parser myhid in
  CHECK (node_id_ (node_info_ my_hconfig) =? myhid);;
  h_downstream_id ← assigned (ConfigParser.downstream_recv_ my_hconfig);
  let h_downstream_config := GetNodeInfo config_parser h_downstream_id in
  CHECK (node_id_ (node_info_ h_downstream_config) =? h_downstream_id);;
  let my_vconfig := GetNodeInfo config_parser myvid in
  CHECK (node_id_ (node_info_ my_vconfig) =? myvid);;
  v_downstream_id ← assigned (ConfigParser.downstream_recv_ my_vconfig);
  let v_downstream_config := GetNodeInfo config_parser v_downstream_id in
  CHECK (node_id_ (node_info_ v_downstream_config) =? v_downstream_id);;
  hexpected ← assigned (num_expected_props_ my_hconfig);
  vexpected ← assigned (num_expected_props_ my_vconfig);
  Ok (mkDBConfig myhid (node_info_ my_hconfig) (node_info_ h_downstream_config) hexpected
        myvid (node_info_ my_vconfig) (node_info_ v_downstream_config) vexpected 500000 500000,
      h_downstream_id).

(** The callback is left unset; any value will do. *)
Definition tconfig (cbk : UpdateBufferCbk) : TableConfig :=
  mkTableConfig 4 (Some IntAdd) (Some IntSub) true true true false cbk.

(** ** The main thread *)

(** What the main thread meets: the other nodes while it starts, what the receiver
    threads make of the tables before its [k]-th access to one, whether the
    threads return, the context it gets and its own number. *)
Record Env := mkEnv {
  env_hout : Outside;
  env_vout : Outside;
  env_tables : nat -> gmap Z InternalTable -> gmap Z InternalTable;
  env_joins : Joins;
  env_ctx : Z;
  env_thr : Z
}.

Section main.
Context (env : Env).

Definition interfere (k : nat) (db : QuiltDB) : QuiltDB :=
  set_tables db (QuiltDB.table_dir_ db) (env_tables env k (QuiltDB.heap db)).

Definition get_int (k : nat) (db : QuiltDB) (t : Table) (_key : Z) : res (Z * QuiltDB) :=
  '(v, db) ← Table_Get 4 (interfere k db) t _key;
  Ok (bytes_i32 v, db).

Definition inc_int (k : nat) (db : QuiltDB) (t : Table) (_key _delta : Z) : res (QuiltDB * list PropIn) :=
  Table_Inc (interfere k db) t (env_thr env) _key (i32_bytes _delta).

(** The [do ... while(b == 0 && cnt < 10)] loop; [cnt] grows with every turn, so
    10 turns suffice. *)
Fixpoint poll (fuel k : nat) (db : QuiltDB) (t : Table) (_key cnt : Z) : res (Z * Z * QuiltDB) :=
  match fuel with
  | O => Block
  | S fuel =>
      '(b, db) ← get_int k db t _key;
      let cnt := cnt + 1 in
      if (b =? 0) && (cnt <? 10) then poll fuel (S k) db t _key cnt else Ok (b, cnt, db)
  end.

(** What the run shows: the exit code, the values printed, the updates and the
    signals sent to the threads, and the number of turns of the loop. *)
Record Run := mkRun { exit_code : Z; printed : list Z; logged : list PropIn; signals : Signals; turns : Z }.

Definition main (dbconfig : DBConfig) (cbk : UpdateBufferCbk) (h_downstream_id : Z) : res Run :=
  let myhid := my_hid_ dbconfig in
  db ← CreateQuiltDB None dbconfig (Some (env_ctx env));
  '(htable, db) ← CreateHTable db 0 (tconfig cbk);
  '(ret, db, _) ← QuiltDB.Start db (env_hout env) (env_vout env);
  CHECK (ret =? 0);;
  let '(ret, db) := QuiltDB.RegisterThr db (env_thr env) in
  CHECK (ret =? 0);;
  '(a, db) ← get_int 0 db htable 10;
  '(db, m1) ← inc_int 1 db htable myhid 1;
  '(a', db) ← get_int 2 db htable myhid;
  '(db, m2) ← inc_int 3 db htable 8 20;
  '(db, m3) ← inc_int 4 db htable 32 12;
  '(b, cnt, db) ← poll 10 5 db htable h_downstream_id 0;
  '(_, db, sig) ← ShutDown db (env_thr env) (env_joins env);
  let '(ret, db) := QuiltDB.DeregisterThr db (env_thr env) in
  CHECK (ret =? 0);;
  Ok (mkRun 0 [a; a'; b] (m1 ++ m2 ++ m3) sig cnt).
End main.
