(* ===== verification/HelloWorldProps.v ===== *)
(** The helloworld main thread comes to its end: whatever its receiver threads do to
    the table in the meantime, it prints, logs its three updates, waits for a
    bounded time, shuts the database down and returns. *)
From S2P Require Import Prelude Common ValueOps MemStruct Protocol Propagator InternalTable Receiver ReceiverSpec Stream ConfigParser QuiltDB QuiltDBProps PropagatorSpec PropagatorTrace PropagatorRun PropagatorProps PropagatorLocal ReceiverProps ReceiverRun System Node HelloWorld.

Notation int_wf := (table_wf (n := 4) (vadd := IntAdd)).

Lemma Get_insert_same_config n it k r : Get_insert n it k = Ok r -> same_config it r.2.
Proof.
  unfold Get_insert, insert_zero, same_config. intros Hg. inv_bind. subst r.
  destruct (storage_ it !! k); [by injection Hv as <-; destruct it|].
  destruct (Z.of_nat n <? 0); [done|]. by injection Hv as <-.
Qed.

Section main.
Context (env : Env) (ptr : Z).
Notation thr := (env_thr env).

(** What the application relies on while other threads use the table: its values
    keep their size and its configuration does not change. *)
Definition tables_kept : Prop := forall k h it,
  h !! ptr = Some it -> int_wf it ->
  exists it', env_tables env k h !! ptr = Some it' /\ int_wf it' /\ same_config it it'.
Hypothesis kept : tables_kept.

(** The database between the calls of the main thread. *)
Record in_use (db : QuiltDB) : Prop := {
  iu_run : running db {[thr]};
  iu_recv : forall d, Receiver.state_ (recv_of db d) = RUN;
  iu_table : exists it, QuiltDB.heap db !! ptr = Some it /\ int_wf it /\
    propagator it = Some HPropagator /\ table_id_ it = 0
}.

(** A change of the tables that keeps the configuration of this one. *)
Lemma in_use_set db it it' h :
  in_use db -> QuiltDB.heap db !! ptr = Some it -> h !! ptr = Some it' -> int_wf it' -> same_config it it' ->
  in_use (set_tables db (QuiltDB.table_dir_ db) h).
Proof.
  intros [Hrun Hrecv (it0 & Hit & _ & Hp & Hid)] Hit' Hh Hw Hc. assert (it0 = it) as -> by congruence.
  unfold same_config in Hc. split.
  - intros d. specialize (Hrun d). by destruct d.
  - intros d. specialize (Hrecv d). by destruct d.
  - exists it'. split_and!; try done; by rewrite <- Hc.
Qed.

Lemma interfered k db :
  in_use db -> exists it, QuiltDB.heap (interfere env k db) !! ptr = Some it /\ int_wf it /\
    propagator it = Some HPropagator /\ table_id_ it = 0 /\ in_use (interfere env k db).
Proof.
  intros Hu. destruct (iu_table _ Hu) as (it & Hit & Hw & Hp & Hid).
  destruct (kept k _ it Hit Hw) as (it' & Hit' & Hw' & Hc). exists it'.
  split_and!; try done; try (unfold same_config in Hc; by rewrite <- Hc). by apply (in_use_set db it it').
Qed.

Lemma get_int_runs k db key :
  in_use db -> exists v db', get_int env k db (Some ptr) key = Ok (v, db') /\ in_use db'.
Proof.
  intros Hu. destruct (interfered k db Hu) as (it & Hit & Hw & Hp & Hid & Hu').
  unfold get_int, Table_Get, deref. rewrite Hit. cbn [mbind res_bind]. unfold Get. rewrite Get_find_spec by done.
  cbn [mbind res_bind]. destruct (storage_ it !! key) as [v|]; cbn [mbind res_bind].
  - eexists _, _. split; [done|]. apply (in_use_set (interfere env k db) it it); rewrite ?lookup_insert_eq; try done.
    unfold same_config. by destruct it.
  - destruct (Get_insert_spec it key Hw) as (it' & Hg & Hw' & _). rewrite Hg. cbn [mbind res_bind].
    apply Get_insert_same_config in Hg. eexists _, _. split; [done|].
    apply (in_use_set (interfere env k db) it it'); rewrite ?lookup_insert_eq; done.
Qed.

Definition update_log (key delta : Z) : PropIn :=
  InUpdateLog (mkPUpdateLogMsg 0 (wrap_i32 key) EInc) (i32_bytes delta).

Lemma inc_int_runs k db key d :
  in_use db -> exists db', inc_int env k db (Some ptr) key d = Ok (db', [update_log key d]) /\ in_use db'.
Proof.
  intros Hu. destruct (interfered k db Hu) as (it & Hit & Hw & Hp & Hid & Hu').
  unfold inc_int, Table_Inc, deref. rewrite Hit. cbn [mbind res_bind]. unfold InternalTable.Inc.
  destruct (IncRaw_spec (vsub := IntSub) it key (i32_bytes d) Hw) as (it' & Hi & Hw' & _); [by rewrite length_i32_bytes|].
  rewrite Hi. cbn [mbind res_bind]. apply IncRaw_same_config in Hi.
  assert (propagator it' = Some HPropagator /\ table_id_ it' = 0) as [-> ->]
    by (unfold same_config in Hi; by rewrite <- Hi).
  cbn [props_of]. destruct (iu_run _ Hu' HPropagator) as [Hs Hr]. cbn [props_of] in Hs, Hr.
  unfold Propagator.Inc. rewrite Hs, Hr. rewrite (decide_False (P := Propagator.RUN <> _)) by auto.
  rewrite decide_False by set_solver. unfold memcpy_src. rewrite length_i32_bytes. cbn -[i32_bytes].
  rewrite take_ge by (by rewrite length_i32_bytes). eexists. split; [done|].
  apply (in_use_set (interfere env k db) it it'); rewrite ?lookup_insert_eq; done.
Qed.

(** The loop ends after at most 10 turns, and not before it has read a value. *)
Lemma poll_ends fuel : forall k db key cnt,
  in_use db -> 0 <= cnt < 10 -> 10 - cnt <= Z.of_nat fuel ->
  exists b cnt' db', poll env fuel k db (Some ptr) key cnt = Ok (b, cnt', db') /\ in_use db' /\
    cnt < cnt' <= 10 /\ (cnt' = 10 \/ b <> 0).
Proof.
  induction fuel as [|fuel IH]; intros k db key cnt Hu Hc Hf; [lia|]. cbn [poll].
  destruct (get_int_runs k db key Hu) as (b & db1 & -> & Hu1). cbn [mbind res_bind].
  destruct (Z.eqb_spec b 0) as [Hb|Hb]; destruct (Z.ltb_spec (cnt + 1) 10); simpl;
    try (eexists _, _, _; split; [done|]; split; [done|]; lia).
  destruct (IH (S k) db1 key (cnt + 1) Hu1) as (b' & c' & db' & Hp & Hu' & Hc' & Hor); [lia..|].
  exists b', c', db'. split; [done|]. split; [done|]. lia.
Qed.
End main.

(** Where the first table is put. *)
Definition first_ptr : Z := fresh (∅ : gset Z).

(** The database after the table has been made. *)
Definition made (env : Env) (c : DBConfig) (cbk : UpdateBufferCbk) : QuiltDB :=
  with_table (mkRequest HPropagator 0 (tconfig cbk)) first_ptr (set_zmq_ctx (QuiltDB_ctor c) (env_ctx env)).

Lemma made_repr env c cbk :
  db_repr {[ 0 := (HPropagator, tconfig cbk) ]} (made env c cbk) /\
  CreateHTable (set_zmq_ctx (QuiltDB_ctor c) (env_ctx env)) 0 (tconfig cbk) = Ok (Some first_ptr, made env c cbk).
Proof.
  pose proof (db_repr_new c (env_ctx env)) as Hr. split.
  - exact (with_table_repr ∅ _ (mkRequest HPropagator 0 (tconfig cbk)) Hr eq_refl).
  - exact (create_table_new ∅ _ (mkRequest HPropagator 0 (tconfig cbk)) Hr eq_refl).
Qed.

Lemma started_in_use env c cbk db thrs :
  QuiltDB.Start (made env c cbk) (env_hout env) (env_vout env) = Ok (0, db, thrs) ->
  exists db', QuiltDB.RegisterThr db (env_thr env) = (0, db') /\ in_use env first_ptr db'.
Proof.
  intros Hs. destruct (made_repr env c cbk) as [Hr _].
  destruct (start_db _ _ _ _ _ _ Hs) as (_ & Hheap & _ & Hobj).
  assert (running db ∅ /\ forall d, Receiver.state_ (recv_of db d) = RUN) as [Hrun Hrecv].
  { split; intros d; destruct (start_inv _ _ _ _ _ _ _ d Hr Hs) as [Hp Hv]; destruct (Hobj d) as [Ho1 Ho2].
    - destruct (of_pair thrs d).1 as [ps rem] eqn:E. apply prop_handshake_frame in Hp. rewrite Ho1. simpl. rewrite Hp.
      by destruct d.
    - destruct (of_pair thrs d).2 as [rs rem] eqn:E. apply receiver_handshake_frame in Hv as (_ & _ & Hv & _). by rewrite Ho2. }
  destruct (thr_call_spec db ∅ (Register (env_thr env)) Hrun) as (db' & Hreg & Hrun'). simpl in Hreg, Hrun'.
  rewrite decide_False in Hreg, Hrun' by set_solver. exists db'. split; [done|].
  assert (QuiltDB.heap db' = QuiltDB.heap db /\ forall d, recv_of db' d = recv_of db d) as [Hh' Hv'].
  { clear -Hreg. unfold QuiltDB.RegisterThr in Hreg. destruct (Propagator.RegisterThr (hpropagator_ db) _) as [r1 p1].
    destruct (r1 <? 0); [done|]. simpl in Hreg. destruct (Propagator.RegisterThr (vpropagator_ db) _) as [r2 p2].
    destruct (r2 <? 0); [done|]. injection Hreg as <-. split; [done|by intros []]. }
  split.
  - intros d. destruct (Hrun' d) as [H1 H2]. split; [done|]. rewrite H2. simpl. set_solver.
  - intros d. by rewrite Hv'.
  - exists (table_of 0 (HPropagator, tconfig cbk)). rewrite Hh', Hheap. unfold made. simpl. rewrite lookup_insert_eq.
    split_and!; try done.
Qed.

(** C40. The helloworld application ends: if the database starts and its four threads
    return when told to, then whatever the receiver threads do to the table while
    the main thread runs - keeping its configuration and the size of its values -
    the main thread returns 0. On the way it logs exactly its three increments, the
    one of its own id first, sends each thread one termination message, and leaves
    the waiting loop after 1 to 10 reads, before the tenth only with a value that
    is not 0. *)
Theorem helloworld_ends env c cbk down db thrs :
  QuiltDB.Start (made env c cbk) (env_hout env) (env_vout env) = Ok (0, db, thrs) ->
  tables_kept env first_ptr -> all_join (env_joins env) = true ->
  exists run, main env c cbk down = Ok run /\ exit_code run = 0 /\
    logged run = [update_log (my_hid_ c) 1; update_log 8 20; update_log 32 12] /\
    signals run = one_signal /\ 1 <= turns run <= 10 /\
    (exists a a' b, printed run = [a; a'; b] /\ (turns run = 10 \/ b <> 0)).
Proof.
  intros Hs Hk Hj. destruct (made_repr env c cbk) as [_ Hc]. destruct (started_in_use env c cbk db thrs Hs) as (db1 & Hr & H1).
  unfold main. cbn [CreateQuiltDB default from_option mbind res_bind]. unfold id. rewrite Hc. cbn [mbind res_bind].
  rewrite Hs. cbn [mbind res_bind]. rewrite Hr. cbn [mbind res_bind Z.eqb CHECK].
  destruct (get_int_runs env first_ptr Hk 0 db1 10 H1) as (a & db2 & -> & H2). cbn [mbind res_bind].
  destruct (inc_int_runs env first_ptr Hk 1 db2 (my_hid_ c) 1 H2) as (db3 & -> & H3). cbn [mbind res_bind].
  destruct (get_int_runs env first_ptr Hk 2 db3 (my_hid_ c) H3) as (a' & db4 & -> & H4). cbn [mbind res_bind].
  destruct (inc_int_runs env first_ptr Hk 3 db4 8 20 H4) as (db5 & -> & H5). cbn [mbind res_bind].
  destruct (inc_int_runs env first_ptr Hk 4 db5 32 12 H5) as (db6 & -> & H6). cbn [mbind res_bind].
  destruct (poll_ends env first_ptr Hk 10 5 db6 down 0 H6) as (b & cnt & db7 & -> & H7 & Hcnt & Hor); [lia..|]. cbn [mbind res_bind].
  pose proof (shutdown_running db7 {[env_thr env]} (env_thr env) (env_joins env) (iu_run _ _ _ H7) (iu_recv _ _ _ H7)) as Hsd.
  rewrite decide_True, Hj in Hsd by set_solver. destruct Hsd as (db8 & -> & H8). cbn [mbind res_bind].
  destruct (thr_call_spec db8 {[env_thr env]} (Deregister (env_thr env)) H8) as (db9 & Hd & _). simpl in Hd.
  rewrite decide_True in Hd by set_solver. rewrite Hd. cbn [mbind res_bind Z.eqb CHECK fst].
  eexists. split; [done|]. simpl. split_and!; try done; try lia. exists a, a', b. split; [done|]. lia.
Qed.

(** A node without neighbours: nobody else touches the table. *)
Definition lone_env : Env := mkEnv nothing nothing (fun _ h => h) (mkJoins true true true true) 1 7.
Definition lone_start := QuiltDB.Start (made lone_env lone_config 0) nothing nothing.

Lemma lone_started : lone_start = Ok (0, db_of lone_start, threads_of lone_start).
Proof. apply started_eta. vm_compute. reflexivity. Qed.

Lemma helloworld_ends_witness :
  exists run, main lone_env lone_config 0 (-1) = Ok run /\ exit_code run = 0 /\
    logged run = [update_log 0 1; update_log 8 20; update_log 32 12].
Proof.
  destruct (helloworld_ends lone_env lone_config 0 (-1) (db_of lone_start) (threads_of lone_start) lone_started)
    as (run & Hm & He & Hl & _).
  - intros k h it Hit Hw. exists it. split; [exact Hit|]. split; [exact Hw|]. unfold same_config. by destruct it.
  - reflexivity.
  - exists run. split; [exact Hm|]. split; [exact He|exact Hl].
Defined.
