(* ===== verification/Double.v ===== *)
(** The [double] arithmetic of the applications: IEEE 754 binary64 with rounding to
    nearest even, as the Standard Library specifies it, [round] of math.h, and how far
    a product and a quotient are from the exact ones. *)
From S2P Require Import Prelude.
From Stdlib Require Import Floats.SpecFloat.
#[global] Open Scope Z_scope.

(** ** Operations *)

Notation double := spec_float.
Definition dadd : double -> double -> double := SFadd 53 1024.
Definition dsub : double -> double -> double := SFsub 53 1024.
Definition dmul : double -> double -> double := SFmul 53 1024.
Definition ddiv : double -> double -> double := SFdiv 53 1024.
(** The conversion of an integer. *)
Definition of_Z (z : Z) : double := binary_normalize 53 1024 z 0 false.
(** [round]: to the nearest integer, halves away from zero; [None] when the result is
    not a number an integer type could hold. *)
Definition round_mag (m e : Z) : Z := if 0 <=? e then m * 2 ^ e else (2 * m + 2 ^ (- e)) / (2 * 2 ^ (- e)).
Definition round_Z (x : double) : option Z :=
  match x with
  | S754_zero _ => Some 0
  | S754_finite s m e => Some (if s then - round_mag (Zpos m) e else round_mag (Zpos m) e)
  | _ => None
  end.

(** ** Rounding *)

(** Where [n / d] lies in [m, m + 1). *)
Definition within (n d m : Z) (l : location) : Prop :=
  match l with
  | loc_Exact => n = m * d
  | loc_Inexact c => m * d < n < (m + 1) * d /\ (2 * n ?= (2 * m + 1) * d) = c
  end.

Lemma within_bounds n d m l : 0 < d -> within n d m l -> m * d <= n < (m + 1) * d.
Proof. destruct l; simpl; lia. Qed.

Lemma shr_1_within n d mrs :
  0 < d -> 0 <= shr_m mrs -> within n d (shr_m mrs) (loc_of_shr_record mrs) ->
  shr_m (shr_1 mrs) = shr_m mrs / 2 /\ within n (2 * d) (shr_m (shr_1 mrs)) (loc_of_shr_record (shr_1 mrs)).
Proof.
  intros Hd Hm Hw. destruct mrs as [m r s].
  assert (H2 : shr_m (shr_1 (Build_shr_record m r s)) = m / 2 /\
    loc_of_shr_record (shr_1 (Build_shr_record m r s)) =
      match Z.odd m, r || s with
      | false, false => loc_Exact | false, true => loc_Inexact Lt
      | true, false => loc_Inexact Eq | true, true => loc_Inexact Gt
      end).
  { simpl in Hm. destruct m as [|p|p]; [by destruct r, s| |lia].
    destruct p as [p|p|]; simpl shr_1; (split; [|by destruct r, s]); simpl;
      [rewrite Pos2Z.inj_xI|rewrite Pos2Z.inj_xO|]; try done;
      first [apply (Z.div_unique _ _ _ 1); lia | apply (Z.div_unique _ _ _ 0); lia]. }
  destruct H2 as [-> ->]. simpl in *. split; [done|].
  assert (Hodd : m = 2 * (m / 2) + if Z.odd m then 1 else 0).
  { pose proof (Z.div_mod m 2 ltac:(lia)) as Hdm. rewrite Zmod_odd in Hdm. lia. }
  set (h := m / 2) in *. clearbody h. destruct (Z.odd m); subst m;
  destruct r, s; simpl in Hw; simpl; repeat match goal with H : _ /\ _ |- _ => destruct H end;
    repeat match goal with H : (_ ?= _) = Eq |- _ => apply Z.compare_eq in H | H : (_ ?= _) = Lt |- _ => rewrite Z.compare_lt_iff in H
      | H : (_ ?= _) = Gt |- _ => rewrite Z.compare_gt_iff in H end;
    try split; rewrite ?Z.compare_lt_iff, ?Z.compare_gt_iff, ?Z.compare_eq_iff; nia.
Qed.

Lemma iter_pos_nat {A} (f : A -> A) p x : iter_pos f p x = Nat.iter (Pos.to_nat p) f x.
Proof.
  revert x. induction p as [p IH|p IH|]; intros x; cbn [iter_pos]; [| |done]; rewrite !IH, <- Nat.iter_add.
  - rewrite <- Nat.iter_succ_r. f_equal. lia.
  - f_equal. lia.
Qed.

Lemma shr_iter_within n d k mrs :
  0 < d -> 0 <= shr_m mrs -> within n d (shr_m mrs) (loc_of_shr_record mrs) ->
  shr_m (Nat.iter k shr_1 mrs) = shr_m mrs / 2 ^ Z.of_nat k /\
  within n (d * 2 ^ Z.of_nat k) (shr_m (Nat.iter k shr_1 mrs)) (loc_of_shr_record (Nat.iter k shr_1 mrs)).
Proof.
  intros Hd Hm Hw. induction k as [|k [IHm IHw]].
  - simpl. by rewrite Z.div_1_r, Z.mul_1_r.
  - assert (Hp : 0 < 2 ^ Z.of_nat k) by (apply Z.pow_pos_nonneg; lia).
    destruct (shr_1_within n (d * 2 ^ Z.of_nat k) (Nat.iter k shr_1 mrs)) as [Hm' Hw']; [nia| |done|].
    { rewrite IHm. by apply Z.div_pos. }
    simpl Nat.iter. rewrite Nat2Z.inj_succ, Z.pow_succ_r by lia. split.
    + rewrite Hm', IHm, Z.div_div by lia. f_equal. lia.
    + replace (d * (2 * 2 ^ Z.of_nat k)) with (2 * (d * 2 ^ Z.of_nat k)) by lia. done.
Qed.

(** [shr] by a non-negative amount. *)
Lemma shr_within n d m l e t :
  0 < d -> 0 <= m -> 0 <= t -> within n d m l ->
  (shr (shr_record_of_loc m l) e t).2 = e + t /\
  shr_m (shr (shr_record_of_loc m l) e t).1 = m / 2 ^ t /\
  within n (d * 2 ^ t) (m / 2 ^ t) (loc_of_shr_record (shr (shr_record_of_loc m l) e t).1).
Proof.
  intros Hd Hm Ht Hw.
  assert (H0 : shr_m (shr_record_of_loc m l) = m /\ loc_of_shr_record (shr_record_of_loc m l) = l) by (by destruct l as [|[]]).
  destruct H0 as [H0 H1]. destruct t as [|p|p]; [| |lia].
  - simpl. rewrite H0, H1, Z.div_1_r, Z.mul_1_r, Z.add_0_r. done.
  - simpl. rewrite iter_pos_nat.
    destruct (shr_iter_within n d (Pos.to_nat p) (shr_record_of_loc m l)) as [Hm' Hw']; rewrite ?H0, ?H1; try done.
    rewrite H0, positive_nat_Z in Hm'. rewrite positive_nat_Z, Hm' in Hw'. rewrite Hm'. done.
Qed.

Lemma round_nearest_within n d m l :
  0 < d -> within n d m l -> m <= round_nearest_even m l <= m + 1 /\ 2 * Z.abs (round_nearest_even m l * d - n) <= d.
Proof.
  intros Hd. destruct l as [|[]]; simpl; [lia| | |];
    rewrite ?Z.compare_eq_iff, ?Z.compare_lt_iff, ?Z.compare_gt_iff; intros [Hb Hc]; [destruct (Z.even m)| |]; split; nia.
Qed.

Lemma digits2_log2 p : Z.pos (digits2_pos p) = Z.log2 (Z.pos p) + 1.
Proof.
  induction p as [p IH|p IH|]; [..|done]; cbn [digits2_pos]; rewrite Pos2Z.inj_succ, IH.
  - by rewrite Pos2Z.inj_xI, Z.log2_succ_double by lia.
  - by rewrite Pos2Z.inj_xO, Z.log2_double by lia.
Qed.

(** A double in normal form. *)
Definition normal (m e : Z) : Prop := 2 ^ 52 <= m < 2 ^ 53.

(** Rounding [m], or the exact [n / d] it stands for, at exponent [e]: [t] digits too
    many go, the error is at most one part in 2^53. *)
Lemma binary_round_aux_spec n d m e l :
  0 < d -> within n d m l -> 2 ^ 52 <= m -> -1000 <= e -> e + Z.log2 m <= 1000 ->
  exists m' e', binary_round_aux 53 1024 false m e l = S754_finite false m' e' /\
    normal (Zpos m') e' /\ e <= e' <= e + Z.log2 m - 51 /\ Z.abs (Zpos m' * 2 ^ (e' - e) * d - n) * 2 ^ 53 <= n.
Proof.
  intros Hd Hw Hm He Hbig. set (t := Z.log2 m - 52).
  assert (Hlog : 2 ^ Z.log2 m <= m < 2 ^ (Z.log2 m + 1)) by (pose proof (Z.log2_spec m ltac:(lia)); lia).
  assert (Ht : 0 <= t) by (unfold t; pose proof (Z.log2_le_mono (2 ^ 52) m Hm) as Hl; rewrite Z.log2_pow2 in Hl by lia; lia).
  assert (Hd2 : Zdigits2 m = Z.log2 m + 1) by (destruct m as [|p|p]; [lia|apply digits2_log2|lia]).
  unfold binary_round_aux. unfold shr_fexp at 1. rewrite Hd2.
  replace (fexp 53 1024 (Z.log2 m + 1 + e) - e) with t by (unfold fexp, emin, t; lia).
  destruct (shr_within n d m l e t Hd ltac:(lia) Ht Hw) as (He1 & Hm1 & Hw1).
  destruct (shr (shr_record_of_loc m l) e t) as [mrs e1]. simpl in He1, Hm1, Hw1. subst e1. rewrite Hm1.
  assert (Hp : 0 < 2 ^ t) by (apply Z.pow_pos_nonneg; lia).
  assert (Hsplit : 2 ^ Z.log2 m = 2 ^ 52 * 2 ^ t) by (rewrite <- Z.pow_add_r by lia; f_equal; lia).
  assert (Hq : 2 ^ 52 <= m / 2 ^ t < 2 ^ 53).
  { split; [apply Z.div_le_lower_bound; lia|apply Z.div_lt_upper_bound; [lia|]].
    rewrite Z.pow_add_r in Hlog by lia. lia. }
  destruct (round_nearest_within n (d * 2 ^ t) (m / 2 ^ t) (loc_of_shr_record mrs) ltac:(lia) Hw1) as [Hr Herr].
  pose proof (within_bounds n (d * 2 ^ t) _ _ ltac:(lia) Hw1) as Hn.
  set (m1 := round_nearest_even (m / 2 ^ t) (loc_of_shr_record mrs)) in *.
  assert (Hn52 : 2 ^ 52 * (d * 2 ^ t) <= n) by nia.
  unfold shr_fexp.
  assert (Hd1 : Zdigits2 m1 = Z.log2 m1 + 1) by (destruct m1 as [|p|p]; [lia|apply digits2_log2|lia]).
  rewrite Hd1. destruct (decide (m1 = 2 ^ 53)) as [H53|H53].
  - rewrite H53. replace (fexp 53 1024 (Z.log2 (2 ^ 53) + 1 + (e + t)) - (e + t)) with 1
      by (rewrite Z.log2_pow2 by lia; unfold fexp, emin; lia).
    replace (2 ^ 53) with (Zpos (xO (2 ^ 52)%positive)) by reflexivity. simpl.
    replace (e + t + 1 <=? 1024 - 53) with true by lia.
    eexists _, _. split; [reflexivity|]. split; [unfold normal; lia|]. split; [unfold t; lia|].
    replace (e + t + 1 - e) with (t + 1) by lia. rewrite Z.pow_add_r by lia. lia.
  - assert (Hl1 : Z.log2 m1 = 52) by (apply Z.log2_unique; lia). rewrite Hl1.
    replace (fexp 53 1024 (52 + 1 + (e + t)) - (e + t)) with 0 by (unfold fexp, emin; lia).
    simpl. destruct m1 as [|p|p]; [lia| |lia].
    replace (e + t <=? 1024 - 53) with true by lia.
    eexists _, _. split; [reflexivity|]. split; [unfold normal; lia|]. split; [unfold t; lia|].
    replace (e + t - e) with t by lia. lia.
Qed.

(** Integers below 2^53 are doubles. *)
Lemma of_Z_exact z :
  0 < z < 2 ^ 53 -> exists m e, of_Z z = S754_finite false m e /\ normal (Zpos m) e /\ -52 <= e <= 0 /\ Zpos m = z * 2 ^ (- e).
Proof.
  intros Hz. destruct z as [|p|p]; try lia. unfold of_Z. simpl. unfold binary_round.
  assert (Hlog : 2 ^ Z.log2 (Zpos p) <= Zpos p < 2 ^ (Z.log2 (Zpos p) + 1)) by (pose proof (Z.log2_spec (Zpos p) ltac:(lia)); lia).
  assert (Hl : 0 <= Z.log2 (Zpos p) <= 52).
  { split; [apply Z.log2_nonneg|]. apply Z.lt_succ_r, Z.log2_lt_pow2; lia. }
  rewrite digits2_log2. replace (fexp 53 1024 (Z.log2 (Zpos p) + 1 + 0)) with (Z.log2 (Zpos p) - 52) by (unfold fexp, emin; lia).
  assert (Ha : exists mz, shl_align p 0 (Z.log2 (Zpos p) - 52) = (mz, Z.log2 (Zpos p) - 52) /\
    Zpos mz = Zpos p * 2 ^ (52 - Z.log2 (Zpos p))).
  { unfold shl_align. rewrite Z.sub_0_r. destruct (Z.log2 (Zpos p) - 52) as [|q|q] eqn:E; [|lia|].
    - exists p. replace (52 - Z.log2 (Zpos p)) with 0 by lia. split; [done|]. simpl. lia.
    - exists (Pos.iter xO p q). replace (52 - Z.log2 (Zpos p)) with (Zpos q) by lia. split; [done|].
      rewrite <- (Pos2Z.inj_pow 2 q). clear. induction q as [|q IH] using Pos.peano_ind; [simpl; lia|].
      rewrite Pos.iter_succ, Pos.pow_succ_r. rewrite Pos2Z.inj_xO, IH. lia. }
  destruct Ha as (mz & -> & Hmz).
  assert (Hp : 0 < 2 ^ (52 - Z.log2 (Zpos p))) by (apply Z.pow_pos_nonneg; lia).
  assert (H53 : 2 ^ 52 <= Zpos mz < 2 ^ 53).
  { rewrite Hmz. replace (2 ^ 52) with (2 ^ Z.log2 (Zpos p) * 2 ^ (52 - Z.log2 (Zpos p))) by (rewrite <- Z.pow_add_r by lia; f_equal; lia).
    replace (2 ^ 53) with (2 ^ (Z.log2 (Zpos p) + 1) * 2 ^ (52 - Z.log2 (Zpos p))) by (rewrite <- Z.pow_add_r by lia; f_equal; lia).
    nia. }
  assert (Hl52 : Z.log2 (Zpos mz) = 52) by (apply Z.log2_unique; lia).
  destruct (binary_round_aux_spec (Zpos mz) 1 (Zpos mz) (Z.log2 (Zpos p) - 52) loc_Exact) as (m' & e' & Hr & Hn & He & Herr);
    [lia|simpl; lia|lia|lia|lia|].
  rewrite Hr. exists m', e'. split; [done|]. split; [done|]. rewrite Hl52 in He.
  unfold normal in Hn.
  assert (e' = Z.log2 (Zpos p) - 52) as ->.
  { destruct (decide (e' = Z.log2 (Zpos p) - 52)); [done|]. assert (e' = Z.log2 (Zpos p) - 52 + 1) as -> by lia.
    replace (Z.log2 (Zpos p) - 52 + 1 - (Z.log2 (Zpos p) - 52)) with 1 in Herr by lia. lia. }
  replace (Z.log2 (Zpos p) - 52 - (Z.log2 (Zpos p) - 52)) with 0 in Herr by lia.
  split; [lia|].
  replace (- (Z.log2 (Zpos p) - 52)) with (52 - Z.log2 (Zpos p)) by lia. lia.
Qed.

(** Products and quotients. *)
Lemma dmul_error mx ex my ey :
  normal (Zpos mx) ex -> normal (Zpos my) ey -> -400 <= ex <= 400 -> -400 <= ey <= 400 ->
  exists m e, dmul (S754_finite false mx ex) (S754_finite false my ey) = S754_finite false m e /\
    normal (Zpos m) e /\ ex + ey <= e <= ex + ey + 54 /\
    Z.abs (Zpos m * 2 ^ (e - (ex + ey)) - Zpos mx * Zpos my) * 2 ^ 53 <= Zpos mx * Zpos my.
Proof.
  unfold normal. intros Hx Hy Hex Hey. unfold dmul. simpl.
  assert (Hlog : 104 <= Z.log2 (Zpos (mx * my)) < 106).
  { split; [apply Z.log2_le_pow2|apply Z.log2_lt_pow2]; try lia; nia. }
  destruct (binary_round_aux_spec (Zpos (mx * my)) 1 (Zpos (mx * my)) (ex + ey) loc_Exact) as (m & e & Hr & Hn & He & Herr);
    [lia|simpl; lia|nia|lia|lia|].
  rewrite Hr. exists m, e. split; [done|]. split; [done|]. split; [lia|].
  rewrite Z.mul_1_r in Herr. rewrite <- Pos2Z.inj_mul. done.
Qed.

Lemma new_location_within d q r : 0 < d -> 0 <= r < d -> within (d * q + r) d q (new_location d r).
Proof.
  intros Hd Hr. unfold new_location, new_location_even, new_location_odd.
  destruct (Z.even d) eqn:Hev; destruct (Z.eqb_spec r 0) as [->|Hne]; simpl; try lia.
  - split; [lia|]. destruct (Z.compare_spec (2 * r) d);
      [apply Z.compare_eq_iff|apply Z.compare_lt_iff|apply Z.compare_gt_iff]; lia.
  - assert (Hodd : exists k, d = 2 * k + 1).
    { rewrite <- Z.negb_odd, negb_false_iff in Hev. by apply Z.odd_spec. }
    destruct Hodd as [k ->]. split; [lia|].
    destruct (Z.compare_spec (2 * r + 1) (2 * k + 1));
      [apply Z.compare_lt_iff|apply Z.compare_lt_iff|apply Z.compare_gt_iff]; lia.
Qed.

Lemma ddiv_error mx ex my ey :
  normal (Zpos mx) ex -> normal (Zpos my) ey -> -400 <= ex <= 400 -> -400 <= ey <= 400 ->
  exists m e, ddiv (S754_finite false mx ex) (S754_finite false my ey) = S754_finite false m e /\
    normal (Zpos m) e /\ ex - ey - 53 <= e <= ex - ey - 51 /\
    Z.abs (Zpos m * 2 ^ (e - (ex - ey - 53)) * Zpos my - Zpos mx * 2 ^ 53) * 2 ^ 53 <= Zpos mx * 2 ^ 53.
Proof.
  unfold normal. intros Hx Hy Hex Hey. unfold ddiv. cbn [SFdiv xorb]. unfold SFdiv_core_binary. cbn [Zdigits2].
  assert (Hlx : Z.log2 (Zpos mx) = 52) by (apply Z.log2_unique; lia).
  assert (Hly : Z.log2 (Zpos my) = 52) by (apply Z.log2_unique; lia).
  rewrite !digits2_log2, Hlx, Hly.
  replace (Z.min (fexp 53 1024 (52 + 1 + ex - (52 + 1 + ey))) (ex - ey)) with (ex - ey - 53) by (unfold fexp, emin; lia).
  replace (ex - ey - (ex - ey - 53)) with 53 by lia. cbv beta iota zeta. rewrite Z.shiftl_mul_pow2 by lia.
  pose proof (Z_div_mod (Zpos mx * 2 ^ 53) (Zpos my) ltac:(lia)) as Hdm.
  destruct (Z.div_eucl (Zpos mx * 2 ^ 53) (Zpos my)) as [q r]. destruct Hdm as [Heq Hr].
  assert (Hq : 2 ^ 52 <= q < 2 ^ 55) by nia.
  assert (Hlq : 52 <= Z.log2 q < 54).
  { split; [apply Z.log2_le_pow2; lia|apply Z.log2_lt_pow2; [lia|nia]]. }
  destruct (binary_round_aux_spec (Zpos mx * 2 ^ 53) (Zpos my) q (ex - ey - 53) (new_location (Zpos my) r))
    as (m & e & Ha & Hn & He & Herr); [lia|rewrite Heq; apply new_location_within; lia|lia|lia|lia|].
  rewrite Ha. exists m, e. split; [done|]. split; [done|]. split; [lia|]. lia.
Qed.
