(* ===== verification/SparseMatrix.v ===== *)
(** The sparse matrices of the pagerank application: the ranges of
    apps/pagerank/range.h, the binary files of bin_data.h and the row-major matrices
    of rspmat.h. Ranges and offsets are [size_t]; arrays are lists of cells, [None]
    for a cell nothing was stored in. *)
From S2P Require Import Prelude Common Stream.
From Stdlib Require String.
#[global] Open Scope Z_scope.

(** ** Ranges *)

(** [start_, end_), or a special value. *)
Record Range := mkRange { start_ : Z; end_ : Z }.
Definition Invalid : Range := mkRange 0 0.
Definition All : Range := mkRange 1 0.

Definition SubsetEq (r v : Range) : bool := (start_ v <=? start_ r) && (end_ r <=? end_ v).
Definition SupsetEq (r v : Range) : bool := (start_ r <=? start_ v) && (end_ v <=? end_ r).
Definition In (r : Range) (v : Z) : bool := (start_ r <=? v) && (v <? end_ r).
Definition range_lt (r rhs : Range) : bool := (start_ r <? start_ rhs) || (end_ r <? end_ rhs).
Definition range_eq (r rhs : Range) : bool := (start_ r =? start_ rhs) && (end_ r =? end_ rhs).
Definition Limit (r dest : Range) : Range := mkRange (Z.max (start_ r) (start_ dest)) (Z.min (end_ r) (end_ dest)).
Definition Valid (r : Range) : bool := start_ r <? end_ r.
Definition Size (r : Range) : Z := wrap_u64 (end_ r - start_ r).

(** The [i]-th of [n] parts. *)
Definition EvenDivide (r : Range) (n i min_seg : Z) : res Range :=
  CHECK (i <? n);;
  if wrap_u64 (end_ r - start_ r) <? min_seg then
    if i =? 0 then Ok r else Ok (mkRange (end_ r) (end_ r))
  else
    let itv := wrap_u64 (end_ r - start_ r) / n in
    Ok (mkRange (Z.max (wrap_u64 (start_ r + wrap_u64 (itv * i))) (start_ r))
                (Z.min (wrap_u64 (start_ r + wrap_u64 (itv * wrap_u64 (i + 1)))) (end_ r))).

(** ** Arrays *)

Notation arr T := (list (option T)).

(** [new T[n]], which throws when the size in bytes is not representable. *)
Definition new_arr {T} (elem_size : nat) (n : Z) : res (arr T) :=
  if 9223372036854775808 <=? n * Z.of_nat elem_size then Fault BadAlloc else Ok (replicate (Z.to_nat n) None).

Definition rd {T} (a : option (arr T)) (i : Z) : res T :=
  match a with
  | None => Fault NullDeref
  | Some a =>
      match a !! Z.to_nat i with
      | None => Fault OutOfBounds
      | Some None => Fault Uninitialised
      | Some (Some v) => Ok v
      end
  end.

Definition wr {T} (a : option (arr T)) (i : Z) (v : T) : res (option (arr T)) :=
  match a with
  | None => Fault NullDeref
  | Some a => if (Z.to_nat i <? length a)%nat then Ok (Some (<[Z.to_nat i := Some v]> a)) else Fault OutOfBounds
  end.

(** ** Binary files *)

(** An object of a fixed size and its bytes. *)
Class Elem (T : Type) := { esize : nat; encode : T -> list byte; decode : list byte -> T }.
Definition u64_elem : Elem Z := {| esize := 8; encode := le_split 8; decode := le_combine |}.
Definition u32_elem : Elem Z := {| esize := 4; encode := le_split 4; decode := le_combine |}.

(** The files that can be read. *)
Definition Files := string -> option (list byte).

(** The first [n] records of [k] bytes. *)
Fixpoint records (k n : nat) (bs : list byte) : list (list byte) :=
  match n with
  | O => []
  | S n => take k bs :: records k n (drop k bs)
  end.

Section bin_data.
Context {T : Type} `{Elem T}.

(** [fread] reads the whole elements there are, [n] at most; with a buffer that is
    too short it writes past the end. *)
Definition load_bin (fs : Files) (filename : string) (buf : option (arr T)) (offset n : Z)
    : res (Z * option (arr T)) :=
  match fs filename with
  | None => Fault CheckFailed
  | Some bytes =>
      buf ← match buf with None => new_arr esize n | Some b => Ok b end;
      let pos := if offset =? 0 then 0 else wrap_i64 (wrap_u64 (offset * Z.of_nat esize)) in
      CHECK (0 <=? pos);;
      let rest := drop (Z.to_nat pos) bytes in
      let ret := Z.min n (Z.of_nat (length rest) / Z.of_nat esize) in
      if Z.of_nat (length buf) <? ret then Fault OutOfBounds
      else
        let buf := (Some <$> (decode <$> records esize (Z.to_nat ret) rest)) ++ drop (Z.to_nat ret) buf in
        CHECK (ret =? n);;
        Ok (ret, Some buf)
  end.

Definition bin_length (fs : Files) (filename : string) : Z :=
  match fs filename with
  | Some bytes => Z.of_nat (length bytes) / Z.of_nat esize
  | None => 0
  end.

Definition load_bin_all (fs : Files) (filename : string) (buf : option (arr T)) : res (Z * option (arr T)) :=
  load_bin fs filename buf 0 (bin_length fs filename).

(** The first [n] elements of [buff]; [opens] is whether the file can be written. *)
Definition save_bin (opens : bool) (fs : Files) (filename : string) (buff : list T) (n : Z) : res (Z * Files) :=
  CHECK opens;;
  if Z.of_nat (length buff) <? n then Fault OutOfBounds
  else Ok (n, fun f => if String.eqb f filename then Some (concat (encode <$> take (Z.to_nat n) buff)) else fs f).
End bin_data.

(** ** Matrices *)

Record RSpMat (V : Type) := mkRSpMat {
  row_ : Range;
  col_ : Range;
  nnz_ : option Z;
  offset_ : option (arr Z);
  index_ : option (arr Z);
  value_ : option (arr V)
}.
Arguments mkRSpMat {V}. Arguments row_ {V}. Arguments col_ {V}. Arguments nnz_ {V}.
Arguments offset_ {V}. Arguments index_ {V}. Arguments value_ {V}.

Section matrix.
Context {V : Type} `{Elem V}.

Definition RSpMat_ctor : RSpMat V := mkRSpMat Invalid Invalid None None None None.

Definition rows (m : RSpMat V) : Z := Size (row_ m).
Definition cols (m : RSpMat V) : Z := Size (col_ m).
Definition nnz (m : RSpMat V) : res Z := match nnz_ m with Some n => Ok n | None => Fault Uninitialised end.
Definition has_value (m : RSpMat V) : bool := match value_ m with Some _ => true | None => false end.
Definition square (m : RSpMat V) : bool := range_eq (col_ m) (row_ m).

Definition set_offset (m : RSpMat V) (a : option (arr Z)) : RSpMat V :=
  mkRSpMat (row_ m) (col_ m) (nnz_ m) a (index_ m) (value_ m).
Definition set_index (m : RSpMat V) (a : option (arr Z)) : RSpMat V :=
  mkRSpMat (row_ m) (col_ m) (nnz_ m) (offset_ m) a (value_ m).
Definition set_value (m : RSpMat V) (a : option (arr V)) : RSpMat V :=
  mkRSpMat (row_ m) (col_ m) (nnz_ m) (offset_ m) (index_ m) a.

Definition Clear (m : RSpMat V) : RSpMat V := mkRSpMat Invalid Invalid (Some 0) None None None.

(** [memset] of the first [rows()] offsets; the other cells keep what the memory
    held. *)
Definition Init (isize : nat) (m : RSpMat V) (row col : Range) (nnz : Z) (has_value : bool) : res (RSpMat V) :=
  offset ← new_arr 8 (wrap_u64 (Size row + 5));
  let n := Z.to_nat (Size row) in
  if (length offset <? n)%nat then Fault OutOfBounds
  else
    index ← new_arr isize (wrap_u64 (nnz + 5));
    value ← (if has_value then a ← new_arr esize (wrap_u64 (nnz + 5)); Ok (Some a) else Ok None);
    Ok (mkRSpMat row col (Some nnz) (Some (replicate n (Some 0) ++ drop n offset)) (Some index) value).

(** The text of name.size: the row range, then the column range. *)
Definition size_file (fs : Files) (name : string) : res string :=
  match fs (name +:+ ".size") with
  | None => Fault CheckFailed
  | Some bytes => Ok (String.string_of_list_byte bytes)
  end.

Definition RowSeg (fs : Files) (name : string) : res Range :=
  text ← size_file fs name;
  match extract_u64s 2 (Some text) with
  | [s; e] => CHECK (Valid (mkRange s e));; Ok (mkRange s e)
  | _ => Fault CheckFailed
  end.

Definition ColSeg (fs : Files) (name : string) : res Range :=
  text ← size_file fs name;
  match extract_u64s 4 (Some text) with
  | [_; _; s; e] => CHECK (Valid (mkRange s e));; Ok (mkRange s e)
  | _ => Fault CheckFailed
  end.

(** [for (i = 0; i <= rows; ++i) offset_[i] -= start]. *)
Definition shift_offsets (start rows : Z) (a : option (arr Z)) : res (option (arr Z)) :=
  foldM (fun i a => o ← rd a i; wr a i (wrap_u64 (o - start))) (seqZ 0 (rows + 1)) a.

(** [Load], with the column indices of the element type [I]. *)
Definition Load (I : Elem Z) (fs : Files) (m : RSpMat V) (name : string) (row : Range) : res (RSpMat V) :=
  let m := Clear m in
  all ← RowSeg fs name;
  row ← (if range_eq row All then Ok all else CHECK (SubsetEq row all);; Ok row);
  col ← ColSeg fs name;
  let total_rows := wrap_u64 (bin_length (H := u64_elem) fs (name +:+ ".rowcnt") - 1) in
  CHECK (total_rows =? Size all);;
  '(_, offset) ← load_bin (H := u64_elem) fs (name +:+ ".rowcnt") (offset_ m) (wrap_i64 (start_ row)) (wrap_u64 (Size row + 1));
  first ← rd offset 0;
  last ← rd offset (Size row);
  '(nnz, index) ← load_bin (H := I) fs (name +:+ ".colidx") (index_ m) (wrap_i64 first) last;
  let nval := bin_length (T := V) fs (name +:+ ".value") in
  value ← (if nval =? 0 then Ok (value_ m)
           else '(_, value) ← load_bin (T := V) fs (name +:+ ".value") (value_ m) (wrap_i64 first) last; Ok value);
  offset ← (if first =? 0 then Ok offset else shift_offsets first (Size row) offset);
  Ok (mkRSpMat row col (Some nnz) offset index value).

(** One entry of a row: kept, with its column relative to the slice in a type of
    [w] bits, if it lies in the slice. *)
Definition slice_entry (w : Z) (m : RSpMat V) (col : Range) (j : Z) (st : RSpMat V * Z) : res (RSpMat V * Z) :=
  let '(res, o) := st in
  c ← rd (index_ m) j;
  if In col c then
    index ← wr (index_ res) o (wrap_u64 (c - start_ col) mod 2 ^ w);
    let res := set_index res index in
    value ← (if has_value m then v ← rd (value_ m) j; wr (value_ res) o v else Ok (value_ res));
    Ok (set_value res value, wrap_u64 (o + 1))
  else Ok (res, o).

Definition slice_row (w : Z) (m : RSpMat V) (col : Range) (i : Z) (res : RSpMat V) : Prelude.res (RSpMat V) :=
  o ← rd (offset_ res) i;
  lo ← rd (offset_ m) i;
  hi ← rd (offset_ m) (i + 1);
  '(res, o) ← foldM (slice_entry w m col) (seqZ lo (hi - lo)) (res, o);
  offset ← wr (offset_ res) (i + 1) o;
  Ok (set_offset res offset).

(** [VSlice], into a matrix whose indices have [w] bits, [isize] bytes. *)
Definition VSlice (w : Z) (isize : nat) (m : RSpMat V) (col : Range) (res : RSpMat V) : Prelude.res (RSpMat V) :=
  CHECK (SupsetEq (col_ m) col);;
  n ← nnz m;
  res ← Init isize res (row_ m) col n (has_value m);
  foldM (slice_row w m col) (seqZ 0 (rows m)) res.
End matrix.
