(* ===== verification/SparseMatrixProps.v ===== *)
(** Correctness of the sparse matrices: the rows a matrix holds, the column slice
    as a filter of every row, and what loading a block of rows gives. *)
From S2P Require Import Prelude Common Stream SparseMatrix.
From Stdlib Require String.
#[global] Open Scope Z_scope.

(** The position an iteration over consecutive integers has reached. *)
Lemma seqZ_at lo n pre x suf :
  seqZ lo n = pre ++ x :: suf -> x = lo + Z.of_nat (length pre) /\ Z.of_nat (length pre) < n.
Proof.
  intros E. assert (seqZ lo n !! length pre = Some x) as Hl by (rewrite E; by apply list_lookup_middle).
  by apply lookup_seqZ in Hl.
Qed.

Lemma wr_here {T} (l : arr T) x r (v : T) i :
  i = Z.of_nat (length l) -> wr (Some (l ++ x :: r)) i v = Ok (Some (l ++ Some v :: r)).
Proof.
  intros ->. unfold wr. rewrite Nat2Z.id, length_app, length_cons.
  rewrite (proj2 (Nat.ltb_lt _ _)) by lia. by rewrite insert_app_r_alt, Nat.sub_diag by lia.
Qed.

Lemma rd_at {T} (l : list T) (r : arr T) i v :
  0 <= i -> l !! Z.to_nat i = Some v -> rd (Some ((Some <$> l) ++ r)) i = Ok v.
Proof.
  intros Hi Hl. unfold rd. rewrite lookup_app_l by (rewrite length_fmap; by eapply lookup_lt_Some).
  by rewrite list_lookup_fmap, Hl.
Qed.

Lemma new_arr_ok {T} k n : n * Z.of_nat k < 9223372036854775808 -> @new_arr T k n = Ok (replicate (Z.to_nat n) None).
Proof. intros Hn. unfold new_arr. by rewrite (proj2 (Z.leb_gt _ _)). Qed.

(** ** Files *)

(** The laws of an element type: its bytes have its size, and give it back. *)
Class ElemLaws (T : Type) `{Elem T} := {
  elem_ok : T -> Prop;
  esize_pos : (0 < esize)%nat;
  length_encode : forall x : T, length (encode x) = esize;
  decode_encode : forall x : T, elem_ok x -> decode (encode x) = x
}.
Definition u64_laws : @ElemLaws Z u64_elem.
Proof.
  refine {| elem_ok := fun z => 0 <= z < 18446744073709551616 |}; simpl.
  - lia.
  - done.
  - intros x Hx. rewrite le_combine_split. by apply Z.mod_small.
Defined.
Definition u32_laws : @ElemLaws Z u32_elem.
Proof.
  refine {| elem_ok := fun z => 0 <= z < 4294967296 |}; simpl.
  - lia.
  - done.
  - intros x Hx. rewrite le_combine_split. by apply Z.mod_small.
Defined.

Section files.
Context {T : Type} `{ElemLaws T}.
Notation bytes_of l := (concat (encode <$> l)).

Lemma length_bytes_of (l : list T) : length (bytes_of l) = (length l * esize)%nat.
Proof. apply length_concat_fixed, Forall_true, length_encode. Qed.

Lemma drop_bytes_of (l : list T) i : drop (i * esize) (bytes_of l) = bytes_of (drop i l).
Proof.
  destruct (decide (i <= length l)%nat) as [Hi|Hi].
  - rewrite <- (take_drop i l) at 1. rewrite fmap_app, concat_app. apply drop_app_here.
    rewrite length_bytes_of, length_take, Nat.min_l by lia. done.
  - rewrite (drop_ge l) by lia. rewrite drop_ge; [done|]. rewrite length_bytes_of. pose proof esize_pos. nia.
Qed.

Lemma records_bytes_of (l : list T) : forall n, (n <= length l)%nat -> records esize n (bytes_of l) = encode <$> take n l.
Proof.
  induction l as [|x l IH]; intros [|n] Hn; simpl in *; try done; [lia|].
  rewrite take_app_here, drop_app_here by (by rewrite length_encode). rewrite IH by lia. done.
Qed.

Lemma bin_length_bytes_of fs f (l : list T) : fs f = Some (bytes_of l) -> bin_length fs f = Z.of_nat (length l).
Proof.
  intros Hf. unfold bin_length. rewrite Hf, length_bytes_of, Nat2Z.inj_mul. apply Z.div_mul.
  pose proof esize_pos. lia.
Qed.

(** Reads [n] elements from element [off] on if there are so many. *)
Lemma load_bin_reads fs f (l : list T) off n :
  fs f = Some (bytes_of l) -> Forall elem_ok l -> 0 <= off -> 0 <= n ->
  off * Z.of_nat esize < 9223372036854775808 -> n * Z.of_nat esize < 9223372036854775808 ->
  load_bin fs f None off n =
    if (n =? 0) || (off + n <=? Z.of_nat (length l)) then Ok (n, Some (Some <$> take (Z.to_nat n) (drop (Z.to_nat off) l)))
    else Fault CheckFailed.
Proof.
  intros Hf Hok Hoff Hn Hbo Hbn. pose proof esize_pos as Hpos. unfold load_bin. rewrite Hf, new_arr_ok by done. cbn [mbind res_bind].
  assert ((if off =? 0 then 0 else wrap_i64 (wrap_u64 (off * Z.of_nat esize))) = off * Z.of_nat esize) as ->.
  { destruct (Z.eqb_spec off 0) as [->|_]; [done|]. rewrite wrap_u64_id by nia. apply wrap_i64_id. unfold is_i64. nia. }
  rewrite (proj2 (Z.leb_le 0 _)) by nia. cbn [CHECK mbind res_bind].
  replace (Z.to_nat (off * Z.of_nat esize)) with (Z.to_nat off * esize)%nat by lia.
  rewrite drop_bytes_of, length_bytes_of, length_drop, Nat2Z.inj_mul, Z.div_mul by lia.
  rewrite length_replicate, Z2Nat.id by lia. set (k := Z.min n (Z.of_nat (length l - Z.to_nat off))).
  rewrite (proj2 (Z.ltb_ge n k)) by lia. destruct (Z.eqb_spec k n) as [Hk|Hk]; cbn [CHECK mbind res_bind].
  - replace ((n =? 0) || (off + n <=? Z.of_nat (length l))) with true by lia. rewrite Hk. do 3 f_equal.
    rewrite (drop_ge (replicate _ _)) by (rewrite length_replicate; lia). rewrite app_nil_r, records_bytes_of by (rewrite length_drop; lia).
    f_equal. rewrite <- list_fmap_compose. rewrite (list_fmap_ext _ id), list_fmap_id; [done|].
    intros i x Hx. simpl. apply decode_encode. rewrite Forall_lookup in Hok.
    apply (Hok (Z.to_nat off + i)%nat). apply lookup_take_Some in Hx as [Hx _]. by rewrite lookup_drop in Hx.
  - by replace ((n =? 0) || (off + n <=? Z.of_nat (length l))) with false by lia.
Qed.

(** Writing, then reading everything. *)
Lemma save_load fs f (l : list T) :
  Forall elem_ok l -> Z.of_nat (length l) * Z.of_nat esize < 9223372036854775808 ->
  exists fs', save_bin true fs f l (Z.of_nat (length l)) = Ok (Z.of_nat (length l), fs') /\
    load_bin_all fs' f None = Ok (Z.of_nat (length l), Some (Some <$> l)).
Proof.
  intros Hok Hl. eexists. unfold save_bin. rewrite Z.ltb_irrefl. split; [done|]. cbn beta.
  rewrite Nat2Z.id, take_ge by lia. set (fs' := fun _ => _).
  assert (fs' f = Some (bytes_of l)) as Hf by (unfold fs'; by rewrite String.eqb_refl).
  unfold load_bin_all. rewrite (bin_length_bytes_of fs' f l Hf), (load_bin_reads fs' f l) by (done || lia).
  replace ((Z.of_nat (length l) =? 0) || (0 + Z.of_nat (length l) <=? Z.of_nat (length l))) with true by lia.
  by rewrite drop_0, Nat2Z.id, take_ge by lia.
Qed.
End files.

(** ** The rows of a matrix *)

Section rows.
Context {V : Type} `{Elem V}.
Notation row := (list (Z * V)).

(** Where each row starts, and the end of the last. *)
Definition offsets (rs : list row) : list Z :=
  (fun i => Z.of_nat (length (concat (take i rs)))) <$> seq 0 (S (length rs)).

(** [m] holds the rows [rs], with values if [hv]. *)
Record holds (m : RSpMat V) (rs : list row) (hv : bool) : Prop := {
  h_rows : Size (row_ m) = Z.of_nat (length rs);
  h_offset : exists junk, offset_ m = Some ((Some <$> offsets rs) ++ junk);
  h_index : exists junk, index_ m = Some ((Some <$> (concat rs).*1) ++ junk);
  h_value : if hv then exists junk, value_ m = Some ((Some <$> (concat rs).*2) ++ junk) else value_ m = None;
  h_nnz : exists n, nnz_ m = Some n /\ Z.of_nat (length (concat rs)) <= n
}.

Lemma length_offsets rs : length (offsets rs) = S (length rs).
Proof. unfold offsets. by rewrite length_fmap, length_seq. Qed.

Lemma offsets_lookup rs i :
  (i <= length rs)%nat -> offsets rs !! i = Some (Z.of_nat (length (concat (take i rs)))).
Proof. intros Hi. unfold offsets. rewrite list_lookup_fmap, lookup_seq_lt by lia. done. Qed.

Lemma offsets_snoc rs r : offsets (rs ++ [r]) = offsets rs ++ [Z.of_nat (length (concat (rs ++ [r])))].
Proof.
  unfold offsets. rewrite length_app, length_cons, Nat.add_comm, (seq_S (S (length rs))), fmap_app. f_equal.
  - apply list_fmap_ext. intros i x Hx. apply lookup_seq in Hx as [-> Hi]. do 2 f_equal.
    rewrite take_app_le by lia. done.
  - cbn [fmap list_fmap]. rewrite take_ge; [done|]. rewrite length_app. simpl. lia.
Qed.

(** An entry of a row among all entries. *)
Lemma concat_row_lookup (rs : list row) i r k e :
  rs !! i = Some r -> r !! k = Some e -> concat rs !! (length (concat (take i rs)) + k)%nat = Some e.
Proof.
  intros Hr He. rewrite <- (f_equal (@concat _) (take_drop_middle rs i r Hr)), concat_app. simpl.
  rewrite lookup_app_r by lia. replace (_ + k - _)%nat with k by lia.
  rewrite lookup_app_l; [done|]. by eapply lookup_lt_Some.
Qed.

Lemma concat_take_S (rs : list row) i r :
  rs !! i = Some r -> concat (take (S i) rs) = concat (take i rs) ++ r.
Proof. intros Hr. rewrite (take_S_r _ _ _ Hr), concat_app. simpl. by rewrite app_nil_r. Qed.

Lemma rd_offset m rs hv i :
  holds m rs hv -> (i <= length rs)%nat -> rd (offset_ m) (Z.of_nat i) = Ok (Z.of_nat (length (concat (take i rs)))).
Proof.
  intros [_ [junk ->] _ _ _] Hi. apply rd_at; [lia|]. rewrite Nat2Z.id. by apply offsets_lookup.
Qed.

(** ** Slicing *)

Section slice.
Context (w : Z) (isize : nat) (m : RSpMat V) (rs : list row) (hv : bool) (col : Range) (n : Z).
Hypothesis src : holds m rs hv.
Hypothesis nnz_is : nnz_ m = Some n.
Hypothesis fits_rows : (Z.of_nat (length rs) + 5) * 8 < 9223372036854775808.
Hypothesis fits_index : (n + 5) * Z.of_nat isize < 9223372036854775808.
Hypothesis fits_value : (n + 5) * Z.of_nat esize < 9223372036854775808.
Hypothesis nnz_small : n + 5 < 18446744073709551616.

(** An entry of the slice, and none for an entry outside. *)
Definition slice1 (e : Z * V) : row :=
  if In col e.1 then [(wrap_u64 (e.1 - start_ col) mod 2 ^ w, e.2)] else [].
Definition slice (r : row) : row := r ≫= slice1.

Lemma slice_snoc r e : slice (r ++ [e]) = slice r ++ slice1 e.
Proof. unfold slice. rewrite bind_app. simpl. by rewrite app_nil_r. Qed.

Lemma length_slice_le r : (length (slice r) <= length r)%nat.
Proof.
  induction r as [|e r IH] using rev_ind; [done|]. rewrite slice_snoc, !length_app. simpl.
  unfold slice1. case_match; simpl; lia.
Qed.

Definition cap : nat := Z.to_nat (n + 5).
Definition has_prefix {T} (a : option (arr T)) (l : list T) : Prop :=
  exists rest, a = Some ((Some <$> l) ++ rest) /\ (length l + length rest = cap)%nat.

(** The result so far, with the entries [done] written. *)
Record written (done : row) (res : RSpMat V) : Prop := {
  w_row : row_ res = row_ m;
  w_col : col_ res = col;
  w_nnz : nnz_ res = Some n;
  w_index : has_prefix (index_ res) done.*1;
  w_value : if hv then has_prefix (value_ res) done.*2 else value_ res = None
}.

Lemma wr_prefix {T} (a : option (arr T)) l v :
  has_prefix a l -> Z.of_nat (length l) < n + 5 ->
  exists a', wr a (Z.of_nat (length l)) v = Ok a' /\ has_prefix a' (l ++ [v]).
Proof.
  intros (rest & -> & Hc) Hl. unfold cap in Hc. destruct rest as [|x rest]; [simpl in Hc; lia|].
  rewrite wr_here by (by rewrite length_fmap). eexists. split; [done|]. exists rest. split.
  - f_equal. rewrite fmap_app, <- app_assoc. done.
  - rewrite length_app. simpl in *. unfold cap. lia.
Qed.

Lemma slice_entry_step done res j e :
  written done res -> concat rs !! j = Some e -> (length done <= j)%nat ->
  exists res', slice_entry w m col (Z.of_nat j) (res, Z.of_nat (length done)) =
      Ok (res', Z.of_nat (length (done ++ slice1 e))) /\
    written (done ++ slice1 e) res' /\ offset_ res' = offset_ res.
Proof.
  intros [Hr Hc Hn Hi Hv] He Hj. destruct src as [_ _ [ji Hsi] Hsv (n' & Hn' & Hle)].
  assert (n' = n) as -> by congruence. pose proof (lookup_lt_Some _ _ _ He) as Hlt.
  unfold slice_entry. rewrite Hsi, (rd_at (concat rs).*1 ji (Z.of_nat j) e.1)
    by (lia || (rewrite Nat2Z.id, list_lookup_fmap, He; done)).
  cbn [mbind res_bind]. unfold slice1. destruct (In col e.1).
  2: { exists res. rewrite app_nil_r. split_and!; [done| |done]. by split. }
  set (c := wrap_u64 (e.1 - start_ col) mod 2 ^ w).
  destruct (wr_prefix (index_ res) done.*1 c Hi) as (ia & Hia & Hpi); [rewrite length_fmap; lia|].
  rewrite length_fmap in Hia. rewrite Hia. cbn [mbind res_bind].
  assert (wrap_u64 (Z.of_nat (length done) + 1) = Z.of_nat (length (done ++ [(c, e.2)]))) as ->.
  { rewrite length_app. simpl length. rewrite wrap_u64_id; lia. }
  unfold has_value. simpl. destruct hv eqn:Ehv.
  - destruct Hsv as [jv ->]. rewrite (rd_at (concat rs).*2 jv (Z.of_nat j) e.2)
      by (lia || (rewrite Nat2Z.id, list_lookup_fmap, He; done)).
    cbn [mbind res_bind]. destruct (wr_prefix (value_ res) done.*2 e.2 Hv) as (va & Hva & Hpv); [rewrite length_fmap; lia|].
    rewrite length_fmap in Hva. rewrite Hva. cbn [mbind res_bind]. eexists. split; [done|]. split; [|done].
    split; rewrite ?Ehv, ?fmap_app; done.
  - rewrite Hsv. cbn [mbind res_bind]. eexists. split; [done|]. split; [|done]. split; rewrite ?Ehv, ?fmap_app; done.
Qed.

Notation srs := (slice <$> rs).

Lemma length_slices_le i : (length (concat (take i srs)) <= length (concat (take i rs)))%nat.
Proof.
  rewrite <- fmap_take. induction (take i rs) as [|r l IH]; [done|]. rewrite fmap_cons. cbn [concat].
  rewrite !length_app. pose proof (length_slice_le r). lia.
Qed.

(** The result after [i] rows. *)
Record rows_done (i : nat) (res : RSpMat V) : Prop := {
  rd_written : written (concat (take i srs)) res;
  rd_offsets : exists rest, offset_ res = Some ((Some <$> offsets (take i srs)) ++ rest) /\
    (S (length (take i srs)) + length rest = length rs + 5)%nat
}.

Lemma slice_row_step i res :
  (i < length rs)%nat -> rows_done i res ->
  exists res', slice_row w m col (Z.of_nat i) res = Ok res' /\ rows_done (S i) res'.
Proof.
  intros Hi [Hw (rest & Ho & Hlen)]. destruct (lookup_lt_is_Some_2 rs i Hi) as [r Hr].
  assert (length (take i srs) = i) as Hti by (rewrite length_take, length_fmap; lia).
  unfold slice_row. rewrite Ho, (rd_at (offsets (take i srs)) rest (Z.of_nat i) (Z.of_nat (length (concat (take i srs)))))
    by (lia || (rewrite Nat2Z.id, offsets_lookup by lia; rewrite take_take, Nat.min_id; done)).
  cbn [mbind res_bind]. rewrite (rd_offset m rs hv i src) by lia. cbn [mbind res_bind].
  replace (Z.of_nat i + 1) with (Z.of_nat (S i)) by lia. rewrite (rd_offset m rs hv (S i) src) by lia. cbn [mbind res_bind].
  set (lo := Z.of_nat (length (concat (take i rs)))). set (done0 := concat (take i srs)) in *.
  replace (Z.of_nat (length (concat (take (S i) rs))) - lo) with (Z.of_nat (length r))
    by (subst lo; rewrite (concat_take_S _ _ _ Hr), length_app; lia).
  destruct (foldM_ind (fun pre st => let d := done0 ++ slice (take (length pre) r) in
      written d st.1 /\ st.2 = Z.of_nat (length d) /\ offset_ st.1 = offset_ res)
    (slice_entry w m col) (seqZ lo (Z.of_nat (length r))) (res, Z.of_nat (length done0))) as ([res1 o1] & -> & Hres1).
  { simpl. change (slice []) with (@nil (Z * V)). by rewrite app_nil_r. }
  { intros pre x suf [res1 o1] Hseq (Hw1 & Ho1 & Hoff1). simpl in Hw1, Ho1, Hoff1. subst o1.
    apply seqZ_at in Hseq as [-> Hk]. destruct (lookup_lt_is_Some_2 r (length pre) ltac:(lia)) as [e He].
    pose proof (concat_row_lookup rs i r (length pre) e Hr He) as Hj.
    destruct (slice_entry_step _ res1 _ e Hw1 Hj) as (res2 & Hs & Hw2 & Hoff2).
    { rewrite length_app. pose proof (length_slices_le i). pose proof (length_slice_le (take (length pre) r)) as Hle.
      rewrite length_take in Hle. subst done0. lia. }
    subst lo. rewrite <- Nat2Z.inj_add, Hs. eexists. split; [done|]. simpl.
    rewrite length_app, Nat.add_1_r, (take_S_r _ _ _ He), slice_snoc, app_assoc. split_and!; [done..|congruence]. }
  destruct Hres1 as (Hw1 & Ho1 & Hoff1). simpl in Hw1, Ho1, Hoff1. cbn [mbind res_bind].
  rewrite length_seqZ, Nat2Z.id, take_ge in Hw1, Ho1 by lia.
  assert (concat (take (S i) srs) = done0 ++ slice r) as Hcat.
  { subst done0. apply concat_take_S. by rewrite list_lookup_fmap, Hr. }
  destruct rest as [|x rest]; [simpl in Hlen; lia|].
  rewrite Hoff1, Ho, (wr_here (Some <$> offsets (take i srs)) x rest o1 (Z.of_nat (S i)))
    by (rewrite length_fmap, length_offsets, Hti; done).
  cbn [mbind res_bind]. eexists. split; [done|]. split.
  - rewrite Hcat. by destruct Hw1.
  - exists rest. cbn [offset_ set_offset]. assert (srs !! i = Some (slice r)) as Hsi by (by rewrite list_lookup_fmap, Hr).
    rewrite (take_S_r _ _ _ Hsi), offsets_snoc, fmap_app, <- app_assoc, length_app, Hti.
    split; [|simpl in *; lia]. subst o1. by rewrite <- Hcat, (take_S_r _ _ _ Hsi).
Qed.

Lemma init_done res : rs <> [] -> exists res', Init isize res (row_ m) col n hv = Ok res' /\ rows_done 0 res'.
Proof.
  intros Hne. destruct src as [Hrows _ _ _ (n' & Hn' & Hle)]. assert (n' = n) as -> by congruence.
  assert (0 < length rs)%nat as Hpos by (destruct rs; simpl; [done|lia]).
  unfold Init. rewrite Hrows, !wrap_u64_id by lia.
  rewrite !new_arr_ok by lia. cbn [mbind res_bind].
  rewrite length_replicate, (proj2 (Nat.ltb_ge _ _)) by lia.
  assert (forall T, @has_prefix T (Some (replicate (Z.to_nat (n + 5)) None)) []) as Hpre.
  { intros T. eexists. split; [done|]. by rewrite length_replicate. }
  assert (exists rest, Some (replicate (Z.to_nat (Z.of_nat (length rs))) (Some 0) ++
      drop (Z.to_nat (Z.of_nat (length rs))) (replicate (Z.to_nat (Z.of_nat (length rs) + 5)) None)) =
    Some ((Some <$> offsets []) ++ rest) /\ (1 + length rest = length rs + 5)%nat) as Hoff.
  { rewrite Nat2Z.id. destruct (length rs) as [|k]; [lia|]. eexists. split; [done|].
    rewrite length_app, length_drop, !length_replicate. lia. }
  destruct hv eqn:Ehv; cbn [mbind res_bind]; (eexists; split; [done|]; split; [split; rewrite ?Ehv; done || apply Hpre|exact Hoff]).
Qed.

Lemma vslice_runs res :
  rs <> [] -> SupsetEq (col_ m) col = true ->
  exists res', VSlice w isize m col res = Ok res' /\ holds res' srs hv /\ row_ res' = row_ m /\ col_ res' = col /\ nnz_ res' = Some n.
Proof.
  intros Hne Hsup. unfold VSlice. rewrite Hsup. cbn [CHECK mbind res_bind]. unfold nnz. rewrite nnz_is. cbn [mbind res_bind].
  assert (has_value m = hv) as ->.
  { destruct src as [_ _ _ Hv _]. unfold has_value. destruct hv; [by destruct Hv as [? ->]|by rewrite Hv]. }
  destruct (init_done res Hne) as (res0 & -> & H0). cbn [mbind res_bind].
  unfold rows. rewrite (h_rows _ _ _ src).
  destruct (foldM_ind (fun pre r => rows_done (length pre) r) (slice_row w m col) (seqZ 0 (Z.of_nat (length rs))) res0)
    as (res1 & Hf & Hd); [done| |].
  { intros pre x suf r1 Hseq Hr1. apply seqZ_at in Hseq as [-> Hk]. rewrite Z.add_0_l, length_app, Nat.add_1_r.
    apply slice_row_step; [lia|done]. }
  exists res1. split; [done|]. rewrite length_seqZ, Nat2Z.id in Hd. destruct Hd as [[H1 H2 H3 H4 H5] (rest & Ho & _)].
  rewrite (take_ge srs) in H4, H5, Ho by (rewrite length_fmap; lia). split_and!; try done.
  destruct src as [Hrows _ _ _ (n' & Hn' & Hle)]. assert (n' = n) as -> by congruence. split.
  - rewrite H1, length_fmap. done.
  - eauto.
  - destruct H4 as (junk & -> & _). by exists junk.
  - destruct hv; [|done]. destruct H5 as (junk & -> & _). by exists junk.
  - exists n. split; [done|]. pose proof (length_slices_le (length rs)) as Hl.
    rewrite !take_ge in Hl by (rewrite ?length_fmap; lia). lia.
Qed.
End slice.

(** ** Loading *)

(** A block of consecutive rows. *)
Definition block (a b : nat) (rs : list row) : list row := take (b - a) (drop a rs).
Definition offset_at (rs : list row) (i : nat) : Z := Z.of_nat (length (concat (take i rs))).

Lemma concat_block rs a b :
  (a <= b)%nat -> concat rs = concat (take a rs) ++ concat (block a b rs) ++ concat (drop b rs).
Proof.
  intros Hab. unfold block. rewrite <- !concat_app. f_equal.
  rewrite <- (take_drop a rs) at 1. f_equal. rewrite <- (take_drop (b - a) (drop a rs)) at 1. f_equal.
  rewrite drop_drop. f_equal. lia.
Qed.

Lemma offset_block rs a i : offset_at rs (a + i) - offset_at rs a = Z.of_nat (length (concat (take i (drop a rs)))).
Proof.
  unfold offset_at. rewrite <- (take_take_drop rs a i), concat_app, length_app. lia.
Qed.

Lemma offset_at_bounds rs i : 0 <= offset_at rs i <= Z.of_nat (length (concat rs)).
Proof.
  unfold offset_at. split; [lia|]. rewrite <- (f_equal (@concat _) (take_drop i rs)). rewrite concat_app, length_app. lia.
Qed.

Lemma offset_at_mono rs a b : (a <= b)%nat -> offset_at rs a <= offset_at rs b.
Proof. intros Hab. pose proof (offset_block rs a (b - a)) as Ho. replace (a + (b - a))%nat with b in Ho by lia. lia. Qed.

Lemma offsets_block rs a b :
  (a <= b <= length rs)%nat ->
  (fun o => o - offset_at rs a) <$> take (S (b - a)) (drop a (offsets rs)) = offsets (block a b rs).
Proof.
  intros Hab. assert (length (block a b rs) = b - a)%nat as Hlen by (unfold block; rewrite length_take, length_drop; lia).
  apply list_eq_same_length with (n := S (b - a)).
  - by rewrite length_offsets, Hlen.
  - rewrite length_fmap, length_take, length_drop, length_offsets. lia.
  - intros i x y Hi Hx Hy. rewrite offsets_lookup in Hy by lia. injection Hy as <-.
    rewrite list_lookup_fmap, lookup_take_lt, lookup_drop, offsets_lookup in Hx by lia. injection Hx as <-.
    change (Z.of_nat (length (concat (take (a + i) rs)))) with (offset_at rs (a + i)). rewrite offset_block.
    unfold block. by rewrite take_take, Nat.min_l by lia.
Qed.

(** What is read from the entries: the block's, and then some of the next rows'. *)
Lemma entries_block {T} (f : Z * V -> T) rs a b :
  (a <= b <= length rs)%nat ->
  exists junk, take (Z.to_nat (offset_at rs b)) (drop (Z.to_nat (offset_at rs a)) (f <$> concat rs)) =
    (f <$> concat (block a b rs)) ++ junk.
Proof.
  intros Hab. rewrite (concat_block rs a b) by lia. rewrite !fmap_app. unfold offset_at. rewrite !Nat2Z.id.
  rewrite drop_app_here by (by rewrite length_fmap).
  replace (length (concat (take b rs))) with (length (f <$> concat (block a b rs)) + length (concat (take a rs)))%nat.
  { rewrite take_app_add'; [eauto|done]. }
  rewrite length_fmap. pose proof (offset_block rs a (b - a)) as Ho. unfold offset_at in Ho.
  replace (a + (b - a))%nat with b in Ho by lia. unfold block. lia.
Qed.

(** ** Matrices on disk *)

(** The text of the size file: rows from 0 to [nr], columns from [c0] to [c1]. *)
Definition size_text (nr c0 c1 : Z) : string :=
  pretty 0 +:+ (" " +:+ pretty nr +:+ (" " +:+ pretty c0 +:+ (" " +:+ pretty c1 +:+ "
"))).

Lemma size_text_numbers nr c0 c1 :
  0 <= nr < 18446744073709551616 -> 0 <= c0 < 18446744073709551616 -> 0 <= c1 < 18446744073709551616 ->
  extract_u64s 2 (Some (size_text nr c0 c1)) = [0; nr] /\ extract_u64s 4 (Some (size_text nr c0 c1)) = [0; nr; c0; c1].
Proof.
  intros Hr H0 H1. unfold size_text. cbn [extract_u64s]. rewrite extract_u64_pretty by (done || lia).
  rewrite !extract_u64_space by (done || lia). done.
Qed.

(** The four files of the matrix with rows [rs]: no value file unless [hv]. *)
Record stored (I : Elem Z) (fs : Files) (name : string) (c0 c1 : Z) (rs : list row) (hv : bool) : Prop := {
  st_size : fs (name +:+ ".size") = Some (String.list_byte_of_string (size_text (Z.of_nat (length rs)) c0 c1));
  st_rows : fs (name +:+ ".rowcnt") = Some (concat (encode (Elem := u64_elem) <$> offsets rs));
  st_cols : fs (name +:+ ".colidx") = Some (concat (encode (Elem := I) <$> (concat rs).*1));
  st_values : fs (name +:+ ".value") = if hv then Some (concat (encode (T := V) <$> (concat rs).*2)) else None
}.

(** Subtracts the first offset from every one. *)
Lemma shift_offsets_runs (l : list Z) s k :
  length l = S k -> Forall (fun o => s <= o < 18446744073709551616) l -> 0 <= s ->
  shift_offsets s (Z.of_nat k) (Some (Some <$> l)) = Ok (Some (Some <$> ((fun o => o - s) <$> l))).
Proof.
  intros Hl Hok Hs. unfold shift_offsets.
  destruct (foldM_ind (fun pre a => a = Some (Some <$> ((fun o => o - s) <$> take (length pre) l) ++ drop (length pre) l))
    (fun i a => o ← rd a i; wr a i (wrap_u64 (o - s))) (seqZ 0 (Z.of_nat k + 1)) (Some (Some <$> l))) as (a & -> & ->).
  - done.
  - intros pre x suf a Hseq ->. apply seqZ_at in Hseq as [-> Hk]. rewrite Z.add_0_l.
    destruct (lookup_lt_is_Some_2 l (length pre) ltac:(lia)) as [o Ho].
    assert (length ((fun o => o - s) <$> take (length pre) l) = length pre) as Hlen.
    { rewrite length_fmap, length_take. apply lookup_lt_Some in Ho. lia. }
    rewrite fmap_app. rewrite (drop_S _ _ _ Ho). rewrite fmap_cons.
    eexists. split.
    + unfold rd. rewrite Nat2Z.id, list_lookup_middle by (by rewrite length_fmap). cbn [mbind res_bind].
      apply wr_here. by rewrite length_fmap, Hlen.
    + rewrite length_app, Nat.add_1_r, (take_S_r _ _ _ Ho), !fmap_app, <- app_assoc. simpl. do 4 f_equal.
      rewrite Forall_lookup in Hok. specialize (Hok _ _ Ho). apply wrap_u64_id. lia.
  - rewrite length_seqZ. rewrite take_ge, drop_ge by lia. by rewrite app_nil_r.
Qed.
End rows.

Section load.
Context {V : Type} `{ElemLaws V} (I : Elem Z) (IL : @ElemLaws Z I).
Notation row := (list (Z * V)).
Context (fs : Files) (name : string) (c0 c1 : Z) (rs : list row) (hv : bool).
Hypothesis on_disk : stored I fs name c0 c1 rs hv.
Hypothesis some_rows : rs <> [].
Hypothesis some_cols : 0 <= c0 < c1 /\ c1 < 18446744073709551616.
Hypothesis cols_ok : Forall (fun e : Z * V => elem_ok (ElemLaws := IL) e.1 /\ elem_ok e.2) (concat rs).
Hypothesis rows_fit : (Z.of_nat (length rs) + 1) * 8 < 9223372036854775808.
Hypothesis cols_fit : Z.of_nat (length (concat rs)) * Z.of_nat (esize (Elem := I)) < 9223372036854775808.
Hypothesis vals_fit : Z.of_nat (length (concat rs)) * Z.of_nat (esize (T := V)) < 9223372036854775808.

Notation nr := (Z.of_nat (length rs)).
Notation ne := (Z.of_nat (length (concat rs))).

Lemma ne_small : ne < 9223372036854775808.
Proof. pose proof (esize_pos (T := V)). nia. Qed.

Lemma segs : RowSeg fs name = Ok (mkRange 0 nr) /\ ColSeg fs name = Ok (mkRange c0 c1).
Proof.
  destruct (size_text_numbers nr c0 c1) as [H2 H4]; [lia..|]. unfold RowSeg, ColSeg, size_file.
  rewrite (st_size _ _ _ _ _ _ _ on_disk). cbn [mbind res_bind].
  rewrite String.string_of_list_byte_of_string, H2, H4. unfold Valid. simpl.
  rewrite (proj2 (Z.ltb_lt 0 nr)), (proj2 (Z.ltb_lt c0 c1)); [done|lia|]. destruct rs; [done|simpl; lia].
Qed.

Lemma load_offsets a b :
  (a <= b <= length rs)%nat ->
  load_bin (H := u64_elem) fs (name +:+ ".rowcnt") None (wrap_i64 (Z.of_nat a)) (wrap_u64 (Z.of_nat (b - a) + 1)) =
    Ok (Z.of_nat (b - a) + 1, Some (Some <$> take (S (b - a)) (drop a (offsets rs)))).
Proof.
  intros Hab. rewrite wrap_i64_id by (unfold is_i64; lia). rewrite wrap_u64_id by lia.
  rewrite (load_bin_reads (H := u64_elem) (H0 := u64_laws) fs _ (offsets rs));
    [|apply (st_rows _ _ _ _ _ _ _ on_disk)| |simpl; lia..].
  - rewrite length_offsets, (proj2 (Z.leb_le (Z.of_nat a + _) _)), orb_true_r by lia.
    replace (Z.to_nat (Z.of_nat (b - a) + 1)) with (S (b - a)) by lia. by rewrite Nat2Z.id.
  - apply Forall_lookup. intros i o Ho. unfold offsets in Ho. rewrite list_lookup_fmap in Ho.
    destruct (seq 0 _ !! i) as [j|]; [|done]. injection Ho as <-. simpl. pose proof (offset_at_bounds rs j) as Hb.
    unfold offset_at in Hb. pose proof ne_small. lia.
Qed.

(** One of the two arrays with an element per entry. *)
Lemma load_entries {T} `{ElemLaws T} f (g : Z * V -> T) a b :
  fs f = Some (concat (encode <$> (g <$> concat rs))) -> Forall elem_ok (g <$> concat rs) ->
  ne * Z.of_nat (esize (T := T)) < 9223372036854775808 -> (a <= b <= length rs)%nat ->
  if offset_at rs a + offset_at rs b <=? ne
  then exists junk, load_bin fs f None (wrap_i64 (offset_at rs a)) (offset_at rs b) =
    Ok (offset_at rs b, Some ((Some <$> (g <$> concat (block a b rs))) ++ junk))
  else load_bin fs f None (wrap_i64 (offset_at rs a)) (offset_at rs b) = Fault CheckFailed.
Proof.
  intros Hf Hok Hfit Hab. pose proof (offset_at_bounds rs a). pose proof (offset_at_bounds rs b). pose proof ne_small.
  rewrite wrap_i64_id by (unfold is_i64; lia).
  rewrite (load_bin_reads fs f (g <$> concat rs)) by (done || lia || (pose proof (esize_pos (T := T)); nia)).
  rewrite length_fmap. pose proof (offset_at_mono rs a b ltac:(lia)).
  destruct (Z.leb_spec (offset_at rs a + offset_at rs b) ne).
  - rewrite orb_true_r. destruct (entries_block g rs a b Hab) as [junk ->]. exists (Some <$> junk). by rewrite fmap_app.
  - rewrite orb_false_r. by rewrite (proj2 (Z.eqb_neq _ _)) by lia.
Qed.

(** The rows asked for: all of them, or those from [a] to [b]. *)
Definition asks (req : Range) (a b : nat) : Prop :=
  (a <= b <= length rs)%nat /\
  (req = All /\ a = O /\ b = length rs \/ req = mkRange (Z.of_nat a) (Z.of_nat b)).

Lemma asked_rows req a b :
  asks req a b ->
  (if range_eq req All then Ok (mkRange 0 nr) else CHECK (SubsetEq req (mkRange 0 nr));; Ok req) =
    Ok (mkRange (Z.of_nat a) (Z.of_nat b)).
Proof.
  intros [Hab [(-> & -> & ->)| ->]]; [done|]. unfold range_eq, SubsetEq. simpl.
  replace ((Z.of_nat a =? 1) && (Z.of_nat b =? 0)) with false by lia.
  by replace ((0 <=? Z.of_nat a) && (Z.of_nat b <=? nr)) with true by lia.
Qed.

Lemma first_last a b i :
  (a <= b <= length rs)%nat -> (i <= b - a)%nat ->
  rd (Some (Some <$> take (S (b - a)) (drop a (offsets rs)))) (Z.of_nat i) = Ok (offset_at rs (a + i)).
Proof.
  intros Hab Hi. rewrite <- (app_nil_r (Some <$> _)). apply rd_at; [lia|].
  rewrite Nat2Z.id, lookup_take_lt, lookup_drop, offsets_lookup by lia. done.
Qed.

Lemma shifted a b :
  (a <= b <= length rs)%nat ->
  (if offset_at rs a =? 0 then Ok (Some (Some <$> take (S (b - a)) (drop a (offsets rs))))
   else shift_offsets (offset_at rs a) (Z.of_nat (b - a)) (Some (Some <$> take (S (b - a)) (drop a (offsets rs))))) =
    Ok (Some (Some <$> offsets (block a b rs))).
Proof.
  intros Hab. rewrite <- (offsets_block rs a b Hab). destruct (Z.eqb_spec (offset_at rs a) 0) as [Hz|_].
  - rewrite Hz. do 3 f_equal. rewrite (list_fmap_ext _ id), list_fmap_id; [done|]. intros i x _. simpl. lia.
  - apply shift_offsets_runs.
    + rewrite length_take, length_drop, length_offsets. lia.
    + apply Forall_lookup. intros i o Ho. apply lookup_take_Some in Ho as [Ho Hi].
      rewrite lookup_drop, offsets_lookup in Ho by lia. injection Ho as <-.
      change (offset_at rs a <= offset_at rs (a + i) < 18446744073709551616).
      pose proof (offset_at_bounds rs (a + i)). pose proof ne_small. pose proof (offset_at_mono rs a (a + i)). lia.
    + apply offset_at_bounds.
Qed.

Lemma cols_elems : Forall (elem_ok (ElemLaws := IL)) (fst <$> concat rs).
Proof. apply Forall_fmap. eapply List.Forall_impl; [|exact cols_ok]. by intros e [? _]. Qed.
Lemma vals_elems : Forall elem_ok (snd <$> concat rs).
Proof. apply Forall_fmap. eapply List.Forall_impl; [|exact cols_ok]. by intros e [_ ?]. Qed.

Lemma load_block m req a b :
  asks req a b ->
  if offset_at rs a + offset_at rs b <=? ne
  then exists m', Load I fs m name req = Ok m' /\ holds m' (block a b rs) (hv && (0 <? ne)) /\
    row_ m' = mkRange (Z.of_nat a) (Z.of_nat b) /\ col_ m' = mkRange c0 c1 /\ nnz_ m' = Some (offset_at rs b)
  else Load I fs m name req = Fault CheckFailed.
Proof.
  intros Hreq. pose proof Hreq as [Hab _]. destruct segs as [Hrs Hcs]. unfold Load.
  rewrite Hrs. cbn [mbind res_bind]. rewrite (asked_rows req a b Hreq). cbn [mbind res_bind]. rewrite Hcs. cbn [mbind res_bind].
  assert (Size (mkRange (Z.of_nat a) (Z.of_nat b)) = Z.of_nat (b - a)) as Hsz.
  { unfold Size. simpl. rewrite wrap_u64_id; lia. }
  assert (Size (mkRange 0 nr) = nr) as -> by (unfold Size; simpl; rewrite wrap_u64_id; lia).
  rewrite Hsz. rewrite (bin_length_bytes_of (H := u64_elem) (H0 := u64_laws) fs _ (offsets rs)) by apply (st_rows _ _ _ _ _ _ _ on_disk).
  assert (wrap_u64 (Z.of_nat (length (offsets rs)) - 1) = nr) as -> by (rewrite length_offsets, wrap_u64_id; lia).
  rewrite Z.eqb_refl. cbn [CHECK mbind res_bind start_ Clear offset_ index_ value_].
  rewrite (load_offsets a b Hab). cbn [mbind res_bind].
  pose proof (first_last a b 0 Hab ltac:(lia)) as H1. pose proof (first_last a b (b - a) Hab ltac:(lia)) as H2.
  change (Z.of_nat 0) with 0 in H1. rewrite H1. cbn [mbind res_bind]. rewrite H2. cbn [mbind res_bind].
  rewrite Nat.add_0_r. replace (a + (b - a))%nat with b by lia.
  pose proof (load_entries (H1 := I) (H2 := IL) _ fst a b (st_cols _ _ _ _ _ _ _ on_disk) cols_elems cols_fit Hab) as Hci.
  destruct (Z.leb_spec (offset_at rs a + offset_at rs b) ne) as [Hle|Hgt]; [|by rewrite Hci].
  destruct Hci as [ji ->]. cbn [mbind res_bind].
  assert (exists va, (if bin_length (T := V) fs (name +:+ ".value") =? 0 then Ok None
      else '(_, value) ← load_bin (T := V) fs (name +:+ ".value") None (wrap_i64 (offset_at rs a)) (offset_at rs b); Ok value) = Ok va /\
    if hv && (0 <? ne) then exists junk, va = Some ((Some <$> (concat (block a b rs)).*2) ++ junk) else va = None) as (va & Hva & Hval).
  { pose proof (st_values _ _ _ _ _ _ _ on_disk) as Hv. destruct hv.
    - rewrite (bin_length_bytes_of fs _ _ Hv), length_fmap. destruct (Z.eqb_spec ne 0) as [Hz|Hnz].
      + exists None. by rewrite Hz.
      + replace (0 <? ne) with true by lia. pose proof (load_entries _ snd a b Hv vals_elems vals_fit Hab) as Hvi.
        rewrite (proj2 (Z.leb_le _ _) Hle) in Hvi. destruct Hvi as [jv ->]. simpl. eauto.
    - unfold bin_length. rewrite Hv. by exists None. }
  rewrite Hva. cbn [mbind res_bind]. rewrite (shifted a b Hab). cbn [mbind res_bind]. eexists. split; [done|]. split; [|done].
  split; simpl.
  - rewrite Hsz. unfold block. rewrite length_take, length_drop. lia.
  - exists []. by rewrite app_nil_r.
  - by exists ji.
  - exact Hval.
  - eexists. split; [done|]. pose proof (offset_block rs a (b - a)) as Ho. replace (a + (b - a))%nat with b in Ho by lia.
    pose proof (offset_at_bounds rs a). unfold block. lia.
Qed.
End load.

(** ** Main results *)

(** The reference: the entries of a row that lie in the columns [col], numbered
    from its start. *)
Definition slice_ref {V} (col : Range) (r : list (Z * V)) : list (Z * V) :=
  (fun e => (e.1 - start_ col, e.2)) <$> filter (fun e => start_ col <= e.1 < end_ col) r.

Lemma slice_is_ref {V} w col (r : list (Z * V)) :
  0 <= start_ col -> end_ col < 18446744073709551616 -> end_ col - start_ col <= 2 ^ w ->
  slice w col r = slice_ref col r.
Proof.
  intros H0 H1 Hw. unfold slice, slice_ref. induction r as [|e r IH]; [done|]. rewrite bind_cons, IH, filter_cons.
  unfold slice1, In. case_decide as Hin.
  - replace ((start_ col <=? e.1) && (e.1 <? end_ col)) with true by lia. rewrite fmap_cons. simpl.
    by rewrite wrap_u64_id, Z.mod_small by lia.
  - by replace ((start_ col <=? e.1) && (e.1 <? end_ col)) with false by lia.
Qed.

(** C39. Slicing is a filter of every row: on a matrix that holds the rows [rs], with
    or without values, taking the columns [col] into a matrix with indices of [w]
    bits succeeds, without leaving an array, exactly when the matrix has those
    columns; the result has the same rows, cut to the entries in [col] with their
    columns counted from its start - provided the slice is at most 2^w wide, since
    the narrower index type cuts the columns otherwise. The entry count it reports
    is still the source's. *)
Theorem vslice_slices {V} `{Elem V} w isize (m res : RSpMat V) rs hv col n :
  holds m rs hv -> nnz_ m = Some n -> rs <> [] ->
  (Z.of_nat (length rs) + 5) * 8 < 9223372036854775808 ->
  (n + 5) * Z.of_nat isize < 9223372036854775808 -> (n + 5) * Z.of_nat esize < 9223372036854775808 ->
  n + 5 < 18446744073709551616 ->
  0 <= start_ col -> end_ col < 18446744073709551616 -> end_ col - start_ col <= 2 ^ w ->
  if SupsetEq (col_ m) col
  then exists res', VSlice w isize m col res = Ok res' /\ holds res' (slice_ref col <$> rs) hv /\
    row_ res' = row_ m /\ col_ res' = col /\ nnz_ res' = Some n
  else VSlice w isize m col res = Fault CheckFailed.
Proof.
  intros Hm Hn Hne Hr Hi Hv Hsm H0 H1 Hw. destruct (SupsetEq (col_ m) col) eqn:Hsup.
  - destruct (vslice_runs w isize m rs hv col n Hm Hn Hr Hi Hv Hsm res Hne Hsup) as (res' & Hs & Hh & Hrest).
    exists res'. split; [done|]. split; [|done].
    by rewrite (list_fmap_ext _ (slice w col)) by (intros; symmetry; by apply slice_is_ref).
  - unfold VSlice. by rewrite Hsup.
Qed.

(** C38. Loading rows [a] to [b] of a matrix on disk: the offsets read say where
    the entries start, at [offset_at rs a], and where they end, at [offset_at rs b],
    but that end is passed as the number of entries to read. So the call succeeds
    exactly when the file has that many entries from the start on; it then holds
    the rows asked for, with values if the file has any, and reports the end offset
    as its entry count. Loading all rows, or a block from the first row, always
    works; a block whose first row is preceded by entries aborts when it reaches
    the last row. *)
Theorem load_row_block {V} `{ElemLaws V} (I : Elem Z) (IL : @ElemLaws Z I) fs name c0 c1 (rs : list (list (Z * V))) hv m req a b :
  stored I fs name c0 c1 rs hv -> rs <> [] -> 0 <= c0 < c1 /\ c1 < 18446744073709551616 ->
  Forall (fun e : Z * V => elem_ok (ElemLaws := IL) e.1 /\ elem_ok e.2) (concat rs) ->
  (Z.of_nat (length rs) + 1) * 8 < 9223372036854775808 ->
  Z.of_nat (length (concat rs)) * Z.of_nat (esize (Elem := I)) < 9223372036854775808 ->
  Z.of_nat (length (concat rs)) * Z.of_nat (esize (T := V)) < 9223372036854775808 ->
  asks rs req a b ->
  let entries := Z.of_nat (length (concat rs)) in
  (if offset_at rs a + offset_at rs b <=? entries
   then exists m', Load I fs m name req = Ok m' /\ holds m' (block a b rs) (hv && (0 <? entries)) /\
     row_ m' = mkRange (Z.of_nat a) (Z.of_nat b) /\ col_ m' = mkRange c0 c1 /\ nnz_ m' = Some (offset_at rs b)
   else Load I fs m name req = Fault CheckFailed) /\
  (a = O -> offset_at rs a + offset_at rs b <= entries) /\
  (b = length rs -> 0 < offset_at rs a -> entries < offset_at rs a + offset_at rs b).
Proof.
  intros Hst Hne Hc Hok Hr Hi Hv Hreq entries. split; [|split].
  - exact (load_block I IL fs name c0 c1 rs hv Hst Hne Hc Hok Hr Hi Hv m req a b Hreq).
  - intros ->. pose proof (offset_at_bounds rs b). change (offset_at rs 0) with 0. subst entries. lia.
  - intros -> Ha. unfold offset_at at 2. rewrite take_ge by lia. subst entries. lia.
Qed.

(** The parts of an even division: for [n > 0] parts of a range of at least the
    minimal size, part [i < n] is the [i]-th of [n] consecutive intervals of equal
    length; together they cover the range up to its last [size mod n] positions,
    which belong to no part. *)
Theorem even_divide_parts r n min_seg :
  0 <= start_ r <= end_ r -> end_ r < 18446744073709551616 -> 0 < n -> 0 <= min_seg <= end_ r - start_ r ->
  let itv := (end_ r - start_ r) / n in
  (forall i, 0 <= i < n -> EvenDivide r n i min_seg = Ok (mkRange (start_ r + itv * i) (start_ r + itv * (i + 1)))) /\
  (forall v, (exists i p, 0 <= i < n /\ EvenDivide r n i min_seg = Ok p /\ In p v = true) <->
     start_ r <= v < end_ r - (end_ r - start_ r) mod n).
Proof.
  intros Hr He Hn Hmin itv.
  assert (0 <= itv /\ itv * n = end_ r - start_ r - (end_ r - start_ r) mod n) as [Hitv Hcov].
  { unfold itv. split; [apply Z.div_pos; lia|]. pose proof (Z.div_mod (end_ r - start_ r) n). lia. }
  pose proof (Z.mod_pos_bound (end_ r - start_ r) n Hn) as Hmod.
  assert (forall i, 0 <= i < n -> EvenDivide r n i min_seg = Ok (mkRange (start_ r + itv * i) (start_ r + itv * (i + 1)))) as Hparts.
  { intros i Hi. unfold EvenDivide. rewrite (proj2 (Z.ltb_lt i n)) by lia. cbn [CHECK mbind res_bind].
    assert (itv * i <= itv * n /\ itv * (i + 1) <= itv * n /\ 0 <= itv * i) as (H1 & H2 & H3) by nia.
    rewrite (wrap_u64_id (end_ r - start_ r)) by lia. rewrite (proj2 (Z.ltb_ge _ min_seg)) by lia. fold itv.
    destruct (decide (itv = 0)) as [Hz|Hnz].
    - rewrite Hz, !Z.mul_0_l. change (wrap_u64 0) with 0. rewrite wrap_u64_id by lia.
      do 2 f_equal; lia.
    - assert (i + 1 < 18446744073709551616) as Hi64 by nia.
      rewrite (wrap_u64_id (i + 1)), (wrap_u64_id (itv * i)), (wrap_u64_id (itv * (i + 1))) by lia.
      rewrite !wrap_u64_id by lia. do 2 f_equal; lia. }
  split; [done|]. intros v. split.
  - intros (i & p & Hi & Hp & Hin). rewrite Hparts in Hp by done. injection Hp as <-. unfold In in Hin. simpl in Hin.
    assert (itv * (i + 1) <= itv * n /\ 0 <= itv * i) as [H1 H2] by nia. lia.
  - intros Hv. assert (0 < itv) as Hpos by nia. exists ((v - start_ r) / itv).
    pose proof (Z.div_mod (v - start_ r) itv ltac:(lia)). pose proof (Z.mod_pos_bound (v - start_ r) itv Hpos).
    assert (0 <= (v - start_ r) / itv < n) as Hi by nia. eexists. split; [done|]. split; [by apply Hparts|].
    unfold In. simpl. lia.
Qed.

(** ** A concrete matrix *)

#[local] Existing Instance u64_elem.
#[local] Existing Instance u64_laws.

(** Three rows, columns 0 to 4, with integer values. *)
Definition demo_rows : list (list (Z * Z)) := [[(0, 5); (2, 7)]; [(1, 8)]; [(3, 9)]].
Definition demo_files : Files := fun f =>
  if decide (f = "m.size") then Some (String.list_byte_of_string (size_text 3 0 4))
  else if decide (f = "m.rowcnt") then Some (concat (encode <$> [0; 2; 3; 4]))
  else if decide (f = "m.colidx") then Some (concat (encode <$> [0; 2; 1; 3]))
  else if decide (f = "m.value") then Some (concat (encode <$> [5; 7; 8; 9]))
  else None.
Definition demo_matrix : RSpMat Z :=
  mkRSpMat (mkRange 0 3) (mkRange 0 4) (Some 4) (Some (Some <$> [0; 2; 3; 4])) (Some (Some <$> [0; 2; 1; 3]))
    (Some (Some <$> [5; 7; 8; 9])).

Lemma demo_stored : stored u64_elem demo_files "m" 0 4 demo_rows true.
Proof. split; reflexivity. Qed.

Lemma demo_holds : holds demo_matrix demo_rows true.
Proof.
  split; [reflexivity|exists []; reflexivity..|]. exists 4. split; [reflexivity|]. simpl. lia.
Qed.

(** Columns 1 to 3 of it, with 32-bit indices. *)
Lemma vslice_slices_witness :
  exists res', VSlice 32 4 demo_matrix (mkRange 1 3) RSpMat_ctor = Ok res' /\ holds res' [[(1, 7)]; [(0, 8)]; []] true.
Proof.
  destruct (vslice_slices 32 4 demo_matrix RSpMat_ctor demo_rows true (mkRange 1 3) 4) as (res' & Hs & Hh & _);
    [exact demo_holds|reflexivity|discriminate|simpl; lia..|].
  exists res'. split; [exact Hs|exact Hh].
Defined.

Lemma demo_entries_ok :
  Forall (fun e : Z * Z => elem_ok (ElemLaws := u64_laws) e.1 /\ elem_ok (ElemLaws := u64_laws) e.2) (concat demo_rows).
Proof. repeat constructor; simpl; lia. Qed.

(** The first two rows load; the last two do not. *)
Lemma load_row_block_witness :
  (exists m', Load u64_elem demo_files RSpMat_ctor "m" (mkRange 0 2) = Ok m' /\ holds m' [[(0, 5); (2, 7)]; [(1, 8)]] true) /\
  Load u64_elem demo_files (@RSpMat_ctor Z) "m" (mkRange 1 3) = Fault CheckFailed.
Proof.
  split.
  - destruct (load_row_block u64_elem u64_laws demo_files "m" 0 4 demo_rows true RSpMat_ctor (mkRange 0 2) 0 2
      demo_stored) as [(m' & Hl & Hh & _) _]; [discriminate|simpl; lia|exact demo_entries_ok|simpl; lia..| |].
    + split; [simpl; lia|right; reflexivity].
    + exists m'. split; [exact Hl|exact Hh].
  - destruct (load_row_block u64_elem u64_laws demo_files "m" 0 4 demo_rows true RSpMat_ctor (mkRange 1 3) 1 3
      demo_stored) as [Hl _]; [discriminate|simpl; lia|exact demo_entries_ok|simpl; lia..| |].
    + split; [simpl; lia|right; reflexivity].
    + exact Hl.
Defined.

(** Ten positions in four parts: the last two are in none. *)
Lemma even_divide_parts_witness :
  EvenDivide (mkRange 100 110) 4 3 0 = Ok (mkRange 106 108) /\
  ~ exists i p, 0 <= i < 4 /\ EvenDivide (mkRange 100 110) 4 i 0 = Ok p /\ In p 108 = true.
Proof.
  destruct (even_divide_parts (mkRange 100 110) 4 0) as [Hp Hc]; [simpl; lia..|]. split.
  - apply (Hp 3). lia.
  - intros Hex. apply Hc in Hex. vm_compute in Hex. destruct Hex as [_ Hex]. discriminate.
Defined.
