(* ===== verification/Pagerank.v ===== *)
(** The pagerank program, apps/pagerank/pagerank.cpp with pagerank.h: which files and
    columns each machine takes, and the iteration. Flags are a record; vectors of
    doubles are Eigen's, of which only the indexing, checked against the size, and the
    operations with a number are used. What is logged is left out. *)
From S2P Require Import Prelude Common Stream Double SparseMatrix.
From Stdlib Require Import Floats.SpecFloat.
From stdpp Require Import pretty strings.
#[global] Open Scope Z_scope.

(** ** Linspace *)

(** An integer type: what it holds, and whether it wraps. *)
Record ctype := mkCtype { ct_min : Z; ct_max : Z; ct_wraps : bool }.
Definition int_t : ctype := mkCtype (-2147483648) 2147483647 false.
Definition size_t : ctype := mkCtype 0 18446744073709551615 true.

Definition in_type (T : ctype) (z : Z) : bool := (ct_min T <=? z) && (z <=? ct_max T).
(** The result of an operation; an overflow of a signed type is undefined. *)
Definition arith (T : ctype) (z : Z) : res Z :=
  if in_type T z then Ok z else if ct_wraps T then Ok (z mod (ct_max T + 1)) else Fault Overflow.
(** [(T) d] of a whole number, undefined when it does not fit. *)
Definition cast (T : ctype) (d : option Z) : res Z :=
  match d with Some z => if in_type T z then Ok z else Fault Overflow | None => Fault Overflow end.

(** The counter of the loop is an [int]. *)
Definition Linspace (T : ctype) (start end_ k : Z) : res (list Z) :=
  d ← arith T (end_ - start);
  let itv := ddiv (of_Z d) (of_Z k) in
  ret ← foldM (fun i ret =>
    r ← cast T (round_Z (dmul itv (of_Z i)));
    v ← arith T (r + start);
    Ok (ret ++ [v])) (seqZ 0 (k + 1)) [];
  if k <? 2147483647 then Ok ret else Fault Overflow.

(** ** Flags and files *)

Record Flags := mkFlags {
  FLAGS_data_input : string;
  FLAGS_data_part_num : Z;
  FLAGS_grid_row_num : Z;
  FLAGS_grid_col_num : Z;
  FLAGS_my_row_rank : Z;
  FLAGS_my_col_rank : Z;
  FLAGS_alpha : double
}.

(** [snprintf(tmp, 128, "%03d", i)] of a number that is not negative. *)
Definition print_03d (i : Z) : string :=
  let s := pretty i in
  match String.length s with 1%nat => "00" +:+ s | 2%nat => "0" +:+ s | _ => s end.
Definition part_file (fl : Flags) (i : Z) : string := FLAGS_data_input fl +:+ print_03d i.

(** [operator[]] of std::vector. *)
Definition vec_at {A} (l : list A) (i : Z) : res A :=
  if i <? 0 then Fault OutOfBounds
  else match l !! Z.to_nat i with Some x => Ok x | None => Fault OutOfBounds end.

(** The files of the grid row [i], by the boundaries [parts]. *)
Definition row_files (files : list string) (parts : list Z) (i : Z) : res (list string) :=
  lo ← vec_at parts i;
  hi ← vec_at parts (i + 1);
  foldM (fun j names => f ← vec_at files j; Ok (names ++ [f])) (seqZ lo (hi - lo)) [].

Definition AssignData (fs : Files) (fl : Flags) : res (list (list string) * list Range) :=
  let files := part_file fl <$> seqZ 0 (FLAGS_data_part_num fl) in
  parts ← Linspace int_t 0 (FLAGS_data_part_num fl) (FLAGS_grid_row_num fl);
  node_files ← foldM (fun i nf => names ← row_files files parts i; Ok (nf ++ [names]))
                     (seqZ 0 (FLAGS_grid_row_num fl)) [];
  first ← vec_at files 0;
  colseg ← ColSeg fs first;
  cols ← Linspace size_t (start_ colseg) (end_ colseg) (FLAGS_grid_col_num fl);
  col_blocks ← foldM (fun i cb =>
    lo ← vec_at cols i;
    hi ← vec_at cols (i + 1);
    Ok (cb ++ [mkRange lo hi])) (seqZ 0 (FLAGS_grid_col_num fl)) [];
  Ok (node_files, col_blocks).

(** ** The iteration *)

(** [w[i]] of an Eigen vector. *)
Definition vec_read (w : list double) (i : Z) : res double :=
  match w !! Z.to_nat i with Some x => Ok x | None => Fault CheckFailed end.

Definition zero : double := S754_zero false.
Definition one : double := of_Z 1.

(** The values in the files are not used: they stay the 8 bytes of a double. *)
Notation matrix := (RSpMat Z).
#[export] Existing Instance u64_elem.

Definition add_entry (m : matrix) (w : list double) (degree : double) (j : Z) (v : double) : res double :=
  idx ← rd (index_ m) j;
  x ← vec_read w idx;
  Ok (dadd v (ddiv x degree)).

(** The row's sum. [j] has 32 bits and the end of the row 64: from 2^32 on, [j] wraps
    around below it for ever. *)
Definition row_sum (m : matrix) (w : list double) (i : Z) : res double :=
  lo ← rd (offset_ m) i;
  hi ← rd (offset_ m) (i + 1);
  let degree := of_Z (wrap_u64 (hi - lo)) in
  let j0 := lo mod 4294967296 in
  if hi <? 4294967296 then foldM (add_entry m w degree) (seqZ j0 (hi - j0)) zero
  else
    v ← foldM (add_entry m w degree) (seqZ j0 (4294967296 - j0)) zero;
    v ← foldM (add_entry m w degree) (seqZ 0 j0) v;
    Block.

(** One turn: the new [u], assigned from its first entry on. *)
Definition one_turn (m : matrix) (alpha penalty : double) (w : list double) : res (list double) :=
  foldM (fun i u =>
    v ← row_sum m w i;
    Ok (u ++ [dadd (dmul v alpha) penalty])) (seqZ 0 (rows m)) [].

Definition iterate (m : matrix) (alpha penalty : double) (w : list double) : res (list double) :=
  foldM (fun _ w => one_turn m alpha penalty w) (seqZ 0 40) w.

(** [tmp.Load(in_files[i]); tmp.VSlice(col, adjs+i)]: [tmp] is used again and again. *)
Definition load_slices (fs : Files) (in_files : list string) (col : Range) : res (matrix * list matrix) :=
  foldM (fun name '(tmp, adjs) =>
    tmp ← Load u64_elem fs tmp name All;
    adj ← VSlice 32 4 tmp col RSpMat_ctor;
    Ok (tmp, adjs ++ [adj])) in_files (RSpMat_ctor, []).

(** The program, up to the vector it ends with. *)
Definition main (fs : Files) (fl : Flags) : res (list double) :=
  '(node_files, col_blocks) ← AssignData fs fl;
  in_files ← vec_at (A := list string) node_files (FLAGS_my_row_rank fl);
  col ← vec_at (A := Range) col_blocks (FLAGS_my_col_rank fl);
  '(_, adjs) ← load_slices fs in_files col;
  CHECK (Z.of_nat (length in_files) =? 1);;
  adj ← vec_at (A := matrix) adjs 0;
  CHECK (square adj);;
  let penalty := ddiv (dsub one (FLAGS_alpha fl)) (of_Z (rows adj)) in
  let w := replicate (Z.to_nat (SparseMatrix.Size col)) (dmul one penalty) in
  iterate adj (FLAGS_alpha fl) penalty w.
