(* ===== verification/PagerankProps.v ===== *)
(** The pagerank program: the parts it cuts files and columns into cover them once, and
    the iteration computes the rows' sums. *)
From S2P Require Import Prelude Common Stream Double SparseMatrix SparseMatrixProps Pagerank.
From Stdlib Require Import Floats.SpecFloat.
From stdpp Require Import pretty strings.
#[global] Open Scope Z_scope.

(** ** The boundaries in floating point *)

(** Boundary [i] of [k] parts of [n] positions. *)
Definition lin (n k i : Z) : Z := default 0 (round_Z (dmul (ddiv (of_Z n) (of_Z k)) (of_Z i))).

(** All values are multiples of 2^-300. *)
Definition unit_ : Z := 2 ^ 300.

Lemma round_mag_unit m e : 0 <= m -> -300 <= e -> round_mag m e = (2 * (m * 2 ^ (e + 300)) + unit_) / (2 * unit_).
Proof.
  intros Hm He. unfold round_mag, unit_. destruct (Z.leb_spec 0 e).
  - rewrite Z.pow_add_r by lia. assert (0 < 2 ^ 300) by lia. set (s := 2 ^ 300) in *.
    apply (Z.div_unique _ _ _ s); [lia|]. lia.
  - replace 300 with (- e + (e + 300)) at 2 3 by lia. rewrite (Z.pow_add_r 2 (- e)) by lia.
    assert (0 < 2 ^ (e + 300)) by (apply Z.pow_pos_nonneg; lia). assert (0 < 2 ^ (- e)) by (apply Z.pow_pos_nonneg; lia).
    replace (2 * (m * 2 ^ (e + 300)) + 2 ^ (- e) * 2 ^ (e + 300)) with ((2 * m + 2 ^ (- e)) * 2 ^ (e + 300)) by lia.
    replace (2 * (2 ^ (- e) * 2 ^ (e + 300))) with ((2 * 2 ^ (- e)) * 2 ^ (e + 300)) by lia.
    rewrite Z.div_mul_cancel_r by lia. done.
Qed.

Section boundaries.
Context (n k : Z) (Hn : 0 < n <= 2 ^ 50) (Hk : 0 < k < 2 ^ 31).

(** The length of a part, and what is added up to [i] of it. *)
Lemma interval_value :
  exists m e, ddiv (of_Z n) (of_Z k) = S754_finite false m e /\ normal (Zpos m) e /\ -105 <= e <= 1 /\
    Z.abs (Zpos m * 2 ^ (e + 300) * k - n * unit_) * 2 ^ 53 <= n * unit_.
Proof.
  destruct (of_Z_exact n) as (mn & en & -> & Hmn & Hen & Hvn); [lia|].
  destruct (of_Z_exact k) as (mk & ek & -> & Hmk & Hek & Hvk); [lia|].
  destruct (ddiv_error mn en mk ek Hmn Hmk) as (m & e & -> & Hm & He & Herr); [lia|lia|].
  exists m, e. split; [done|]. split; [done|]. split; [lia|].
  set (c := 2 ^ (300 + en - 53)). assert (Hc : 0 < c) by (apply Z.pow_pos_nonneg; lia).
  assert (H1 : Zpos m * 2 ^ (e + 300) * k = Zpos m * 2 ^ (e - (en - ek - 53)) * Zpos mk * c).
  { rewrite Hvk. replace (e + 300) with ((e - (en - ek - 53)) + (- ek) + (300 + en - 53)) by lia.
    rewrite !Z.pow_add_r by lia. unfold c. lia. }
  assert (H2 : n * unit_ = Zpos mn * 2 ^ 53 * c).
  { rewrite Hvn. unfold unit_, c. replace 300 with ((- en) + 53 + (300 + en - 53)) at 1 by lia.
    rewrite !Z.pow_add_r by lia. lia. }
  rewrite H1, H2, <- Z.mul_sub_distr_r, Z.abs_mul, (Z.abs_eq c) by lia. nia.
Qed.

Lemma boundary_value m e i :
  normal (Zpos m) e -> -105 <= e <= 1 -> 0 < i < 2 ^ 31 ->
  exists P, round_Z (dmul (S754_finite false m e) (of_Z i)) = Some ((2 * P + unit_) / (2 * unit_)) /\
    Z.abs (P - Zpos m * 2 ^ (e + 300) * i) * 2 ^ 53 <= Zpos m * 2 ^ (e + 300) * i.
Proof.
  intros Hm He Hi. destruct (of_Z_exact i) as (mi & ei & -> & Hmi & Hei & Hvi); [lia|].
  destruct (dmul_error m e mi ei Hm Hmi) as (mp & ep & -> & Hmp & Hep & Herr); [lia|lia|].
  exists (Zpos mp * 2 ^ (ep + 300)). split; [simpl; by rewrite round_mag_unit by lia|].
  set (c := 2 ^ (e + ei + 300)). assert (Hc : 0 < c) by (apply Z.pow_pos_nonneg; lia).
  assert (H1 : Zpos m * 2 ^ (e + 300) * i = Zpos m * Zpos mi * c).
  { rewrite Hvi. unfold c. replace (e + 300) with ((- ei) + (e + ei + 300)) by lia. rewrite Z.pow_add_r by lia. lia. }
  assert (H2 : Zpos mp * 2 ^ (ep + 300) = Zpos mp * 2 ^ (ep - (e + ei)) * c).
  { unfold c. replace (ep + 300) with ((ep - (e + ei)) + (e + ei + 300)) by lia. rewrite Z.pow_add_r by lia. lia. }
  rewrite H1, H2, <- Z.mul_sub_distr_r, Z.abs_mul, (Z.abs_eq c) by lia. nia.
Qed.

Lemma lin_value :
  exists I, 0 < I /\ Z.abs (I * k - n * unit_) * 2 ^ 53 <= n * unit_ /\ forall i, 0 < i < 2 ^ 31 -> exists P,
    round_Z (dmul (ddiv (of_Z n) (of_Z k)) (of_Z i)) = Some (lin n k i) /\ lin n k i = (2 * P + unit_) / (2 * unit_) /\
    Z.abs (P - I * i) * 2 ^ 53 <= I * i.
Proof.
  destruct interval_value as (m & e & Hd & Hm & He & Herr). exists (Zpos m * 2 ^ (e + 300)).
  split; [assert (0 < 2 ^ (e + 300)) by (apply Z.pow_pos_nonneg; lia); lia|]. split; [done|].
  intros i Hi. destruct (boundary_value m e i Hm He Hi) as (P & Hr & HP). exists P.
  unfold lin. rewrite Hd, Hr. done.
Qed.

Lemma lin_start : round_Z (dmul (ddiv (of_Z n) (of_Z k)) (of_Z 0)) = Some 0.
Proof. destruct interval_value as (m & e & -> & _). done. Qed.

Lemma unit_pos : 0 < unit_.
Proof. done. Qed.

(** Each boundary is less than one position from the exact one, the last is exact. *)
Lemma lin_close i : 0 < i <= k -> Z.abs (lin n k i * k - n * i) < k.
Proof.
  intros Hi. destruct lin_value as (I & HI & Herr & Hall). destruct (Hall i) as (P & _ & -> & HP); [lia|].
  pose proof unit_pos. set (S := unit_) in *. clearbody S.
  pose proof (Z.div_mod (2 * P + S) (2 * S) ltac:(lia)) as Hdm. pose proof (Z.mod_pos_bound (2 * P + S) (2 * S) ltac:(lia)) as Hb.
  set (r := (2 * P + S) / (2 * S)) in *. clearbody r.
  assert (Hr : 2 * Z.abs (r * S - P) <= S) by lia.
  assert (H1 : Z.abs (r * S * k - P * k) * 2 <= S * k) by nia.
  assert (H2 : Z.abs (P * k - I * k * i) * 2 ^ 53 <= I * k * i) by nia.
  assert (H3 : Z.abs (I * k * i - n * i * S) * 2 ^ 53 <= n * i * S) by nia.
  assert (H4 : n * i * S <= 2 ^ 50 * (S * k)) by nia.
  assert (H5 : Z.abs (r * k - n * i) * S < k * S).
  { rewrite <- (Z.abs_eq S) at 1 by lia. rewrite <- Z.abs_mul.
    replace ((r * k - n * i) * S) with (r * S * k - n * i * S) by lia. rewrite (Z.mul_comm k S).
    set (a := r * S * k) in *. set (b := P * k) in *. set (c := I * k * i) in *. set (d := n * i * S) in *. set (f := S * k) in *.
    assert (0 < f) by nia. clearbody a b c d f. lia. }
  nia.
Qed.

Lemma lin_end : lin n k k = n.
Proof. pose proof (lin_close k ltac:(lia)). nia. Qed.

Lemma lin_step i : 0 < i < k -> lin n k i <= lin n k (i + 1).
Proof.
  intros Hi. destruct lin_value as (I & HI & _ & Hall).
  destruct (Hall i) as (P & _ & -> & HP); [lia|]. destruct (Hall (i + 1)) as (Q & _ & -> & HQ); [lia|].
  pose proof unit_pos. apply Z.div_le_mono; [lia|].
  assert (P <= Q); [|lia]. assert (I * i <= I * 2 ^ 31) by nia. rewrite Z.mul_add_distr_l in HQ.
  set (a := I * i) in *. clearbody a. lia.
Qed.
End boundaries.
 

(** ** Linspace *)

(** The boundaries of [k] parts of [n >= 0] positions. *)
Lemma lin_defined n k i :
  0 <= n <= 2 ^ 50 -> 0 < k < 2 ^ 31 -> 0 <= i <= k -> round_Z (dmul (ddiv (of_Z n) (of_Z k)) (of_Z i)) = Some (lin n k i).
Proof.
  intros Hn Hk Hi. destruct (decide (n = 0)) as [->|Hne].
  - destruct (of_Z_exact k) as (mk & ek & Hd & _); [lia|]. unfold lin. rewrite Hd.
    destruct (decide (i = 0)) as [->|Hi0]; [done|]. destruct (of_Z_exact i) as (mi & ei & -> & _); [lia|done].
  - destruct (decide (i = 0)) as [->|Hi0]; [unfold lin; by rewrite lin_start by lia|].
    destruct (lin_value n k) as (I & _ & _ & Hall); [lia|lia|]. destruct (Hall i) as (P & Hr & _); [lia|done].
Qed.

Lemma lin_zero k i : 0 < k < 2 ^ 31 -> 0 <= i <= k -> lin 0 k i = 0.
Proof.
  intros Hk Hi. destruct (of_Z_exact k) as (mk & ek & Hd & _); [lia|]. unfold lin. rewrite Hd.
  destruct (decide (i = 0)) as [->|Hi0]; [done|]. destruct (of_Z_exact i) as (mi & ei & -> & _); [lia|done].
Qed.

Lemma lin_first n k : 0 <= n <= 2 ^ 50 -> 0 < k < 2 ^ 31 -> lin n k 0 = 0.
Proof.
  intros Hn Hk. destruct (decide (n = 0)) as [->|Hne]; [apply lin_zero; lia|]. unfold lin. by rewrite lin_start by lia.
Qed.

Lemma lin_last n k : 0 <= n <= 2 ^ 50 -> 0 < k < 2 ^ 31 -> lin n k k = n.
Proof. intros Hn Hk. destruct (decide (n = 0)) as [->|Hne]; [apply lin_zero; lia|]. by apply lin_end; lia. Qed.

Lemma lin_succ n k i : 0 <= n <= 2 ^ 50 -> 0 < k < 2 ^ 31 -> 0 <= i < k -> lin n k i <= lin n k (i + 1).
Proof.
  intros Hn Hk Hi. destruct (decide (n = 0)) as [->|Hne]; [rewrite !lin_zero by lia; lia|].
  destruct (decide (i = 0)) as [->|Hi0]; [|by apply lin_step; lia]. rewrite lin_first by lia.
  pose proof (lin_close n k ltac:(lia) ltac:(lia) (0 + 1) ltac:(lia)). nia.
Qed.

Lemma lin_mono n k i j : 0 <= n <= 2 ^ 50 -> 0 < k < 2 ^ 31 -> 0 <= i -> i <= j -> j <= k -> lin n k i <= lin n k j.
Proof.
  intros Hn Hk Hi Hij Hj. revert Hj. pattern j. apply Zlt_lower_bound_ind with (z := i); [|done].
  intros x IH Hx Hxk. destruct (decide (x = i)) as [->|Hne]; [done|].
  etrans; [apply (IH (x - 1)); lia|]. replace x with (x - 1 + 1) at 2 by lia. apply lin_succ; lia.
Qed.

Lemma lin_bounds n k i : 0 <= n <= 2 ^ 50 -> 0 < k < 2 ^ 31 -> 0 <= i <= k -> 0 <= lin n k i <= n.
Proof.
  intros Hn Hk Hi. rewrite <- (lin_first n k Hn Hk) at 1. rewrite <- (lin_last n k Hn Hk) at 4.
  split; apply lin_mono; lia.
Qed.

(** A fold that appends one computed element per turn. *)
Lemma foldM_snoc {A B} (f : A -> res B) (g : A -> B) l acc :
  (forall x, x ∈ l -> f x = Ok (g x)) -> foldM (fun x acc => y ← f x; Ok (acc ++ [y])) l acc = Ok (acc ++ (g <$> l)).
Proof.
  revert acc. induction l as [|x l IH]; intros acc Hf; simpl; [by rewrite app_nil_r|].
  rewrite Hf by left. cbn [mbind res_bind]. rewrite IH by (intros y Hy; apply Hf; by right).
  by rewrite <- app_assoc.
Qed.

Lemma foldM_ext {A S} (f g : A -> S -> res S) l : (forall x s, x ∈ l -> f x s = g x s) -> forall s, foldM f l s = foldM g l s.
Proof.
  induction l as [|x l IH]; intros Hfg s; simpl; [done|]. rewrite Hfg by left.
  destruct (g x s); cbn [mbind res_bind]; [|done|done]. apply IH. intros y t Hy. apply Hfg. by right.
Qed.

(** [k + 1] boundaries from [start] to [end_]. *)
Definition linspace_ref (start n k : Z) : list Z := (fun i => lin n k i + start) <$> seqZ 0 (k + 1).

Lemma Linspace_runs T start end_ k :
  in_type T start = true -> in_type T end_ = true -> in_type T 0 = true -> in_type T (end_ - start) = true ->
  0 <= end_ - start <= 2 ^ 50 -> 0 < k < 2147483647 ->
  Linspace T start end_ k = Ok (linspace_ref start (end_ - start) k).
Proof.
  intros Hs He H0 Hd Hn Hk. unfold Linspace.
  assert (arith T (end_ - start) = Ok (end_ - start)) as -> by (unfold arith; by rewrite Hd). cbn [mbind res_bind].
  set (n := end_ - start) in *.
  assert (Hok : forall i, i ∈ seqZ 0 (k + 1) ->
    (r ← cast T (round_Z (dmul (ddiv (of_Z n) (of_Z k)) (of_Z i))); arith T (r + start)) = Ok (lin n k i + start)).
  { intros i Hi%elem_of_seqZ. rewrite lin_defined by lia. pose proof (lin_bounds n k i ltac:(lia) ltac:(lia) ltac:(lia)) as Hb.
    unfold in_type in *. unfold cast, in_type. replace ((ct_min T <=? lin n k i) && (lin n k i <=? ct_max T)) with true by lia.
    cbn [mbind res_bind]. unfold arith, in_type.
    by replace ((ct_min T <=? lin n k i + start) && (lin n k i + start <=? ct_max T)) with true by (subst n; lia). }
  rewrite (foldM_ext _ (fun i ret => y ← (r ← cast T (round_Z (dmul (ddiv (of_Z n) (of_Z k)) (of_Z i))); arith T (r + start)); Ok (ret ++ [y]))).
  - rewrite (foldM_snoc _ _ _ _ Hok). cbn [mbind res_bind app]. by replace (k <? 2147483647) with true by lia.
  - intros i ret _. by destruct (cast T _).
Qed.

Lemma linspace_lookup start n k i :
  0 <= i <= k -> vec_at (linspace_ref start n k) i = Ok (lin n k i + start).
Proof.
  intros Hi. unfold vec_at, linspace_ref. replace (i <? 0) with false by lia.
  rewrite list_lookup_fmap, lookup_seqZ_lt by lia. simpl. by rewrite Z2Nat.id by lia.
Qed.

(** ** Files and columns of a grid *)

Lemma slice_seqZ {A} (d : A) (l : list A) lo len :
  0 <= lo -> 0 <= len -> lo + len <= Z.of_nat (length l) ->
  (fun j => default d (l !! Z.to_nat j)) <$> seqZ lo len = take (Z.to_nat len) (drop (Z.to_nat lo) l).
Proof.
  intros Hlo Hlen Hl. apply list_eq_same_length with (n := Z.to_nat len).
  - rewrite length_take, length_drop. lia.
  - by rewrite length_fmap, length_seqZ.
  - intros i x y Hi Hx Hy. rewrite list_lookup_fmap, lookup_seqZ_lt in Hx by lia. simpl in Hx. injection Hx as <-.
    rewrite lookup_take_lt, lookup_drop in Hy by lia.
    replace (Z.to_nat (lo + Z.of_nat i)) with (Z.to_nat lo + i)%nat by lia. by rewrite Hy.
Qed.

Lemma vec_at_in {A} (d : A) (l : list A) i : 0 <= i < Z.of_nat (length l) -> vec_at l i = Ok (default d (l !! Z.to_nat i)).
Proof.
  intros Hi. unfold vec_at. replace (i <? 0) with false by lia.
  destruct (lookup_lt_is_Some_2 l (Z.to_nat i)) as [x ->]; [lia|done].
Qed.

Lemma row_files_runs files k i :
  Z.of_nat (length files) <= 2 ^ 50 -> 0 < k < 2147483647 -> 0 <= i < k ->
  let n := Z.of_nat (length files) in
  row_files files (linspace_ref 0 n k) i =
    Ok (take (Z.to_nat (lin n k (i + 1) - lin n k i)) (drop (Z.to_nat (lin n k i)) files)).
Proof.
  intros Hl Hk Hi n. unfold row_files. rewrite !linspace_lookup by lia. cbn [mbind res_bind]. rewrite !Z.add_0_r.
  pose proof (lin_bounds n k i ltac:(lia) ltac:(lia) ltac:(lia)).
  pose proof (lin_bounds n k (i + 1) ltac:(lia) ltac:(lia) ltac:(lia)).
  pose proof (lin_succ n k i ltac:(lia) ltac:(lia) ltac:(lia)).
  rewrite (foldM_snoc _ (fun j => default "" (files !! Z.to_nat j))).
  - simpl. rewrite slice_seqZ by lia. done.
  - intros j Hj%elem_of_seqZ. apply vec_at_in. lia.
Qed.

(** Consecutive slices make up the list. *)
Lemma concat_slices {A} (l : list A) (b : Z -> Z) k :
  b 0 = 0 -> (forall i, 0 <= i < Z.of_nat k -> b i <= b (i + 1)) ->
  concat ((fun i => take (Z.to_nat (b (i + 1) - b i)) (drop (Z.to_nat (b i)) l)) <$> seqZ 0 (Z.of_nat k)) =
    take (Z.to_nat (b (Z.of_nat k))) l.
Proof.
  intros H0 Hb.
  assert (Hnn : forall j, (j <= k)%nat -> 0 <= b (Z.of_nat j)).
  { induction j as [|j IH]; intros Hj; [change (Z.of_nat 0) with 0; lia|]. replace (Z.of_nat (S j)) with (Z.of_nat j + 1) by lia.
    specialize (Hb (Z.of_nat j)). lia. }
  induction k as [|k IH]; [change (Z.of_nat 0) with 0; by rewrite H0|].
  rewrite Nat2Z.inj_succ, <- Z.add_1_r, seqZ_app, fmap_app, concat_app by lia. rewrite IH by (intros; (apply Hb || apply Hnn); lia).
  simpl. rewrite !Z.add_0_l, app_nil_r. rewrite take_take_drop.
  f_equal. pose proof (Hb (Z.of_nat k) ltac:(lia)). pose proof (Hnn k ltac:(lia)). lia.
Qed.

(** Every position from the first boundary to the last lies in one part. *)
Lemma one_part (b : Z -> Z) k c :
  (forall i j, 0 <= i -> i <= j -> j <= Z.of_nat k -> b i <= b j) -> b 0 <= c < b (Z.of_nat k) ->
  exists i, (i < k)%nat /\ b (Z.of_nat i) <= c < b (Z.of_nat i + 1) /\
    forall j, (j < k)%nat -> b (Z.of_nat j) <= c < b (Z.of_nat j + 1) -> j = i.
Proof.
  intros Hb Hc.
  assert (Hex : exists i, (i < k)%nat /\ b (Z.of_nat i) <= c < b (Z.of_nat i + 1)).
  { clear Hb. induction k as [|k IH]; [change (Z.of_nat 0) with 0 in Hc; lia|].
    destruct (decide (c < b (Z.of_nat k))) as [Hlt|Hge].
    - destruct IH as (i & Hi & Hci); [lia|]. exists i. split; [lia|done].
    - exists k. rewrite Nat2Z.inj_succ in Hc. split; [lia|]. rewrite Z.add_1_r. lia. }
  destruct Hex as (i & Hi & Hci). exists i. split; [done|]. split; [done|]. intros j Hj Hcj.
  destruct (Nat.lt_trichotomy i j) as [Hlt|[?|Hlt]]; [|done|].
  - pose proof (Hb (Z.of_nat i + 1) (Z.of_nat j) ltac:(lia) ltac:(lia) ltac:(lia)). lia.
  - pose proof (Hb (Z.of_nat j + 1) (Z.of_nat i) ltac:(lia) ltac:(lia) ltac:(lia)). lia.
Qed.

(** C28. The grid covers the data. For any numbers of files and of grid rows and columns
    that fit an int, the boundaries computed in floating point give every input file to
    exactly one grid row, in order, and every column of the matrix, up to 2^50 of them,
    to exactly one column block - no rounding error loses or doubles one. *)
Theorem assign_data_covers fs fl s e :
  let files : list string := part_file fl <$> seqZ 0 (FLAGS_data_part_num fl) in
  0 < FLAGS_data_part_num fl <= 2147483647 -> 0 < FLAGS_grid_row_num fl < 2147483647 ->
  0 < FLAGS_grid_col_num fl < 2147483647 ->
  ColSeg fs (part_file fl 0) = Ok (mkRange s e) -> 0 <= s -> e < 18446744073709551616 -> e - s <= 2 ^ 50 ->
  exists node_files col_blocks,
    AssignData fs fl = Ok (node_files, col_blocks) /\
    Z.of_nat (length node_files) = FLAGS_grid_row_num fl /\ concat node_files = files /\
    Z.of_nat (length col_blocks) = FLAGS_grid_col_num fl /\
    forall c, s <= c < e -> exists i, (exists b, col_blocks !! i = Some b /\ SparseMatrix.In b c = true) /\
      forall j b, col_blocks !! j = Some b -> SparseMatrix.In b c = true -> j = i.
Proof.
  intros files Hp Hr Hc Hseg Hs He Hse.
  assert (Hvalid : s < e).
  { unfold ColSeg in Hseg. inv_bind. destruct (extract_u64s 4 (Some v)) as [|? [|? [|? [|? [|? ?]]]]]; try done.
    inv_bind. simplify_eq. unfold Valid in *. simpl in *. lia. }
  assert (Hlen : Z.of_nat (length files) = FLAGS_data_part_num fl).
  { unfold files. rewrite length_fmap, length_seqZ. lia. }
  unfold AssignData. fold files.
  rewrite (Linspace_runs int_t 0 (FLAGS_data_part_num fl)); [|unfold in_type; simpl; lia..]. cbn [mbind res_bind].
  rewrite Z.sub_0_r, <- Hlen.
  rewrite (foldM_snoc _ (fun i => take (Z.to_nat (lin (Z.of_nat (length files)) (FLAGS_grid_row_num fl) (i + 1) - lin (Z.of_nat (length files)) (FLAGS_grid_row_num fl) i))
    (drop (Z.to_nat (lin (Z.of_nat (length files)) (FLAGS_grid_row_num fl) i)) files)))
    by (intros i Hi%elem_of_seqZ; apply row_files_runs; lia).
  cbn [mbind res_bind]. rewrite (vec_at_in "") by lia. cbn [mbind res_bind].
  assert (default "" (files !! Z.to_nat 0) = part_file fl 0) as ->.
  { unfold files. rewrite list_lookup_fmap, lookup_seqZ_lt by lia. done. }
  rewrite Hseg. cbn [mbind res_bind start_ end_].
  rewrite (Linspace_runs size_t s e); [|unfold in_type; simpl; lia..]. cbn [mbind res_bind].
  set (n := e - s) in *. set (k := FLAGS_grid_col_num fl) in *. assert (Hnpos : 0 < n) by (unfold n; lia).
  rewrite (foldM_ext _ (fun i cb => b ← (lo ← vec_at (linspace_ref s n k) i; hi ← vec_at (linspace_ref s n k) (i + 1); Ok (mkRange lo hi)); Ok (cb ++ [b])))
    by (intros i cb _; by repeat destruct (vec_at _ _)).
  rewrite (foldM_snoc _ (fun i => mkRange (lin n k i + s) (lin n k (i + 1) + s)))
    by (intros i Hi%elem_of_seqZ; by rewrite !linspace_lookup by lia).
  cbn [mbind res_bind]. eexists _, _. split; [reflexivity|]. simpl app. rewrite !length_fmap, !length_seqZ.
  split; [lia|]. split; [|split; [lia|]].
  - replace (seqZ 0 (FLAGS_grid_row_num fl)) with (seqZ 0 (Z.of_nat (Z.to_nat (FLAGS_grid_row_num fl)))) by (f_equal; lia).
    rewrite (concat_slices files (lin (Z.of_nat (length files)) (FLAGS_grid_row_num fl))).
    + rewrite Z2Nat.id by lia. rewrite lin_last by lia. rewrite Nat2Z.id. by rewrite firstn_all.
    + apply lin_first; lia.
    + intros i Hi. apply lin_succ; lia.
  - intros c Hcr. destruct (one_part (fun i => lin n k i + s) (Z.to_nat k) c) as (i & Hi & Hci & Huniq).
    + intros i j Hi Hij Hj. pose proof (lin_mono n k i j ltac:(lia) ltac:(lia) Hi Hij ltac:(lia)). lia.
    + rewrite Z2Nat.id by lia. rewrite lin_first, lin_last by lia. lia.
    + cbv beta in Hci, Huniq. exists i. split.
      * eexists. rewrite list_lookup_fmap, lookup_seqZ_lt by lia. split; [reflexivity|]. unfold SparseMatrix.In. simpl. rewrite !Z.add_0_l. lia.
      * intros j b Hj Hb. rewrite list_lookup_fmap in Hj. destruct (seqZ 0 k !! j) as [z|] eqn:Hz; [|done].
        apply lookup_seqZ in Hz as [-> Hj']. simpl in Hj. simplify_eq. unfold SparseMatrix.In in Hb. simpl in Hb.
        rewrite !Z.add_0_l in Hb. apply Huniq; lia.
Qed.

(** ** The iteration *)

Notation prow := (list (Z * Z)).

(** One turn on the rows of a matrix: of every entry of a row, the weight of its column
    divided by the number of entries. *)
Definition row_total (w : list double) (r : prow) : double :=
  foldl (fun v e => dadd v (ddiv (default zero (w !! Z.to_nat e.1)) (of_Z (Z.of_nat (length r))))) zero r.
Definition turn_ref (alpha penalty : double) (rs : list prow) (w : list double) : list double :=
  (fun r => dadd (dmul (row_total w r) alpha) penalty) <$> rs.

(** The columns of all entries are positions of [w]. *)
Definition in_columns (rs : list prow) (n : nat) : Prop := Forall (Forall (fun e : Z * Z => 0 <= e.1 < Z.of_nat n)) rs.

Lemma add_entries (m : matrix) w d r : forall lo v,
  (forall k e, r !! k = Some e -> rd (index_ m) (lo + Z.of_nat k) = Ok e.1) ->
  Forall (fun e : Z * Z => 0 <= e.1 < Z.of_nat (length w)) r ->
  foldM (add_entry m w d) (seqZ lo (Z.of_nat (length r))) v =
    Ok (foldl (fun v e => dadd v (ddiv (default zero (w !! Z.to_nat e.1)) d)) v r).
Proof.
  induction r as [|e r IH]; intros lo v Hrd Hin; [done|].
  cbn [length]. rewrite Nat2Z.inj_succ, seqZ_cons by lia. rewrite Z.pred_succ. cbn [foldM].
  apply Forall_cons in Hin as [He Hin].
  pose proof (Hrd O e eq_refl) as H0. rewrite Z.add_0_r in H0.
  assert (add_entry m w d lo v = Ok (dadd v (ddiv (default zero (w !! Z.to_nat e.1)) d))) as ->.
  { unfold add_entry, vec_read. rewrite H0. cbn [mbind res_bind].
    destruct (lookup_lt_is_Some_2 w (Z.to_nat e.1)) as [x ->]; [lia|done]. }
  cbn [mbind res_bind]. rewrite IH; [done| |done].
  intros k e' Hk. rewrite <- (Hrd (S k) e' Hk). f_equal. lia.
Qed.

Section iteration.
Context (m : matrix) (rs : list prow) (hv : bool) (Hm : holds m rs hv).
Context (Hnnz : Z.of_nat (length (concat rs)) < 4294967296) (Hrows : Z.of_nat (length rs) < 18446744073709551616).

Lemma row_sum_runs w i r :
  rs !! i = Some r -> Forall (fun e : Z * Z => 0 <= e.1 < Z.of_nat (length w)) r ->
  row_sum m w (Z.of_nat i) = Ok (row_total w r).
Proof.
  intros Hr Hin. pose proof (lookup_lt_Some _ _ _ Hr) as Hlt. unfold row_sum.
  rewrite (rd_offset m rs hv i Hm) by lia. cbn [mbind res_bind].
  replace (Z.of_nat i + 1) with (Z.of_nat (S i)) by lia. rewrite (rd_offset m rs hv (S i) Hm) by lia. cbn [mbind res_bind].
  pose proof (offset_at_bounds rs (S i)) as Hb. unfold offset_at in Hb.
  rewrite (concat_take_S rs i r Hr), length_app, Nat2Z.inj_add in *.
  set (lo := Z.of_nat (length (concat (take i rs)))) in *.
  replace (lo + Z.of_nat (length r) <? 4294967296) with true by lia.
  rewrite (Z.mod_small lo) by lia. replace (lo + Z.of_nat (length r) - lo) with (Z.of_nat (length r)) by lia.
  rewrite wrap_u64_id by lia. apply add_entries; [|done]. intros k e Hk.
  destruct Hm as [_ _ [junk ->] _ _]. apply rd_at; [lia|].
  rewrite list_lookup_fmap. replace (Z.to_nat (lo + Z.of_nat k)) with (length (concat (take i rs)) + k)%nat by lia.
  by rewrite (concat_row_lookup rs i r k e Hr Hk).
Qed.

Lemma turn_runs alpha penalty w :
  in_columns rs (length w) -> one_turn m alpha penalty w = Ok (turn_ref alpha penalty rs w).
Proof.
  intros Hin. unfold one_turn, rows. rewrite (h_rows _ _ _ Hm).
  rewrite (foldM_ext _ (fun i u => x ← (v ← row_sum m w i; Ok (dadd (dmul v alpha) penalty)); Ok (u ++ [x])))
    by (intros i u _; by destruct (row_sum m w i)).
  rewrite (foldM_snoc _ (fun i => dadd (dmul (row_total w (default [] (rs !! Z.to_nat i))) alpha) penalty)).
  - simpl. f_equal. unfold turn_ref. apply list_eq_same_length with (n := length rs).
    + by rewrite length_fmap.
    + by rewrite length_fmap, length_seqZ, Nat2Z.id.
    + intros i x y Hi Hx Hy. rewrite list_lookup_fmap in Hx. rewrite list_lookup_fmap in Hy. rewrite lookup_seqZ_lt in Hx by lia.
      cbn [fmap option_fmap option_map] in Hx. replace (Z.to_nat (0 + Z.of_nat i)) with i in Hx by lia. destruct (rs !! i); simpl in *; by simplify_eq.
  - intros i Hi%elem_of_seqZ. destruct (lookup_lt_is_Some_2 rs (Z.to_nat i)) as [r Hr]; [lia|]. rewrite Hr. simpl.
    replace i with (Z.of_nat (Z.to_nat i)) at 1 by lia. rewrite (row_sum_runs w _ r Hr); [done|].
    by apply (Forall_lookup_1 _ _ _ _ Hin Hr).
Qed.

Lemma iterate_runs alpha penalty w :
  length w = length rs -> in_columns rs (length rs) ->
  iterate m alpha penalty w = Ok (Nat.iter 40 (turn_ref alpha penalty rs) w).
Proof.
  intros Hw Hin. unfold iterate.
  assert (Hall : forall l : list Z, foldM (fun _ w => one_turn m alpha penalty w) l w = Ok (Nat.iter (length l) (turn_ref alpha penalty rs) w)).
  { intros l. revert w Hw. induction l as [|x l IH]; intros w Hw; [done|]. cbn [foldM length].
    rewrite turn_runs by (by rewrite Hw). cbn [mbind res_bind]. rewrite IH by (unfold turn_ref; by rewrite length_fmap).
    by rewrite Nat.iter_succ_r. }
  by rewrite Hall, length_seqZ.
Qed.
End iteration.

Lemma slice_columns col (rs : list prow) :
  in_columns (slice_ref col <$> rs) (Z.to_nat (end_ col - start_ col)).
Proof.
  apply Forall_fmap, Forall_forall. intros r _. unfold slice_ref. simpl. apply Forall_fmap, Forall_forall.
  intros e [He _]%list_elem_of_filter. simpl. lia.
Qed.

Lemma slice_entries col (rs : list prow) : (length (concat (slice_ref col <$> rs)) <= length (concat rs))%nat.
Proof.
  induction rs as [|r rs IH]; [done|]. rewrite fmap_cons. simpl. rewrite !length_app.
  unfold slice_ref at 1. rewrite length_fmap. pose proof (length_filter (fun e : Z * Z => start_ col <= e.1 < end_ col) r). lia.
Qed.

(** C27. The program computes the iteration. On a machine that was given one file, whose
    matrix [rs] has as many rows as the machine's column block has columns and the same
    numbers, the program loads and slices the matrix, passes its checks, never leaves an
    array or a vector, and ends after its 40 turns with the vector of the reference
    iteration [turn_ref] on the rows cut to the block - as long as the file has fewer
    than 2^32 entries, the range of the loop's counter. *)
Theorem pagerank_runs fs fl node_files col_blocks name c0 c1 (rs : list prow) hv r c :
  let n := Z.of_nat (length rs) in
  let col := mkRange 0 n in
  AssignData fs fl = Ok (node_files, col_blocks) ->
  FLAGS_my_row_rank fl = Z.of_nat r -> node_files !! r = Some [name] ->
  FLAGS_my_col_rank fl = Z.of_nat c -> col_blocks !! c = Some col ->
  stored u64_elem fs name c0 c1 rs hv -> rs <> [] -> c0 = 0 -> n <= c1 < 18446744073709551616 ->
  Forall (fun e : Z * Z => elem_ok (ElemLaws := u64_laws) e.1 /\ elem_ok (ElemLaws := u64_laws) e.2) (concat rs) ->
  n <= 4294967296 -> Z.of_nat (length (concat rs)) < 4294967296 ->
  let penalty := ddiv (dsub one (FLAGS_alpha fl)) (of_Z n) in
  main fs fl = Ok (Nat.iter 40 (turn_ref (FLAGS_alpha fl) penalty (slice_ref col <$> rs)) (replicate (length rs) (dmul one penalty))).
Proof.
  intros n col Ha Hr Hnf Hc Hcb Hst Hne -> Hc1 Hok Hn Hnnz penalty.
  assert (Hn0 : 0 < n) by (destruct rs; [done|unfold n; simpl; lia]).
  unfold main. rewrite Ha. cbn [mbind res_bind].
  rewrite Hr, (vec_at_in []) by (apply lookup_lt_Some in Hnf; lia). rewrite Nat2Z.id, Hnf. cbn [mbind res_bind default].
  rewrite Hc, (vec_at_in col) by (apply lookup_lt_Some in Hcb; lia). rewrite Nat2Z.id, Hcb. cbn [mbind res_bind default].
  unfold id, load_slices. cbn [foldM]. cbv beta iota.
  assert (Hasks : asks rs All O (length rs)) by (split; [lia|by left]).
  pose proof (load_block (H0 := u64_laws) u64_elem u64_laws fs name 0 c1 rs hv Hst Hne ltac:(lia) Hok ltac:(lia)
    ltac:(simpl; lia) ltac:(simpl; lia) RSpMat_ctor All O (length rs) Hasks) as Hl.
  pose proof (offset_at_bounds rs (length rs)) as Hob.
  replace (offset_at rs 0 + offset_at rs (length rs) <=? _) with true in Hl by (change (offset_at rs 0) with 0; lia).
  destruct Hl as (m & -> & Hh & Hrow & Hcol & Hnz). cbn [mbind res_bind].
  assert (SparseMatrixProps.block 0 (length rs) rs = rs) as Hblk by (unfold SparseMatrixProps.block; rewrite drop_0, Nat.sub_0_r; apply firstn_all).
  rewrite Hblk in Hh.
  destruct (vslice_runs (H := u64_elem) 32 4 m rs _ col _ Hh Hnz ltac:(lia) ltac:(simpl; lia) ltac:(simpl; lia) ltac:(lia) RSpMat_ctor Hne)
    as (adj & -> & Hadj & Hrow' & Hcol' & _).
  { rewrite Hcol. unfold SupsetEq. simpl. lia. }
  cbn [mbind res_bind app length Z.of_nat]. rewrite Z.eqb_refl. cbn [CHECK mbind res_bind].
  change (vec_at [adj] 0) with (Ok adj). cbn [mbind res_bind].
  assert (square adj = true) as ->.
  { unfold square, range_eq. rewrite Hcol', Hrow', Hrow. simpl. unfold n. lia. }
  cbn [CHECK mbind res_bind].
  rewrite (list_fmap_ext _ (slice_ref col)) in Hadj by (intros; apply slice_is_ref; simpl; lia).
  assert (Hsize : SparseMatrix.Size col = n) by (unfold SparseMatrix.Size; simpl; rewrite Z.sub_0_r; apply wrap_u64_id; lia).
  assert (rows adj = n) as -> by (unfold rows; rewrite (h_rows _ _ _ Hadj), length_fmap; done).
  rewrite Hsize. fold penalty.
  rewrite (iterate_runs adj _ _ Hadj).
  - unfold n. by rewrite Nat2Z.id.
  - pose proof (slice_entries col rs). lia.
  - unfold n. by rewrite length_replicate, length_fmap, Nat2Z.id.
  - rewrite length_fmap. pose proof (slice_columns col rs) as Hs. simpl in Hs. rewrite Z.sub_0_r in Hs. unfold n in Hs.
    by rewrite Nat2Z.id in Hs.
Qed.

(** Elements from [a > 0] on, as many as the whole file has, are not there. *)
Lemma load_bin_short fs name bytes a n :
  fs name = Some bytes -> 0 < a -> 0 < n -> a + n <= 1152921504606846976 -> Z.of_nat (length bytes) / 8 = n ->
  load_bin (T := Z) (H := u64_elem) fs name None a n = Fault CheckFailed.
Proof.
  intros Hfs Ha Hpos Hn HL.
  unfold load_bin. rewrite Hfs. change (@esize Z u64_elem) with 8%nat.
  rewrite new_arr_ok by (change (Z.of_nat 8) with 8; lia). cbn [mbind res_bind].
  replace (a =? 0) with false by lia. change (Z.of_nat 8) with 8. rewrite wrap_u64_id, wrap_i64_id by (unfold is_i64; lia).
  replace (0 <=? a * 8) with true by lia. cbn [CHECK mbind res_bind]. rewrite length_drop, length_replicate.
  assert (Hshort : Z.of_nat (length bytes - Z.to_nat (a * 8)) / 8 < n).
  { assert (Hr : Z.of_nat (length bytes - Z.to_nat (a * 8)) <= Z.max 0 (Z.of_nat (length bytes) - 8)) by lia.
    generalize dependent (Z.of_nat (length bytes - Z.to_nat (a * 8))). generalize dependent (Z.of_nat (length bytes)). clear Hfs.
    intros L HL r Hr. Z.to_euclidean_division_equations; lia. }
  set (rest := Z.of_nat (length bytes - Z.to_nat (a * 8)) / 8) in *.
  rewrite Z2Nat.id by lia. replace (n <? Z.min n rest) with false by lia.
  by replace (Z.min n rest =? n) with false by lia.
Qed.

(** A part that does not begin at row 0 cannot be loaded. The offsets are read from
    entry [row.start()] of the row counts on, though the file of a part has counts for
    its own rows only: whatever its files contain, loading all rows of a part whose size
    file says it begins later aborts. So of a matrix stored by parts only the first can
    be used. *)
Lemma later_part_never_loads (I : Elem Z) fs (m : matrix) name a b col :
  RowSeg fs name = Ok (mkRange a b) -> ColSeg fs name = Ok col -> 0 < a -> b < 1152921504606846976 ->
  (forall bytes, fs (name +:+ ".rowcnt") = Some bytes -> Z.of_nat (length bytes) < 9223372036854775808) ->
  Load I fs m name All = Fault CheckFailed.
Proof.
  intros Hrow Hcol Ha Hb Hfile.
  assert (Hab : a < b).
  { unfold RowSeg in Hrow. inv_bind. destruct (extract_u64s 2 (Some v)) as [|? [|? [|? ?]]]; try done.
    inv_bind. simplify_eq. unfold Valid in *. simpl in *. lia. }
  unfold Load. rewrite Hrow. cbn [mbind res_bind]. change (range_eq All All) with true. cbn [mbind res_bind].
  rewrite Hcol. cbn [mbind res_bind].
  assert (Hs : SparseMatrix.Size (mkRange a b) = b - a) by (unfold SparseMatrix.Size; simpl; apply wrap_u64_id; lia).
  rewrite Hs.
  replace (bin_length (H := u64_elem) fs (name +:+ ".rowcnt")) with
    (match fs (name +:+ ".rowcnt") with Some bytes => Z.of_nat (length bytes) / 8 | None => 0 end) by done.
  destruct (fs (name +:+ ".rowcnt")) as [bytes|] eqn:Hfs.
  2: { change (wrap_u64 (0 - 1)) with 18446744073709551615. destruct (Z.eqb_spec 18446744073709551615 (b - a)); [lia|done]. }
  specialize (Hfile bytes eq_refl).
  destruct (Z.eqb_spec (wrap_u64 (Z.of_nat (length bytes) / 8 - 1)) (b - a)) as [Heq|]; [|done].
  cbn [CHECK mbind res_bind Clear offset_ start_].
  rewrite wrap_i64_id, (wrap_u64_id (b - a + 1)) by (unfold is_i64; lia).
  rewrite (load_bin_short fs _ bytes a (b - a + 1)); [done|done|lia|lia|lia|].
  unfold wrap_u64 in Heq. assert (0 <= Z.of_nat (length bytes)) by lia. Z.to_euclidean_division_equations; lia.
Qed.

(** ** Witnesses *)

(** A graph of three nodes in one file, its links without weights: 0 to 1 and 2, 1 to 0,
    2 to 0. *)
Definition graph_rows : list prow := [[(1, 0); (2, 0)]; [(0, 0)]; [(0, 0)]].
Definition graph_files : Files := fun f =>
  if decide (f = "d000.size") then Some (String.list_byte_of_string (size_text 3 0 3))
  else if decide (f = "d000.rowcnt") then Some (concat (encode <$> [0; 2; 3; 4]))
  else if decide (f = "d000.colidx") then Some (concat (encode <$> [1; 2; 0; 0]))
  else None.
Definition graph_flags (parts grid : Z) : Flags := mkFlags "d" parts grid grid 0 0 (ddiv (of_Z 4) (of_Z 5)).

Lemma assign_data_covers_witness :
  exists node_files col_blocks,
    AssignData graph_files (graph_flags 3 2) = Ok (node_files, col_blocks) /\
    length node_files = 2%nat /\ concat node_files = ["d000"; "d001"; "d002"] /\ length col_blocks = 2%nat.
Proof.
  destruct (assign_data_covers graph_files (graph_flags 3 2) 0 3) as (nf & cb & Ha & Hl & Hf & Hc & _); [simpl; lia|simpl; lia|simpl; lia|reflexivity|lia|lia|lia|].
  exists nf, cb. split; [exact Ha|]. simpl in Hl, Hc. split; [lia|]. split; [|lia].
  rewrite Hf. reflexivity.
Defined.

Lemma graph_stored : stored u64_elem graph_files "d000" 0 3 graph_rows false.
Proof. split; reflexivity. Qed.

Lemma pagerank_runs_witness :
  main graph_files (graph_flags 1 1) =
    Ok (Nat.iter 40 (turn_ref (FLAGS_alpha (graph_flags 1 1)) (ddiv (dsub one (FLAGS_alpha (graph_flags 1 1))) (of_Z 3)) graph_rows)
         (replicate 3 (dmul one (ddiv (dsub one (FLAGS_alpha (graph_flags 1 1))) (of_Z 3))))).
Proof.
  exact (pagerank_runs graph_files (graph_flags 1 1) [["d000"]] [mkRange 0 3] "d000" 0 3 graph_rows false 0 0
    eq_refl eq_refl eq_refl eq_refl eq_refl graph_stored ltac:(discriminate) eq_refl ltac:(simpl; lia)
    ltac:(repeat constructor; simpl; lia) ltac:(simpl; lia) ltac:(simpl; lia)).
Defined.

(** Its second half in a file of its own. *)
Definition part_files : Files := fun f =>
  if decide (f = "d001.size") then Some (String.list_byte_of_string "2 3 0 3")
  else if decide (f = "d001.rowcnt") then Some (concat (encode <$> [0; 1]))
  else if decide (f = "d001.colidx") then Some (concat (encode <$> [0]))
  else None.

Lemma later_part_never_loads_witness :
  Load u64_elem part_files (@RSpMat_ctor Z) "d001" All = Fault CheckFailed.
Proof.
  apply (later_part_never_loads u64_elem part_files RSpMat_ctor "d001" 2 3 (mkRange 0 3)); [reflexivity..|lia|lia|].
  intros bytes Hb. vm_compute in Hb. simplify_eq. simpl. lia.
Defined.
