(* ===== verification/PagarankData.v ===== *)
(** The data of the pagarank program: its own copy of the class Range, in
    apps/pagarank/range.h, of the binary files, in bin_data.h, and of Linspace, in
    pagerank.h. The class has the two fields of the later copy's, so ranges are the
    record of SparseMatrix.v; it has no Invalid, SubsetEq or SupsetEq. The functions
    are the instances used: ranges of uint64_t. The name of the header that
    pagerank.h includes for the files, load_bin.h, is read as bin_data.h. *)
From S2P Require Import Prelude Common Stream Double SparseMatrix SparseMatrixProps Pagerank.
#[global] Open Scope Z_scope.

(** ** Ranges *)

Definition Range_ctor : Range := mkRange 0 0.
Definition All : Range := mkRange 1 0.
Definition set_range (r : Range) (start end_ : Z) : Range := mkRange start end_.
Definition In (r : Range) (v : Z) : bool := (start_ r <=? v) && (v <? end_ r).
Definition range_lt (r rhs : Range) : bool := (start_ r <? start_ rhs) || (end_ r <? end_ rhs).
Definition range_eq (r rhs : Range) : bool := (start_ r =? start_ rhs) && (end_ r =? end_ rhs).
Definition Limit (r dest : Range) : Range :=
  let start := Z.max (start_ r) (start_ dest) in
  let end_ := Z.min (end_ r) (end_ dest) in
  mkRange start end_.
Definition Valid (r : Range) : bool := start_ r <? end_ r.
Definition Size (r : Range) : Z := wrap_u64 (end_ r - start_ r).

(** The [i]-th of [n] parts; a range shorter than [min_seg] is not divided, and the
    parts after the first are empty. *)
Definition EvenDivide (r : Range) (n i min_seg : Z) : res Range :=
  CHECK (i <? n);;
  if wrap_u64 (end_ r - start_ r) <? min_seg then
    if i =? 0 then Ok r else Ok (mkRange (end_ r) (end_ r))
  else
    let itv := wrap_u64 (end_ r - start_ r) / n in
    let segment_start := Z.max (wrap_u64 (start_ r + wrap_u64 (itv * i))) (start_ r) in
    let segment_end := Z.min (wrap_u64 (start_ r + wrap_u64 (itv * wrap_u64 (i + 1)))) (end_ r) in
    Ok (mkRange segment_start segment_end).

(** ** Linspace *)

Definition Linspace (T : ctype) (start end_ k : Z) : res (list Z) :=
  d ← arith T (end_ - start);
  let itv := ddiv (of_Z d) (of_Z k) in
  ret ← foldM (fun i ret =>
    r ← cast T (round_Z (dmul itv (of_Z i)));
    v ← arith T (r + start);
    Ok (ret ++ [v])) (seqZ 0 (k + 1)) [];
  if k <? 2147483647 then Ok ret else Fault Overflow.

(** ** Binary files *)

Section bin_data.
Context {T : Type} `{Elem T}.

(** [fread] reads the whole elements there are, [n] at most; with a buffer that is
    too short it writes past the end. *)
Definition load_bin (fs : Files) (filename : string) (buf : option (arr T)) (offset n : Z)
    : res (Z * option (arr T)) :=
  match fs filename with
  | None => Fault CheckFailed
  | Some bytes =>
      buf ← match buf with None => new_arr esize n | Some b => Ok b end;
      let pos := if offset =? 0 then 0 else wrap_i64 (wrap_u64 (offset * Z.of_nat esize)) in
      CHECK (0 <=? pos);;
      let rest := drop (Z.to_nat pos) bytes in
      let ret := Z.min n (Z.of_nat (length rest) / Z.of_nat esize) in
      if Z.of_nat (length buf) <? ret then Fault OutOfBounds
      else
        let buf := (Some <$> (decode <$> records esize (Z.to_nat ret) rest)) ++ drop (Z.to_nat ret) buf in
        CHECK (ret =? n);;
        Ok (ret, Some buf)
  end.

(** Unlike the later copy's, it fails on a file that is not there. *)
Definition bin_length (fs : Files) (filename : string) : res Z :=
  match fs filename with
  | Some bytes => Ok (Z.of_nat (length bytes) / Z.of_nat esize)
  | None => Fault CheckFailed
  end.

Definition load_bin_all (fs : Files) (filename : string) (buf : option (arr T)) : res (Z * option (arr T)) :=
  n ← bin_length fs filename;
  load_bin fs filename buf 0 n.

(** The first [n] elements of [buff]; [opens] is whether the file can be written. *)
Definition save_bin (opens : bool) (fs : Files) (filename : string) (buff : list T) (n : Z) : res (Z * Files) :=
  CHECK opens;;
  if Z.of_nat (length buff) <? n then Fault OutOfBounds
  else Ok (n, fun f => if String.eqb f filename then Some (concat (encode <$> take (Z.to_nat n) buff)) else fs f).
End bin_data.

(** ** What the files hold *)

Section files.
Context {T : Type} `{ElemLaws T}.

(** C30. With enough memory a block of elements is read back from any offset of the file
    the array was written to, exactly when the file has so many; reading the whole
    file gives the array; a file that was never written aborts. *)
Theorem bin_files_roundtrip fs f g (l : list T) :
  Forall elem_ok l -> Z.of_nat (length l) * Z.of_nat esize < 9223372036854775808 -> g <> f -> fs g = None ->
  exists fs', save_bin true fs f l (Z.of_nat (length l)) = Ok (Z.of_nat (length l), fs') /\
    load_bin_all fs' f None = Ok (Z.of_nat (length l), Some (Some <$> l)) /\
    (forall off n, 0 <= off -> 0 < n -> off * Z.of_nat esize < 9223372036854775808 ->
      n * Z.of_nat esize < 9223372036854775808 ->
      load_bin fs' f None off n =
        if off + n <=? Z.of_nat (length l) then Ok (n, Some (Some <$> take (Z.to_nat n) (drop (Z.to_nat off) l)))
        else Fault CheckFailed) /\
    load_bin_all fs' g None = Fault CheckFailed.
Proof.
  intros Hok Hl Hg Hng.
  destruct (save_load fs f l Hok Hl) as (fs' & Hs & Ha). exists fs'.
  assert (fs' f = Some (concat (encode <$> l)) /\ fs' g = None) as [Hf Hf'].
  { unfold SparseMatrix.save_bin in Hs. rewrite Z.ltb_irrefl in Hs. injection Hs as <-.
    rewrite String.eqb_refl, Nat2Z.id, take_ge by lia. split; [done|]. by rewrite (proj2 (String.eqb_neq g f)). }
  split; [exact Hs|]. split.
  { unfold load_bin_all, bin_length. rewrite Hf. cbn [mbind res_bind].
    unfold SparseMatrix.load_bin_all, SparseMatrix.bin_length in Ha. by rewrite Hf in Ha. }
  split; [|unfold load_bin_all, bin_length; by rewrite Hf'].
  intros off n Hoff Hn Hbo Hbn.
  pose proof (load_bin_reads fs' f l off n Hf Hok Hoff ltac:(lia) Hbo Hbn) as Hr.
  by rewrite (proj2 (Z.eqb_neq n 0)) in Hr by lia.
Qed.
End files.

(** Three numbers, and a file of another name. *)
#[local] Existing Instance u64_elem.
#[local] Existing Instance u64_laws.
Lemma bin_files_roundtrip_witness :
  exists fs', save_bin true (fun _ => None) "a" [5; 6; 7] 3 = Ok (3, fs') /\
    load_bin fs' "a" None 1 2 = Ok (2, Some [Some 6; Some 7]) /\ load_bin fs' "a" None 2 2 = Fault CheckFailed /\
    load_bin_all fs' "b" None = Fault CheckFailed.
Proof.
  destruct (bin_files_roundtrip (fun _ => None) "a" "b" [5; 6; 7]) as (fs' & Hs & _ & Hb & Hm);
    [repeat constructor; simpl; lia|simpl; lia|discriminate|reflexivity|].
  exists fs'. split; [exact Hs|]. split; [apply (Hb 1 2); simpl; lia|]. split; [apply (Hb 2 2); simpl; lia|exact Hm].
Defined.
