(* ===== verification/Pagarank.v ===== *)
(** The pagarank program, an earlier copy of the pagerank program that was never
    finished: apps/pagarank/pagerank.cpp with pagerank.h; its data are in PagarankData.v. The
    text does not compile; it is read with its slips put right: the constructor of [SMP]
    is written GSMP, [Read] lacks its scope operator, a parameter list lacks a comma,
    getters are extracted into, [In] lacks its const, a local name is used twice, and
    out_files is dereferenced after it was indexed. [SMP::Write] is called and is
    nowhere: it is a parameter. *)
From S2P Require Import Prelude Common Stream Double SparseMatrix Pagerank PagarankData.
From stdpp Require Import pretty strings.
#[global] Open Scope Z_scope.

(** ** Flags and files *)

Record Flags := mkFlags {
  FLAGS_data_input : string;
  FLAGS_data_output : string;
  FLAGS_data_part_num : Z;
  FLAGS_grid_row_num : Z;
  FLAGS_grid_col_num : Z;
  FLAGS_my_row_rank : Z;
  FLAGS_my_col_rank : Z
}.

Definition part_file (fl : Flags) (i : Z) : string := FLAGS_data_input fl +:+ print_03d i.

(** [in >> tmp]: a failed extraction stores 0, but where the stream has ended, or has
    failed before, [tmp] keeps what it held; [None]: nothing was ever stored. *)
Definition extract_into (tmp : option Z) (s : option string) : option Z * option string :=
  match s with
  | None => (tmp, None)
  | Some s =>
      match skip_space s with
      | EmptyString => (tmp, None)
      | _ => let '(v, rest) := extract_u64 s in (Some v, rest)
      end
  end.

(** The fourth number of the file, as far as there are four. *)
Definition last_column (fs : Files) (name : string) : option Z :=
  let s := String.string_of_list_byte <$> fs (name +:+ ".range") in
  let '(tmp, s) := extract_into None s in
  let '(tmp, s) := extract_into tmp s in
  let '(tmp, s) := extract_into tmp s in
  fst (extract_into tmp s).

Definition AssignData (fs : Files) (fl : Flags) : res (list (list string) * list Range) :=
  let files := part_file fl <$> seqZ 0 (FLAGS_data_part_num fl) in
  parts ← Linspace int_t 0 (FLAGS_data_part_num fl) (FLAGS_grid_row_num fl);
  node_files ← foldM (fun i nf => names ← row_files files parts i; Ok (nf ++ [names]))
                     (seqZ 0 (FLAGS_grid_row_num fl)) [];
  first ← vec_at files 0;
  tmp ← match last_column fs first with Some tmp => Ok tmp | None => Fault Uninitialised end;
  cols ← Linspace size_t 0 tmp (FLAGS_grid_col_num fl);
  col_blocks ← foldM (fun i cb =>
    lo ← vec_at cols i;
    hi ← vec_at cols (i + 1);
    Ok (cb ++ [mkRange lo hi])) (seqZ 0 (FLAGS_grid_col_num fl)) [];
  Ok (node_files, col_blocks).

(** ** Matrices *)

Record SMP := mkSMP {
  row : Range;
  col : Range;
  row_num : option Z;
  col_num : option Z;
  nnz : option Z;
  row_os : option (arr Z);
  col_ix : option (arr Z)
}.

Definition SMP_ctor : SMP := mkSMP Range_ctor Range_ctor None None None None None.

(** [Read], of the 64-bit instance, the one used. *)
Definition Read (fs : Files) (name : string) (m : SMP) : res SMP :=
  '(nrows, row_os) ← load_bin_all (H := u64_elem) fs (name +:+ ".rowcnt") (row_os m);
  '(nnz, col_ix) ← load_bin_all (H := u64_elem) fs (name +:+ ".colidx") (col_ix m);
  match fs (name +:+ ".range") with
  | None => Fault CheckFailed
  | Some bytes =>
      match extract_u64s 4 (Some (String.string_of_list_byte bytes)) with
      | [r0; r1; c0; c1] =>
          let row := mkRange r0 r1 in
          let col := mkRange c0 c1 in
          CHECK (Valid row);;
          CHECK (Valid col);;
          CHECK (wrap_u64 (nrows - 1) =? PagarankData.Size row);;
          Ok (mkSMP row col (Some (PagarankData.Size row)) (Some (PagarankData.Size col)) (Some nnz) row_os col_ix)
      | _ => Fault CheckFailed
      end
  end.

(** ** The slice *)

Definition arrays : Type := option (arr Z) * option (arr Z).
Definition field (z : option Z) : res Z := match z with Some z => Ok z | None => Fault Uninitialised end.

(** One entry of row [i]: [Y->col_ix[Y->row_os[i+1]++] = c - col.start()]. *)
Definition slice_entry (X : SMP) (col : Range) (i j : Z) (Y : arrays) : res arrays :=
  let '(Yos, Yix) := Y in
  c ← rd (col_ix X) j;
  if PagarankData.In col c then
    o ← rd Yos (i + 1);
    Yos ← wr Yos (i + 1) ((o + 1) mod 4294967296);
    Yix ← wr Yix o (wrap_u64 (c - start_ col) mod 4294967296);
    Ok (Yos, Yix)
  else Ok (Yos, Yix).

Definition slice_row (X : SMP) (col : Range) (i : Z) (Y : arrays) : res arrays :=
  let '(Yos, Yix) := Y in
  lo ← rd (row_os X) i;
  Yos ← wr Yos (i + 1) (lo mod 4294967296);
  hi ← rd (row_os X) (i + 1);
  foldM (slice_entry X col i) (seqZ lo (hi - lo)) (Yos, Yix).

Definition Slice (X : SMP) (c : Range) (Y : SMP) : res SMP :=
  CHECK (range_eq (Limit (col X) c) c);;
  first ← rd (row_os X) 0;
  CHECK (start_ (row X) <=? first);;
  n ← field (row_num X);
  Yos ← new_arr 4 (wrap_u64 (n + 5));
  Yos ← wr (Some Yos) 0 0;
  entries ← field (nnz X);
  Yix ← new_arr 4 entries;
  '(Yos, Yix) ← foldM (slice_row X c) (seqZ 0 n) (Yos, Some Yix);
  Ok (mkSMP (row X) c (row_num Y) (col_num Y) (nnz Y) Yos Yix).

(** ** Preprocessing *)

Definition out_file (fl : Flags) (i : Z) : string :=
  FLAGS_data_output fl +:+ "_" +:+ pretty (FLAGS_my_row_rank fl) +:+ "_" +:+ pretty (FLAGS_my_col_rank fl) +:+ "_" +:+ pretty i.

Section program.
Context (Write : SMP -> string -> Files -> res Files).

Definition convert (fl : Flags) (col_blocks : list Range) (io : string * string) (fs : Files) : res Files :=
  X ← Read fs io.1 SMP_ctor;
  c ← vec_at (A := Range) col_blocks (FLAGS_my_col_rank fl);
  Y ← Slice X c SMP_ctor;
  Write Y io.2 fs.

(** The names of the outputs, and the files afterwards. *)
Definition PreprocessData (fs : Files) (fl : Flags) (node_files : list (list string)) (col_blocks : list Range)
    : res (list string * Files) :=
  in_files ← vec_at (A := list string) node_files (FLAGS_my_row_rank fl);
  let out_files := out_file fl <$> seqZ 0 (Z.of_nat (length in_files)) in
  let cached := foldl (fun cached f => match fs f with Some _ => false | None => cached end) true out_files in
  if cached then Ok (out_files, fs)
  else
    fs ← foldM (convert fl col_blocks) (zip in_files out_files) fs;
    Ok (out_files, fs).

Definition main (fs : Files) (fl : Flags) : res (list string * Files) :=
  '(node_files, col_blocks) ← AssignData fs fl;
  PreprocessData fs fl node_files col_blocks.
End program.
