(* ===== verification/PagarankProps.v ===== *)
(** The pagarank program: what its slice of a matrix holds, and when that is the
    slice. *)
From S2P Require Import Prelude Common Stream Double SparseMatrix SparseMatrixProps Pagerank PagarankData Pagarank.
From stdpp Require Import pretty strings.
#[global] Open Scope Z_scope.

(** Rows of columns; there are no values. *)
Notation mrow := (list (Z * unit)).

(** [X] holds the rows [rs]. *)
Record csr (X : SMP) (rs : list mrow) : Prop := {
  csr_rows : row_num X = Some (Z.of_nat (length rs));
  csr_nnz : Pagarank.nnz X = Some (Z.of_nat (length (concat rs)));
  csr_offsets : row_os X = Some (Some <$> offsets rs);
  csr_columns : col_ix X = Some (Some <$> (concat rs).*1)
}.

Section slice.
Context (X : SMP) (rs : list mrow) (c : Range) (HX : csr X rs).
Context (Hsmall : Z.of_nat (length (concat rs)) < 4294967296).
Notation kept := (SparseMatrixProps.slice 32 c).
Notation kept1 := (SparseMatrixProps.slice1 32 c).

Lemma length_kept (r : mrow) : (length (kept r) <= length r)%nat.
Proof.
  clear. induction r as [|e r IH] using rev_ind; [done|]. rewrite slice_snoc, !length_app. simpl.
  unfold slice1. case_match; simpl; lia.
Qed.

Lemma wr_at (a : arr Z) i v : (i < length a)%nat -> wr (Some a) (Z.of_nat i) v = Ok (Some (<[i := Some v]> a)).
Proof. intros Hi. unfold wr. rewrite Nat2Z.id. by rewrite (proj2 (Nat.ltb_lt _ _)). Qed.

Lemma rd_here (a : arr Z) i v : a !! i = Some (Some v) -> rd (Some a) (Z.of_nat i) = Ok v.
Proof. intros Ha. unfold rd. by rewrite Nat2Z.id, Ha. Qed.

Lemma rd_start i : (i <= length rs)%nat -> rd (row_os X) (Z.of_nat i) = Ok (offset_at rs i).
Proof.
  intros Hi. destruct HX as [_ _ -> _]. rewrite <- (app_nil_r (Some <$> offsets rs)). apply rd_at; [lia|].
  rewrite Nat2Z.id. by apply offsets_lookup.
Qed.

Lemma rd_column j e : concat rs !! j = Some e -> rd (col_ix X) (Z.of_nat j) = Ok e.1.
Proof.
  intros He. destruct HX as [_ _ _ ->]. rewrite <- (app_nil_r (Some <$> (concat rs).*1)). apply rd_at; [lia|].
  by rewrite Nat2Z.id, list_lookup_fmap, He.
Qed.

(** Where row [i] starts, as a position. *)
Notation at_ i := (length (concat (take i rs))).

(** The kept entries [done] of row [i] are written, counted behind its start, and
    what was before the start is as in [os0] and [ix0]. *)
Record row_written (i : nat) (os0 ix0 : arr Z) (done : mrow) (Y : arrays) : Prop := {
  rw_os : exists os, fst Y = Some os /\ length os = length os0 /\ os !! S i = Some (Some (Z.of_nat (at_ i + length done))) /\
    forall k, (k <= i)%nat -> os !! k = os0 !! k;
  rw_ix : exists ix, snd Y = Some ix /\ length ix = length ix0 /\
    (forall k e, done !! k = Some e -> ix !! (at_ i + k)%nat = Some (Some e.1)) /\
    forall k, (k < at_ i)%nat -> ix !! k = ix0 !! k
}.

Lemma entry_step i os0 ix0 done Y j e :
  row_written i os0 ix0 done Y -> concat rs !! j = Some e -> (at_ i + length done <= j)%nat ->
  length ix0 = length (concat rs) ->
  exists Y', Pagarank.slice_entry X c (Z.of_nat i) (Z.of_nat j) Y = Ok Y' /\ row_written i os0 ix0 (done ++ kept1 e) Y'.
Proof.
  intros [(os & Hos & Hlo & Hat & Hbef) (ix & Hix & Hli & Hent & Hpre)] He Hj Hlen.
  destruct Y as [Yos Yix]. simpl in Hos, Hix. subst Yos Yix. pose proof (lookup_lt_Some _ _ _ He) as Hlt.
  unfold Pagarank.slice_entry. rewrite (rd_column _ _ He). cbn [mbind res_bind]. unfold slice1.
  change (SparseMatrix.In c e.1) with (PagarankData.In c e.1). destruct (PagarankData.In c e.1).
  2: { eexists. split; [done|]. rewrite app_nil_r. split; eexists; split_and!; done. }
  replace (Z.of_nat i + 1) with (Z.of_nat (S i)) by lia. rewrite (rd_here _ _ _ Hat). cbn [mbind res_bind].
  rewrite (wr_at os) by (apply (lookup_lt_Some os _ _ Hat)). cbn [mbind res_bind]. rewrite (wr_at ix) by lia. cbn [mbind res_bind].
  eexists. split; [done|]. split; eexists; (split; [done|]); rewrite length_insert; (split; [done|]).
  - split; [rewrite list_lookup_insert_eq by (apply (lookup_lt_Some os _ _ Hat)); rewrite length_app; simpl; do 2 f_equal; rewrite Z.mod_small by lia; lia|].
    intros k Hk. rewrite list_lookup_insert_ne by lia. by apply Hbef.
  - split.
    + intros k e' Hk. apply lookup_snoc_Some in Hk as [[Hk Hd]|[-> <-]].
      * rewrite list_lookup_insert_ne by lia. by apply Hent.
      * rewrite list_lookup_insert_eq by lia. done.
    + intros k Hk. rewrite list_lookup_insert_ne by lia. by apply Hpre.
Qed.

(** After [i] rows: each row's end is its start in [X] and the number of its kept
    entries, which lie from that start on. *)
Record rows_written (i : nat) (Y : arrays) : Prop := {
  rws_os : exists os, fst Y = Some os /\ length os = (length rs + 5)%nat /\ os !! O = Some (Some 0) /\
    forall k r, (k < i)%nat -> rs !! k = Some r -> os !! S k = Some (Some (Z.of_nat (at_ k + length (kept r))));
  rws_ix : exists ix, snd Y = Some ix /\ length ix = length (concat rs) /\
    forall k r x e, (k < i)%nat -> rs !! k = Some r -> kept r !! x = Some e -> ix !! (at_ k + x)%nat = Some (Some e.1)
}.

Lemma at_mono k i r : (k < i)%nat -> rs !! k = Some r -> (at_ k + length r <= at_ i)%nat.
Proof.
  intros Hk Hr. pose proof (concat_take_S rs k r Hr) as H1. apply (f_equal length) in H1. rewrite length_app in H1.
  pose proof (offset_at_mono rs (S k) i ltac:(lia)) as H2. unfold offset_at in H2. lia.
Qed.

Lemma row_step i r Y :
  rs !! i = Some r -> rows_written i Y -> exists Y', Pagarank.slice_row X c (Z.of_nat i) Y = Ok Y' /\ rows_written (S i) Y'.
Proof.
  intros Hr [(os & Hos & Hlo & H0 & Hdone) (ix & Hix & Hli & Hent)]. destruct Y as [Yos Yix]. simpl in Hos, Hix. subst Yos Yix.
  pose proof (lookup_lt_Some _ _ _ Hr) as Hlt. pose proof (at_mono i (S i) r ltac:(lia) Hr) as Hend.
  pose proof (offset_at_bounds rs (S i)) as Hb. unfold offset_at in Hb.
  unfold Pagarank.slice_row. rewrite rd_start by lia. cbn [mbind res_bind].
  replace (Z.of_nat i + 1) with (Z.of_nat (S i)) by lia. rewrite wr_at by lia. cbn [mbind res_bind]. rewrite rd_start by lia. cbn [mbind res_bind].
  unfold offset_at. rewrite Z.mod_small by lia.
  replace (Z.of_nat (at_ (S i)) - Z.of_nat (at_ i)) with (Z.of_nat (length r)) by (rewrite (concat_take_S rs i r Hr), length_app; lia).
  destruct (foldM_ind (fun pre => row_written i os ix (kept (take (length pre) r))) (Pagarank.slice_entry X c (Z.of_nat i))
    (seqZ (Z.of_nat (at_ i)) (Z.of_nat (length r))) (Some (<[S i := Some (Z.of_nat (at_ i))]> os), Some ix)) as (Y' & -> & HY').
  { simpl. split; eexists; (split; [done|]); [rewrite length_insert|]; (split; [done|]).
    - rewrite list_lookup_insert_eq by lia. rewrite Nat.add_0_r. split; [done|]. intros k Hk. by rewrite list_lookup_insert_ne by lia.
    - done. }
  { intros pre x suf Y' Hseq HY'. apply seqZ_at in Hseq as [-> Hk]. destruct (lookup_lt_is_Some_2 r (length pre) ltac:(lia)) as [e He].
    destruct (entry_step i os ix _ Y' _ e HY' (concat_row_lookup rs i r (length pre) e Hr He)) as (Y2 & Hs & HY2); [|lia|].
    { pose proof (length_kept (take (length pre) r)) as Hle. rewrite length_take in Hle. lia. }
    rewrite <- Nat2Z.inj_add, Hs. eexists. split; [done|].
    by rewrite length_app, Nat.add_1_r, (take_S_r _ _ _ He), slice_snoc. }
  rewrite length_seqZ, Nat2Z.id, take_ge in HY' by lia. exists Y'. split; [done|].
  destruct HY' as [(os' & Hos' & Hlo' & Hat & Hbef) (ix' & Hix' & Hli' & Hent' & Hpre)].
  split; eexists; (split; [done|]); (split; [lia|]).
  - split; [rewrite Hbef by lia; done|]. intros k r' Hk Hr'. destruct (decide (k = i)) as [->|Hne]; [by simplify_eq|].
    rewrite Hbef by lia. apply Hdone; [lia|done].
  - intros k r' x e Hk Hr' Hx. destruct (decide (k = i)) as [->|Hne]; [simplify_eq; by apply Hent'|].
    pose proof (at_mono k i r' ltac:(lia) Hr'). pose proof (length_kept r'). apply lookup_lt_Some in Hx as Hxl.
    rewrite Hpre by lia. eapply Hent; [|done|done]. lia.
Qed.

Lemma Slice_runs Y :
  range_eq (Limit (Pagarank.col X) c) c = true -> start_ (row X) = 0 -> (Z.of_nat (length rs) + 5) * 4 < 9223372036854775808 ->
  exists Yos Yix, Slice X c Y = Ok (mkSMP (row X) c (row_num Y) (col_num Y) (Pagarank.nnz Y) Yos Yix) /\
    rows_written (length rs) (Yos, Yix).
Proof.
  intros Hc H0 Hfit. unfold Slice. rewrite Hc. cbn [CHECK mbind res_bind].
  pose proof (rd_start 0 ltac:(lia)) as Hf. change (Z.of_nat 0) with 0 in Hf. rewrite Hf. cbn [mbind res_bind].
  change (offset_at rs 0) with 0. rewrite H0. change (0 <=? 0) with true. cbn [CHECK mbind res_bind]. rewrite (csr_rows _ _ HX), (csr_nnz _ _ HX).
  cbn [field mbind res_bind]. rewrite wrap_u64_id, (new_arr_ok 4 (Z.of_nat (length rs) + 5)) by lia. cbn [mbind res_bind].
  assert (0 < length (replicate (Z.to_nat (Z.of_nat (length rs) + 5)) (@None Z)))%nat as Hpos by (rewrite length_replicate; lia).
  pose proof (wr_at _ O 0 Hpos) as Hw. change (Z.of_nat 0) with 0 in Hw. rewrite Hw. cbn [mbind res_bind].
  rewrite new_arr_ok by lia. cbn [mbind res_bind].
  destruct (foldM_ind (fun pre => rows_written (length pre)) (Pagarank.slice_row X c) (seqZ 0 (Z.of_nat (length rs)))
    (Some (<[O := Some 0]> (replicate (Z.to_nat (Z.of_nat (length rs) + 5)) None)),
     Some (replicate (Z.to_nat (Z.of_nat (length (concat rs)))) None))) as ([Yos Yix] & -> & HY).
  { split; eexists; (split; [done|]); rewrite ?length_insert, length_replicate; (split; [lia|]).
    - rewrite list_lookup_insert_eq by (rewrite length_replicate; lia). split; [done|]. intros. simpl in *. lia.
    - intros. simpl in *. lia. }
  { intros pre x suf Y' Hseq HY'. apply seqZ_at in Hseq as [-> Hk]. destruct (lookup_lt_is_Some_2 rs (length pre) ltac:(lia)) as [r Hr].
    rewrite Z.add_0_l. destruct (row_step _ r Y' Hr HY') as (Y2 & -> & HY2). eexists. split; [done|].
    by rewrite length_app, Nat.add_1_r. }
  cbn [mbind res_bind]. eexists _, _. split; [done|]. by rewrite length_seqZ, Nat2Z.id in HY.
Qed.
End slice.

(** ** The offsets of the slice *)

Section compare.
Context (rs : list mrow) (cut : mrow -> mrow) (Hcut : forall r, (length (cut r) <= length r)%nat).

Lemma offset_S (l : list mrow) i r : l !! i = Some r -> offset_at l (S i) = offset_at l i + Z.of_nat (length r).
Proof. intros Hr. unfold offset_at. rewrite (concat_take_S l i r Hr), length_app. lia. Qed.

Lemma offsets_agree :
  (forall i r, rs !! i = Some r -> offset_at rs i = offset_at (cut <$> rs) i) <->
  (forall i r, rs !! i = Some r -> (S i < length rs)%nat -> length (cut r) = length r).
Proof.
  split; intros H i r Hr.
  - intros Hi. destruct (lookup_lt_is_Some_2 rs (S i) Hi) as [r' Hr'].
    pose proof (H i r Hr) as H1. pose proof (H (S i) r' Hr') as H2.
    rewrite (offset_S rs i r Hr), (offset_S (cut <$> rs) i (cut r)) in H2 by (by rewrite list_lookup_fmap, Hr). lia.
  - revert r Hr. induction i as [|i IH]; intros r Hr; [done|]. apply lookup_lt_Some in Hr as Hi.
    destruct (lookup_lt_is_Some_2 rs i ltac:(lia)) as [r' Hr'].
    rewrite (offset_S rs i r' Hr'), (offset_S (cut <$> rs) i (cut r')) by (by rewrite list_lookup_fmap, Hr').
    rewrite (IH r' Hr'), (H i r' Hr' Hi). lia.
Qed.
End compare.

(** C31. The slice is compact by accident only. On a matrix with the rows [rs], none
    before it, slicing succeeds: the kept entries of each row lie at the row's start in
    the source, not behind the kept entries of the row before, since a row's end is
    started from the source's offset. So the offsets are those of the slice, as a reader
    of row-major matrices needs them, exactly when every row but the last is kept as a
    whole. *)
Theorem slice_not_compact X (rs : list mrow) c Y :
  csr X rs -> start_ (row X) = 0 -> Z.of_nat (length (concat rs)) < 4294967296 ->
  (Z.of_nat (length rs) + 5) * 4 < 9223372036854775808 ->
  0 <= start_ c -> end_ c < 18446744073709551616 -> end_ c - start_ c <= 4294967296 ->
  range_eq (Limit (Pagarank.col X) c) c = true ->
  exists Y', Slice X c Y = Ok Y' /\ Pagarank.col Y' = c /\ row Y' = row X /\
    (forall i r, rs !! i = Some r ->
      rd (row_os Y') (Z.of_nat i + 1) = Ok (offset_at rs i + Z.of_nat (length (slice_ref c r))) /\
      forall k e, slice_ref c r !! k = Some e -> rd (col_ix Y') (offset_at rs i + Z.of_nat k) = Ok e.1) /\
    ((forall i, (i <= length rs)%nat -> rd (row_os Y') (Z.of_nat i) = Ok (offset_at (slice_ref c <$> rs) i)) <->
     (forall i r, rs !! i = Some r -> (S i < length rs)%nat -> length (slice_ref c r) = length r)).
Proof.
  intros HX H0 Hsmall Hfit Hc0 Hc1 Hcw Hc.
  destruct (Slice_runs X rs c HX Hsmall Y Hc H0 Hfit) as (Yos & Yix & -> & [(os & Hos & Hlo & Hfirst & Hends) (ix & Hix & Hli & Hent)]).
  simpl in Hos, Hix. subst Yos Yix.
  assert (Hs : forall r : mrow, SparseMatrixProps.slice 32 c r = slice_ref c r) by (intros; apply slice_is_ref; simpl; lia).
  eexists. split; [done|]. split; [done|]. split; [done|]. cbn [row_os col_ix].
  assert (Hrd : forall i r, rs !! i = Some r -> rd (Some os) (Z.of_nat (S i)) = Ok (offset_at rs i + Z.of_nat (length (slice_ref c r)))).
  { intros i r Hr. rewrite (rd_here os (S i) _ (Hends i r (lookup_lt_Some _ _ _ Hr) Hr)), Hs. unfold offset_at. f_equal. lia. }
  split.
  - intros i r Hr. replace (Z.of_nat i + 1) with (Z.of_nat (S i)) by lia. split; [by apply Hrd|].
    intros k e Hk. unfold offset_at. rewrite <- Nat2Z.inj_add. apply rd_here.
    apply (Hent i r); [exact (lookup_lt_Some _ _ _ Hr)|done|]. by rewrite Hs.
  - rewrite <- offsets_agree by (intros r; rewrite <- Hs; apply length_kept).
    assert (Hcutat : forall i r, rs !! i = Some r ->
      offset_at (slice_ref c <$> rs) (S i) = offset_at (slice_ref c <$> rs) i + Z.of_nat (length (slice_ref c r)))
      by (intros i r Hr; apply offset_S; by rewrite list_lookup_fmap, Hr).
    split; intros H.
    + intros i r Hr. pose proof (H (S i) (lookup_lt_Some _ _ _ Hr)) as Hi. rewrite (Hrd i r Hr), (Hcutat i r Hr) in Hi.
      injection Hi. lia.
    + intros [|i] Hi; [by apply (rd_here os 0)|]. destruct (lookup_lt_is_Some_2 rs i Hi) as [r Hr].
      by rewrite (Hrd i r Hr), (Hcutat i r Hr), (H i r Hr).
Qed.

(** ** Preprocessing *)

(** The check for the outputs is inverted: on the first run, when none is there, nothing
    is converted, and the program ends with the names of files that do not exist. *)
Lemma first_run_converts_nothing Write fs fl node_files col_blocks in_files :
  AssignData fs fl = Ok (node_files, col_blocks) -> vec_at node_files (FLAGS_my_row_rank fl) = Ok in_files ->
  (forall i, fs (out_file fl i) = None) ->
  exists outs, main Write fs fl = Ok (outs, fs) /\ length outs = length in_files /\ Forall (fun f => fs f = None) outs.
Proof.
  intros Ha Hin Hnone. unfold main. rewrite Ha. cbn [mbind res_bind]. unfold PreprocessData. rewrite Hin. cbn [mbind res_bind].
  set (outs := out_file fl <$> seqZ 0 (Z.of_nat (length in_files))).
  assert (Hall : Forall (fun f => fs f = None) outs) by (apply Forall_fmap, Forall_forall; intros; apply Hnone).
  assert (foldl (fun cached f => match fs f with Some _ => false | None => cached end) true outs = true) as ->.
  { induction Hall as [|f l Hf _ IH]; [done|]. cbn [foldl]. by rewrite Hf. }
  exists outs. split; [done|]. split; [|done]. unfold outs. by rewrite length_fmap, length_seqZ, Nat2Z.id.
Qed.

(** ** Witness *)

(** Two rows, of which the first loses an entry. *)
Definition demo_rows : list mrow := [[(0, tt); (2, tt)]; [(0, tt)]].
Definition demo_SMP : SMP :=
  mkSMP (mkRange 0 2) (mkRange 0 3) (Some 2) (Some 3) (Some 3) (Some (Some <$> [0; 2; 3])) (Some (Some <$> [0; 2; 0])).

Lemma slice_not_compact_witness :
  exists Y', Slice demo_SMP (mkRange 0 2) SMP_ctor = Ok Y' /\ rd (row_os Y') 1 = Ok 1 /\ rd (row_os Y') 2 = Ok 3 /\
    ~ forall i, (i <= 2)%nat -> rd (row_os Y') (Z.of_nat i) = Ok (offset_at (slice_ref (mkRange 0 2) <$> demo_rows) i).
Proof.
  destruct (slice_not_compact demo_SMP demo_rows (mkRange 0 2) SMP_ctor) as (Y' & Hs & _ & _ & Hr & Hiff);
    [split; reflexivity|reflexivity|simpl; lia..|reflexivity|].
  exists Y'. split; [exact Hs|]. split; [exact (proj1 (Hr 0%nat _ eq_refl))|]. split; [exact (proj1 (Hr 1%nat _ eq_refl))|].
  intros H. pose proof (proj1 Hiff H 0%nat _ eq_refl ltac:(simpl; lia)) as Hl. vm_compute in Hl. discriminate.
Defined.
